(* ===== verification/_CoqProject ===== *)
-Q . S2P
Prelude.v
Steps.v
GoStrings.v
GoBytes.v
IoReader.v
NetConn.v
NetAddr.v
ConfigTypes.v
Config.v
EncryptedConn.v
TlsFragment.v
Target.v
Sessions.v
ClientPool.v
PoolWorker.v
Failover.v
Routing.v
TlsDial.v
Mimic.v
BufConn.v
Upgrade.v
Compression.v
Standby.v
Dns.v
DnsProxy.v
Relay.v
Duplex.v
Forward.v
PoolLife.v
UdpPeers.v
UdpFlow.v
Dashboard.v
Uptime.v
StatsLog.v
StatsApi.v
Monitors.v
Panel.v
Startup.v
ServerLife.v
ClientLife.v
