(* ===== verification/Prelude.v ===== *)
(** * TunnelR (PicoTun): a verification library

    TunnelR tunnels TCP and UDP through connections that look like web traffic.  A client
    dials a server, performs an HTTP upgrade that passes for a WebSocket, encrypts and
    pads every packet, and multiplexes streams over the result with the smux library;
    a server that is asked to listen opens streams towards the client, which dials the
    target.  This library models the Go program under [src/] and proves what its parts
    promise each other.

    ** Parts and files

    - [Prelude] (this file): Go outcomes (values and panics), errors, machine integers,
      record updates, hint databases [go] and [golist], shared lemmas.
    - [Steps]: runs of step relations: invariants, and bounds from a rank that falls; who
      owns what has been made and is not closed.
    - [IoReader], [NetConn]: two interfaces.  [ByteSource] says that a reader delivers a given
      text to reads of any sizes; [IoWriter] and [NetConn] are the methods of a connection
      the wrappers use, with library calls on them as programs of writes ([wprog]).
    - [GoStrings], [GoBytes]: the functions of [strings], [encoding/binary] and [io] the
      program calls; byte streams ([stream]) and outbound connections ([sink]).
    - [NetAddr]: [parseAddr] (client.go) and [SplitMap] (utils.go), over models of
      [net.SplitHostPort], [net.JoinHostPort] and [net.ParseIP].
    - [ConfigTypes], [Config]: the structs of config.go and obfuscation.go, [LoadConfig]
      with all its passes, [Validate], and [buildSmuxConfig] (server.go).
    - [EncryptedConn]: encrypted_conn.go: [addPaddingBuf], [removePadding], [Write], [Read],
      [Close].
    - [Compression]: compression.go: [CompressedConn] over any [NetConn], and the layer smux
      gets in [upgrade], [connectAndServe] and [dialSession].
    - [TlsFragment]: tls_fragment.go, tls_fragment_linux.go: [FragmentedConn.Write],
      [DialFragmented], and the raw dialer as a trace of system calls.
    - [TlsDial]: [dialFragmentedTLS] (client.go) over a fragmented connection.
    - [Target]: [sendTarget], [splitTarget] and the stream handlers (server.go, client.go).
    - [Sessions]: the server's session table: [setSession], [clearSession], [openStream],
      [cleanupSessions] (server.go).
    - [ClientPool]: the client's pool: [OpenStream], [sessionHealthCheck], and the frame
      level of [adjustFrameLevel] (client.go).
    - [PoolWorker]: [bestPath], [latencyProber], [poolWorker], [connectAndServe],
      [dialSession], [setTCPOptions] (client.go).  [Failover]: whole runs of a failing worker.
      [Routing]: [NewClient], and the prober and the workers on the latencies they share.
    - [PoolLife]: the pool under its workers, the standby manager and the health check.
    - [Mimic]: mimic.go and the HTTP side of server.go: the client's request, routing,
      [validate], decoys, the response.
    - [BufConn]: [bufferedConn] and [readerPool] (mimic.go): who holds which reader, with
      [Reset], [Put] and [c.r = nil] as actions of their own.
    - [Upgrade]: [Server.upgrade], from [Hijack] to the end of the session, with others at
      the session table.  [Duplex]: the two ends of the tunnel, reading and writing at the
      same time.
    - [Standby]: [standbyManager] and its channel (client.go).
    - [Dns]: the cache and [handleQuery] (dns.go).  [DnsProxy]: the proxy around them, one
      goroutine per query.
    - [Relay]: [relay], [MeasuredReader] (server.go) and the counters of stats.go.
      [StatsLog]: snapshots taken during traffic, the log line, the traffic monitor.
    - [Forward]: a forwarded connection end to end: the server's relay, the stream, and the
      client's relay.
    - [UdpPeers]: the peer table of [startReverseUDP] (server.go).  [UdpFlow]: its read loop,
      reply goroutines and ticker.
    - [Dashboard]: access, the configuration editor and the monitors of dashboard.go.
      [StatsApi]: the object [handleAPIStats] encodes and what the page reads of it.
      [Monitors]: [dashState] and the loops that write to it.  [Uptime]: [getSystemUptime].
      [Panel]: the log stream, restart, the static page, and what a request may change.
    - [Startup]: what [main] (main.go), [Server.Start] (listeners and routes) and
      [Client.Start] start.
    - [ServerLife], [ClientLife]: the goroutines they start, to the return of [Start]; the
      end of [main].

    A definition has the name of the Go function or type it translates where there is one;
    its comment says so otherwise.  A struct is a [Record], a method a function that takes
    and returns it.

    ** Conventions

    - A Go panic is a value ([outcome]): [Done] in a theorem says that a call does not
      panic.  Errors are values ([error], [result]).
    - [int] and [int64] are [Z] with [wrap64] where the code computes; conversions to
      unsigned types are [u16], [u32], [u64].  Times and durations are [Z] nanoseconds
      (seconds in [UdpPeers], as there).
    - Writes can wait.  A [Write] of a relay passes its bytes on piece by piece, and blocks
      while the peer does not read ([rwc_Write] is then [None]); [drains] says that it does
      not stop reading for good, and [stalled] that a session has stopped for good.
    - Descriptors are numbers the kernel reuses: [TlsFragment.owned] follows the set of those
      a call has opened and not closed.
    - Code that is not under [src/] is a parameter: the AEAD ([EncryptedConn.Crypto], with
      the laws of [CryptoLaws]), YAML ([LoadConfig]'s argument), lower-casing of text that
      is not ASCII ([UnicodeTables]), unusual URLs ([Mimic.UrlTables]), smux (its sessions
      are identities, its methods arguments), the connections of a relay
      ([Relay.ReadWriteCloser], with the laws of [RWCLaws]), the two ends of a smux stream
      between two relays ([Forward.StreamPair], with the laws of [StreamLaws]), the snappy codec
      ([Compression.Snappy], with the laws of [SnappyLaws]), the uTLS handshake, and what the
      network returns.  The laws have an instance each ([toy_crypto], [duplex],
      [pipe], [toy_snappy]), on which the theorems run.  [ParseFloat] beyond plain decimals
      is a parameter of [Uptime].
    - Goroutines that share state are interleaved by step relations, one step per critical
      section or atomic operation: [Sessions], [ClientPool] (the frame level), [BufConn],
      [Standby], [PoolLife], [Routing], [Duplex], [Relay], [Forward], [UdpFlow], [DnsProxy],
      [ServerLife], [ClientLife], [Upgrade] (the session table).  [OpenStream] gets as an
      argument what other calls add to its index, and what becomes of the sessions, between
      its rounds ([ClientPool.round]); a snapshot, what is added between its loads.  State that is only touched under one lock is updated by
      functions.  Go's map iteration order and random choices are arguments.

    ** What the theorems show

    - The tunnel: reads on an encrypted connection are reads on the queue of the messages
      written at the other end, whatever the padding, nonces and buffer sizes
      ([conn_refines_queue], [conn_delivers_all], [padding_roundtrip]), and this holds from
      a server that has upgraded an HTTP request to the client whose handshake has read
      the response ([tunnel_end_to_end]), in both directions at once ([tunnel_duplex]), and
      through the compression layer of both ends ([compressed_tunnel]).  [Read_panics_iff] says when [Read] panics.
    - Getting through: a request the client makes is routed to the tunnel and accepted
      ([handshake_accepted]); [tunnel_routes], [slashless_path_rejects_all] and
      [rand_inside_segment_unreachable] say which fake paths do not work; the first large
      write of a fragmented connection is split and nothing else changes
      ([fragment_first_write_only]), so a TLS ClientHello is cut once, within the configured
      bounds ([tls_hello_fragmented]); the raw dialer uses only descriptors of its own and
      keeps only the one it returns ([dialRawTCP_descriptors]; but [socket_closed_twice]).
    - Sessions: the server's table is consistent in every interleaving
      ([session_table_invariant]), [openStream] and the cleanup do what they should in every
      iteration order, and an upgrade registers its session or closes its connection
      ([upgrade_registers_or_closes]).  On the client, [connectAndServe_releases],
      [OpenStream_round_robin] (and [OpenStream_misses]: a call among others can fail with a
      working session in the pool), [adjustFrameLevel_linearizable], [standby_sessions_owned],
      [readers_exclusive], [latency_routing], [failover_alternates], and
      [failover_reaches_best]: a failing worker gets to the recommended path.  The pool is
      what the workers serve, and is recycled oldest first ([pool_consistent],
      [recycling_oldest_first]); routing stays within its slices ([routing_in_range]).
    - Shutdown: after cancellation every run of the server ends with [Start] returned
      ([server_stops], [server_start_contract]); a run of the client ends so, or in a crash on
      a failed handshake, or in a wait for a peer: one that does not answer a handshake, or
      that keeps a standby session alive ([client_stops], [standby_outlives_context]); [main]
      does not wait for either ([main_does_not_wait]).
    - Streams: a target sent is the target dialled ([reverse_tcp_end_to_end],
      [long_target_misread]); a relay ends when one side does, unless it waits in a [Write]
      for a peer that has stopped reading ([relay_ends], [relay_write_blocks]), and says what
      it has delivered and counted ([relay_delivers]); so do the two relays of a forwarded
      connection with the stream between them, but for one deadlock ([forward_ends],
      [forward_deadlock], [forward_delivers], [forward_cut_short]); UDP peers keep their streams and get their own replies only
      ([udp_peer_keeps_stream], [udp_peers_isolated], [udp_boundaries_lost]); DNS
      queries reach the upstream, finish, and get a genuine answer under their own
      transaction id ([dns_query_arrives], [dns_query_finishes], [dns_replies_genuine]).
    - Configuration: what [LoadConfig] returns is well-formed, idempotent, keeps its
      profile's promises and starts, but for the fake paths on which [Start] panics
      ([LoadConfig_wellformed], [finalize_idempotent], [LoadConfig_profile], [main_starts],
      [root_path_panics]); maps become listeners ([maps_to_listeners]); the
      smux settings follow ([buildSmuxConfig_spec]).
    - Dashboard and statistics: who gets in and what a request may change
      ([dashboard_auth_spec], [dashboard_effects], [config_api_roundtrip]); the page finds
      every field it reads ([api_stats_typed]) and every log line ([logs_roundtrip]);
      snapshots, log lines and speeds are right although the counters move while they are
      read ([snapshot_between], [traffic_figures], [monitors_independent]);
      [humanBytes_spec], [cpu_load_bounded], [uptime_whole_seconds].

    ** Fuel

    - [split_fuel] and [strip_fuel] ([GoStrings]) get the length of the string, enough
      because every round removes a character ([split_fuel_enough], [Split_cut]);
      [read_header] and [fields_fuel] likewise.
    - [human_loop] gets 6, more than the rounds an [int64] takes ([humanBytes_spec] shows
      that it returns).
    - The loops of [OpenStream] and of the map iterations recurse on their lists.  The step
      relations have no fuel: [relay_ends], [forward_ends], [dns_query_finishes],
      [server_stops] and [client_stops] bound their runs by a rank.
    - [scan_run] ([Routing]) gets the number of paths and two: a load per path, the start and
      the end ([scan_run_bestPath]).

    ** Not modelled

    The inside of the libraries (smux, snappy, uTLS, net/http); what [strconv.ParseFloat]
    makes of texts other than plain decimals; the HTML of the pages and the rest of their
    script; verbose logging; the non-Linux stub of the raw dialer, which always fails. *)

From stdpp Require Export base tactics numbers list option strings gmap.
From Stdlib Require Export ZArith Lia.
From Stdlib Require Import Init.Byte Strings.Byte.

#[global] Open Scope Z_scope.

(** ** Go outcomes

    A Go call either returns or panics.  [outcome A] keeps the two apart, so a
    theorem that says [Done _] says that the call does not panic. *)

(** The run-time panics the modelled code can raise. *)
Inductive panic :=
| SliceOutOfRange
| IndexOutOfRange
| NilDereference
| DivideByZero
| BadRoute.

Inductive outcome (A : Type) :=
| Done (a : A)
| Panic (p : panic).
Arguments Done {A} _.
Arguments Panic {A} _.

(** Go error values.  [Errorf] keeps the format and the arguments of
    [fmt.Errorf], so a wrapped error ([%w]) is an [ArgErr] argument.  [Extern]
    is an error that the operating system, the network or a library made. *)
Inductive error :=
| EOF
| UnexpectedEOF
| Extern (code : Z)
| Errorf (format : string) (args : list errarg)
with errarg :=
| ArgStr (s : string)
| ArgInt (z : Z)
| ArgErr (e : error).

(** [(value, error)] results whose value is meaningless when the error is set. *)
Inductive result (A : Type) :=
| Ok (a : A)
| Err (e : error).
Arguments Ok {A} _.
Arguments Err {A} _.

#[export] Instance outcome_ret : MRet outcome := fun A a => Done a.
#[export] Instance outcome_bind : MBind outcome := fun A B f m =>
  match m with Done a => f a | Panic p => Panic p end.
#[export] Instance result_ret : MRet result := fun A a => Ok a.
#[export] Instance result_bind : MBind result := fun A B f m =>
  match m with Ok a => f a | Err e => Err e end.

Definition is_done {A} (m : outcome A) : bool :=
  match m with Done _ => true | Panic _ => false end.
Definition is_ok {A} (m : result A) : bool :=
  match m with Ok _ => true | Err _ => false end.

(** ** Machine integers

    Go's [int] and [int64] have 64 bits and wrap around; conversions to an
    unsigned type keep the low bits. *)
Definition wrap64 (z : Z) : Z := (z + 2 ^ 63) mod 2 ^ 64 - 2 ^ 63.
Definition wrap32 (z : Z) : Z := (z + 2 ^ 31) mod 2 ^ 32 - 2 ^ 31.
Definition u16 (z : Z) : Z := z mod 2 ^ 16.
Definition u32 (z : Z) : Z := z mod 2 ^ 32.
Definition u64 (z : Z) : Z := z mod 2 ^ 64.
Definition int64_range (z : Z) : Prop := - 2 ^ 63 <= z < 2 ^ 63.

(** [time.Duration] counts nanoseconds in an [int64]. *)
Definition Millisecond : Z := 1000000.
Definition Second : Z := 1000 * Millisecond.
Definition Minute : Z := 60 * Second.

(** The length of a slice or string, as Go's [int]. *)
Definition zlen {A} (l : list A) : Z := Z.of_nat (length l).
Definition slen (s : string) : Z := Z.of_nat (String.length s).

(** [v] unless it is not positive: [if v <= 0 { v = d }]. *)
Definition pos_or (d v : Z) : Z := if v <=? 0 then d else v.
(** [if s == EMPTY { s = d }]. *)
Definition str_or (d s : string) : string := if decide (s = EmptyString) then d else s.

(** ** Record updates

    [r <| p := v |>] assigns field [p]; [r <| p # q := v |>] assigns field [q]
    of the nested struct [p], as [r.p.q = v] does. *)
Class Eta (R : Type) := eta : R -> R.
Class Setter {R E : Type} (proj : R -> E) := upd : (E -> E) -> R -> R.
Arguments upd {R E} proj {_} _ _ : assert.

(** [Setter p] is read off the [Eta] expansion of the record. *)
Ltac derive_setter :=
  lazymatch goal with
  | |- @Setter ?R ?E ?proj =>
      let f := fresh "f" in let r := fresh "r" in
      unfold Setter; intros f r;
      let inst := constr:(_ : Eta R) in
      let body := eval hnf in (@eta R inst r) in
      let p := eval pattern (proj r) in body in
      lazymatch p with
      | ?g _ => let res := eval cbv beta in (g (f (proj r))) in exact res
      end
  end.
#[export] Hint Extern 1 (@Setter _ _ _) => derive_setter : typeclass_instances.

Declare Scope go_scope.
#[global] Open Scope go_scope.
Notation "r <| p := v |>" := (upd p (fun _ => v) r)
  (at level 1, p constr at level 0, left associativity) : go_scope.
Notation "r <| p ::= f |>" := (upd p f r)
  (at level 1, p constr at level 0, left associativity) : go_scope.
Notation "r <| p # q := v |>" := (upd p (upd q (fun _ => v)) r)
  (at level 1, p constr at level 0, q constr at level 0, left associativity) : go_scope.
Notation "r <| p # q ::= f |>" := (upd p (upd q f) r)
  (at level 1, p constr at level 0, q constr at level 0, left associativity) : go_scope.

(** ** Shared lemmas and automation *)

(** Hints on slices and machine integers: [go] resolves, [golist] rewrites. *)
Create HintDb go.
Create Rewrite HintDb golist.

Lemma wrap64_id (z : Z) : int64_range z -> wrap64 z = z.
Proof. unfold int64_range, wrap64. intros H. rewrite Z.mod_small; lia. Qed.

Lemma wrap64_range (z : Z) : int64_range (wrap64 z).
Proof.
  unfold int64_range, wrap64.
  pose proof (Z.mod_pos_bound (z + 2 ^ 63) (2 ^ 64) ltac:(lia)). lia.
Qed.

Lemma u16_id (z : Z) : 0 <= z < 65536 -> u16 z = z.
Proof. intros H. unfold u16. by rewrite Z.mod_small. Qed.

Lemma u16_range (z : Z) : 0 <= u16 z < 65536.
Proof. unfold u16. apply Z.mod_pos_bound. lia. Qed.

Lemma u32_id (z : Z) : 0 <= z < 4294967296 -> u32 z = z.
Proof. intros H. unfold u32. by rewrite Z.mod_small. Qed.

Lemma u32_range (z : Z) : 0 <= u32 z < 4294967296.
Proof. unfold u32. apply Z.mod_pos_bound. lia. Qed.

Lemma zlen_nonneg {A} (l : list A) : 0 <= zlen l.
Proof. unfold zlen. lia. Qed.

Lemma zlen_app {A} (l k : list A) : zlen (l ++ k) = zlen l + zlen k.
Proof. unfold zlen. rewrite length_app. lia. Qed.

Lemma zlen_cons {A} (x : A) (l : list A) : zlen (x :: l) = 1 + zlen l.
Proof. unfold zlen. simpl. lia. Qed.

Lemma zlen_nil {A} : zlen (@nil A) = 0.
Proof. done. Qed.

Lemma zlen_take {A} (n : nat) (l : list A) : zlen (take n l) = Z.min (Z.of_nat n) (zlen l).
Proof. unfold zlen. rewrite length_take. lia. Qed.

Lemma zlen_drop {A} (n : nat) (l : list A) : zlen (drop n l) = Z.max 0 (zlen l - Z.of_nat n).
Proof. unfold zlen. rewrite length_drop. lia. Qed.

Lemma zlen_replicate {A} (n : nat) (x : A) : zlen (replicate n x) = Z.of_nat n.
Proof. unfold zlen. by rewrite length_replicate. Qed.

Lemma zlen_map {A B} (f : A -> B) (l : list A) : zlen (map f l) = zlen l.
Proof. unfold zlen. by rewrite length_map. Qed.

Lemma zlen_0_nil {A} (l : list A) : zlen l <= 0 -> l = [].
Proof. destruct l; [done|]. unfold zlen. simpl. lia. Qed.

Lemma pos_or_pos (d v : Z) : 0 < d -> 0 < pos_or d v.
Proof. unfold pos_or. intros H. destruct (Z.leb_spec v 0); lia. Qed.

Lemma pos_or_keeps (d v : Z) : 0 < v -> pos_or d v = v.
Proof. unfold pos_or. intros H. destruct (Z.leb_spec v 0); lia. Qed.

Lemma pos_or_idemp (d v : Z) : 0 < d -> pos_or d (pos_or d v) = pos_or d v.
Proof. intros H. apply pos_or_keeps, pos_or_pos, H. Qed.

Lemma str_or_ne (d s : string) : d <> EmptyString -> str_or d s <> EmptyString.
Proof. unfold str_or. intros H. by case_decide. Qed.

Lemma str_or_keeps (d s : string) : s <> EmptyString -> str_or d s = s.
Proof. unfold str_or. intros H. by case_decide. Qed.

Lemma str_or_idemp (d s : string) : d <> EmptyString -> str_or d (str_or d s) = str_or d s.
Proof. intros H. by apply str_or_keeps, str_or_ne. Qed.

#[export] Hint Resolve zlen_nonneg pos_or_pos pos_or_keeps str_or_ne wrap64_range : go.
#[export] Hint Rewrite @zlen_app @zlen_cons @zlen_nil @zlen_take @zlen_drop @zlen_map
  @zlen_replicate : golist.

(** Splits the boolean tests of a model in the goal or a hypothesis and turns
    them into (in)equalities. *)
Ltac case_bool :=
  match goal with
  | |- context [Z.leb ?a ?b] => destruct (Z.leb_spec a b)
  | |- context [Z.ltb ?a ?b] => destruct (Z.ltb_spec a b)
  | |- context [Z.eqb ?a ?b] => destruct (Z.eqb_spec a b)
  | |- context [Nat.ltb ?a ?b] => destruct (Nat.ltb_spec a b)
  | |- context [Nat.leb ?a ?b] => destruct (Nat.leb_spec a b)
  | |- context [Nat.eqb ?a ?b] => destruct (Nat.eqb_spec a b)
  | H : context [Z.leb ?a ?b] |- _ => destruct (Z.leb_spec a b)
  | H : context [Z.ltb ?a ?b] |- _ => destruct (Z.ltb_spec a b)
  | H : context [Z.eqb ?a ?b] |- _ => destruct (Z.eqb_spec a b)
  | H : context [Nat.ltb ?a ?b] |- _ => destruct (Nat.ltb_spec a b)
  | H : context [Nat.leb ?a ?b] |- _ => destruct (Nat.leb_spec a b)
  | H : context [Nat.eqb ?a ?b] |- _ => destruct (Nat.eqb_spec a b)
  end.

(** Lengths of slices, then linear arithmetic. *)
Ltac zlen_lia := autorewrite with golist in *; unfold zlen in *; lia.
