(* ===== verification/Steps.v ===== *)
(** * Step relations

    What the interleaving models share: invariants carry over to runs, and a measure that
    every step decreases bounds them. *)

From stdpp Require Export relations gmap sets.
From S2P Require Import Prelude.

Section Steps.
Context {A : Type} (R : relation A).

Lemma rtc_preserved (P : A -> Prop) (x y : A) :
  (forall x y, P x -> R x y -> P y) -> rtc R x y -> P x -> P y.
Proof. intros Hp. induction 1; eauto. Qed.

(** [m] decreases with every step while [P] holds. *)
Context (P : A -> Prop) (m : A -> nat).
Context (Hstep : forall x y, P x -> R x y -> P y /\ (m y < m x)%nat).

Lemma sn_measure (x : A) : P x -> sn R x.
Proof.
  remember (m x) as n eqn:En. revert x En.
  induction n as [n IH] using lt_wf_ind. intros x -> Hx. constructor. intros y Hxy.
  destruct (Hstep x y Hx Hxy) as [Hy Hlt]. by eapply IH.
Qed.

Lemma run_bounded (n : nat) (x y : A) : P x -> nsteps R n x y -> (n <= m x)%nat.
Proof.
  intros Hx Hn. revert Hx. induction Hn as [|n x z y Hxz _ IH]; intros Hx; [lia|].
  destruct (Hstep x z Hx Hxz) as [Hz Hlt]. specialize (IH Hz). lia.
Qed.
End Steps.

(** The sum of a measure over a list when one element changes. *)
Lemma sum_list_insert {A} (f : A -> nat) (l : list A) (i : nat) (x y : A) :
  l !! i = Some x ->
  (sum_list_with f (<[i := y]> l) + f x = sum_list_with f l + f y)%nat.
Proof.
  revert i. induction l as [|z l IH]; intros [|i] Hi; [done|done| |].
  - injection Hi as ->. simpl. lia.
  - specialize (IH i Hi). simpl. lia.
Qed.

(** ** Ownership

    Resources that are made, owned and closed by the parties of an interleaving: nothing
    is owned twice, and what is not closed has an owner. *)
Section Ownership.
Context {A : Type} `{Countable A}.

Record ownership (made closed : gset A) (owned : list A) : Prop := mkOwnership {
  own_nodup : NoDup owned;
  own_made : forall s, s ∈ owned -> s ∈ made;
  own_cover : forall s, s ∈ made -> s ∈ closed \/ s ∈ owned
}.

(** A resource passes from one owner to another, and others may be closed. *)
Lemma own_permute (made closed closed' : gset A) (owned owned' : list A) :
  ownership made closed owned -> owned' ≡ₚ owned -> closed ⊆ closed' ->
  ownership made closed' owned'.
Proof.
  intros [H1 H2 H3] Hp Hc. split.
  - by rewrite Hp.
  - intros s. rewrite Hp. apply H2.
  - intros s. rewrite Hp. intros [?|?]%H3; [left; by apply Hc|by right].
Qed.

(** An owner gives up a resource that is closed by then. *)
Lemma own_release (made closed closed' : gset A) (owned owned' : list A) (s : A) :
  ownership made closed owned -> owned ≡ₚ s :: owned' -> closed ⊆ closed' -> s ∈ closed' ->
  ownership made closed' owned'.
Proof.
  intros [H1 H2 H3] Hp Hc Hs. rewrite Hp in H1. apply NoDup_cons in H1 as [_ H1]. split.
  - done.
  - intros x Hx. apply H2. rewrite Hp. by right.
  - intros x [Hx|Hx]%H3; [left; by apply Hc|].
    rewrite Hp in Hx. apply elem_of_cons in Hx as [->|?]; [by left|by right].
Qed.

(** A new resource. *)
Lemma own_gain (made closed : gset A) (owned owned' : list A) (s : A) :
  ownership made closed owned -> s ∉ made -> owned' ≡ₚ s :: owned ->
  ownership ({[s]} ∪ made) closed owned'.
Proof.
  intros [H1 H2 H3] Hs Hp. split.
  - rewrite Hp. constructor; [|done]. intros Hin. apply Hs. by apply H2.
  - intros x. rewrite Hp. intros [->|Hx]%elem_of_cons; [set_solver|].
    apply elem_of_union. right. by apply H2.
  - intros x. rewrite Hp. intros [->%elem_of_singleton|Hx]%elem_of_union; [right; by left|].
    destruct (H3 x Hx) as [?|?]; [by left|right; by right].
Qed.
End Ownership.
