(* ===== verification/GoStrings.v ===== *)
(** * Go strings

    The functions of Go's package [strings] that the program calls, on byte
    strings ([string] is a list of 8-bit characters, as a Go string is), with
    the lemmas the components use. *)

From S2P Require Import Prelude.
From Stdlib Require Import Ascii.

Local Open Scope string_scope.

#[global] Arguments String.append : simpl nomatch.

(** ** Definitions *)

Fixpoint sdrop (n : nat) (s : string) : string :=
  match n, s with
  | O, _ => s
  | S n', String _ s' => sdrop n' s'
  | S _, EmptyString => EmptyString
  end.

(** [strings.HasPrefix(s, p)] *)
Definition HasPrefix (s p : string) : bool := String.prefix p s.

(** [strings.HasSuffix(s, p)] *)
Definition HasSuffix (s p : string) : bool :=
  Nat.leb (String.length p) (String.length s) &&
  bool_decide (sdrop (String.length s - String.length p) s = p).

(** [strings.TrimPrefix(s, p)] *)
Definition TrimPrefix (s p : string) : string :=
  if HasPrefix s p then sdrop (String.length p) s else s.

(** The text before and after the first occurrence of [sep] in [s]; this is
    what [strings.Index] locates. *)
Fixpoint cut (sep s : string) : option (string * string) :=
  if String.prefix sep s then Some (EmptyString, sdrop (String.length sep) s)
  else match s with
       | EmptyString => None
       | String c s' =>
           match cut sep s' with
           | Some (a, b) => Some (String c a, b)
           | None => None
           end
       end.

(** [strings.Contains(s, sub)] *)
Definition Contains (s sub : string) : bool :=
  match cut sub s with Some _ => true | None => false end.

(** [strings.Split(s, sep)] for a non-empty [sep]; the fuel bounds the number
    of separators, and [String.length s] is always enough ([Split_cut]). *)
Fixpoint split_fuel (fuel : nat) (sep s : string) : list string :=
  match fuel with
  | O => [s]
  | S fuel' =>
      match cut sep s with
      | None => [s]
      | Some (a, b) => a :: split_fuel fuel' sep b
      end
  end.
Definition Split (s sep : string) : list string := split_fuel (String.length s) sep s.

(** [strings.SplitN(s, sep, 2)] *)
Definition SplitN2 (s sep : string) : list string :=
  match cut sep s with
  | None => [s]
  | Some (a, b) => [a; b]
  end.

(** [strings.Join(l, sep)]; [strings.ReplaceAll(s, old, new)] for a non-empty
    [old] joins the pieces between the occurrences of [old] with [new]. *)
Fixpoint Join (l : list string) (sep : string) : string :=
  match l with
  | [] => EmptyString
  | [a] => a
  | a :: l' => a ++ sep ++ Join l' sep
  end.
Definition ReplaceAll (s old new : string) : string := Join (Split s old) new.

(** *** White space

    [unicode.IsSpace] holds of 25 code points.  Each has one UTF-8 encoding,
    and no proper prefix or suffix of a longer code point equals one of them,
    so trimming encodings trims runes. *)
Definition bytes_string (l : list nat) : string :=
  foldr (fun n s => String (ascii_of_nat n) s) EmptyString l.

Definition space_encodings : list string :=
  map bytes_string
    ([[9]; [10]; [11]; [12]; [13]; [32];
      [194; 133]; [194; 160]; [225; 154; 128];
      [226; 128; 128]; [226; 128; 129]; [226; 128; 130]; [226; 128; 131];
      [226; 128; 132]; [226; 128; 133]; [226; 128; 134]; [226; 128; 135];
      [226; 128; 136]; [226; 128; 137]; [226; 128; 138];
      [226; 128; 168]; [226; 128; 169]; [226; 128; 175];
      [226; 129; 159]; [227; 128; 128]]%nat).

Fixpoint string_rev_onto (s acc : string) : string :=
  match s with
  | EmptyString => acc
  | String c s' => string_rev_onto s' (String c acc)
  end.
Definition string_rev (s : string) : string := string_rev_onto s EmptyString.

(** The rest of [s] after an encoding of [encs] it starts with. *)
Definition strip_one (encs : list string) (s : string) : option string :=
  match List.find (fun e => String.prefix e s) encs with
  | Some e => Some (sdrop (String.length e) s)
  | None => None
  end.

Fixpoint strip_fuel (fuel : nat) (encs : list string) (s : string) : string :=
  match fuel with
  | O => s
  | S fuel' =>
      match strip_one encs s with
      | Some s' => strip_fuel fuel' encs s'
      | None => s
      end
  end.
Definition strip (encs : list string) (s : string) : string :=
  strip_fuel (String.length s) encs s.

(** [strings.TrimSpace(s)] *)
Definition TrimSpace (s : string) : string :=
  string_rev (strip (map string_rev space_encodings)
    (string_rev (strip space_encodings s))).

(** *** Case

    [strings.ToLower] lower-cases an ASCII string byte by byte.  On a string
    with a byte above 127 it maps the runes through the Unicode tables: these
    tables are the parameter [UnicodeTables]. *)
Class UnicodeTables := unicode_lower : string -> string.

Definition ascii_lower (c : ascii) : ascii :=
  let n := nat_of_ascii c in
  if Nat.leb 65 n && Nat.leb n 90 then ascii_of_nat (n + 32) else c.

Fixpoint string_map (f : ascii -> ascii) (s : string) : string :=
  match s with
  | EmptyString => EmptyString
  | String c s' => String (f c) (string_map f s')
  end.

Fixpoint string_forallb (p : ascii -> bool) (s : string) : bool :=
  match s with
  | EmptyString => true
  | String c s' => p c && string_forallb p s'
  end.

Definition is_ascii (s : string) : bool :=
  string_forallb (fun c => Nat.ltb (nat_of_ascii c) 128) s.

Definition ToLower `{UnicodeTables} (s : string) : string :=
  if is_ascii s then string_map ascii_lower s else unicode_lower s.

(** Does character [c] occur in [s]? *)
Definition has_char (c : ascii) (s : string) : bool :=
  negb (string_forallb (fun d => negb (Ascii.eqb d c)) s).

(** ** Lemmas *)

Lemma sapp_assoc (a b c : string) : a ++ (b ++ c) = (a ++ b) ++ c.
Proof. induction a; simpl; congruence. Qed.

Lemma sapp_nil_r (a : string) : a ++ EmptyString = a.
Proof. induction a; simpl; congruence. Qed.

Lemma slength_app (a b : string) :
  String.length (a ++ b) = (String.length a + String.length b)%nat.
Proof. induction a; simpl; congruence. Qed.

Lemma slen_app (a b : string) : slen (a ++ b) = slen a + slen b.
Proof. unfold slen. rewrite slength_app. lia. Qed.

Lemma slen_nonneg (s : string) : 0 <= slen s.
Proof. unfold slen. lia. Qed.

Lemma slen_pos (s : string) : s <> EmptyString -> 0 < slen s.
Proof. destruct s; [done|]. unfold slen; simpl; lia. Qed.

Lemma sdrop_app (a b : string) : sdrop (String.length a) (a ++ b) = b.
Proof. induction a; simpl; auto. Qed.

Lemma sdrop_length (n : nat) (s : string) :
  String.length (sdrop n s) = (String.length s - n)%nat.
Proof. revert s. induction n; intros [|c s]; simpl; auto. Qed.

Lemma prefix_app (p b : string) : String.prefix p (p ++ b) = true.
Proof.
  induction p as [|c p IH]; simpl; [by destruct b|].
  destruct (ascii_dec c c); done.
Qed.

Lemma prefix_true_iff (p s : string) :
  String.prefix p s = true <-> exists b, s = p ++ b.
Proof.
  split; [|intros [b ->]; apply prefix_app].
  revert s. induction p as [|c p IH]; intros s H; [by exists s|].
  destruct s as [|d s]; simpl in H; [done|].
  destruct (ascii_dec c d) as [->|]; [|done].
  destruct (IH s H) as [b ->]. by exists b.
Qed.

Lemma prefix_cons (c d : ascii) (p s : string) :
  String.prefix (String c p) (String d s) = (Ascii.eqb c d && String.prefix p s)%bool.
Proof.
  simpl. destruct (ascii_dec c d) as [->|Hn]; [by rewrite Ascii.eqb_refl|].
  by apply Ascii.eqb_neq in Hn; rewrite Hn.
Qed.

Lemma HasPrefix_app (p b : string) : HasPrefix (p ++ b) p = true.
Proof. apply prefix_app. Qed.

Lemma TrimPrefix_app (p b : string) : TrimPrefix (p ++ b) p = b.
Proof. unfold TrimPrefix. by rewrite HasPrefix_app, sdrop_app. Qed.

Lemma cut_spec (sep s a b : string) :
  cut sep s = Some (a, b) -> s = a ++ sep ++ b.
Proof.
  revert a. induction s as [|c s IH]; intros a H; cbn [cut] in H.
  - destruct (String.prefix sep "") eqn:E; [|done].
    apply prefix_true_iff in E as [r Hr]. simplify_eq.
    destruct sep; simpl in Hr |- *; [|done]. done.
  - destruct (String.prefix sep (String c s)) eqn:E.
    + apply prefix_true_iff in E as [r Hr]. rewrite Hr in H.
      rewrite sdrop_app in H. simplify_eq. done.
    + destruct (cut sep s) as [[a' b']|] eqn:Ec; [|done].
      simplify_eq. simpl. by rewrite (IH a' eq_refl) at 1.
Qed.

Lemma cut_none_tail (sep s : string) (c : ascii) :
  cut sep (String c s) = None -> cut sep s = None.
Proof.
  cbn [cut]. destruct (String.prefix sep (String c s)); [done|].
  by destruct (cut sep s) as [[]|].
Qed.

Lemma cut_none_app (sep a b : string) : cut sep (a ++ b) = None -> cut sep b = None.
Proof.
  induction a as [|c a IH]; simpl; [done|]. intros H.
  apply IH. by apply cut_none_tail in H.
Qed.

Lemma cut_unfold (sep s : string) :
  cut sep s =
  if String.prefix sep s then Some (EmptyString, sdrop (String.length sep) s)
  else match s with
       | EmptyString => None
       | String c s' =>
           match cut sep s' with
           | Some (a, b) => Some (String c a, b)
           | None => None
           end
       end.
Proof. by destruct s. Qed.

Lemma cut_prefix (sep b : string) : cut sep (sep ++ b) = Some (EmptyString, b).
Proof. by rewrite cut_unfold, prefix_app, sdrop_app. Qed.

Lemma cut_app (sep a b : string) : exists x y, cut sep (a ++ sep ++ b) = Some (x, y).
Proof.
  destruct (cut sep (a ++ sep ++ b)) as [[x y]|] eqn:E; [by eauto|].
  apply cut_none_app in E. by rewrite cut_prefix in E.
Qed.

Lemma Contains_iff (s sub : string) :
  Contains s sub = true <-> exists a b, s = a ++ sub ++ b.
Proof.
  unfold Contains. split.
  - destruct (cut sub s) as [[a b]|] eqn:E; [|done].
    intros _. exists a, b. by apply cut_spec.
  - intros (a & b & ->). destruct (cut_app sub a b) as (x & y & ->). done.
Qed.

(** *** Splitting *)

Lemma cut_length (sep s a b : string) :
  cut sep s = Some (a, b) ->
  String.length s = (String.length a + String.length sep + String.length b)%nat.
Proof. intros H%cut_spec. subst s. rewrite !slength_app. lia. Qed.

Lemma split_fuel_enough (sep : string) (n : nat) (s : string) :
  sep <> EmptyString -> (String.length s <= n)%nat ->
  split_fuel n sep s = split_fuel (String.length s) sep s.
Proof.
  intros Hsep. assert (Hpos : (0 < String.length sep)%nat) by (destruct sep; simpl; [done|lia]).
  revert s. induction n as [n IH] using lt_wf_ind. intros s Hn.
  destruct n as [|n].
  { destruct s; simpl in Hn; [done|lia]. }
  cbn [split_fuel]. destruct (cut sep s) as [[a b]|] eqn:E.
  - pose proof (cut_length _ _ _ _ E) as Hl.
    destruct (String.length s) as [|m] eqn:Es; [lia|].
    cbn [split_fuel]. rewrite E. f_equal.
    rewrite (IH n) by lia. symmetry. apply IH; lia.
  - destruct (String.length s); cbn [split_fuel]; by rewrite ?E.
Qed.

(** [Split] peels off the text before the first separator. *)
Lemma Split_cut (sep s : string) :
  sep <> EmptyString ->
  Split s sep = match cut sep s with
                | None => [s]
                | Some (a, b) => a :: Split b sep
                end.
Proof.
  intros Hsep. unfold Split.
  destruct (String.length s) as [|m] eqn:Es.
  - destruct s; [|done]. destruct sep; done.
  - cbn [split_fuel]. destruct (cut sep s) as [[a b]|] eqn:E; [|done].
    f_equal. apply split_fuel_enough; [done|].
    apply cut_length in E. destruct sep; simpl in *; [done|lia].
Qed.

(** [cut] finds the first occurrence. *)
Lemma cut_minimal (sep x y a b : string) :
  cut sep (x ++ sep ++ y) = Some (a, b) -> (String.length a <= String.length x)%nat.
Proof.
  revert a. induction x as [|c x IH]; intros a H.
  - change ("" ++ sep ++ y) with (sep ++ y) in H. rewrite cut_prefix in H. by simplify_eq.
  - cbn [String.append] in H. rewrite cut_unfold in H.
    destruct (String.prefix _ _); [simplify_eq; cbn; lia|].
    destruct (cut sep (x ++ sep ++ y)) as [[a' b']|] eqn:E; [|done].
    simplify_eq. cbn. specialize (IH a' eq_refl). lia.
Qed.

Lemma cut_before (sep s a b : string) :
  sep <> EmptyString -> cut sep s = Some (a, b) -> cut sep a = None.
Proof.
  intros Hne H. destruct (cut sep a) as [[x y]|] eqn:E; [|done]. exfalso.
  apply cut_spec in H as Hs. apply cut_spec in E. subst a s.
  rewrite <- !sapp_assoc in H. apply cut_minimal in H.
  rewrite !slength_app in H. destruct sep; [done|]. cbn in H. lia.
Qed.

Lemma has_char_cons (c d : ascii) (s : string) :
  has_char c (String d s) = (Ascii.eqb d c || has_char c s)%bool.
Proof. unfold has_char. simpl. by destruct (Ascii.eqb d c). Qed.

Lemma has_char_app (c : ascii) (a b : string) :
  has_char c (a ++ b) = (has_char c a || has_char c b)%bool.
Proof.
  induction a as [|d a IH]; [done|].
  cbn [String.append]. rewrite !has_char_cons, IH. by rewrite orb_assoc.
Qed.

Lemma cut_char_none (c : ascii) (s : string) :
  cut (String c EmptyString) s = None <-> has_char c s = false.
Proof.
  induction s as [|d s IH]; [done|].
  rewrite has_char_cons, cut_unfold, prefix_cons.
  rewrite (Ascii.eqb_sym c d). destruct (Ascii.eqb d c); simpl.
  - by destruct s.
  - rewrite <- IH. by destruct (cut (String c "") s) as [[]|].
Qed.

Lemma Contains_char (c : ascii) (s : string) :
  Contains s (String c EmptyString) = has_char c s.
Proof.
  unfold Contains. destruct (cut (String c "") s) as [[]|] eqn:E.
  - destruct (has_char c s) eqn:E'; [done|]. apply cut_char_none in E'. congruence.
  - symmetry. by apply cut_char_none.
Qed.

Lemma prefix_app_inv (r x y : string) :
  String.prefix r (x ++ y) = true ->
  String.prefix r x = true \/
  exists d r', r = x ++ String d r' /\ String.prefix (String d r') y = true.
Proof.
  revert r. induction x as [|c x IH]; intros r H.
  - destruct r as [|d r]; [by left|]. right. by exists d, r.
  - destruct r as [|d r]; [by left|]. cbn [String.append] in H.
    rewrite prefix_cons in H. apply andb_prop in H as [Hd H].
    apply Ascii.eqb_eq in Hd. subst d.
    destruct (IH r H) as [H'|(d & r' & -> & H')].
    + left. rewrite prefix_cons, Ascii.eqb_refl. done.
    + right. by exists d, r'.
Qed.

(** The first occurrence of [c r] after [a] is the one written there, when [a]
    has none and the first character does not occur again in [r]. *)
Lemma cut_app_first (c : ascii) (r a b : string) :
  has_char c r = false -> cut (String c r) a = None ->
  cut (String c r) (a ++ String c r ++ b) = Some (a, b).
Proof.
  intros Hr. induction a as [|d a IH]; intros Ha.
  { exact (cut_prefix (String c r) b). }
  pose proof (cut_none_tail _ _ _ Ha) as Ha'.
  rewrite cut_unfold. change (String d a ++ String c r ++ b)
    with (String d (a ++ String c r ++ b)).
  destruct (String.prefix (String c r) (String d (a ++ String c r ++ b))) eqn:E.
  - exfalso. rewrite prefix_cons in E. apply andb_prop in E as [Hd E].
    apply prefix_app_inv in E as [E|(e & r' & Hr' & E)].
    + rewrite cut_unfold, prefix_cons, Hd, E in Ha. done.
    + cbn [String.append] in E. rewrite prefix_cons in E. apply andb_prop in E as [He E].
      apply Ascii.eqb_eq in He. subst e r.
      by rewrite has_char_app, has_char_cons, Ascii.eqb_refl, orb_true_r in Hr.
  - cbv iota. by rewrite IH.
Qed.

Lemma cut_char_app (c : ascii) (a b : string) :
  has_char c a = false -> cut (String c EmptyString) (a ++ String c b) = Some (a, b).
Proof. intros H. apply (cut_app_first c EmptyString); [done|]. by apply cut_char_none. Qed.

(** *** Trimming *)

Lemma string_rev_onto_app (a b acc : string) :
  string_rev_onto (a ++ b) acc = string_rev_onto b (string_rev_onto a acc).
Proof. revert acc. induction a as [|c a IH]; intros acc; [done|]. apply IH. Qed.

Lemma string_rev_onto_acc (a acc : string) :
  string_rev_onto a acc = string_rev a ++ acc.
Proof.
  revert acc. induction a as [|c a IH]; intros acc; [done|].
  unfold string_rev. cbn [string_rev_onto]. rewrite (IH (String c acc)).
  rewrite (IH (String c "")). by rewrite <- sapp_assoc.
Qed.

Lemma string_rev_app (a b : string) : string_rev (a ++ b) = string_rev b ++ string_rev a.
Proof. unfold string_rev at 1. by rewrite string_rev_onto_app, string_rev_onto_acc. Qed.

Lemma string_rev_involutive (s : string) : string_rev (string_rev s) = s.
Proof.
  induction s as [|c s IH]; [done|].
  change (String c s) with (String c "" ++ s) at 1.
  by rewrite !string_rev_app, IH.
Qed.

Section Strip.
Context (encs : list string) (Hne : EmptyString ∉ encs).

Lemma strip_one_none (s : string) :
  strip_one encs s = None <-> forall e, e ∈ encs -> String.prefix e s = false.
Proof.
  unfold strip_one. split.
  - destruct (List.find _ encs) eqn:E; [done|]. intros _ e He.
    apply list_elem_of_In in He. by apply (List.find_none _ _ E) in He.
  - intros H. destruct (List.find _ encs) as [e|] eqn:E; [|done].
    apply List.find_some in E as [He Hp]. apply list_elem_of_In in He.
    by rewrite (H e He) in Hp.
Qed.

Lemma strip_one_some (s s' : string) :
  strip_one encs s = Some s' -> exists e, s = e ++ s' /\ e <> EmptyString.
Proof.
  unfold strip_one. destruct (List.find _ encs) as [e|] eqn:E; [|done].
  apply List.find_some in E as [He Hp]. intros [= <-].
  apply prefix_true_iff in Hp as [b ->]. rewrite sdrop_app. exists e.
  split; [done|]. intros ->. apply Hne. by apply list_elem_of_In.
Qed.

Lemma strip_fuel_none (n : nat) (s : string) :
  (String.length s <= n)%nat -> strip_one encs (strip_fuel n encs s) = None.
Proof.
  revert s. induction n as [|n IH]; intros s Hn; cbn [strip_fuel].
  - destruct s; [|simpl in Hn; lia]. apply strip_one_none.
    intros e He. destruct e; [by destruct Hne|done].
  - destruct (strip_one encs s) as [s'|] eqn:E; [|done].
    apply IH. apply strip_one_some in E as (e & -> & He).
    rewrite slength_app in Hn. destruct e; [done|simpl in Hn; lia].
Qed.

Lemma strip_none (s : string) : strip_one encs (strip encs s) = None.
Proof. by apply strip_fuel_none. Qed.

Lemma strip_fuel_suffix (n : nat) (s : string) : exists p, s = p ++ strip_fuel n encs s.
Proof.
  revert s. induction n as [|n IH]; intros s; cbn [strip_fuel]; [by exists EmptyString|].
  destruct (strip_one encs s) as [s'|] eqn:E; [|by exists EmptyString].
  apply strip_one_some in E as (e & -> & _). destruct (IH s') as [p Hp].
  exists (e ++ p). by rewrite <- sapp_assoc, <- Hp.
Qed.

Lemma strip_id (s : string) : strip_one encs s = None -> strip encs s = s.
Proof. intros H. unfold strip. destruct (String.length s); cbn [strip_fuel]; by rewrite ?H. Qed.
End Strip.

(** Trimmed strings have no white space at either end. *)
Definition Trimmed (s : string) : Prop :=
  strip_one space_encodings s = None /\
  strip_one (map string_rev space_encodings) (string_rev s) = None.

Lemma spaces_ne : EmptyString ∉ space_encodings.
Proof. apply (bool_decide_eq_true_1 _). vm_compute. reflexivity. Qed.

Lemma spaces_rev_ne : EmptyString ∉ map string_rev space_encodings.
Proof. apply (bool_decide_eq_true_1 _). vm_compute. reflexivity. Qed.

Lemma Trimmed_TrimSpace_id (s : string) : Trimmed s -> TrimSpace s = s.
Proof.
  intros [Hl Hr]. unfold TrimSpace. rewrite (strip_id _ s Hl).
  rewrite (strip_id _ _ Hr). apply string_rev_involutive.
Qed.

Lemma TrimSpace_Trimmed (s : string) : Trimmed (TrimSpace s).
Proof.
  unfold Trimmed, TrimSpace. rewrite string_rev_involutive.
  remember (strip space_encodings s) as t eqn:Et. split; [|apply strip_none, spaces_rev_ne].
  assert (Ht : strip_one space_encodings t = None) by (subst t; apply strip_none, spaces_ne).
  destruct (strip_fuel_suffix _ spaces_rev_ne (String.length (string_rev t)) (string_rev t))
    as [p Hp]. fold (strip (map string_rev space_encodings) (string_rev t)) in Hp.
  set (u := strip (map string_rev space_encodings) (string_rev t)) in *.
  apply (f_equal string_rev) in Hp.
  rewrite string_rev_involutive, string_rev_app in Hp.
  apply strip_one_none. intros e He.
  destruct (String.prefix e (string_rev u)) eqn:E; [|done].
  apply prefix_true_iff in E as [b Hb].
  pose proof (proj1 (strip_one_none _ _) Ht e He) as Hte.
  rewrite Hp, Hb, <- sapp_assoc, prefix_app in Hte. done.
Qed.

(** A character that occurs in no white-space encoding can go in front of a
    trimmed string. *)
Lemma Trimmed_cons (c : ascii) (s : string) :
  Forall (fun e => has_char c e = false) space_encodings ->
  Forall (fun e => has_char c e = false) (map string_rev space_encodings) ->
  Trimmed s -> Trimmed (String c s).
Proof.
  intros Hl Hr [_ Hs]. rewrite Forall_forall in Hl, Hr. split; apply strip_one_none; intros e He.
  - specialize (Hl e He). destruct e as [|d e]; [by destruct spaces_ne|].
    rewrite has_char_cons in Hl. apply orb_false_iff in Hl as [Hl _].
    by rewrite prefix_cons, Hl.
  - specialize (Hr e He). change (String c s) with (String c "" ++ s). rewrite string_rev_app.
    destruct (String.prefix e _) eqn:E; [|done].
    apply prefix_app_inv in E as [E|(d & r & -> & E)].
    + by rewrite (proj1 (strip_one_none _ _) Hs e He) in E.
    + change (string_rev (String c "")) with (String c "") in E. rewrite prefix_cons in E.
      apply andb_prop in E as [E _]. apply Ascii.eqb_eq in E. subst d.
      by rewrite has_char_app, has_char_cons, Ascii.eqb_refl, orb_true_r in Hr.
Qed.

Lemma Trimmed_slash (s : string) : Trimmed s -> Trimmed (String "/" s).
Proof. apply Trimmed_cons; vm_compute; repeat constructor. Qed.

Lemma TrimSpace_idemp (s : string) : TrimSpace (TrimSpace s) = TrimSpace s.
Proof. apply Trimmed_TrimSpace_id, TrimSpace_Trimmed. Qed.

(** *** Case *)

Lemma ToLower_ascii `{UnicodeTables} (s : string) :
  is_ascii s = true -> ToLower s = string_map ascii_lower s.
Proof. unfold ToLower. by intros ->. Qed.

Create Rewrite HintDb gostr.
#[export] Hint Rewrite @slength_app @TrimSpace_idemp @TrimPrefix_app @HasPrefix_app
  @string_rev_involutive @sdrop_app : gostr.
