(* ===== verification/GoBytes.v ===== *)
(** * Bytes, big-endian fields and byte streams

    Go's [byte], the [encoding/binary] big-endian accessors, slicing with its
    run-time check, and the inbound side of a [net.Conn] with [io.ReadFull]. *)

From S2P Require Import Prelude GoStrings.
From Stdlib Require Import Init.Byte Strings.Byte.

(** ** Definitions *)

#[export] Instance byte_eq_dec : EqDecision byte := Byte.byte_eq_dec.

Definition byte_val (b : byte) : Z := Z.of_N (Byte.to_N b).

(** The conversion [byte(z)], which keeps the low 8 bits. *)
Definition byte_of (z : Z) : byte :=
  match Byte.of_N (Z.to_N (z mod 256)) with Some b => b | None => x00 end.

(** [binary.BigEndian.PutUint16] and [PutUint32] into a fresh slice. *)
Definition be16 (v : Z) : list byte := [byte_of (Z.shiftr v 8); byte_of v].
Definition be32 (v : Z) : list byte :=
  [byte_of (Z.shiftr v 24); byte_of (Z.shiftr v 16); byte_of (Z.shiftr v 8); byte_of v].

(** [binary.BigEndian.Uint16] and [Uint32]; the callers pass slices of exactly
    two and four bytes. *)
Definition get16 (l : list byte) : Z :=
  match l with
  | b0 :: b1 :: _ => byte_val b0 * 256 + byte_val b1
  | _ => 0
  end.
Definition get32 (l : list byte) : Z :=
  match l with
  | b0 :: b1 :: b2 :: b3 :: _ =>
      ((byte_val b0 * 256 + byte_val b1) * 256 + byte_val b2) * 256 + byte_val b3
  | _ => 0
  end.

(** [s[lo:hi]] where the capacity of [s] is its length. *)
Definition slice {A} (s : list A) (lo hi : Z) : outcome (list A) :=
  if (0 <=? lo) && (lo <=? hi) && (hi <=? zlen s)
  then Done (take (Z.to_nat (hi - lo)) (drop (Z.to_nat lo) s))
  else Panic SliceOutOfRange.

(** [copy(dst, src)]: the new contents of [dst]. *)
Definition copy_into {A} (dst src : list A) : list A :=
  take (length dst) src ++ drop (length src) dst.

(** [copy(dst[off:], src)] for an offset inside [dst]. *)
Definition copy_at {A} (dst : list A) (off : nat) (src : list A) : list A :=
  take off dst ++ copy_into (drop off dst) src.

(** [[]byte(s)] and [string(b)]. *)
Definition bytes_of (s : string) : list byte := String.list_byte_of_string s.
Definition string_of (l : list byte) : string := String.string_of_list_byte l.

(** *** Inbound streams

    [s_data] is what the peer delivers before the connection reports [s_err]
    (EOF when the peer closes).  Reads block until data or the error arrives,
    so how the network cut the data into segments does not show. *)
Record stream := mkStream { s_data : list byte; s_err : error }.
#[export] Instance eta_stream : Eta stream := fun s => mkStream s.(s_data) s.(s_err).

(** [io.ReadFull(r, buf)] with [len(buf) = n]. *)
Definition ReadFull (n : nat) (s : stream) : result (list byte) * stream :=
  if Nat.leb n (length s.(s_data))
  then (Ok (take n s.(s_data)), s <| s_data ::= drop n |>)
  else (Err match s.(s_data), s.(s_err) with
            | [], e => e
            | _, EOF => UnexpectedEOF
            | _, e => e
            end,
        s <| s_data := [] |>).

(** *** Outbound sinks

    The outbound side of a [net.Conn]: the writes it has taken, and after how
    many more bytes it fails, if it does.  A failing [Write] takes the bytes it
    still can, as the [io.Writer] contract says. *)
Record sink := mkSink { k_writes : list (list byte); k_fail : option (nat * error) }.
#[export] Instance eta_sink : Eta sink := fun k => mkSink k.(k_writes) k.(k_fail).

(** The bytes on the wire. *)
Definition k_bytes (k : sink) : list byte := concat k.(k_writes).

(** [conn.Write(b)]: the count, the error and the sink afterwards. *)
Definition sink_write (b : list byte) (k : sink) : Z * option error * sink :=
  match k.(k_fail) with
  | None => (zlen b, None, k <| k_writes ::= fun ws => ws ++ [b] |>)
  | Some (n, e) =>
      if Nat.leb (length b) n
      then (zlen b, None, mkSink (k.(k_writes) ++ [b]) (Some ((n - length b)%nat, e)))
      else (Z.of_nat n, Some e, mkSink (k.(k_writes) ++ [take n b]) (Some (O, e)))
  end.

(** ** Lemmas *)

Lemma byte_val_range (b : byte) : 0 <= byte_val b < 256.
Proof.
  unfold byte_val. pose proof (Byte.to_N_bounded b). lia.
Qed.

Lemma byte_val_of (z : Z) : byte_val (byte_of z) = z mod 256.
Proof.
  unfold byte_val, byte_of.
  pose proof (Z.mod_pos_bound z 256 ltac:(lia)) as Hb.
  destruct (Byte.of_N (Z.to_N (z mod 256))) as [b|] eqn:E.
  - apply Byte.to_of_N in E. rewrite E. lia.
  - apply Byte.of_N_None_iff in E. lia.
Qed.

Lemma byte_of_val (b : byte) : byte_of (byte_val b) = b.
Proof.
  unfold byte_of. rewrite Z.mod_small by apply byte_val_range.
  unfold byte_val. by rewrite N2Z.id, Byte.of_to_N.
Qed.

Lemma length_be16 (v : Z) : length (be16 v) = 2%nat.
Proof. done. Qed.

Lemma length_be32 (v : Z) : length (be32 v) = 4%nat.
Proof. done. Qed.

Lemma get16_be16 (v : Z) (l : list byte) : get16 (be16 v ++ l) = u16 v.
Proof.
  unfold get16, be16, u16; simpl. rewrite !byte_val_of, Z.shiftr_div_pow2 by lia.
  change (2 ^ 8) with 256.
  pose proof (Z.rem_mul_r v 256 256 ltac:(lia) ltac:(lia)) as H.
  change (256 * 256) with 65536 in H. change (2 ^ 16) with 65536. lia.
Qed.

Lemma get32_be32 (v : Z) (l : list byte) : get32 (be32 v ++ l) = u32 v.
Proof.
  unfold get32, be32, u32; simpl. rewrite !byte_val_of, !Z.shiftr_div_pow2 by lia.
  change (2 ^ 8) with 256. change (2 ^ 16) with 65536. change (2 ^ 24) with 16777216.
  pose proof (Z.rem_mul_r v 256 16777216 ltac:(lia) ltac:(lia)) as H1.
  pose proof (Z.rem_mul_r (v / 256) 256 65536 ltac:(lia) ltac:(lia)) as H2.
  pose proof (Z.rem_mul_r (v / 65536) 256 256 ltac:(lia) ltac:(lia)) as H3.
  rewrite Z.div_div in H2, H3 by lia.
  change (256 * 16777216) with 4294967296 in H1.
  change (256 * 65536) with 16777216 in H2. change (256 * 256) with 65536 in H2, H3.
  change (65536 * 256) with 16777216 in H3. change (2 ^ 32) with 4294967296. lia.
Qed.

Lemma get16_range (l : list byte) : 0 <= get16 l < 65536.
Proof.
  unfold get16. destruct l as [|b0 [|b1 l]]; [lia|lia|].
  pose proof (byte_val_range b0). pose proof (byte_val_range b1). lia.
Qed.

Lemma get32_range (l : list byte) : 0 <= get32 l < 4294967296.
Proof.
  unfold get32. destruct l as [|b0 [|b1 [|b2 [|b3 l]]]]; try lia.
  pose proof (byte_val_range b0). pose proof (byte_val_range b1).
  pose proof (byte_val_range b2). pose proof (byte_val_range b3). lia.
Qed.

Lemma slice_done {A} (s : list A) (lo hi : Z) :
  0 <= lo <= hi -> hi <= zlen s ->
  slice s lo hi = Done (take (Z.to_nat (hi - lo)) (drop (Z.to_nat lo) s)).
Proof.
  intros H1 H2. unfold slice.
  rewrite (proj2 (Z.leb_le 0 lo)), (proj2 (Z.leb_le lo hi)), (proj2 (Z.leb_le hi _)) by lia.
  done.
Qed.

Lemma slice_panic {A} (s : list A) (lo hi : Z) :
  hi < lo \/ zlen s < hi -> slice s lo hi = Panic SliceOutOfRange.
Proof.
  intros H. unfold slice.
  destruct (Z.leb_spec 0 lo), (Z.leb_spec lo hi), (Z.leb_spec hi (zlen s)); try done; lia.
Qed.

Lemma length_copy_into {A} (dst src : list A) : length (copy_into dst src) = length dst.
Proof. unfold copy_into. rewrite length_app, length_take, length_drop. lia. Qed.

Lemma length_copy_at {A} (dst : list A) (off : nat) (src : list A) :
  length (copy_at dst off src) = length dst.
Proof.
  unfold copy_at. rewrite length_app, length_copy_into, length_take, length_drop. lia.
Qed.

Lemma copy_into_fits {A} (dst src : list A) :
  (length src <= length dst)%nat -> copy_into dst src = src ++ drop (length src) dst.
Proof. intros H. unfold copy_into. by rewrite take_ge by lia. Qed.

Lemma string_of_bytes_of (s : string) : string_of (bytes_of s) = s.
Proof. apply String.string_of_list_byte_of_string. Qed.

Lemma bytes_of_string_of (l : list byte) : bytes_of (string_of l) = l.
Proof. apply String.list_byte_of_string_of_list_byte. Qed.

Lemma length_bytes_of (s : string) : length (bytes_of s) = String.length s.
Proof.
  unfold bytes_of, String.list_byte_of_string. rewrite length_map.
  induction s; simpl; [done|]. by f_equal.
Qed.

Lemma zlen_bytes_of (s : string) : zlen (bytes_of s) = slen s.
Proof. unfold zlen, slen. by rewrite length_bytes_of. Qed.

(** A complete field is read whole, and only it. *)
Lemma ReadFull_app (l rest : list byte) (e : error) (n : nat) :
  n = length l ->
  ReadFull n (mkStream (l ++ rest) e) = (Ok l, mkStream rest e).
Proof.
  intros ->. unfold ReadFull; cbn [s_data s_err].
  rewrite length_app, (proj2 (Nat.leb_le _ _)) by lia.
  unfold upd; cbn. by rewrite take_app_length, drop_app_length.
Qed.

Lemma ReadFull_short (n : nat) (s : stream) :
  (length s.(s_data) < n)%nat -> exists e, ReadFull n s = (Err e, mkStream [] s.(s_err)).
Proof.
  intros H. unfold ReadFull. rewrite (proj2 (Nat.leb_gt _ _)) by lia. eauto.
Qed.

(** [ReadFull] returns exactly the bytes asked for, in order. *)
Lemma ReadFull_ok (n : nat) (s s' : stream) (l : list byte) :
  ReadFull n s = (Ok l, s') ->
  length l = n /\ s.(s_data) = l ++ s'.(s_data) /\ s'.(s_err) = s.(s_err).
Proof.
  unfold ReadFull. destruct (Nat.leb_spec n (length s.(s_data))); [|done].
  intros [= <- <-]. cbn. rewrite length_take, take_drop. split; [lia|done].
Qed.

Lemma sink_write_ok (b : list byte) (k : sink) :
  k.(k_fail) = None ->
  sink_write b k = (zlen b, None, mkSink (k.(k_writes) ++ [b]) None).
Proof. intros H. unfold sink_write. rewrite H. unfold upd; cbn. by rewrite H. Qed.

(** A write never invents or reorders bytes: it appends a prefix of [b], all of
    it exactly when there is no error. *)
Lemma sink_write_spec (b : list byte) (k k' : sink) (n : Z) (err : option error) :
  sink_write b k = (n, err, k') ->
  0 <= n <= zlen b /\
  k_bytes k' = k_bytes k ++ take (Z.to_nat n) b /\
  (err = None <-> n = zlen b).
Proof.
  unfold sink_write, k_bytes, zlen. destruct (k_fail k) as [[m e]|] eqn:Ef.
  - destruct (Nat.leb_spec (length b) m); intros [= <- <- <-]; cbn.
    + rewrite concat_app; cbn. rewrite app_nil_r, take_ge by lia. split; [lia|done].
    + rewrite concat_app; cbn. rewrite app_nil_r, Nat2Z.id. split; [lia|]. split; [done|]. split; [done|lia].
  - intros [= <- <- <-]; unfold upd; cbn.
    rewrite concat_app; cbn. rewrite app_nil_r, take_ge by lia. split; [lia|done].
Qed.

#[export] Hint Rewrite length_be16 length_be32 get16_be16 get32_be32 @length_copy_into
  @length_copy_at length_bytes_of zlen_bytes_of : golist.
#[export] Hint Resolve byte_val_range get16_range : go.
