(* ===== verification/IoReader.v ===== *)
(** * [io.Reader] as an interface

    Several layers of the tunnel are readers of one another: [bufferedConn],
    [EncryptedConn], [CompressedConn].  This file states what a layer promises to the one
    above it, and what follows from that promise alone. *)

From S2P Require Import Prelude GoStrings GoBytes.
From Stdlib Require Import Init.Byte.

Local Open Scope list_scope.
Local Open Scope Z_scope.

(** The bytes a list of read results delivered. *)
Definition delivered (rs : list (result (list byte))) : list byte :=
  concat (map (fun r => match r with Ok l => l | Err _ => [] end) rs).

(** The contract of a reader whose peer sends [l] and closes: a read into a non-empty
    buffer does not panic and returns either the next bytes of [l] (perhaps none: [k]
    bounds how often), or EOF, when and only when [l] is used up. *)
Class ByteSource {R : Type} (read : nat -> R -> outcome (result (list byte) * R))
    (P : nat -> list byte -> R -> Prop) : Prop :=
  source_read : forall n k l r, (0 < n)%nat -> P k l r ->
    exists res r', read n r = Done (res, r') /\
      match res with
      | Ok b => (length b <= n)%nat /\
                exists k' l', (k' < k)%nat /\ l = b ++ l' /\ P k' l' r'
      | Err e => e = EOF /\ l = [] /\ P k [] r'
      end.

(** Successive reads into buffers of the given sizes. *)
Fixpoint reads {R} (read : nat -> R -> outcome (result (list byte) * R)) (sizes : list nat)
    (r : R) : outcome (list (result (list byte)) * R) :=
  match sizes with
  | [] => Done ([], r)
  | n :: sizes =>
      '(x, r) ← read n r;
      '(xs, r) ← reads read sizes r;
      Done (x :: xs, r)
  end.

Section Source.
Context {R : Type} {read : nat -> R -> outcome (result (list byte) * R)}.
Context {P : nat -> list byte -> R -> Prop} {S : ByteSource read P}.

Lemma delivered_ok (b : list byte) (rs : list (result (list byte))) :
  delivered (Ok b :: rs) = b ++ delivered rs.
Proof. done. Qed.

Lemma delivered_err (e : error) (rs : list (result (list byte))) :
  delivered (Err e :: rs) = delivered rs.
Proof. done. Qed.

(** Whatever the buffers, the bytes read are a prefix of the bytes sent. *)
Lemma source_prefix (sizes : list nat) (k : nat) (l : list byte) (r : R) :
  Forall (fun n => 0 < n)%nat sizes -> P k l r ->
  exists rs r' k' l', reads read sizes r = Done (rs, r') /\ l = delivered rs ++ l' /\ P k' l' r'.
Proof.
  intros Hs. revert k l r. induction Hs as [|n sizes Hn _ IH]; intros k l r Hp.
  { by exists [], r, k, l. }
  destruct (source_read n k l r Hn Hp) as (res & r1 & Hr & Hres). cbn. rewrite Hr. cbn.
  destruct res as [b|e].
  - destruct Hres as (_ & k1 & l1 & _ & -> & Hp1).
    destruct (IH k1 l1 r1 Hp1) as (rs & r2 & k2 & l2 & -> & -> & Hp2). cbn.
    exists (Ok b :: rs), r2, k2, l2. by rewrite delivered_ok, <- app_assoc.
  - destruct Hres as (_ & -> & Hp1).
    destruct (IH k [] r1 Hp1) as (rs & r2 & k2 & l2 & -> & Hl & Hp2). cbn.
    exists (Err e :: rs), r2, k2, l2. by rewrite delivered_err.
Qed.

(** As many reads as the bound allows deliver everything. *)
Lemma source_drain (n m k : nat) (l : list byte) (r : R) :
  (0 < n)%nat -> (k <= m)%nat -> P k l r ->
  exists rs r', reads read (replicate m n) r = Done (rs, r') /\ delivered rs = l.
Proof.
  intros Hn. revert k l r. induction m as [|m IH]; intros k l r Hm Hp.
  - destruct (source_read n k l r Hn Hp) as (res & r1 & _ & Hres). exists [], r.
    split; [done|]. destruct res; [|by destruct Hres as (_ & -> & _)].
    destruct Hres as (_ & k1 & _ & Hk & _). lia.
  - destruct (source_read n k l r Hn Hp) as (res & r1 & Hr & Hres). cbn. rewrite Hr. cbn.
    destruct res as [b|e].
    + destruct Hres as (_ & k1 & l1 & Hk & -> & Hp1).
      destruct (IH k1 l1 r1 ltac:(lia) Hp1) as (rs & r2 & -> & <-). cbn.
      by exists (Ok b :: rs), r2.
    + destruct Hres as (_ & -> & Hp1).
      destruct (source_prefix (replicate m n) k [] r1) as (rs & r2 & k2 & l2 & -> & Hl & _);
        [by apply Forall_replicate|done|].
      cbn. exists (Err e :: rs), r2. split; [done|]. rewrite delivered_err.
      by destruct (delivered rs).
Qed.
End Source.
