(* ===== verification/NetConn.v ===== *)
(** * Connections, and the library calls made on them

    The part of [net.Conn] that the wrappers of the tunnel use, and calls of libraries (the
    snappy codec, the TLS handshake) as programs of writes to a connection. *)

From S2P Require Import Prelude GoStrings GoBytes.
From Stdlib Require Import Init.Byte.

Local Open Scope list_scope.
Local Open Scope Z_scope.

(** ** Definitions *)

(** [io.Writer], and the part of [net.Conn] the wrappers use. *)
Class IoWriter (W : Type) := {
  nc_Write : list byte -> W -> outcome (Z * option error * W)
}.
Class NetConn (W : Type) := {
  nc_writer :: IoWriter W;
  nc_Read : nat -> W -> outcome (result (list byte) * W);
  nc_Close : W -> option error * W
}.

(** What a library call does to the writer below it: it writes, sees the count and the
    error of each write, and returns. *)
Inductive wprog (A : Type) :=
| Ret (a : A)
| Put (b : list byte) (k : Z * option error -> wprog A).
Arguments Ret {A} _.
Arguments Put {A} _ _.

(** What a call writes, and what it returns, when every write below succeeds. *)
Fixpoint accept {A} (p : wprog A) : list (list byte) * A :=
  match p with
  | Ret a => ([], a)
  | Put b k => let '(cs, a) := accept (k (zlen b, None)) in (b :: cs, a)
  end.

(** Every return of [p] satisfies [Q]. *)
Fixpoint returns {A} (Q : A -> Prop) (p : wprog A) : Prop :=
  match p with
  | Ret a => Q a
  | Put _ k => forall r, returns Q (k r)
  end.

(** An error from below is reported, at the latest by the call's own return. *)
Fixpoint honest {A} (err : A -> option error) (p : wprog A) : Prop :=
  match p with
  | Ret _ => True
  | Put _ k => forall n e,
      match e with
      | Some _ => returns (fun a => err a <> None) (k (n, e))
      | None => honest err (k (n, None))
      end
  end.

Section Run.
Context {W : Type} `{IoWriter W}.

(** A library call on the connection below. *)
Fixpoint run_prog {A} (p : wprog A) (w : W) : outcome (A * W) :=
  match p with
  | Ret a => Done (a, w)
  | Put b k => '(n, err, w) ← nc_Write b w; run_prog (k (n, err)) w
  end.

End Run.

(** ** Lemmas: programs of writes *)

(** The contract of [io.Writer]: no error means that everything was taken. *)
Class IoWriterLaws (W : Type) `{IoWriter W} : Prop := {
  nc_Write_full : forall b w n w', nc_Write b w = Done (n, None, w') -> n = zlen b
}.

Section Programs.
Context {W : Type} `{IoWriterLaws W}.

(** The connection takes the chunks one after the other. *)
Inductive accepts : W -> list (list byte) -> W -> Prop :=
| accepts_nil w : accepts w [] w
| accepts_cons w b w1 cs w2 :
    nc_Write b w = Done (zlen b, None, w1) -> accepts w1 cs w2 -> accepts w (b :: cs) w2.

Lemma accepts_app (w w1 w2 : W) (cs1 cs2 : list (list byte)) :
  accepts w cs1 w1 -> accepts w1 cs2 w2 -> accepts w (cs1 ++ cs2) w2.
Proof. induction 1; [done|]. intros ?. econstructor; eauto. Qed.

Lemma accepts_app_inv (w w2 : W) (cs1 cs2 : list (list byte)) :
  accepts w (cs1 ++ cs2) w2 -> exists w1, accepts w cs1 w1 /\ accepts w1 cs2 w2.
Proof.
  revert w. induction cs1 as [|c cs1 IH]; intros w Ha; [by exists w; split; [constructor|]|].
  inversion Ha as [|? ? wm ? ? Hw Ha']; subst. destruct (IH wm Ha') as (w1 & H1 & H2).
  exists w1. split; [by econstructor|done].
Qed.

Lemma run_accept {A} (p : wprog A) (w w' : W) :
  accepts w (accept p).1 w' -> run_prog p w = Done ((accept p).2, w').
Proof.
  revert w. induction p as [a|b k IH]; intros w; cbn.
  - by inversion 1.
  - destruct (accept (k (zlen b, None))) as [cs a] eqn:E. cbn. intros Ha.
    inversion Ha as [|? ? wm ? ? Hw Ha']; subst. rewrite Hw. cbn.
    rewrite (IH (zlen b, None) wm); rewrite E; done.
Qed.

Lemma returns_run {A} (Q : A -> Prop) (p : wprog A) (a : A) (w w' : W) :
  returns Q p -> run_prog p w = Done (a, w') -> Q a.
Proof.
  revert w. induction p as [a'|b k IH]; intros w; cbn.
  - by intros HQ [= <- _].
  - intros HQ. destruct (nc_Write b w) as [[[n err] w1]|]; [|done]. cbn. by apply IH.
Qed.

(** A call that reports no error has written all its chunks. *)
Lemma run_honest {A} (err : A -> option error) (p : wprog A) (a : A) (w w' : W) :
  honest err p -> run_prog p w = Done (a, w') -> err a = None ->
  a = (accept p).2 /\ accepts w (accept p).1 w'.
Proof.
  revert w. induction p as [a'|b k IH]; intros w; cbn.
  { intros _ [= <- <-] _. split; [done|constructor]. }
  intros Hh Hrun Herr. destruct (nc_Write b w) as [[[n [e|]] w1]|] eqn:Ew; [| |done]; cbn in Hrun.
  - by destruct (returns_run _ _ _ _ _ (Hh n (Some e)) Hrun).
  - pose proof (nc_Write_full _ _ _ _ Ew) as ->.
    destruct (IH _ w1 (Hh (zlen b) None) Hrun Herr) as [Ha Hacc].
    destruct (accept (k (zlen b, None))) as [cs a']. split; [done|]. by econstructor.
Qed.
End Programs.
