(* ===== verification/NetAddr.v ===== *)
(** * Addresses ([parseAddr] of [client.go], [utils.go])

    Go's [net.SplitHostPort], [net.JoinHostPort] and [net.ParseIP], and the
    program's own address parsers on top of them. *)

From S2P Require Import Prelude GoStrings.
From Stdlib Require Import Ascii.

Local Open Scope string_scope.

(** ** Package net *)

(** The text before and after the last [c]. *)
Fixpoint cut_last (c : ascii) (s : string) : option (string * string) :=
  match s with
  | EmptyString => None
  | String d s' =>
      match cut_last c s' with
      | Some (a, b) => Some (String d a, b)
      | None => if Ascii.eqb d c then Some (EmptyString, s') else None
      end
  end.

(** [&net.AddrError{Err: why, Addr: addr}] *)
Definition AddrError (addr why : string) : error :=
  Errorf "address %s: %s" [ArgStr addr; ArgStr why].

(** The end of [net.SplitHostPort]: no stray brackets in what is left of the
    string after the brackets of the host. *)
Definition check_brackets (hostport opens closes host port : string)
    : result (string * string) :=
  if has_char "[" opens then Err (AddrError hostport "unexpected '[' in address")
  else if has_char "]" closes then Err (AddrError hostport "unexpected ']' in address")
  else Ok (host, port).

(** [net.SplitHostPort(hostport)]; [before] is the text up to the last colon. *)
Definition SplitHostPort (hostport : string) : result (string * string) :=
  match cut_last ":" hostport with
  | None => Err (AddrError hostport "missing port in address")
  | Some (before, port) =>
      if HasPrefix hostport "[" then
        match cut "]" hostport with
        | None => Err (AddrError hostport "missing ']' in address")
        | Some (upto, after) =>
            if decide (after = EmptyString) then
              Err (AddrError hostport "missing port in address")
            else if Nat.eqb (String.length upto + 1) (String.length before) then
              check_brackets hostport (sdrop 1 hostport) after (sdrop 1 upto) port
            else if HasPrefix after ":" then
              Err (AddrError hostport "too many colons in address")
            else Err (AddrError hostport "missing port in address")
        end
      else if has_char ":" before then
        Err (AddrError hostport "too many colons in address")
      else check_brackets hostport hostport hostport before port
  end.

(** [net.JoinHostPort(host, port)] *)
Definition JoinHostPort (host port : string) : string :=
  if has_char ":" host then "[" ++ host ++ "]:" ++ port
  else host ++ ":" ++ port.

(** *** ParseIP *)

Definition digit_val (c : ascii) : option nat :=
  let n := nat_of_ascii c in
  if (Nat.leb 48 n && Nat.leb n 57)%bool then Some (n - 48)%nat else None.

Definition is_hex (c : ascii) : bool :=
  let n := nat_of_ascii c in
  ((Nat.leb 48 n && Nat.leb n 57) || (Nat.leb 97 n && Nat.leb n 102)
   || (Nat.leb 65 n && Nat.leb n 70))%bool.

(** [netip.parseIPv4Fields]: [val] and [digLen] describe the current field,
    [pos] counts the finished ones. *)
Fixpoint ipv4_fields (s : string) (val digLen pos : nat) : bool :=
  match s with
  | EmptyString => Nat.leb 3 pos
  | String c s' =>
      match digit_val c with
      | Some d =>
          if (Nat.eqb digLen 1 && Nat.eqb val 0)%bool then false
          else
            let val := (val * 10 + d)%nat in
            if Nat.ltb 255 val then false else ipv4_fields s' val (S digLen) pos
      | None =>
          if Ascii.eqb c "." then
            if (Nat.eqb digLen 0 || String.eqb s' EmptyString)%bool then false
            else if Nat.eqb pos 3 then false
            else ipv4_fields s' 0 0 (S pos)
          else false
      end
  end.

(** Hexadecimal digits of one group of [netip.parseIPv6], at most four. *)
Fixpoint scan_hex (off : nat) (s : string) : option (nat * string) :=
  match s with
  | String c s' =>
      if is_hex c then if Nat.ltb 3 off then None else scan_hex (S off) s'
      else Some (off, s)
  | EmptyString => Some (off, s)
  end.

(** The loop of [netip.parseIPv6] over groups: [i] bytes are filled, [ell] says
    whether an ellipsis was seen.  Each round fills two bytes of sixteen, so
    eight rounds are all there can be. *)
Fixpoint ipv6_groups (rounds i : nat) (ell : bool) (s : string) : option (string * nat * bool) :=
  match rounds with
  | O => Some (s, i, ell)
  | S rounds =>
      match scan_hex 0 s with
      | None | Some (O, _) => None
      | Some (S _, rest) =>
          match rest with
          | EmptyString => Some (EmptyString, (i + 2)%nat, ell)
          | String "." _ =>
              if (negb ell && negb (Nat.eqb i 12))%bool then None
              else if Nat.ltb 16 (i + 4) then None
              else if ipv4_fields s 0 0 0 then Some (EmptyString, (i + 4)%nat, ell) else None
          | String ":" EmptyString => None
          | String ":" (String ":" r) =>
              if ell then None
              else match r with
                   | EmptyString => Some (EmptyString, (i + 2)%nat, true)
                   | _ => ipv6_groups rounds (i + 2) true r
                   end
          | String ":" r => ipv6_groups rounds (i + 2) ell r
          | _ => None
          end
      end
  end.

(** [netip.parseIPv6] on a string without a zone. *)
Definition ipv6_valid (s : string) : bool :=
  let finish (r : option (string * nat * bool)) :=
    match r with
    | Some (EmptyString, i, ell) => if Nat.ltb i 16 then ell else negb ell
    | _ => false
    end in
  match s with
  | String ":" (String ":" EmptyString) => true
  | String ":" (String ":" r) => finish (ipv6_groups 8 0 true r)
  | _ => finish (ipv6_groups 8 0 false s)
  end.

(** [netip.ParseAddr] looks at the first of [.], [:] and [%]. *)
Fixpoint first_of_dot_colon_percent (s : string) : option ascii :=
  match s with
  | EmptyString => None
  | String c s' =>
      if (Ascii.eqb c "." || Ascii.eqb c ":" || Ascii.eqb c "%")%bool then Some c
      else first_of_dot_colon_percent s'
  end.

(** [net.ParseIP(s) != nil]; an address with a zone is refused. *)
Definition ParseIP (s : string) : bool :=
  match first_of_dot_colon_percent s with
  | Some "."%char => ipv4_fields s 0 0 0
  | Some ":"%char => negb (has_char "%" s) && ipv6_valid s
  | _ => false
  end.

(** ** parseAddr *)

(** The port that goes with a transport when the address names none. *)
Definition default_port (transport : string) : string :=
  if decide (transport = "httpsmux" \/ transport = "wssmux") then "443" else "80".

Definition strip_schemes (addr : string) : string :=
  let addr := TrimPrefix addr "http://" in
  let addr := TrimPrefix addr "https://" in
  let addr := TrimPrefix addr "ws://" in
  TrimPrefix addr "wss://".

Definition strip_path (addr : string) : string :=
  match cut "/" addr with Some (a, _) => a | None => addr end.

(** [parseAddr(addr, transport)] *)
Definition parseAddr (addr transport : string) : string * string :=
  let addr := strip_path (strip_schemes addr) in
  match SplitHostPort addr with
  | Ok (h, p) => (h, p)
  | Err _ => (addr, default_port transport)
  end.

(** ** SplitMap *)

(** [SplitMap(s)]; [None] is [ok = false]. *)
Definition SplitMap (s : string) : option (string * string) :=
  match Split s "->" with
  | [p0; p1] =>
      let bind := TrimSpace p0 in
      let target := TrimSpace p1 in
      if decide (bind = EmptyString \/ target = EmptyString) then None
      else
        let bind := if Contains bind ":" then bind else "0.0.0.0:" ++ bind in
        Some (bind, target)
  | _ => None
  end.

Example ParseIP_runs :
  map ParseIP ["1.2.3.4"; "01.2.3.4"; "1.2.3"; "256.1.1.1"; "::"; "::1"; "1::2::3";
               "2001:db8::8a2e:370:7334"; "::ffff:1.2.3.4"; "1:2:3:4:5:6:7:8"; "1:2:3:4:5:6:7";
               "1:2:3:4:5:6:7::"; "12345::"; "fe80::1%eth0"; ""; "example.com"; "1:2:3:4:5:6:7:8::"] =
  [true; false; false; false; true; true; false; true; true; true; false; true; false; false;
   false; false; false].
Proof. vm_compute. reflexivity. Qed.

(** ** Lemmas *)

Lemma cut_last_app (c : ascii) (a b : string) :
  has_char c b = false -> cut_last c (a ++ String c b) = Some (a, b).
Proof.
  intros Hb. induction a as [|d a IH].
  - cbn. assert (cut_last c b = None) as ->.
    { clear -Hb. induction b as [|d b IH]; [done|]. rewrite has_char_cons in Hb.
      apply orb_false_iff in Hb as [Hd Hb]. cbn. by rewrite IH, Hd. }
    by rewrite Ascii.eqb_refl.
  - cbn [String.append cut_last]. by rewrite IH.
Qed.

Lemma cut_last_none (c : ascii) (s : string) : has_char c s = false -> cut_last c s = None.
Proof.
  induction s as [|d s IH]; [done|]. rewrite has_char_cons. intros H.
  apply orb_false_iff in H as [Hd Hs]. cbn. by rewrite IH, Hd.
Qed.

Lemma HasPrefix_char (c : ascii) (s : string) :
  HasPrefix s (String c EmptyString) = match s with String d _ => Ascii.eqb c d | _ => false end.
Proof.
  unfold HasPrefix. destruct s as [|d s]; [done|]. rewrite prefix_cons.
  by destruct s, (Ascii.eqb c d).
Qed.

Lemma HasPrefix_no_char (c : ascii) (s t : string) :
  has_char c s = false -> HasPrefix s (String c t) = false.
Proof.
  unfold HasPrefix. destruct s as [|d s]; [done|]. rewrite has_char_cons, prefix_cons.
  intros H. apply orb_false_iff in H as [H _]. by rewrite Ascii.eqb_sym, H.
Qed.

(** A string in which none of the characters [cs] occurs. *)
Definition free_of (cs : list ascii) (s : string) : Prop :=
  Forall (fun c => has_char c s = false) cs.

Lemma free_of_in (cs : list ascii) (s : string) (c : ascii) :
  free_of cs s -> c ∈ cs -> has_char c s = false.
Proof. unfold free_of. rewrite Forall_forall. auto. Qed.

Lemma SplitHostPort_bracketed (host port : string) :
  free_of ["["; "]"]%char host -> free_of [":"; "["; "]"]%char port ->
  SplitHostPort ("[" ++ host ++ "]:" ++ port) = Ok (host, port).
Proof.
  intros Hh Hp. unfold SplitHostPort.
  assert (Hc : cut_last ":" ("[" ++ host ++ "]:" ++ port) = Some ("[" ++ host ++ "]", port)).
  { change ("]:" ++ port) with ("]" ++ String ":" port). rewrite !sapp_assoc.
    apply cut_last_app. apply (free_of_in _ _ _ Hp). set_solver. }
  assert (Hb : cut "]" ("[" ++ host ++ "]:" ++ port) = Some ("[" ++ host, ":" ++ port)).
  { change ("]:" ++ port) with (String "]" (":" ++ port)). rewrite sapp_assoc.
    apply cut_char_app. rewrite has_char_app. cbn. apply (free_of_in _ _ _ Hh). set_solver. }
  rewrite Hc, Hb, HasPrefix_app, decide_False by done.
  rewrite (slength_app "[" (host ++ "]")), !slength_app, (proj2 (Nat.eqb_eq _ _)) by (cbn; lia).
  unfold check_brackets. change (sdrop 1 ("[" ++ host ++ "]:" ++ port)) with (host ++ "]:" ++ port).
  rewrite has_char_app, (free_of_in _ _ "[" Hh) by set_solver.
  change (has_char "[" ("]:" ++ port)) with (has_char "[" port).
  change (has_char "]" (":" ++ port)) with (has_char "]" port).
  by rewrite !(free_of_in _ _ _ Hp) by set_solver.
Qed.

Lemma SplitHostPort_plain (host port : string) :
  free_of [":"; "["; "]"]%char host -> free_of [":"; "["; "]"]%char port ->
  SplitHostPort (host ++ ":" ++ port) = Ok (host, port).
Proof.
  intros Hh Hp. unfold SplitHostPort. change (":" ++ port) with (String ":" port).
  rewrite cut_last_app by (apply (free_of_in _ _ _ Hp); set_solver).
  assert (Hpre : HasPrefix (host ++ String ":" port) "[" = false).
  { apply HasPrefix_no_char. rewrite has_char_app, has_char_cons.
    by rewrite (free_of_in _ _ _ Hh), (free_of_in _ _ _ Hp) by set_solver. }
  rewrite Hpre, (free_of_in _ _ ":" Hh) by set_solver. unfold check_brackets.
  rewrite !has_char_app, !has_char_cons.
  by rewrite !(free_of_in _ _ _ Hh), !(free_of_in _ _ _ Hp) by set_solver.
Qed.

Lemma SplitHostPort_no_colon (s : string) :
  has_char ":" s = false -> is_ok (SplitHostPort s) = false.
Proof. intros H. unfold SplitHostPort. by rewrite cut_last_none. Qed.

Lemma TrimPrefix_no (s p : string) : HasPrefix s p = false -> TrimPrefix s p = s.
Proof. unfold TrimPrefix. by intros ->. Qed.

(** The schemes [parseAddr] strips, and the authorities that would be mistaken
    for one of them. *)
Definition schemes : list string := ["http://"; "https://"; "ws://"; "wss://"].
Definition bare_schemes : list string := ["http:"; "https:"; "ws:"; "wss:"].

(** The rest of a URL after its authority. *)
Definition url_rest (rest : string) : Prop :=
  rest = EmptyString \/ exists r, rest = String "/" r.

Lemma no_scheme (auth rest sch : string) :
  has_char "/" auth = false -> url_rest rest -> auth ∉ bare_schemes -> sch ∈ schemes ->
  HasPrefix (auth ++ rest) sch = false.
Proof.
  intros Ha Hr Hne Hs. unfold HasPrefix.
  assert (Hcut : exists b, cut "/" sch = Some (b, "/") /\ b ∈ bare_schemes).
  { unfold schemes in Hs. repeat (apply elem_of_cons in Hs as [->|Hs];
      [eexists; split; [reflexivity|unfold bare_schemes; set_solver]|]).
    by apply elem_of_nil in Hs. }
  destruct Hcut as (b & Hcut & Hb).
  destruct (String.prefix sch (auth ++ rest)) eqn:E; [|done]. exfalso.
  apply prefix_app_inv in E as [E|(d & r' & -> & Hd)].
  - apply prefix_true_iff in E as [x ->]. apply cut_spec in Hcut as ->.
    rewrite !has_char_app in Ha. cbn in Ha. by rewrite !orb_true_r in Ha.
  - destruct Hr as [->|[r ->]]; [done|]. rewrite prefix_cons in Hd.
    apply andb_prop in Hd as [Hd _]. apply Ascii.eqb_eq in Hd. subst d.
    rewrite cut_char_app in Hcut by done. by simplify_eq.
Qed.

Lemma strip_schemes_url (scheme auth rest : string) :
  scheme ∈ EmptyString :: schemes ->
  has_char "/" auth = false -> url_rest rest -> auth ∉ bare_schemes ->
  strip_schemes (scheme ++ auth ++ rest) = auth ++ rest.
Proof.
  intros Hs Ha Hr Hn.
  assert (Hid : forall sch, sch ∈ schemes -> TrimPrefix (auth ++ rest) sch = auth ++ rest)
    by (intros; by apply TrimPrefix_no, no_scheme).
  assert (Hh : forall p q, HasPrefix (p ++ auth ++ rest) q = false ->
                           TrimPrefix (p ++ auth ++ rest) q = p ++ auth ++ rest)
    by (intros; by apply TrimPrefix_no).
  unfold strip_schemes, schemes in *.
  repeat (apply elem_of_cons in Hs as [->|Hs]); [..|by apply elem_of_nil in Hs].
  - change ("" ++ auth ++ rest) with (auth ++ rest). rewrite !Hid by set_solver. done.
  - rewrite TrimPrefix_app, !Hid by set_solver. done.
  - rewrite (Hh "https://" "http://" eq_refl), TrimPrefix_app, !Hid by set_solver. done.
  - rewrite (Hh "ws://" "http://" eq_refl), (Hh "ws://" "https://" eq_refl), TrimPrefix_app.
    apply Hid. set_solver.
  - rewrite (Hh "wss://" "http://" eq_refl), (Hh "wss://" "https://" eq_refl),
      (Hh "wss://" "ws://" eq_refl). apply TrimPrefix_app.
Qed.

Lemma strip_path_url (auth rest : string) :
  has_char "/" auth = false -> url_rest rest -> strip_path (auth ++ rest) = auth.
Proof.
  intros Ha [->|[r ->]]; unfold strip_path.
  - rewrite sapp_nil_r. by rewrite (proj2 (cut_char_none _ _) Ha).
  - by rewrite cut_char_app.
Qed.

(** Only the authority of a URL counts. *)
Lemma parseAddr_url (scheme auth rest transport : string) :
  scheme ∈ EmptyString :: schemes ->
  has_char "/" auth = false -> url_rest rest -> auth ∉ bare_schemes ->
  parseAddr (scheme ++ auth ++ rest) transport =
  match SplitHostPort auth with
  | Ok (h, p) => (h, p)
  | Err _ => (auth, default_port transport)
  end.
Proof.
  intros. unfold parseAddr. by rewrite strip_schemes_url, strip_path_url.
Qed.

Lemma bare_schemes_colon (auth : string) :
  auth ∈ bare_schemes -> exists h, cut ":" auth = Some (h, EmptyString).
Proof.
  unfold bare_schemes. intros Hs.
  repeat (apply elem_of_cons in Hs as [->|Hs]; [eexists; reflexivity|]).
  by apply elem_of_nil in Hs.
Qed.

(** *** Forwarding maps *)

Lemma Split_two (s p0 p1 : string) :
  Split s "->" = [p0; p1] <->
  s = p0 ++ "->" ++ p1 /\ cut "->" p0 = None /\ cut "->" p1 = None.
Proof.
  rewrite Split_cut by done. split.
  - destruct (cut "->" s) as [[a b]|] eqn:E; [|done].
    rewrite Split_cut by done. destruct (cut "->" b) as [[c d]|] eqn:Eb.
    { intros [= _ _ Hn]. rewrite Split_cut in Hn by done.
      by destruct (cut "->" d) as [[]|]. }
    intros [= <- <-]. split; [by apply cut_spec|]. split; [|done].
    by eapply cut_before.
  - intros (-> & H0 & H1). rewrite (cut_app_first "-" ">") by done.
    rewrite Split_cut by done. by rewrite H1.
Qed.

(** The bind address of a rule: [0.0.0.0:] in front of a bare port. *)
Definition full_bind (b : string) : string :=
  if has_char ":" b then b else "0.0.0.0:" ++ b.

Lemma Contains_cut_none (p sep : string) : Contains p sep = false <-> cut sep p = None.
Proof. unfold Contains. by destruct (cut sep p). Qed.

Lemma SplitMap_arrow (p0 p1 : string) :
  Contains p0 "->" = false -> Contains p1 "->" = false ->
  TrimSpace p0 <> EmptyString -> TrimSpace p1 <> EmptyString ->
  SplitMap (p0 ++ "->" ++ p1) = Some (full_bind (TrimSpace p0), TrimSpace p1).
Proof.
  rewrite !Contains_cut_none. intros H0 H1 Hb Ht. unfold SplitMap.
  rewrite (proj2 (Split_two (p0 ++ "->" ++ p1) p0 p1)) by done.
  rewrite Contains_char, decide_False by (intros [?|?]; done). done.
Qed.

(** ** Properties *)

(** [SplitHostPort] undoes [JoinHostPort], with or without the brackets that
    a host with colons needs. *)
Theorem SplitHostPort_JoinHostPort (host port : string) :
  free_of ["["; "]"]%char host -> free_of [":"; "["; "]"]%char port ->
  SplitHostPort (JoinHostPort host port) = Ok (host, port).
Proof.
  intros Hh Hp. unfold JoinHostPort. destruct (has_char ":" host) eqn:E.
  - by apply SplitHostPort_bracketed.
  - apply SplitHostPort_plain; [|done]. by constructor.
Qed.

Lemma SplitHostPort_JoinHostPort_witness :
  SplitHostPort (JoinHostPort "2001:db8::1" "443") = Ok ("2001:db8::1", "443").
Proof. apply SplitHostPort_JoinHostPort; repeat constructor. Defined.

(** [parseAddr] reads the host and the port of an address whatever scheme
    and path are around it: a host with a port (in brackets or, without colons,
    plain) gives both, and a plain host without a port gets 443 for the TLS
    transports and 80 otherwise. *)
Theorem parseAddr_spec (scheme host port rest transport : string) :
  scheme ∈ EmptyString :: schemes -> url_rest rest ->
  free_of ["["; "]"; "/"]%char host ->
  free_of [":"; "["; "]"; "/"]%char port -> port <> EmptyString ->
  parseAddr (scheme ++ ("[" ++ host ++ "]:" ++ port) ++ rest) transport = (host, port) /\
  (has_char ":" host = false ->
   parseAddr (scheme ++ (host ++ ":" ++ port) ++ rest) transport = (host, port) /\
   parseAddr (scheme ++ host ++ rest) transport =
     (host, if decide (transport = "httpsmux" \/ transport = "wssmux") then "443" else "80")).
Proof.
  intros Hs Hr Hh Hp Hne.
  assert (Hh1 : free_of ["["; "]"]%char host)
    by (repeat constructor; apply (free_of_in _ _ _ Hh); set_solver).
  assert (Hp1 : free_of [":"; "["; "]"]%char port)
    by (repeat constructor; apply (free_of_in _ _ _ Hp); set_solver).
  assert (Hhs := free_of_in _ _ "/" Hh ltac:(set_solver)).
  assert (Hps := free_of_in _ _ "/" Hp ltac:(set_solver)).
  split; [|intros Hc; split].
  - rewrite parseAddr_url, SplitHostPort_bracketed; try done.
    + rewrite !has_char_app, Hhs, Hps. done.
    + unfold bare_schemes. cbn. set_solver.
  - rewrite parseAddr_url, SplitHostPort_plain; try done.
    + by constructor.
    + rewrite !has_char_app, Hhs, Hps. done.
    + intros [h Hb]%bare_schemes_colon. change (":" ++ port) with (String ":" port) in Hb.
      rewrite cut_char_app in Hb by done. by simplify_eq.
  - rewrite parseAddr_url; try done.
    + pose proof (SplitHostPort_no_colon host Hc). by destruct (SplitHostPort host).
    + intros [h Hb]%bare_schemes_colon. apply cut_char_none in Hc. congruence.
Qed.

Lemma parseAddr_spec_witness :
  parseAddr "https://example.com:2020/tunnel" "httpsmux" = ("example.com", "2020") /\
  parseAddr "https://example.com/tunnel" "httpsmux" = ("example.com", "443").
Proof.
  refine (proj2 (parseAddr_spec "https://" "example.com" "2020" "/tunnel" "httpsmux"
    _ _ _ _ _) eq_refl).
  - unfold schemes. set_solver.
  - right. by exists "tunnel".
  - repeat constructor.
  - repeat constructor.
  - discriminate.
Defined.

(** A bracketed IPv6 address without a port cannot be dialled: [parseAddr]
    keeps the brackets in the host, [JoinHostPort] adds a second pair, and the
    result has no parse as host and port. *)
Theorem parseAddr_bracketed_no_port (scheme host rest transport : string) :
  scheme ∈ EmptyString :: schemes -> url_rest rest ->
  free_of ["["; "]"; "/"]%char host -> has_char ":" host = true ->
  let '(h, p) := parseAddr (scheme ++ ("[" ++ host ++ "]") ++ rest) transport in
  h = "[" ++ host ++ "]" /\ is_ok (SplitHostPort (JoinHostPort h p)) = false.
Proof.
  intros Hs Hr Hh Hc.
  assert (Hsl := free_of_in _ _ "/" Hh ltac:(set_solver)).
  assert (Hcl := free_of_in _ _ "]" Hh ltac:(set_solver)).
  assert (Hcut : forall x r, has_char "]" x = false -> cut "]" (x ++ "]" ++ r) = Some (x, r))
    by (intros; by apply cut_char_app).
  rewrite parseAddr_url; try done.
  2: { rewrite !has_char_app, Hsl. done. }
  2: { unfold bare_schemes. cbn. set_solver. }
  assert (Hsp : is_ok (SplitHostPort ("[" ++ host ++ "]")) = false).
  { unfold SplitHostPort. destruct (cut_last ":" _) as [[b p]|]; [|done].
    rewrite HasPrefix_app. change ("[" ++ host ++ "]") with (("[" ++ host) ++ "]" ++ "").
    rewrite Hcut by (by rewrite has_char_app, Hcl). done. }
  destruct (SplitHostPort ("[" ++ host ++ "]")) as [|e]; [done|]. split; [done|].
  assert (Hport : has_char ":" (default_port transport) = false)
    by (unfold default_port; by case_decide).
  unfold JoinHostPort. rewrite !has_char_app, Hc, orb_true_r. cbn [orb].
  unfold SplitHostPort.
  replace ("[" ++ ("[" ++ host ++ "]") ++ "]:" ++ default_port transport)
    with (("[[" ++ host ++ "]]") ++ String ":" (default_port transport))
    by (cbn; by rewrite <- !sapp_assoc).
  rewrite cut_last_app by done.
  replace (("[[" ++ host ++ "]]") ++ String ":" (default_port transport))
    with (("[[" ++ host) ++ "]" ++ "]:" ++ default_port transport)
    by (cbn; by rewrite <- !sapp_assoc).
  rewrite Hcut by (by rewrite has_char_app, Hcl).
  change (HasPrefix _ "[") with (HasPrefix ("[" ++ "[" ++ host ++ "]" ++ "]:" ++ default_port transport) "[").
  rewrite HasPrefix_app, decide_False by done.
  rewrite !slength_app, (proj2 (Nat.eqb_neq _ _)) by (cbn; lia). done.
Qed.

Lemma parseAddr_bracketed_no_port_witness :
  parseAddr "[::1]" "httpsmux" = ("[::1]", "443") /\
  is_ok (SplitHostPort (JoinHostPort "[::1]" "443")) = false.
Proof.
  split; [reflexivity|].
  refine (proj2 (parseAddr_bracketed_no_port "" "::1" "" "httpsmux" _ _ _ _)).
  - unfold schemes. set_solver.
  - by left.
  - repeat constructor.
  - reflexivity.
Defined.


(** [SplitMap] accepts exactly the strings with one arrow between two parts
    that are not blank, and returns the trimmed parts, with [0.0.0.0:] in front
    of a bind part without a colon. *)
Theorem SplitMap_spec (s bind target : string) :
  SplitMap s = Some (bind, target) <->
  exists p0 p1,
    s = p0 ++ "->" ++ p1 /\ Contains p0 "->" = false /\ Contains p1 "->" = false /\
    TrimSpace p0 <> EmptyString /\ TrimSpace p1 <> EmptyString /\
    bind = full_bind (TrimSpace p0) /\ target = TrimSpace p1.
Proof.
  split.
  - unfold SplitMap. destruct (Split s "->") as [|p0 [|p1 [|]]] eqn:E; try done.
    apply Split_two in E as (-> & H0 & H1). rewrite Contains_char.
    case_decide as Hd; [done|]. intros [= <- <-]. exists p0, p1.
    rewrite !Contains_cut_none. apply Decidable.not_or in Hd as [??]. done.
  - intros (p0 & p1 & -> & H0 & H1 & Hb & Ht & -> & ->). by apply SplitMap_arrow.
Qed.
