(* ===== verification/ConfigTypes.v ===== *)
(** * Configuration data

    The structs that [LoadConfig] fills and the other components read, field by
    field.  A Go [int] field is a [Z]; the [float64] field [burst_chance] is a
    binary64 value of [SpecFloat].  Each field name carries a prefix for its
    struct, because several structs share field names. *)

From S2P Require Import Prelude.
From Stdlib Require Export Floats.SpecFloat.

(** [config.go DNSConfig] *)
Record DNSConfig := mkDNSConfig {
  DNS_Enabled : bool;
  DNS_Listen : string;
  DNS_Upstream : string
}.
#[export] Instance eta_DNSConfig : Eta DNSConfig := fun r =>
  mkDNSConfig r.(DNS_Enabled) r.(DNS_Listen) r.(DNS_Upstream).
Definition zero_DNSConfig : DNSConfig :=
  mkDNSConfig false EmptyString EmptyString.

(** [config.go PathConfig] *)
Record PathConfig := mkPathConfig {
  Path_Transport : string;
  Path_Addr : string;
  Path_ConnectionPool : Z;
  Path_AggressivePool : bool;
  Path_RetryInterval : Z;
  Path_DialTimeout : Z
}.
#[export] Instance eta_PathConfig : Eta PathConfig := fun r =>
  mkPathConfig r.(Path_Transport) r.(Path_Addr) r.(Path_ConnectionPool)
    r.(Path_AggressivePool) r.(Path_RetryInterval) r.(Path_DialTimeout).
Definition zero_PathConfig : PathConfig :=
  mkPathConfig EmptyString EmptyString 0 false 0 0.

(** [config.go DaggerMap] *)
Record DaggerMap := mkDaggerMap {
  Map_Type : string;
  Map_Bind : string;
  Map_Target : string
}.
#[export] Instance eta_DaggerMap : Eta DaggerMap := fun r =>
  mkDaggerMap r.(Map_Type) r.(Map_Bind) r.(Map_Target).
Definition zero_DaggerMap : DaggerMap :=
  mkDaggerMap EmptyString EmptyString EmptyString.

(** [config.go SmuxConfig] *)
Record SmuxConfig := mkSmuxConfig {
  Smux_KeepAlive : Z;
  Smux_MaxRecv : Z;
  Smux_MaxStream : Z;
  Smux_FrameSize : Z;
  Smux_Version : Z
}.
#[export] Instance eta_SmuxConfig : Eta SmuxConfig := fun r =>
  mkSmuxConfig r.(Smux_KeepAlive) r.(Smux_MaxRecv) r.(Smux_MaxStream)
    r.(Smux_FrameSize) r.(Smux_Version).
Definition zero_SmuxConfig : SmuxConfig :=
  mkSmuxConfig 0 0 0 0 0.

(** [config.go AdvancedConfig] *)
Record AdvancedConfig := mkAdvancedConfig {
  Adv_TCPNoDelay : bool;
  Adv_TCPKeepAlive : Z;
  Adv_TCPReadBuffer : Z;
  Adv_TCPWriteBuffer : Z;
  Adv_WebSocketReadBuffer : Z;
  Adv_WebSocketWriteBuffer : Z;
  Adv_WebSocketCompression : bool;
  Adv_CleanupInterval : Z;
  Adv_SessionTimeout : Z;
  Adv_ConnectionTimeout : Z;
  Adv_StreamTimeout : Z;
  Adv_MaxConnections : Z;
  Adv_MaxUDPFlows : Z;
  Adv_UDPFlowTimeout : Z;
  Adv_UDPBufferSize : Z
}.
#[export] Instance eta_AdvancedConfig : Eta AdvancedConfig := fun r =>
  mkAdvancedConfig r.(Adv_TCPNoDelay) r.(Adv_TCPKeepAlive) r.(Adv_TCPReadBuffer)
    r.(Adv_TCPWriteBuffer) r.(Adv_WebSocketReadBuffer) r.(Adv_WebSocketWriteBuffer)
    r.(Adv_WebSocketCompression) r.(Adv_CleanupInterval) r.(Adv_SessionTimeout)
    r.(Adv_ConnectionTimeout) r.(Adv_StreamTimeout) r.(Adv_MaxConnections)
    r.(Adv_MaxUDPFlows) r.(Adv_UDPFlowTimeout) r.(Adv_UDPBufferSize).
Definition zero_AdvancedConfig : AdvancedConfig :=
  mkAdvancedConfig false 0 0 0 0 0 false 0 0 0 0 0 0 0 0.

(** [config.go HTTPMimicCompat] *)
Record HTTPMimicCompat := mkHTTPMimicCompat {
  HM_FakeDomain : string;
  HM_FakePath : string;
  HM_UserAgent : string;
  HM_ChunkedEncoding : bool;
  HM_SessionCookie : bool;
  HM_CustomHeaders : list string
}.
#[export] Instance eta_HTTPMimicCompat : Eta HTTPMimicCompat := fun r =>
  mkHTTPMimicCompat r.(HM_FakeDomain) r.(HM_FakePath) r.(HM_UserAgent)
    r.(HM_ChunkedEncoding) r.(HM_SessionCookie) r.(HM_CustomHeaders).
Definition zero_HTTPMimicCompat : HTTPMimicCompat :=
  mkHTTPMimicCompat EmptyString EmptyString EmptyString false false [].

(** [config.go ObfsCompat] *)
Record ObfsCompat := mkObfsCompat {
  OC_Enabled : bool;
  OC_MinPadding : Z;
  OC_MaxPadding : Z;
  OC_MinDelayMS : Z;
  OC_MaxDelayMS : Z;
  OC_BurstChance : spec_float
}.
#[export] Instance eta_ObfsCompat : Eta ObfsCompat := fun r =>
  mkObfsCompat r.(OC_Enabled) r.(OC_MinPadding) r.(OC_MaxPadding) r.(OC_MinDelayMS)
    r.(OC_MaxDelayMS) r.(OC_BurstChance).
Definition zero_ObfsCompat : ObfsCompat :=
  mkObfsCompat false 0 0 0 0 (S754_zero false).

(** [mimic.go MimicConfig] *)
Record MimicConfig := mkMimicConfig {
  Mimic_FakeDomain : string;
  Mimic_FakePath : string;
  Mimic_UserAgent : string;
  Mimic_CustomHeaders : list string;
  Mimic_SessionCookie : bool;
  Mimic_Chunked : bool
}.
#[export] Instance eta_MimicConfig : Eta MimicConfig := fun r =>
  mkMimicConfig r.(Mimic_FakeDomain) r.(Mimic_FakePath) r.(Mimic_UserAgent)
    r.(Mimic_CustomHeaders) r.(Mimic_SessionCookie) r.(Mimic_Chunked).
Definition zero_MimicConfig : MimicConfig :=
  mkMimicConfig EmptyString EmptyString EmptyString [] false false.

(** [obfuscation.go ObfsConfig] *)
Record ObfsConfig := mkObfsConfig {
  Obfs_Enabled : bool;
  Obfs_MinPadding : Z;
  Obfs_MaxPadding : Z;
  Obfs_MinDelayMS : Z;
  Obfs_MaxDelayMS : Z;
  Obfs_BurstChance : Z
}.
#[export] Instance eta_ObfsConfig : Eta ObfsConfig := fun r =>
  mkObfsConfig r.(Obfs_Enabled) r.(Obfs_MinPadding) r.(Obfs_MaxPadding)
    r.(Obfs_MinDelayMS) r.(Obfs_MaxDelayMS) r.(Obfs_BurstChance).
Definition zero_ObfsConfig : ObfsConfig :=
  mkObfsConfig false 0 0 0 0 0.

(** [tls_fragment.go FragmentConfig] *)
Record FragmentConfig := mkFragmentConfig {
  Frag_Enabled : bool;
  Frag_MinSize : Z;
  Frag_MaxSize : Z;
  Frag_MinDelay : Z;
  Frag_MaxDelay : Z
}.
#[export] Instance eta_FragmentConfig : Eta FragmentConfig := fun r =>
  mkFragmentConfig r.(Frag_Enabled) r.(Frag_MinSize) r.(Frag_MaxSize)
    r.(Frag_MinDelay) r.(Frag_MaxDelay).
Definition zero_FragmentConfig : FragmentConfig :=
  mkFragmentConfig false 0 0 0 0.

(** [dashboard.go DashboardConfig] *)
Record DashboardConfig := mkDashboardConfig {
  Dash_Enabled : bool;
  Dash_Listen : string;
  Dash_User : string;
  Dash_Pass : string;
  Dash_SessionSecret : string
}.
#[export] Instance eta_DashboardConfig : Eta DashboardConfig := fun r =>
  mkDashboardConfig r.(Dash_Enabled) r.(Dash_Listen) r.(Dash_User) r.(Dash_Pass)
    r.(Dash_SessionSecret).
Definition zero_DashboardConfig : DashboardConfig :=
  mkDashboardConfig false EmptyString EmptyString EmptyString EmptyString.

(** [config.go Config.Forward (an anonymous struct)] *)
Record ForwardConfig := mkForwardConfig {
  Fwd_TCP : list string;
  Fwd_UDP : list string
}.
#[export] Instance eta_ForwardConfig : Eta ForwardConfig := fun r =>
  mkForwardConfig r.(Fwd_TCP) r.(Fwd_UDP).
Definition zero_ForwardConfig : ForwardConfig :=
  mkForwardConfig [] [].

(** [config.go Config] *)
Record Config := mkConfig {
  cfg_Mode : string;
  cfg_Listen : string;
  cfg_Transport : string;
  cfg_PSK : string;
  cfg_Profile : string;
  cfg_Verbose : bool;
  cfg_CertFile : string;
  cfg_KeyFile : string;
  cfg_MaxSessions : Z;
  cfg_Heartbeat : Z;
  cfg_SkipTLSVerify : bool;
  cfg_Compression : string;
  cfg_NumConnections : Z;
  cfg_EnableDecoy : bool;
  cfg_DecoyInterval : Z;
  cfg_EmbedFakeHeaders : bool;
  cfg_Maps : list DaggerMap;
  cfg_Paths : list PathConfig;
  cfg_Smux : SmuxConfig;
  cfg_Advanced : AdvancedConfig;
  cfg_Obfuscation : ObfsCompat;
  cfg_HTTPMimic : HTTPMimicCompat;
  cfg_Fragment : FragmentConfig;
  cfg_ServerURL : string;
  cfg_SessionID : string;
  cfg_Forward : ForwardConfig;
  cfg_Mimic : MimicConfig;
  cfg_Obfs : ObfsConfig;
  cfg_SessionTimeout : Z;
  cfg_DNS : DNSConfig;
  cfg_Dashboard : DashboardConfig
}.
#[export] Instance eta_Config : Eta Config := fun r =>
  mkConfig r.(cfg_Mode) r.(cfg_Listen) r.(cfg_Transport) r.(cfg_PSK) r.(cfg_Profile)
    r.(cfg_Verbose) r.(cfg_CertFile) r.(cfg_KeyFile) r.(cfg_MaxSessions)
    r.(cfg_Heartbeat) r.(cfg_SkipTLSVerify) r.(cfg_Compression) r.(cfg_NumConnections)
    r.(cfg_EnableDecoy) r.(cfg_DecoyInterval) r.(cfg_EmbedFakeHeaders) r.(cfg_Maps)
    r.(cfg_Paths) r.(cfg_Smux) r.(cfg_Advanced) r.(cfg_Obfuscation) r.(cfg_HTTPMimic)
    r.(cfg_Fragment) r.(cfg_ServerURL) r.(cfg_SessionID) r.(cfg_Forward) r.(cfg_Mimic)
    r.(cfg_Obfs) r.(cfg_SessionTimeout) r.(cfg_DNS) r.(cfg_Dashboard).
Definition zero_Config : Config :=
  mkConfig EmptyString EmptyString EmptyString EmptyString EmptyString false
    EmptyString EmptyString 0 0 false EmptyString 0 false 0 false [] []
    zero_SmuxConfig zero_AdvancedConfig zero_ObfsCompat zero_HTTPMimicCompat
    zero_FragmentConfig EmptyString EmptyString zero_ForwardConfig zero_MimicConfig
    zero_ObfsConfig 0 zero_DNSConfig zero_DashboardConfig.

(** ** Extensionality

    Records are equal when their fields are. *)
Ltac record_ext := intros r s; destruct r, s; cbn; intros; subst; reflexivity.

Lemma PathConfig_ext : forall r s : PathConfig,
  r.(Path_Transport) = s.(Path_Transport) -> r.(Path_Addr) = s.(Path_Addr) ->
  r.(Path_ConnectionPool) = s.(Path_ConnectionPool) ->
  r.(Path_AggressivePool) = s.(Path_AggressivePool) ->
  r.(Path_RetryInterval) = s.(Path_RetryInterval) ->
  r.(Path_DialTimeout) = s.(Path_DialTimeout) -> r = s.
Proof. record_ext. Qed.

Lemma SmuxConfig_ext : forall r s : SmuxConfig,
  r.(Smux_KeepAlive) = s.(Smux_KeepAlive) -> r.(Smux_MaxRecv) = s.(Smux_MaxRecv) ->
  r.(Smux_MaxStream) = s.(Smux_MaxStream) ->
  r.(Smux_FrameSize) = s.(Smux_FrameSize) -> r.(Smux_Version) = s.(Smux_Version) ->
  r = s.
Proof. record_ext. Qed.

Lemma AdvancedConfig_ext : forall r s : AdvancedConfig,
  r.(Adv_TCPNoDelay) = s.(Adv_TCPNoDelay) ->
  r.(Adv_TCPKeepAlive) = s.(Adv_TCPKeepAlive) ->
  r.(Adv_TCPReadBuffer) = s.(Adv_TCPReadBuffer) ->
  r.(Adv_TCPWriteBuffer) = s.(Adv_TCPWriteBuffer) ->
  r.(Adv_WebSocketReadBuffer) = s.(Adv_WebSocketReadBuffer) ->
  r.(Adv_WebSocketWriteBuffer) = s.(Adv_WebSocketWriteBuffer) ->
  r.(Adv_WebSocketCompression) = s.(Adv_WebSocketCompression) ->
  r.(Adv_CleanupInterval) = s.(Adv_CleanupInterval) ->
  r.(Adv_SessionTimeout) = s.(Adv_SessionTimeout) ->
  r.(Adv_ConnectionTimeout) = s.(Adv_ConnectionTimeout) ->
  r.(Adv_StreamTimeout) = s.(Adv_StreamTimeout) ->
  r.(Adv_MaxConnections) = s.(Adv_MaxConnections) ->
  r.(Adv_MaxUDPFlows) = s.(Adv_MaxUDPFlows) ->
  r.(Adv_UDPFlowTimeout) = s.(Adv_UDPFlowTimeout) ->
  r.(Adv_UDPBufferSize) = s.(Adv_UDPBufferSize) -> r = s.
Proof. record_ext. Qed.

Lemma HTTPMimicCompat_ext : forall r s : HTTPMimicCompat,
  r.(HM_FakeDomain) = s.(HM_FakeDomain) -> r.(HM_FakePath) = s.(HM_FakePath) ->
  r.(HM_UserAgent) = s.(HM_UserAgent) ->
  r.(HM_ChunkedEncoding) = s.(HM_ChunkedEncoding) ->
  r.(HM_SessionCookie) = s.(HM_SessionCookie) ->
  r.(HM_CustomHeaders) = s.(HM_CustomHeaders) -> r = s.
Proof. record_ext. Qed.

Lemma ObfsCompat_ext : forall r s : ObfsCompat,
  r.(OC_Enabled) = s.(OC_Enabled) -> r.(OC_MinPadding) = s.(OC_MinPadding) ->
  r.(OC_MaxPadding) = s.(OC_MaxPadding) -> r.(OC_MinDelayMS) = s.(OC_MinDelayMS) ->
  r.(OC_MaxDelayMS) = s.(OC_MaxDelayMS) -> r.(OC_BurstChance) = s.(OC_BurstChance) ->
  r = s.
Proof. record_ext. Qed.

Lemma MimicConfig_ext : forall r s : MimicConfig,
  r.(Mimic_FakeDomain) = s.(Mimic_FakeDomain) ->
  r.(Mimic_FakePath) = s.(Mimic_FakePath) ->
  r.(Mimic_UserAgent) = s.(Mimic_UserAgent) ->
  r.(Mimic_CustomHeaders) = s.(Mimic_CustomHeaders) ->
  r.(Mimic_SessionCookie) = s.(Mimic_SessionCookie) ->
  r.(Mimic_Chunked) = s.(Mimic_Chunked) -> r = s.
Proof. record_ext. Qed.

Lemma ObfsConfig_ext : forall r s : ObfsConfig,
  r.(Obfs_Enabled) = s.(Obfs_Enabled) -> r.(Obfs_MinPadding) = s.(Obfs_MinPadding) ->
  r.(Obfs_MaxPadding) = s.(Obfs_MaxPadding) ->
  r.(Obfs_MinDelayMS) = s.(Obfs_MinDelayMS) ->
  r.(Obfs_MaxDelayMS) = s.(Obfs_MaxDelayMS) ->
  r.(Obfs_BurstChance) = s.(Obfs_BurstChance) -> r = s.
Proof. record_ext. Qed.

Lemma FragmentConfig_ext : forall r s : FragmentConfig,
  r.(Frag_Enabled) = s.(Frag_Enabled) -> r.(Frag_MinSize) = s.(Frag_MinSize) ->
  r.(Frag_MaxSize) = s.(Frag_MaxSize) -> r.(Frag_MinDelay) = s.(Frag_MinDelay) ->
  r.(Frag_MaxDelay) = s.(Frag_MaxDelay) -> r = s.
Proof. record_ext. Qed.

Lemma ForwardConfig_ext : forall r s : ForwardConfig,
  r.(Fwd_TCP) = s.(Fwd_TCP) -> r.(Fwd_UDP) = s.(Fwd_UDP) -> r = s.
Proof. record_ext. Qed.

Lemma Config_ext : forall r s : Config,
  r.(cfg_Mode) = s.(cfg_Mode) -> r.(cfg_Listen) = s.(cfg_Listen) ->
  r.(cfg_Transport) = s.(cfg_Transport) -> r.(cfg_PSK) = s.(cfg_PSK) ->
  r.(cfg_Profile) = s.(cfg_Profile) -> r.(cfg_Verbose) = s.(cfg_Verbose) ->
  r.(cfg_CertFile) = s.(cfg_CertFile) -> r.(cfg_KeyFile) = s.(cfg_KeyFile) ->
  r.(cfg_MaxSessions) = s.(cfg_MaxSessions) ->
  r.(cfg_Heartbeat) = s.(cfg_Heartbeat) ->
  r.(cfg_SkipTLSVerify) = s.(cfg_SkipTLSVerify) ->
  r.(cfg_Compression) = s.(cfg_Compression) ->
  r.(cfg_NumConnections) = s.(cfg_NumConnections) ->
  r.(cfg_EnableDecoy) = s.(cfg_EnableDecoy) ->
  r.(cfg_DecoyInterval) = s.(cfg_DecoyInterval) ->
  r.(cfg_EmbedFakeHeaders) = s.(cfg_EmbedFakeHeaders) ->
  r.(cfg_Maps) = s.(cfg_Maps) -> r.(cfg_Paths) = s.(cfg_Paths) ->
  r.(cfg_Smux) = s.(cfg_Smux) -> r.(cfg_Advanced) = s.(cfg_Advanced) ->
  r.(cfg_Obfuscation) = s.(cfg_Obfuscation) ->
  r.(cfg_HTTPMimic) = s.(cfg_HTTPMimic) -> r.(cfg_Fragment) = s.(cfg_Fragment) ->
  r.(cfg_ServerURL) = s.(cfg_ServerURL) -> r.(cfg_SessionID) = s.(cfg_SessionID) ->
  r.(cfg_Forward) = s.(cfg_Forward) -> r.(cfg_Mimic) = s.(cfg_Mimic) ->
  r.(cfg_Obfs) = s.(cfg_Obfs) -> r.(cfg_SessionTimeout) = s.(cfg_SessionTimeout) ->
  r.(cfg_DNS) = s.(cfg_DNS) -> r.(cfg_Dashboard) = s.(cfg_Dashboard) -> r = s.
Proof. record_ext. Qed.
