(* ===== verification/Config.v ===== *)
(** * Configuration loading ([config.go])

    [LoadConfig] unmarshals YAML over preset booleans, normalises strings, applies
    the defaults, the profile and the legacy aliases, and validates.  The YAML
    library is the parameter [yaml_Unmarshal]; reading the file is an argument. *)

From S2P Require Import Prelude GoStrings NetAddr ConfigTypes.
From Stdlib Require Import Init.Byte Floats.SpecFloat.

Local Open Scope string_scope.
Local Open Scope list_scope.
Local Open Scope Z_scope.

(** ** Numbers *)

(** The binary64 constant 1000, and [int(f * 1000)].  A conversion that does not
    fit an [int64] gives the smallest one, as it does on amd64 (Go leaves it to
    the implementation). *)
Definition float_1000 : spec_float := S754_finite false 8796093022208000 (-43).
Definition float_to_int (f : spec_float) : Z :=
  match f with
  | S754_zero _ => 0
  | S754_infinity _ | S754_nan => - 2 ^ 63
  | S754_finite sign m e =>
      let mag := if 0 <=? e then Z.shiftl (Zpos m) e else Z.pos m / 2 ^ (- e) in
      let v := if sign then - mag else mag in
      if (- 2 ^ 63 <=? v) && (v <? 2 ^ 63) then v else - 2 ^ 63
  end.
Definition burst_to_int (f : spec_float) : Z := float_to_int (SFmul 53 1024 f float_1000).

(** The other shapes of conditional assignment: [if v < lo { v = lo }],
    [if v > hi { v = hi }], [if v <= 0 || v > hi { v = hi }]. *)
Definition at_least (lo v : Z) : Z := if v <? lo then lo else v.
Definition at_most (hi v : Z) : Z := if hi <? v then hi else v.
Definition within (hi v : Z) : Z := if (v <=? 0) || (hi <? v) then hi else v.

(** ** Defaults *)

(** [normalizePath(p)] *)
Definition normalizePath (p : string) : string :=
  let p := TrimSpace p in
  if decide (p = EmptyString) then EmptyString
  else if HasPrefix p "/" then p else String.append "/" p.

Section WithUnicode.
Context `{UnicodeTables}.

(** [applyBaseDefaults(c)] *)
Definition applyBaseDefaults (c : Config) : Config :=
  let c := c <| cfg_Profile ::= str_or "balanced" |>
             <| cfg_Heartbeat ::= pos_or 10 |>
             <| cfg_SessionTimeout ::= pos_or 30 |> in
  let c := c <| cfg_SessionTimeout ::= fun v =>
               if 0 <? c.(cfg_Advanced).(Adv_SessionTimeout)
               then c.(cfg_Advanced).(Adv_SessionTimeout) else v |> in
  let c := c <| cfg_Smux # Smux_KeepAlive ::= pos_or 10 |>
             <| cfg_Smux # Smux_MaxRecv ::= pos_or 8388608 |>
             <| cfg_Smux # Smux_MaxStream ::= pos_or 8388608 |>
             <| cfg_Smux # Smux_FrameSize ::= pos_or 32768 |>
             <| cfg_Smux # Smux_Version ::= pos_or 2 |>
             <| cfg_HTTPMimic # HM_FakeDomain ::= str_or "www.google.com" |>
             <| cfg_HTTPMimic # HM_FakePath ::= str_or "/search" |>
             <| cfg_HTTPMimic # HM_FakePath ::= normalizePath |>
             <| cfg_HTTPMimic # HM_UserAgent ::=
                  str_or "Mozilla/5.0 (Windows NT 10.0; Win64; x64) AppleWebKit/537.36" |>
             <| cfg_Obfuscation # OC_MinPadding ::= pos_or 4 |>
             <| cfg_Obfuscation # OC_MaxPadding ::= pos_or 32 |>
             <| cfg_NumConnections ::= pos_or 4 |>
             <| cfg_DecoyInterval ::= pos_or 5 |>
             <| cfg_Advanced # Adv_TCPKeepAlive ::= pos_or 15 |>
             <| cfg_Advanced # Adv_TCPNoDelay ::= fun b => if negb b then true else b |>
             <| cfg_Fragment # Frag_MinSize ::= pos_or 64 |>
             <| cfg_Fragment # Frag_MaxSize ::= pos_or 191 |>
             <| cfg_Fragment # Frag_MinDelay ::= pos_or 1 |>
             <| cfg_Fragment # Frag_MaxDelay ::= pos_or 2 |> in
  let transport := ToLower c.(cfg_Transport) in
  c <| cfg_Fragment # Frag_Enabled ::= fun b =>
         if negb b && bool_decide (transport = "httpsmux" \/ transport = "wssmux")
         then true else b |>.

(** ** Profiles *)

(** The loops over [c.Paths] of the four profiles. *)
Definition aggressive_path (p : PathConfig) : PathConfig :=
  p <| Path_ConnectionPool ::= at_least 4 |>
    <| Path_AggressivePool := true |>
    <| Path_RetryInterval ::= within 2 |>
    <| Path_DialTimeout ::= pos_or 10 |>.

Definition profile_path (pool retry : Z) (p : PathConfig) : PathConfig :=
  p <| Path_ConnectionPool ::= pos_or pool |>
    <| Path_RetryInterval ::= pos_or retry |>
    <| Path_DialTimeout ::= pos_or 10 |>.

Definition aggressive_profile (c : Config) : Config :=
  c <| cfg_Fragment # Frag_Enabled := true |>
    <| cfg_Obfuscation # OC_Enabled := true |>
    <| cfg_Smux # Smux_KeepAlive ::= within 5 |>
    <| cfg_Smux # Smux_FrameSize ::= at_least 32768 |>
    <| cfg_Smux # Smux_MaxRecv ::= at_least 8388608 |>
    <| cfg_Smux # Smux_MaxStream ::= at_least 8388608 |>
    <| cfg_Advanced # Adv_TCPReadBuffer ::= at_least 8388608 |>
    <| cfg_Advanced # Adv_TCPWriteBuffer ::= at_least 8388608 |>
    <| cfg_Obfuscation # OC_MinDelayMS := 0 |>
    <| cfg_Obfuscation # OC_MaxDelayMS := 0 |>
    <| cfg_Obfuscation # OC_MaxPadding ::= at_most 64 |>
    <| cfg_HTTPMimic # HM_ChunkedEncoding := false |>
    <| cfg_Compression := "snappy" |>
    <| cfg_Paths ::= map aggressive_path |>.

Definition stable_profile (c : Config) : Config :=
  c <| cfg_Smux # Smux_KeepAlive ::= within 15 |>
    <| cfg_Smux # Smux_FrameSize ::= pos_or 32768 |>
    <| cfg_Smux # Smux_MaxRecv ::= within 2097152 |>
    <| cfg_Smux # Smux_MaxStream ::= within 1048576 |>
    <| cfg_Obfuscation # OC_MinDelayMS := 0 |>
    <| cfg_Obfuscation # OC_MaxDelayMS := 0 |>
    <| cfg_Paths ::= map (profile_path 2 3) |>.

Definition latency_profile (c : Config) : Config :=
  c <| cfg_Smux # Smux_KeepAlive ::= within 5 |>
    <| cfg_Smux # Smux_FrameSize ::= at_least 32768 |>
    <| cfg_Obfuscation # OC_MinDelayMS := 0 |>
    <| cfg_Obfuscation # OC_MaxDelayMS := 0 |>
    <| cfg_Paths ::= map (profile_path 3 2) |>.

Definition balanced_profile (c : Config) : Config :=
  c <| cfg_Paths ::= map (profile_path 2 3) |>.

(** [applyProfile(c)]: the switch, and the case it takes. *)
Definition chosen_profile (p : string) : Config -> Config :=
  if decide (p = "aggressive") then aggressive_profile
  else if decide (p = "stable") then stable_profile
  else if decide (p = "latency") then latency_profile
  else balanced_profile.
Definition applyProfile (c : Config) : Config := chosen_profile c.(cfg_Profile) c.

(** ** Aliases *)

(** [syncAliases(c)] *)
Definition syncAliases (c : Config) : Config :=
  let hm := c.(cfg_HTTPMimic) in
  let oc := c.(cfg_Obfuscation) in
  c <| cfg_Mimic # Mimic_FakeDomain ::= str_or hm.(HM_FakeDomain) |>
    <| cfg_Mimic # Mimic_FakePath ::= str_or hm.(HM_FakePath) |>
    <| cfg_Mimic # Mimic_UserAgent ::= str_or hm.(HM_UserAgent) |>
    <| cfg_Mimic # Mimic_CustomHeaders ::= fun l =>
         if (zlen l =? 0) && (0 <? zlen hm.(HM_CustomHeaders)) then hm.(HM_CustomHeaders) else l |>
    <| cfg_Mimic # Mimic_Chunked := hm.(HM_ChunkedEncoding) |>
    <| cfg_Mimic # Mimic_SessionCookie := hm.(HM_SessionCookie) |>
    <| cfg_Obfs # Obfs_Enabled ::= fun b => if negb b then oc.(OC_Enabled) else b |>
    <| cfg_Obfs # Obfs_MinPadding ::= pos_or oc.(OC_MinPadding) |>
    <| cfg_Obfs # Obfs_MaxPadding ::= pos_or oc.(OC_MaxPadding) |>
    <| cfg_Obfs # Obfs_MinDelayMS ::= pos_or oc.(OC_MinDelayMS) |>
    <| cfg_Obfs # Obfs_MaxDelayMS ::= pos_or oc.(OC_MaxDelayMS) |>
    <| cfg_Obfs # Obfs_BurstChance ::= pos_or (burst_to_int oc.(OC_BurstChance)) |>.

(** One round of the loop of [mapDaggerToLegacy]. *)
Definition map_entry (m : DaggerMap) : string :=
  String.append (TrimSpace m.(Map_Bind)) (String.append "->" (TrimSpace m.(Map_Target))).
Definition map_type (m : DaggerMap) : string := ToLower (TrimSpace m.(Map_Type)).

Definition add_map (f : ForwardConfig) (m : DaggerMap) : ForwardConfig :=
  let entry := map_entry m in
  if decide (map_type m = "udp") then f <| Fwd_UDP ::= fun l => l ++ [entry] |>
  else if decide (map_type m = "both") then
    f <| Fwd_TCP ::= fun l => l ++ [entry] |> <| Fwd_UDP ::= fun l => l ++ [entry] |>
  else f <| Fwd_TCP ::= fun l => l ++ [entry] |>.

(** [mapDaggerToLegacy(c)] *)
Definition mapDaggerToLegacy (c : Config) : Config :=
  c <| cfg_Forward ::= fun f =>
         if (zlen f.(Fwd_TCP) =? 0) && (zlen f.(Fwd_UDP) =? 0)
         then foldl add_map f c.(cfg_Maps) else f |>.

(** ** Validation *)

Definition valid_transports : list string :=
  ["tcpmux"; "httpmux"; "httpsmux"; "wsmux"; "wssmux"; ""].
Definition valid_compressions : list string := [""; "none"; "snappy"].

(** The index of the first path without an address. *)
Fixpoint blank_path (i : nat) (ps : list PathConfig) : option nat :=
  match ps with
  | [] => None
  | p :: ps =>
      if decide (TrimSpace p.(Path_Addr) = EmptyString) then Some i else blank_path (S i) ps
  end.

(** [Config.Validate()]: [None] is a nil error. *)
Definition Validate (c : Config) : option error :=
  if decide (c.(cfg_Mode) <> "server" /\ c.(cfg_Mode) <> "client") then
    Some (Errorf "invalid mode %q: expected 'server' or 'client'" [ArgStr c.(cfg_Mode)])
  else if decide (c.(cfg_Transport) ∉ valid_transports) then
    Some (Errorf "invalid transport %q: expected tcpmux/httpmux/httpsmux/wsmux/wssmux"
            [ArgStr c.(cfg_Transport)])
  else if decide (c.(cfg_Mode) = "server" /\ c.(cfg_Listen) = EmptyString) then
    Some (Errorf "server mode requires 'listen' address" [])
  else if decide (c.(cfg_Mode) = "client" /\ c.(cfg_ServerURL) = EmptyString /\ c.(cfg_Paths) = [])
  then Some (Errorf "client mode requires 'server_url' or 'paths'" [])
  else
    match (if decide (c.(cfg_Mode) = "client") then blank_path 0 c.(cfg_Paths) else None) with
    | Some i => Some (Errorf "paths[%d].addr is empty" [ArgInt (Z.of_nat i)])
    | None =>
        if negb (c.(cfg_Smux).(Smux_Version) =? 1) && negb (c.(cfg_Smux).(Smux_Version) =? 2) then
          Some (Errorf "invalid smux version %d: expected 1 or 2"
                  [ArgInt c.(cfg_Smux).(Smux_Version)])
        else if decide (c.(cfg_Compression) ∉ valid_compressions) then
          Some (Errorf "invalid compression %q: expected 'snappy' or 'none'"
                  [ArgStr c.(cfg_Compression)])
        else None
    end.

(** ** LoadConfig *)

(** The preset booleans, so that an explicit [false] in the file counts. *)
Definition preset_Config : Config :=
  zero_Config <| cfg_SkipTLSVerify := true |>
              <| cfg_EnableDecoy := true |>
              <| cfg_EmbedFakeHeaders := true |>
              <| cfg_HTTPMimic # HM_SessionCookie := true |>.

(** The string normalisation of [LoadConfig]. *)
Definition normalize_strings (c : Config) : Config :=
  let c := c <| cfg_Mode ::= fun s => ToLower (TrimSpace s) |>
             <| cfg_Transport ::= fun s => ToLower (TrimSpace s) |>
             <| cfg_Profile ::= fun s => ToLower (TrimSpace s) |>
             <| cfg_Listen ::= TrimSpace |>
             <| cfg_ServerURL ::= TrimSpace |>
             <| cfg_SessionID ::= TrimSpace |>
             <| cfg_SessionID ::= str_or "sess-default" |> in
  c <| cfg_Listen ::= fun l =>
         if decide (c.(cfg_Mode) = "server") then str_or "0.0.0.0:2020" l else l |>.

(** The four passes between normalisation and validation. *)
Definition finalize (c : Config) : Config :=
  syncAliases (mapDaggerToLegacy (applyProfile (applyBaseDefaults c))).

(** [LoadConfig(path)], where [file] is the result of [os.ReadFile]. *)
Definition LoadConfig (yaml_Unmarshal : list byte -> Config -> result Config)
    (file : result (list byte)) : result Config :=
  b ← file;
  c ← yaml_Unmarshal b preset_Config;
  let c := finalize (normalize_strings c) in
  match Validate c with
  | Some e => Err e
  | None => Ok c
  end.
End WithUnicode.

(** ** smux settings ([buildSmuxConfig] of [server.go]) *)

(** The fields of [smux.Config]; the library's defaults are a parameter. *)
Record SmuxSettings := mkSmuxSettings {
  sm_Version : Z;
  sm_KeepAliveInterval : Z;
  sm_KeepAliveTimeout : Z;
  sm_MaxFrameSize : Z;
  sm_MaxReceiveBuffer : Z;
  sm_MaxStreamBuffer : Z
}.
#[export] Instance eta_SmuxSettings : Eta SmuxSettings := fun r =>
  mkSmuxSettings r.(sm_Version) r.(sm_KeepAliveInterval) r.(sm_KeepAliveTimeout)
    r.(sm_MaxFrameSize) r.(sm_MaxReceiveBuffer) r.(sm_MaxStreamBuffer).

(** [buildSmuxConfig(cfg)] *)
Definition buildSmuxConfig (DefaultConfig : SmuxSettings) (cfg : Config) : SmuxSettings :=
  let s := cfg.(cfg_Smux) in
  let sc := DefaultConfig <| sm_Version := s.(Smux_Version) |>
                          <| sm_Version ::= fun v => if v <? 1 then 2 else v |>
                          <| sm_KeepAliveInterval := wrap64 (s.(Smux_KeepAlive) * Second) |>
                          <| sm_KeepAliveInterval ::= pos_or (10 * Second) |> in
  sc <| sm_KeepAliveTimeout := wrap64 (sc.(sm_KeepAliveInterval) * 6) |>
     <| sm_KeepAliveTimeout ::= at_least (30 * Second) |>
     <| sm_MaxReceiveBuffer ::= fun v => if 0 <? s.(Smux_MaxRecv) then s.(Smux_MaxRecv) else v |>
     <| sm_MaxStreamBuffer ::= fun v => if 0 <? s.(Smux_MaxStream) then s.(Smux_MaxStream) else v |>
     <| sm_MaxFrameSize ::= fun v => if 0 <? s.(Smux_FrameSize) then s.(Smux_FrameSize) else v |>.

(** ** Lemmas: conditional assignments *)

Lemma at_least_pos (lo v : Z) : 0 < lo -> 0 < at_least lo v.
Proof. unfold at_least. case_bool; lia. Qed.
Lemma at_least_ge (lo v : Z) : lo <= at_least lo v.
Proof. unfold at_least. case_bool; lia. Qed.
Lemma at_least_idemp (lo v : Z) : at_least lo (at_least lo v) = at_least lo v.
Proof. unfold at_least. repeat case_bool; lia. Qed.
Lemma at_most_pos (hi v : Z) : 0 < hi -> 0 < v -> 0 < at_most hi v.
Proof. unfold at_most. case_bool; lia. Qed.
Lemma at_most_le (hi v : Z) : at_most hi v <= hi.
Proof. unfold at_most. case_bool; lia. Qed.
Lemma at_most_idemp (hi v : Z) : at_most hi (at_most hi v) = at_most hi v.
Proof. unfold at_most. repeat case_bool; lia. Qed.
Lemma within_pos (hi v : Z) : 0 < hi -> 0 < within hi v.
Proof. unfold within. intros. repeat case_bool; cbn; lia. Qed.
Lemma within_le (hi v : Z) : within hi v <= hi.
Proof. unfold within. repeat case_bool; cbn; lia. Qed.
Lemma within_idemp (hi v : Z) : within hi (within hi v) = within hi v.
Proof.
  unfold within. destruct (Z.leb_spec v 0), (Z.ltb_spec hi v); cbn; repeat case_bool; cbn; lia.
Qed.
Lemma pos_or_same (d v : Z) : pos_or d (pos_or d v) = pos_or d v.
Proof. unfold pos_or. repeat case_bool; lia. Qed.

#[export] Hint Resolve at_least_pos at_least_ge at_most_pos at_most_le within_pos within_le
  : go.

(** Positivity of a nest of conditional assignments. *)
Ltac positive :=
  repeat first [ apply pos_or_pos | apply within_pos | apply at_least_pos
               | apply at_most_pos | apply str_or_ne ]; first [lia|done].

Lemma normalizePath_shape (p : string) :
  normalizePath p = EmptyString \/ HasPrefix (normalizePath p) "/" = true.
Proof.
  unfold normalizePath. case_decide; [by left|].
  destruct (HasPrefix (TrimSpace p) "/") eqn:E; right; [done|apply HasPrefix_app].
Qed.

(** ** Lemmas: what [finalize] establishes *)

Definition positive_path (p : PathConfig) : Prop :=
  0 < p.(Path_ConnectionPool) /\ 0 < p.(Path_RetryInterval) /\ 0 < p.(Path_DialTimeout).

(** Every setting that the rest of the program divides by, sleeps for or
    allocates is positive. *)
Definition positive_settings (c : Config) : Prop :=
  (0 < c.(cfg_Heartbeat) /\ 0 < c.(cfg_SessionTimeout) /\ 0 < c.(cfg_NumConnections) /\
   0 < c.(cfg_DecoyInterval)) /\
  (0 < c.(cfg_Smux).(Smux_KeepAlive) /\ 0 < c.(cfg_Smux).(Smux_MaxRecv) /\
   0 < c.(cfg_Smux).(Smux_MaxStream) /\ 0 < c.(cfg_Smux).(Smux_FrameSize) /\
   0 < c.(cfg_Smux).(Smux_Version)) /\
  (0 < c.(cfg_Advanced).(Adv_TCPKeepAlive) /\ c.(cfg_Advanced).(Adv_TCPNoDelay) = true) /\
  (0 < c.(cfg_Fragment).(Frag_MinSize) /\ 0 < c.(cfg_Fragment).(Frag_MaxSize) /\
   0 < c.(cfg_Fragment).(Frag_MinDelay) /\ 0 < c.(cfg_Fragment).(Frag_MaxDelay)) /\
  (0 < c.(cfg_Obfs).(Obfs_MinPadding) /\ 0 < c.(cfg_Obfs).(Obfs_MaxPadding)) /\
  (c.(cfg_Mimic).(Mimic_FakeDomain) <> EmptyString /\
   c.(cfg_Mimic).(Mimic_UserAgent) <> EmptyString) /\
  Forall positive_path c.(cfg_Paths).

Lemma aggressive_path_positive (p : PathConfig) : positive_path (aggressive_path p).
Proof. unfold positive_path; cbn. split; [|split]; positive. Qed.

Lemma profile_path_positive (pool retry : Z) (p : PathConfig) :
  0 < pool -> 0 < retry -> positive_path (profile_path pool retry p).
Proof. unfold positive_path; cbn. split; [|split]; positive. Qed.

Lemma Forall_map_all {A B} (P : B -> Prop) (f : A -> B) (l : list A) :
  (forall x, P (f x)) -> Forall P (map f l).
Proof. intros H. induction l; constructor; auto. Qed.

Section WithUnicode.
Context `{UnicodeTables}.

Lemma finalize_positive (c : Config) : positive_settings (finalize c).
Proof.
  unfold finalize, applyProfile, chosen_profile.
  repeat case_decide; unfold positive_settings; cbn;
    repeat match goal with |- _ /\ _ => split end;
    try (apply Forall_map_all; intros;
         first [ apply aggressive_path_positive | apply profile_path_positive; lia ]).
  all: try positive.
  all: repeat case_bool; unfold pos_or; repeat case_bool; try lia.
  all: destruct (Adv_TCPNoDelay _); done.
Qed.

(** *** Idempotence *)

Lemma aggressive_path_idemp (p : PathConfig) :
  aggressive_path (aggressive_path p) = aggressive_path p.
Proof.
  apply PathConfig_ext; cbn; rewrite ?at_least_idemp, ?within_idemp, ?pos_or_same; done.
Qed.

Lemma profile_path_idemp (pool retry : Z) (p : PathConfig) :
  profile_path pool retry (profile_path pool retry p) = profile_path pool retry p.
Proof. apply PathConfig_ext; cbn; by rewrite ?pos_or_same. Qed.

Lemma map_idemp {A} (f : A -> A) (l : list A) :
  (forall x, f (f x) = f x) -> map f (map f l) = map f l.
Proof. intros Hf. rewrite map_map. by apply map_ext. Qed.

Lemma normalizePath_Trimmed (p : string) : Trimmed (normalizePath p).
Proof.
  unfold normalizePath. case_decide; [rewrite <- H0; apply TrimSpace_Trimmed|].
  destruct (HasPrefix _ _); [|apply Trimmed_slash]; apply TrimSpace_Trimmed.
Qed.

Lemma normalizePath_idemp (p : string) : normalizePath (normalizePath p) = normalizePath p.
Proof.
  unfold normalizePath at 1. rewrite (Trimmed_TrimSpace_id _ (normalizePath_Trimmed p)).
  case_decide as Hd; [done|]. destruct (normalizePath_shape p) as [?|Hp]; [done|]. by rewrite Hp.
Qed.

Lemma normalizePath_ne (p : string) : TrimSpace p <> EmptyString -> normalizePath p <> EmptyString.
Proof. unfold normalizePath. intros Hp. rewrite decide_False by done. by destruct (HasPrefix _ _). Qed.

Lemma add_map_grows (f : ForwardConfig) (m : DaggerMap) :
  zlen f.(Fwd_TCP) + zlen f.(Fwd_UDP) < zlen (add_map f m).(Fwd_TCP) + zlen (add_map f m).(Fwd_UDP).
Proof. unfold add_map. repeat case_decide; cbn; rewrite ?zlen_app; unfold zlen; cbn; lia. Qed.

Lemma foldl_add_map_grows (ms : list DaggerMap) (f : ForwardConfig) :
  zlen f.(Fwd_TCP) + zlen f.(Fwd_UDP) + zlen ms <=
  zlen (foldl add_map f ms).(Fwd_TCP) + zlen (foldl add_map f ms).(Fwd_UDP).
Proof.
  revert f. induction ms as [|m ms IH]; intros f; cbn [foldl]; [rewrite zlen_nil; lia|].
  specialize (IH (add_map f m)). pose proof (add_map_grows f m). rewrite zlen_cons. lia.
Qed.

(** Explicit forwarding rules, once there, stay. *)
Definition fill_forward (ms : list DaggerMap) (f : ForwardConfig) : ForwardConfig :=
  if (zlen f.(Fwd_TCP) =? 0) && (zlen f.(Fwd_UDP) =? 0) then foldl add_map f ms else f.

Lemma fill_forward_idemp (ms : list DaggerMap) (f : ForwardConfig) :
  fill_forward ms (fill_forward ms f) = fill_forward ms f.
Proof.
  unfold fill_forward at 2 3. destruct (_ && _) eqn:E; unfold fill_forward; [|by rewrite E].
  pose proof (foldl_add_map_grows ms f).
  destruct (Z.eqb_spec (zlen (Fwd_TCP (foldl add_map f ms))) 0); [|done].
  destruct (Z.eqb_spec (zlen (Fwd_UDP (foldl add_map f ms))) 0); [|done].
  pose proof (zlen_nonneg (Fwd_TCP f)). pose proof (zlen_nonneg (Fwd_UDP f)).
  pose proof (zlen_nonneg ms). by rewrite (zlen_0_nil ms) by lia.
Qed.

(** [finalize] with the profile already chosen. *)
Definition passes (profile : Config -> Config) (c : Config) : Config :=
  syncAliases (mapDaggerToLegacy (profile (applyBaseDefaults c))).

Lemma finalize_passes (c : Config) :
  finalize c = passes (chosen_profile (str_or "balanced" c.(cfg_Profile))) c.
Proof.
  assert (Hp : cfg_Profile (applyBaseDefaults c) = str_or "balanced" (cfg_Profile c)) by reflexivity.
  unfold finalize, passes, applyProfile. by rewrite Hp.
Qed.

(** The default for the fake path survives a second pass. *)
Lemma fake_path_idemp (p : string) :
  p = EmptyString \/ TrimSpace p <> EmptyString ->
  normalizePath (str_or "/search" (normalizePath (str_or "/search" p))) =
  normalizePath (str_or "/search" p).
Proof.
  intros Hp. rewrite (str_or_keeps "/search" (normalizePath _)); [apply normalizePath_idemp|].
  apply normalizePath_ne. unfold str_or. by case_decide; destruct Hp as [->|Hp].
Qed.

Lemma copy_list_idemp {A} (a l : list A) :
  let copy l := if (zlen l =? 0) && (0 <? zlen a) then a else l in copy (copy l) = copy l.
Proof.
  cbn. destruct (Z.eqb_spec (zlen l) 0), (Z.ltb_spec 0 (zlen a)); cbn;
    repeat case_bool; cbn; try done; lia.
Qed.

(** Removes the second round of conditional assignments from one field. *)
Ltac simp_assign :=
  repeat first
    [ rewrite pos_or_same | rewrite within_idemp | rewrite at_least_idemp | rewrite at_most_idemp
    | rewrite pos_or_keeps by positive | rewrite str_or_keeps by positive
    | rewrite fake_path_idemp by assumption ].

(** Goes down to the fields of a configuration and compares them one by one. *)
Ltac fields :=
  lazymatch goal with
  | |- @eq Config _ _ => apply Config_ext; fields
  | |- @eq SmuxConfig _ _ => apply SmuxConfig_ext; fields
  | |- @eq AdvancedConfig _ _ => apply AdvancedConfig_ext; fields
  | |- @eq HTTPMimicCompat _ _ => apply HTTPMimicCompat_ext; fields
  | |- @eq ObfsCompat _ _ => apply ObfsCompat_ext; fields
  | |- @eq MimicConfig _ _ => apply MimicConfig_ext; fields
  | |- @eq ObfsConfig _ _ => apply ObfsConfig_ext; fields
  | |- @eq FragmentConfig _ _ => apply FragmentConfig_ext; fields
  | |- _ => cbn; simp_assign; first [ constr_eq_goal | idtac ]
  end
with constr_eq_goal :=
  lazymatch goal with |- ?a = ?b => constr_eq a b; exact (eq_refl a) end.

Lemma passes_idemp (p : string) (c : Config) :
  c.(cfg_HTTPMimic).(HM_FakePath) = EmptyString \/
  TrimSpace c.(cfg_HTTPMimic).(HM_FakePath) <> EmptyString ->
  passes (chosen_profile p) (passes (chosen_profile p) c) = passes (chosen_profile p) c.
Proof.
  intros Hpath. unfold chosen_profile.
  destruct (decide _); [|destruct (decide _); [|destruct (decide _)]].
  all: fields.
  all: try solve [ apply map_idemp; intros; first [apply aggressive_path_idemp
                                                 | apply profile_path_idemp] ].
  all: try apply (fill_forward_idemp (cfg_Maps c) (cfg_Forward c)).
  all: try apply copy_list_idemp.
  all: try solve [unfold str_or; repeat case_decide; congruence].
  all: try solve [unfold pos_or; repeat case_bool; lia].
  all: first [ by destruct (Adv_TCPNoDelay _) | by destruct (Obfs_Enabled _), (OC_Enabled _)
             | by destruct (Obfs_Enabled _) | by destruct (Frag_Enabled _), (bool_decide _) ].
Qed.

(** *** The forwarding rules of [maps] *)

Definition udp_map (m : DaggerMap) : bool := bool_decide (map_type m = "udp").
Definition both_map (m : DaggerMap) : bool := bool_decide (map_type m = "both").

Lemma foldl_add_map (ms : list DaggerMap) (f : ForwardConfig) :
  (foldl add_map f ms).(Fwd_TCP) =
    f.(Fwd_TCP) ++ map map_entry (List.filter (fun m => negb (udp_map m)) ms) /\
  (foldl add_map f ms).(Fwd_UDP) =
    f.(Fwd_UDP) ++ map map_entry (List.filter (fun m => udp_map m || both_map m) ms).
Proof.
  revert f. induction ms as [|m ms IH]; intros f; cbn [foldl List.filter map];
    [by rewrite !app_nil_r|].
  destruct (IH (add_map f m)) as [-> ->]. unfold add_map, udp_map, both_map.
  destruct (decide (map_type m = "udp")) as [E|E].
  - rewrite !bool_decide_true by done. cbn. by rewrite <- !app_assoc.
  - rewrite (bool_decide_false (map_type m = "udp")) by done.
    destruct (decide (map_type m = "both")) as [E'|E'].
    + rewrite bool_decide_true by done. cbn. by rewrite <- !app_assoc.
    + rewrite bool_decide_false by done. cbn. by rewrite <- !app_assoc.
Qed.

(** *** Validation *)

Definition wf_config (c : Config) : Prop :=
  ((c.(cfg_Mode) = "server" /\ c.(cfg_Listen) <> EmptyString) \/
   (c.(cfg_Mode) = "client" /\
    (c.(cfg_ServerURL) <> EmptyString \/ c.(cfg_Paths) <> []) /\
    Forall (fun p => TrimSpace p.(Path_Addr) <> EmptyString) c.(cfg_Paths))) /\
  c.(cfg_Transport) ∈ valid_transports /\
  (c.(cfg_Smux).(Smux_Version) = 1 \/ c.(cfg_Smux).(Smux_Version) = 2) /\
  c.(cfg_Compression) ∈ valid_compressions.

Lemma blank_path_none (i : nat) (ps : list PathConfig) :
  blank_path i ps = None <-> Forall (fun p => TrimSpace p.(Path_Addr) <> EmptyString) ps.
Proof.
  revert i. induction ps as [|p ps IH]; intros i; cbn [blank_path]; [done|].
  rewrite Forall_cons. case_decide as E; [naive_solver|]. rewrite IH. naive_solver.
Qed.

Lemma blank_path_some (k i : nat) (ps : list PathConfig) :
  blank_path k ps = Some i ->
  exists j p, i = (k + j)%nat /\ ps !! j = Some p /\ TrimSpace p.(Path_Addr) = EmptyString /\
    Forall (fun p => TrimSpace p.(Path_Addr) <> EmptyString) (take j ps).
Proof.
  revert k. induction ps as [|p ps IH]; intros k; cbn [blank_path]; [done|].
  case_decide as E.
  - intros [= <-]. exists 0%nat, p. split; [lia|]. split; [done|]. split; [done|]. constructor.
  - intros (j & q & -> & Hj & Hq & Hf)%IH. exists (S j), q. cbn.
    split; [lia|]. split; [done|]. split; [done|]. by constructor.
Qed.

Lemma Validate_wf (c : Config) : Validate c = None <-> wf_config c.
Proof.
  unfold Validate, wf_config.
  destruct (decide (_ <> _ /\ _ <> _)) as [Hm|Hm];
    [split; [done|intros ([[? _]|[? _]] & _); by destruct Hm]|].
  destruct (decide (_ ∉ valid_transports)) as [Ht|Ht];
    [split; [done|by intros (_ & ? & _)]|].
  destruct (decide (cfg_Mode c = "server" /\ _)) as [[Hs Hl]|Hs];
    [split; [done|intros ([[_ ?]|[Hc _]] & _); [done|by rewrite Hs in Hc]]|].
  destruct (decide (_ /\ _ /\ _)) as [(Hc & Hu & Hp)|Hc];
    [split; [done|intros ([[Hs' _]|(_ & [?|?] & _)] & _); [by rewrite Hc in Hs'|done|done]]|].
  destruct (if decide _ then _ else _) eqn:Hb.
  { split; [done|]. intros ([[Hm' _]|(Hm' & _ & Hf)] & _).
    - by rewrite decide_False in Hb by (rewrite Hm'; done).
    - rewrite decide_True in Hb by done. apply blank_path_none with (i := 0%nat) in Hf. congruence. }
  destruct (negb (_ =? 1) && negb (_ =? 2)) eqn:Hv.
  { apply andb_true_iff in Hv as [H1 H2]. apply negb_true_iff, Z.eqb_neq in H1, H2.
    split; [done|]. intros (_ & _ & Hv & _). lia. }
  destruct (decide (_ ∉ valid_compressions)) as [Hx|Hx];
    [split; [done|by intros (_ & _ & _ & ?)]|].
  split; [intros _|done]. apply dec_stable in Ht, Hx. split; [|split; [done|split; [|done]]].
  - destruct (decide (cfg_Mode c = "client")) as [Em|Em].
    + right. rewrite blank_path_none in Hb. split; [done|]. split; [|done].
      destruct (decide (cfg_ServerURL c = EmptyString)); [right|by left].
      intros Hp. by apply Hc.
    + left. destruct (decide (cfg_Mode c = "server")) as [Es|Es]; [|by destruct Hm].
      split; [done|]. intros Hl. by apply Hs.
  - apply andb_false_iff in Hv as [Hv|Hv]; apply negb_false_iff, Z.eqb_eq in Hv; lia.
Qed.

Lemma LoadConfig_inv (unmarshal : list byte -> Config -> result Config) file (c : Config) :
  LoadConfig unmarshal file = Ok c ->
  exists b c0, file = Ok b /\ unmarshal b preset_Config = Ok c0 /\
    c = finalize (normalize_strings c0) /\ Validate c = None.
Proof.
  unfold LoadConfig. destruct file as [b|]; [|done]. cbn [mbind result_bind].
  destruct (unmarshal b preset_Config) as [c0|] eqn:Eu; [|done].
  cbv beta iota zeta delta [mbind result_bind].
  remember (finalize (normalize_strings c0)) as c1 eqn:E1.
  destruct (Validate c1) eqn:E; [done|]. intros [= <-]. by exists b, c0.
Qed.

(** *** Rules *)

(** A map entry that denotes a rule: both ends there, no arrow inside. *)
Definition map_clean (m : DaggerMap) : Prop :=
  TrimSpace m.(Map_Bind) <> EmptyString /\ TrimSpace m.(Map_Target) <> EmptyString /\
  Contains (TrimSpace m.(Map_Bind)) "->" = false /\
  Contains (TrimSpace m.(Map_Target)) "->" = false.

(** The rule it denotes. *)
Definition map_rule (m : DaggerMap) : string * string :=
  (full_bind (TrimSpace m.(Map_Bind)), TrimSpace m.(Map_Target)).

Lemma SplitMap_entry (m : DaggerMap) :
  map_clean m -> SplitMap (map_entry m) = Some (map_rule m).
Proof.
  intros (Hb & Ht & Cb & Ct). unfold map_entry, map_rule.
  rewrite <- (TrimSpace_idemp (Map_Bind m)) at 2. rewrite <- (TrimSpace_idemp (Map_Target m)) at 2.
  apply SplitMap_arrow; by rewrite ?TrimSpace_idemp.
Qed.

Lemma SplitMap_entries (p : DaggerMap -> bool) (ms : list DaggerMap) :
  Forall map_clean ms ->
  omap SplitMap (map map_entry (List.filter p ms)) = map map_rule (List.filter p ms).
Proof.
  induction 1 as [|m ms Hm _ IH]; [done|]. cbn [List.filter]. destruct (p m); [|done].
  cbn. by rewrite SplitMap_entry, IH.
Qed.

(** *** Profiles *)

(** What each profile promises, whatever the file said. *)
Definition profile_promise (c : Config) : Prop :=
  (c.(cfg_Profile) = "aggressive" ->
     c.(cfg_Smux).(Smux_KeepAlive) <= 5 /\ 32768 <= c.(cfg_Smux).(Smux_FrameSize) /\
     8388608 <= c.(cfg_Smux).(Smux_MaxRecv) /\ 8388608 <= c.(cfg_Smux).(Smux_MaxStream) /\
     8388608 <= c.(cfg_Advanced).(Adv_TCPReadBuffer) /\
     8388608 <= c.(cfg_Advanced).(Adv_TCPWriteBuffer) /\
     c.(cfg_Fragment).(Frag_Enabled) = true /\ c.(cfg_Obfs).(Obfs_Enabled) = true /\
     c.(cfg_Mimic).(Mimic_Chunked) = false /\ c.(cfg_Compression) = "snappy" /\
     Forall (fun p => 4 <= p.(Path_ConnectionPool) /\ p.(Path_AggressivePool) = true /\
                      p.(Path_RetryInterval) <= 2) c.(cfg_Paths)) /\
  (c.(cfg_Profile) = "stable" ->
     c.(cfg_Smux).(Smux_KeepAlive) <= 15 /\ c.(cfg_Smux).(Smux_MaxRecv) <= 2097152 /\
     c.(cfg_Smux).(Smux_MaxStream) <= 1048576) /\
  (c.(cfg_Profile) = "latency" ->
     c.(cfg_Smux).(Smux_KeepAlive) <= 5 /\ 32768 <= c.(cfg_Smux).(Smux_FrameSize)).

(** No pass touches the session id, and only the default sets the profile. *)
Lemma passes_keeps (p : string) (c : Config) :
  cfg_Profile (passes (chosen_profile p) c) = str_or "balanced" (cfg_Profile c) /\
  cfg_SessionID (passes (chosen_profile p) c) = cfg_SessionID c.
Proof.
  unfold chosen_profile.
  destruct (decide (p = "aggressive")); [split; reflexivity|].
  destruct (decide (p = "stable")); [split; reflexivity|].
  destruct (decide (p = "latency")); split; reflexivity.
Qed.

Lemma chosen_profile_promise (p : string) (c : Config) :
  p = str_or "balanced" c.(cfg_Profile) -> profile_promise (passes (chosen_profile p) c).
Proof.
  intros Hp. assert (Ep : cfg_Profile (passes (chosen_profile p) c) = p)
    by (rewrite Hp; exact (proj1 (passes_keeps _ c))).
  unfold profile_promise. rewrite Ep. clear Hp Ep.
  split; [|split]; intros ->;
    [change (chosen_profile "aggressive") with aggressive_profile
    |change (chosen_profile "stable") with stable_profile
    |change (chosen_profile "latency") with latency_profile];
    repeat match goal with |- _ /\ _ => split end; cbn -[Z.le];
    try first [apply within_le | apply at_least_ge | reflexivity].
  - by destruct (Obfs_Enabled _).
  - apply Forall_map_all. intros q. cbn -[Z.le]. split; [apply at_least_ge|]. by split; [|apply within_le].
Qed.

(** ** Properties *)

(** C23: A configuration that [LoadConfig] returns passes every check of
    [Validate], and every interval, size, pool and padding bound the program
    computes with is positive, whatever the YAML text contained. *)
Theorem LoadConfig_wellformed
    (unmarshal : list byte -> Config -> result Config) (file : result (list byte)) (c : Config) :
  LoadConfig unmarshal file = Ok c ->
  wf_config c /\ positive_settings c /\ c.(cfg_SessionID) <> EmptyString.
Proof.
  intros (b & c0 & _ & _ & -> & Hv)%LoadConfig_inv. apply Validate_wf in Hv.
  split; [done|]. split; [apply finalize_positive|].
  rewrite finalize_passes, (proj2 (passes_keeps _ _)). by apply str_or_ne.
Qed.

(** [Validate] returns nil on exactly the well-formed configurations: a known
    mode with what it needs, a known transport, smux version and compression. *)
Theorem Validate_spec (c : Config) : Validate c = None <-> wf_config c.
Proof. apply Validate_wf. Qed.

(** C35: The passes of [LoadConfig] have reached a fixpoint: running them on their own
    result changes nothing, unless the fake path was blank but not empty. *)
Theorem finalize_idempotent (c : Config) :
  c.(cfg_HTTPMimic).(HM_FakePath) = EmptyString \/
  TrimSpace c.(cfg_HTTPMimic).(HM_FakePath) <> EmptyString ->
  finalize (finalize c) = finalize c.
Proof.
  intros Hpath. rewrite (finalize_passes c).
  set (p := str_or "balanced" (cfg_Profile c)).
  assert (Ep : str_or "balanced" (cfg_Profile (passes (chosen_profile p) c)) = p)
    by (rewrite (proj1 (passes_keeps _ _)); by apply str_or_idemp).
  rewrite finalize_passes, Ep. by apply passes_idemp.
Qed.

(** A loaded configuration keeps the promises of its profile: the keep-alive
    bound, the frame and buffer bounds, and for [aggressive] the switches it forces,
    on every path. *)
Theorem LoadConfig_profile
    (unmarshal : list byte -> Config -> result Config) (file : result (list byte)) (c : Config) :
  LoadConfig unmarshal file = Ok c -> profile_promise c.
Proof.
  intros (b & c0 & _ & _ & -> & _)%LoadConfig_inv. rewrite finalize_passes.
  by apply chosen_profile_promise.
Qed.

(** When a file has no [forward] rules, each [maps] entry becomes a rule of its
    type that [SplitMap] reads back as the trimmed bind and target, in order; [udp]
    entries only as UDP, [both] entries twice, every other type as TCP. *)
Theorem maps_become_rules (c : Config) :
  c.(cfg_Forward) = zero_ForwardConfig -> Forall map_clean c.(cfg_Maps) ->
  omap SplitMap (mapDaggerToLegacy c).(cfg_Forward).(Fwd_TCP) =
    map map_rule (List.filter (fun m => negb (udp_map m)) c.(cfg_Maps)) /\
  omap SplitMap (mapDaggerToLegacy c).(cfg_Forward).(Fwd_UDP) =
    map map_rule (List.filter (fun m => udp_map m || both_map m) c.(cfg_Maps)).
Proof.
  intros Hf Hm.
  assert (cfg_Forward (mapDaggerToLegacy c) = foldl add_map zero_ForwardConfig (cfg_Maps c)) as ->
    by (cbn; by rewrite Hf).
  destruct (foldl_add_map (cfg_Maps c) zero_ForwardConfig) as [-> ->].
  split; by apply SplitMap_entries.
Qed.
End WithUnicode.

(** C37: For a loaded configuration whose keep-alive does not overflow (below 48 years),
    the smux settings are the ones asked for: the version, [keepalive] seconds between
    probes, a timeout of six intervals and at least 30 s, so longer than one
    interval, and the configured frame and buffer sizes. *)
Theorem buildSmuxConfig_spec (d : SmuxSettings) (c : Config) :
  positive_settings c -> wf_config c -> c.(cfg_Smux).(Smux_KeepAlive) <= 1500000000 ->
  let k := c.(cfg_Smux).(Smux_KeepAlive) in
  let sc := buildSmuxConfig d c in
  sc.(sm_Version) = c.(cfg_Smux).(Smux_Version) /\
  sc.(sm_KeepAliveInterval) = k * Second /\
  sc.(sm_KeepAliveTimeout) = Z.max (30 * Second) (6 * k * Second) /\
  0 < sc.(sm_KeepAliveInterval) < sc.(sm_KeepAliveTimeout) /\
  sc.(sm_MaxReceiveBuffer) = c.(cfg_Smux).(Smux_MaxRecv) /\
  sc.(sm_MaxStreamBuffer) = c.(cfg_Smux).(Smux_MaxStream) /\
  sc.(sm_MaxFrameSize) = c.(cfg_Smux).(Smux_FrameSize).
Proof.
  intros (_ & (Hk & Hr & Hs & Hf & _) & _) (_ & _ & Hv & _) Hle k sc. subst k.
  set (s := cfg_Smux c) in *.
  assert (Ei : sm_KeepAliveInterval sc = Smux_KeepAlive s * Second).
  { subst sc. cbn -[Z.mul wrap64]. fold s.
    rewrite wrap64_id by (unfold int64_range, Second, Millisecond; lia).
    apply pos_or_keeps. unfold Second, Millisecond. lia. }
  assert (Et : sm_KeepAliveTimeout sc = Z.max (30 * Second) (6 * Smux_KeepAlive s * Second)).
  { transitivity (at_least (30 * Second) (wrap64 (sm_KeepAliveInterval sc * 6)));
      [reflexivity|]. rewrite Ei.
    rewrite wrap64_id by (unfold int64_range, Second, Millisecond; lia).
    unfold at_least, Second, Millisecond. case_bool; lia. }
  rewrite Ei, Et. unfold Second, Millisecond. subst sc. cbn -[Z.mul Z.max Z.lt]. fold s.
  split; [case_bool; lia|]. split; [done|]. split; [done|]. split; [lia|].
  split; [|split]; case_bool; lia.
Qed.

(** ** Witnesses *)

(** Any tables do for ASCII text. *)
Definition ascii_tables : UnicodeTables := fun s => s.

(** A client file: two paths, the aggressive profile in capitals, three maps. *)
Definition sample_file (_ : list byte) (c : Config) : result Config :=
  Ok (c <| cfg_Mode := " Client " |> <| cfg_Profile := "AGGRESSIVE" |>
        <| cfg_Transport := "httpsmux" |>
        <| cfg_Smux # Smux_KeepAlive := 60 |>
        <| cfg_Maps := [mkDaggerMap "udp" "53" "1.1.1.1:53"; mkDaggerMap "tcp" " 80 " "web:80";
                        mkDaggerMap "Both" "[::1]:9" "x:9"] |>
        <| cfg_Paths := [zero_PathConfig <| Path_Addr := "1.2.3.4:443" |>;
                         zero_PathConfig <| Path_Addr := "h.example" |>
                                         <| Path_ConnectionPool := 9 |>] |>).
Definition loaded (r : result Config) : Config :=
  match r with Ok c => c | Err _ => zero_Config end.
Definition sample_Config : Config :=
  loaded (@LoadConfig ascii_tables sample_file (Ok [])).

Lemma LoadConfig_wellformed_witness :
  @LoadConfig ascii_tables sample_file (Ok []) = Ok sample_Config /\ wf_config sample_Config.
Proof.
  assert (H : @LoadConfig ascii_tables sample_file (Ok []) = Ok sample_Config)
    by (vm_compute; reflexivity).
  split; [exact H|]. exact (proj1 (@LoadConfig_wellformed ascii_tables _ _ _ H)).
Defined.

Lemma finalize_idempotent_witness :
  sample_Config.(cfg_HTTPMimic).(HM_FakePath) = "/search" /\
  @finalize ascii_tables (@finalize ascii_tables sample_Config) =
  @finalize ascii_tables sample_Config.
Proof.
  split; [vm_compute; reflexivity|].
  apply (@finalize_idempotent ascii_tables sample_Config). right. vm_compute. discriminate.
Defined.

Lemma LoadConfig_profile_witness :
  sample_Config.(cfg_Profile) = "aggressive" /\ profile_promise sample_Config.
Proof.
  split; [vm_compute; reflexivity|].
  apply (@LoadConfig_profile ascii_tables sample_file (Ok [])). vm_compute. reflexivity.
Defined.

Lemma maps_become_rules_witness :
  let c := loaded (sample_file [] zero_Config) in
  omap SplitMap (@mapDaggerToLegacy ascii_tables c).(cfg_Forward).(Fwd_TCP) =
  [("0.0.0.0:80", "web:80"); ("[::1]:9", "x:9")].
Proof.
  intros c.
  assert (Hc : Forall map_clean (cfg_Maps c))
    by (repeat constructor; vm_compute; first [discriminate | reflexivity]).
  rewrite (proj1 (@maps_become_rules ascii_tables c eq_refl Hc)). vm_compute. reflexivity.
Defined.

Lemma buildSmuxConfig_spec_witness :
  (buildSmuxConfig (mkSmuxSettings 1 0 0 0 0 0) sample_Config).(sm_KeepAliveTimeout) =
  30 * Second.
Proof.
  assert (Hp : positive_settings sample_Config).
  { vm_compute. repeat split; try discriminate; repeat constructor. }
  assert (Hw : wf_config sample_Config)
    by (apply Validate_wf; vm_compute; reflexivity).
  assert (Hk : sample_Config.(cfg_Smux).(Smux_KeepAlive) <= 1500000000)
    by (vm_compute; discriminate).
  pose proof (buildSmuxConfig_spec (mkSmuxSettings 1 0 0 0 0 0) _ Hp Hw Hk) as (_ & _ & E & _).
  rewrite E. vm_compute. reflexivity.
Defined.
