(* ===== verification/EncryptedConn.v ===== *)
(** * EncryptedConn: padding and per-packet encryption ([encrypted_conn.go])

    A packet on the wire is a 4-byte length, then a nonce and a GCM ciphertext,
    or the bare payload when there is no pre-shared key.  With obfuscation on,
    the payload is a 2-byte length, the data, and random padding. *)

From S2P Require Import Prelude GoStrings GoBytes IoReader ConfigTypes.
From Stdlib Require Import Init.Byte Strings.Byte.

Local Open Scope string_scope.
Local Open Scope list_scope.
Local Open Scope Z_scope.

(** ** Cryptography

    SHA-256 and AES-GCM, as the packages [crypto/sha256] and [crypto/cipher]
    document them: [Seal] appends a 16-byte tag, and [Open] undoes [Seal]
    under the same key and nonce.  Nothing is assumed of what [Open] does with
    other ciphertexts. *)
Class Crypto := {
  sha256_Sum256 : list byte -> list byte;
  gcm_Seal : list byte -> list byte -> list byte -> list byte;
  gcm_Open : list byte -> list byte -> list byte -> option (list byte)
}.

Class CryptoLaws (C : Crypto) : Prop := {
  Sum256_length : forall m, length (sha256_Sum256 m) = 32%nat;
  Seal_length : forall k n p, length (gcm_Seal k n p) = (length p + 16)%nat;
  Open_Seal : forall k n p, gcm_Open k n (gcm_Seal k n p) = Some p
}.

(** The default nonce size of [cipher.NewGCM], and the buffer size of the pool. *)
Definition NonceSize : nat := 12.
Definition bufferSize : Z := 128 * 1024.

(** ** Random choices

    [rand.Reader] is outside the model: a random integer is an arbitrary one
    reduced to the range, [None] stands for a failing reader. *)

(** [secureRandInt(n)] *)
Definition secureRandInt (n : Z) (draw : option Z) : Z :=
  if n <=? 0 then 0
  else match draw with
       | Some v => v mod n
       | None => 0
       end.

(** The choices one [addPaddingBuf] makes: the extra padding, the bytes that
    [rand.Read] puts in the padding area, the decoy and its offset. *)
Record pad_entropy := mkPadEntropy {
  pe_len : option Z;
  pe_fill : nat -> byte;
  pe_decoy : option Z;
  pe_offset : option Z
}.

(** The choices one [Write] makes: padding, nonce (which can fail), jitter. *)
Record write_entropy := mkWriteEntropy {
  we_pad : pad_entropy;
  we_nonce : result (nat -> byte);
  we_jitter : option Z
}.

(** ** Padding *)

Definition decoyPatterns : list string :=
  ["User-Agent: ";
   "GET / HTTP/1.1";
   "POST / HTTP/1.1";
   "Host: ";
   "Accept: */*";
   "Content-Type: application/octet-stream";
   "Connection: keep-alive";
   "Cache-Control: no-cache"].

(** The padding length: [MinPadding], plus a draw below the difference. *)
Definition padLen (obfs : ObfsConfig) (w : pad_entropy) : Z :=
  let padLen := obfs.(Obfs_MinPadding) in
  let diff := wrap64 (obfs.(Obfs_MaxPadding) - obfs.(Obfs_MinPadding)) in
  if 0 <? diff then wrap64 (padLen + secureRandInt diff w.(pe_len)) else padLen.

(** What [rand.Read] and the decoy injection leave in a padding area of
    [n > 0] bytes. *)
Definition paddingArea (n : Z) (w : pad_entropy) : list byte :=
  let area := map w.(pe_fill) (seq 0 (Z.to_nat n)) in
  if 12 <? n then
    let decoyStr := nth (Z.to_nat (secureRandInt (zlen decoyPatterns) w.(pe_decoy)))
                        decoyPatterns EmptyString in
    if slen decoyStr <? n then
      let maxOffset := n - slen decoyStr in
      let offset := secureRandInt (maxOffset + 1) w.(pe_offset) in
      copy_at area (Z.to_nat offset) (bytes_of decoyStr)
    else area
  else area.

(** [addPaddingBuf(data, obfs, buf)] for a pool buffer of [bufLen] bytes.  A
    negative [padLen] cuts the data off, and slicing panics when there is no
    room for the length field.  The bytes of the pool buffer behind a field
    that is written whole do not show, so the buffer's old contents are not
    part of the model. *)
Definition addPaddingBuf (data : list byte) (obfs : ObfsConfig) (bufLen : Z)
    (w : pad_entropy) : outcome (list byte) :=
  let n := padLen obfs w in
  let totalLen := wrap64 (2 + zlen data + n) in
  if bufLen <? totalLen then
    Done (copy_at (be16 (u16 (zlen data)) ++ replicate (Z.to_nat (totalLen - 2)) x00)
                  2 data)
  else if totalLen <? 2 then Panic SliceOutOfRange
  else if 0 <? n then
    Done (be16 (u16 (zlen data)) ++ data ++ paddingArea n w)
  else
    Done (be16 (u16 (zlen data)) ++ take (Z.to_nat (totalLen - 2)) data).

(** [removePadding(data)]; [None] is the [nil] slice.  The upper bound of the
    slice is computed in [uint16], as the operand [origLen] is. *)
Definition removePadding (data : list byte) : outcome (option (list byte)) :=
  if zlen data <? 2 then Done None
  else
    let origLen := get16 data in
    if zlen data <? origLen + 2 then Done None
    else
      plain ← slice data 2 (u16 (2 + origLen));
      Done (Some plain).

(** [obfsDelay(obfs)]: how long it sleeps, in nanoseconds. *)
Definition obfsDelay (obfs : ObfsConfig) (draw : option Z) : Z :=
  let min := obfs.(Obfs_MinDelayMS) in
  let max := obfs.(Obfs_MaxDelayMS) in
  if (max <=? min) || (max <=? 0) then 0
  else
    let d := wrap64 (min + secureRandInt (wrap64 (max - min)) draw) in
    if 0 <? d then wrap64 (d * Millisecond) else 0.

(** ** The connection *)

(** [gcm] holds the key of the AEAD.  [ec_in] and [ec_out] are the two sides of
    the wrapped [conn]. *)
Record EncryptedConn := mkEC {
  ec_gcm : option (list byte);
  ec_obfs : option ObfsConfig;
  ec_readBuf : list byte;
  ec_in : stream;
  ec_out : sink
}.
#[export] Instance eta_EncryptedConn : Eta EncryptedConn := fun c =>
  mkEC c.(ec_gcm) c.(ec_obfs) c.(ec_readBuf) c.(ec_in) c.(ec_out).

Section Conn.
Context `{Crypto}.

(** [aes.NewCipher(key)]: the block cipher is its key. *)
Definition aes_NewCipher (key : list byte) : result (list byte) :=
  if bool_decide (length key ∈ [16; 24; 32]%nat) then Ok key
  else Err (Errorf "crypto/aes: invalid key size %d" [ArgInt (zlen key)]).

(** [NewEncryptedConn(conn, psk, obfs)]; [cipher.NewGCM] takes every AES block. *)
Definition NewEncryptedConn (inp : stream) (out : sink) (psk : string)
    (obfs : option ObfsConfig) : result EncryptedConn :=
  let ec := mkEC None obfs [] inp out in
  if decide (psk = EmptyString) then Ok ec
  else
    match aes_NewCipher (sha256_Sum256 (bytes_of psk)) with
    | Err e => Err (Errorf "aes: %w" [ArgErr e])
    | Ok block => Ok (ec <| ec_gcm := Some block |>)
    end.

(** [c.obfs != nil && c.obfs.Enabled] *)
Definition obfs_on (c : EncryptedConn) : option ObfsConfig :=
  match c.(ec_obfs) with
  | Some o => if o.(Obfs_Enabled) then Some o else None
  | None => None
  end.

(** [buf[:4+pktLen]] with the length field in front of [body]: the buffer has
    [bufferSize] bytes, and slicing beyond that panics. *)
Definition packet (body : list byte) : outcome (list byte) :=
  if bufferSize <? 4 + zlen body then Panic SliceOutOfRange
  else Done (be32 (u32 (zlen body)) ++ body).

(** What a [Write] returns: the count, the error, and how long it slept. *)
Record write_result := mkWR { wr_n : Z; wr_err : option error; wr_sleep : Z }.

(** The jitter of [Write]: only for more than 128 bytes of data. *)
Definition write_jitter (c : EncryptedConn) (data : list byte) (draw : option Z) : Z :=
  match obfs_on c with
  | Some o => if (0 <? o.(Obfs_MaxDelayMS)) && (128 <? zlen data) then obfsDelay o draw else 0
  | None => 0
  end.

(** The packet of [body] goes out in one [conn.Write]; then the jitter. *)
Definition send_packet (c : EncryptedConn) (data : list byte) (w : write_entropy)
    (body : list byte) : outcome (write_result * EncryptedConn) :=
  pkt ← packet body;
  match sink_write pkt c.(ec_out) with
  | (_, Some err, k) => Done (mkWR 0 (Some err) 0, c <| ec_out := k |>)
  | (_, None, k) =>
      Done (mkWR (zlen data) None (write_jitter c data w.(we_jitter)), c <| ec_out := k |>)
  end.

(** [EncryptedConn.Write(data)] *)
Definition Write (c : EncryptedConn) (data : list byte) (w : write_entropy)
    : outcome (write_result * EncryptedConn) :=
  payload ← match obfs_on c with
            | Some o => addPaddingBuf data o bufferSize w.(we_pad)
            | None => Done data
            end;
  match c.(ec_gcm) with
  | Some key =>
      match w.(we_nonce) with
      | Err err => Done (mkWR 0 (Some (Errorf "nonce: %w" [ArgErr err])) 0, c)
      | Ok fill =>
          let nonce := map fill (seq 0 NonceSize) in
          send_packet c data w (nonce ++ gcm_Seal key nonce payload)
      end
  | None => send_packet c data w payload
  end.

(** The decryption step of [Read]. *)
Definition decrypt (c : EncryptedConn) (pkt : list byte) : result (list byte) :=
  match c.(ec_gcm) with
  | Some key =>
      if (length pkt <? NonceSize)%nat then Err (Errorf "packet too short" [])
      else
        match gcm_Open key (take NonceSize pkt) (drop NonceSize pkt) with
        | Some plaintext => Ok plaintext
        | None => Err (Errorf "decrypt: %w" [ArgErr (Errorf "cipher: message authentication failed" [])])
        end
  | None => Ok pkt
  end.

(** The padding step of [Read]. *)
Definition unpad (c : EncryptedConn) (plaintext : list byte) : outcome (result (list byte)) :=
  match obfs_on c with
  | Some _ =>
      r ← removePadding plaintext;
      Done match r with
           | Some p => Ok p
           | None => Err (Errorf "invalid padding" [])
           end
  | None => Done (Ok plaintext)
  end.

(** What [Read] makes of a packet: decrypt, then remove the padding. *)
Definition decode (c : EncryptedConn) (pkt : list byte) : outcome (result (list byte)) :=
  match decrypt c pkt with
  | Err e => Done (Err e)
  | Ok plaintext => unpad c plaintext
  end.

(** The end of [Read]: fill the caller's buffer, keep the rest. *)
Definition deliver (c : EncryptedConn) (n : nat) (r : result (list byte))
    : result (list byte) * EncryptedConn :=
  match r with
  | Err e => (Err e, c)
  | Ok plaintext => (Ok (take n plaintext), c <| ec_readBuf := drop n plaintext |>)
  end.

(** [EncryptedConn.Read(p)] with [len(p) = n]: the bytes put in [p].  The slice
    [pkt] of the pool buffer panics beyond [bufferSize]. *)
Definition Read (c : EncryptedConn) (n : nat)
    : outcome (result (list byte) * EncryptedConn) :=
  match c.(ec_readBuf) with
  | _ :: _ =>
      Done (Ok (take n c.(ec_readBuf)), c <| ec_readBuf ::= drop n |>)
  | [] =>
      match ReadFull 4 c.(ec_in) with
      | (Err e, s) => Done (Err e, c <| ec_in := s |>)
      | (Ok header, s) =>
          let pktLen := get32 header in
          if (pktLen =? 0) || (Z.shiftl 2 20 <? pktLen) then
            Done (Err (Errorf "invalid packet length: %d" [ArgInt pktLen]), c <| ec_in := s |>)
          else if bufferSize <? pktLen then Panic SliceOutOfRange
          else
            match ReadFull (Z.to_nat pktLen) s with
            | (Err e, s) => Done (Err e, c <| ec_in := s |>)
            | (Ok pkt, s) =>
                r ← decode c pkt;
                Done (deliver (c <| ec_in := s |>) n r)
            end
      end
  end.

(** What a connection says after its own [Close]: [net.ErrClosed]. *)
Definition ErrClosed : error := Errorf "use of closed network connection" [].

(** [EncryptedConn.Close()]: it closes the wrapped connection, and does no more: what is
    in [readBuf] can still be read. *)
Definition Close (c : EncryptedConn) : option error * EncryptedConn :=
  (None, c <| ec_in := mkStream [] ErrClosed |> <| ec_out # k_fail := Some (O, ErrClosed) |>).

(** ** Sequences of calls *)

(** Successive [Write]s; stops at a panic and keeps every result. *)
Fixpoint run_writes (c : EncryptedConn) (msgs : list (list byte * write_entropy))
    : outcome (list write_result * EncryptedConn) :=
  match msgs with
  | [] => Done ([], c)
  | (data, w) :: msgs =>
      '(r, c) ← Write c data w;
      '(rs, c) ← run_writes c msgs;
      Done (r :: rs, c)
  end.

(** Successive [Read]s into buffers of the given sizes. *)
Fixpoint run_reads (c : EncryptedConn) (sizes : list nat)
    : outcome (list (result (list byte)) * EncryptedConn) :=
  match sizes with
  | [] => Done ([], c)
  | n :: sizes =>
      '(r, c) ← Read c n;
      '(rs, c) ← run_reads c sizes;
      Done (r :: rs, c)
  end.
End Conn.

(** ** Specification: a queue of messages

    What an [EncryptedConn] promises its user: reads consume the queue of
    messages that were written, a read returns at most one message, and what
    does not fit the buffer stays at the head of the queue. *)
Definition spec_read (q : list (list byte)) (n : nat)
    : result (list byte) * list (list byte) :=
  match q with
  | [] => (Err EOF, [])
  | m :: q => (Ok (take n m), match drop n m with [] => q | r => r :: q end)
  end.

Fixpoint spec_reads (q : list (list byte)) (sizes : list nat) : list (result (list byte)) :=
  match sizes with
  | [] => []
  | n :: sizes => let '(r, q) := spec_read q n in r :: spec_reads q sizes
  end.

(** ** Lemmas: padding *)

(** Padding settings far from the ends of [int64]; [LoadConfig] makes both
    positive. *)
Definition wf_obfs (o : ObfsConfig) : Prop :=
  0 <= o.(Obfs_MinPadding) < 2 ^ 31 /\ - 2 ^ 31 <= o.(Obfs_MaxPadding) < 2 ^ 31.

Lemma secureRandInt_range (n : Z) (draw : option Z) :
  0 <= secureRandInt n draw /\ (0 < n -> secureRandInt n draw < n).
Proof.
  unfold secureRandInt. destruct (Z.leb_spec n 0); [lia|].
  destruct draw as [v|]; [|lia]. pose proof (Z.mod_pos_bound v n). lia.
Qed.

Lemma padLen_range (o : ObfsConfig) (w : pad_entropy) :
  wf_obfs o ->
  o.(Obfs_MinPadding) <= padLen o w <= Z.max o.(Obfs_MinPadding) (o.(Obfs_MaxPadding) - 1).
Proof.
  intros [Hmin Hmax]. unfold padLen.
  rewrite (wrap64_id (_ - _)) by (unfold int64_range; lia).
  destruct (Z.ltb_spec 0 (Obfs_MaxPadding o - Obfs_MinPadding o)); [|lia].
  pose proof (secureRandInt_range (Obfs_MaxPadding o - Obfs_MinPadding o) (pe_len w)).
  rewrite wrap64_id by (unfold int64_range; lia). lia.
Qed.

Lemma zlen_paddingArea (n : Z) (w : pad_entropy) : 0 <= n -> zlen (paddingArea n w) = n.
Proof.
  intros Hn. unfold paddingArea.
  assert (Hl : length (map (pe_fill w) (seq 0 (Z.to_nat n))) = Z.to_nat n)
    by by rewrite length_map, length_seq.
  destruct (12 <? n); [destruct (_ <? n)|]; unfold zlen; rewrite ?length_copy_at, Hl; lia.
Qed.

Lemma addPaddingBuf_spec (data : list byte) (o : ObfsConfig) (w : pad_entropy) :
  wf_obfs o -> zlen data < 2 ^ 31 ->
  exists pad,
    addPaddingBuf data o bufferSize w = Done (be16 (u16 (zlen data)) ++ data ++ pad) /\
    zlen pad = padLen o w.
Proof.
  intros Hwf Hd. pose proof (padLen_range o w Hwf) as Hp. unfold addPaddingBuf.
  pose proof (zlen_nonneg data). destruct Hwf.
  rewrite wrap64_id by (unfold int64_range; lia).
  set (n := padLen o w) in *. destruct (Z.ltb_spec bufferSize (2 + zlen data + n)).
  - exists (replicate (Z.to_nat n) x00). split; [|zlen_lia]. f_equal.
    unfold copy_at. rewrite take_app_length' by done. f_equal.
    rewrite drop_app_length' by done. rewrite copy_into_fits
      by (rewrite length_replicate; unfold zlen in *; lia).
    rewrite drop_replicate. do 2 f_equal. unfold zlen in *; lia.
  - destruct (Z.ltb_spec (2 + zlen data + n) 2); [lia|].
    destruct (Z.ltb_spec 0 n).
    + exists (paddingArea n w). split; [done|]. apply zlen_paddingArea. lia.
    + exists []. assert (n = 0) as -> by lia. split; [|done].
      rewrite app_nil_r, take_ge; [done|]. unfold zlen. lia.
Qed.

Lemma removePadding_cases (data : list byte) :
  removePadding data =
  if zlen data <? get16 data + 2 then Done None
  else if zlen data <? 2 then Done None
  else if get16 data <? 65534 then Done (Some (take (Z.to_nat (get16 data)) (drop 2 data)))
  else Panic SliceOutOfRange.
Proof.
  unfold removePadding. pose proof (get16_range data) as Hg.
  destruct (Z.ltb_spec (zlen data) 2); [by destruct (_ <? _)|].
  destruct (Z.ltb_spec (zlen data) (get16 data + 2)); [done|].
  destruct (Z.ltb_spec (get16 data) 65534).
  - rewrite u16_id, slice_done by lia. cbn. do 3 f_equal. lia.
  - rewrite slice_panic; [done|]. left. unfold u16.
    replace (2 + get16 data) with (get16 data - 65534 + 1 * 2 ^ 16) by lia.
    rewrite Z.mod_add, Z.mod_small by lia. lia.
Qed.

(** [removePadding] panics exactly on a plaintext that declares 65534 or 65535 bytes and is
    long enough to hold them: the bound [2+origLen] of its slice is computed in [uint16]
    and wraps to 0 or 1. *)
Lemma removePadding_panics_iff (data : list byte) :
  removePadding data = Panic SliceOutOfRange <->
  65534 <= get16 data /\ get16 data + 2 <= zlen data.
Proof.
  rewrite removePadding_cases. pose proof (get16_range data).
  repeat case_bool; split; intros; try done; try lia.
Qed.

(** The length field of a padded packet says [len(data) mod 65536]. *)
Lemma removePadding_framed (data pad : list byte) :
  removePadding (be16 (u16 (zlen data)) ++ data ++ pad) =
  if u16 (zlen data) <? 65534 then Done (Some (take (Z.to_nat (u16 (zlen data))) data))
  else Panic SliceOutOfRange.
Proof.
  rewrite removePadding_cases, get16_be16. pose proof (u16_range (zlen data)) as Hr.
  rewrite (u16_id (u16 _)) by done.
  assert (u16 (zlen data) <= zlen data).
  { unfold u16. apply Z.mod_le; [apply zlen_nonneg|lia]. }
  assert (Hl : zlen (be16 (u16 (zlen data)) ++ data ++ pad) = 2 + zlen data + zlen pad)
    by (rewrite !zlen_app; change (zlen (be16 _)) with 2; lia).
  rewrite Hl. pose proof (zlen_nonneg pad). pose proof (zlen_nonneg data).
  rewrite !(proj2 (Z.ltb_ge (2 + zlen data + zlen pad) _)) by lia.
  destruct (_ <? _); [|done]. rewrite drop_app_length' by done.
  rewrite take_app_le; [done|]. unfold zlen in *. lia.
Qed.

(** ** Lemmas: the connection *)

(** The bytes a payload grows by on the wire: nonce, tag and length field. *)
Definition overhead (c : EncryptedConn) : Z :=
  match c.(ec_gcm) with Some _ => 32 | None => 4 end.

(** The most padding [Write] can add, with its length field. *)
Definition max_padding (c : EncryptedConn) : Z :=
  match obfs_on c with
  | Some o => 2 + Z.max o.(Obfs_MinPadding) (o.(Obfs_MaxPadding) - 1)
  | None => 0
  end.

Definition wf_conn (c : EncryptedConn) : Prop :=
  match obfs_on c with Some o => wf_obfs o | None => True end.

(** A message that [c] can put into one packet: it fits the buffer whatever
    padding is drawn, its length fits the padding's length field, the nonce can
    be drawn, and the packet is not empty. *)
Definition sendable (c : EncryptedConn) (m : list byte * write_entropy) : Prop :=
  let '(data, w) := m in
  zlen data + max_padding c + overhead c <= bufferSize /\
  zlen data < 65534 /\
  is_ok w.(we_nonce) = true /\
  (c.(ec_gcm) = None -> obfs_on c = None -> data <> []).

(** The two ends of a connection: the same key, and padding on both or none. *)
Definition peers (w r : EncryptedConn) : Prop :=
  w.(ec_gcm) = r.(ec_gcm) /\ (is_Some (obfs_on w) <-> is_Some (obfs_on r)).

Section ConnLemmas.
Context `{CL : CryptoLaws}.

Lemma decode_ext (c c' : EncryptedConn) (body : list byte) :
  peers c c' -> decode c body = decode c' body.
Proof.
  intros [Hg Ho]. unfold decode, decrypt, unpad. rewrite Hg.
  destruct (obfs_on c), (obfs_on c'); try done.
  - destruct (proj1 Ho); [eauto|done].
  - destruct (proj2 Ho); [eauto|done].
Qed.

Lemma unpad_padded (c : EncryptedConn) (o : ObfsConfig) (data pad : list byte) :
  obfs_on c = Some o -> zlen data < 65534 ->
  unpad c (be16 (u16 (zlen data)) ++ data ++ pad) = Done (Ok data).
Proof.
  intros Ho Hd. unfold unpad. rewrite Ho, removePadding_framed.
  pose proof (zlen_nonneg data). rewrite u16_id by lia.
  rewrite (proj2 (Z.ltb_lt _ _)) by lia. cbn.
  by rewrite take_ge by (unfold zlen; lia).
Qed.

Lemma decrypt_sealed (c : EncryptedConn) (key nonce payload : list byte) :
  c.(ec_gcm) = Some key -> length nonce = NonceSize ->
  decrypt c (nonce ++ gcm_Seal key nonce payload) = Ok payload.
Proof.
  intros Hg Hn. unfold decrypt. rewrite Hg, length_app, Hn.
  rewrite (proj2 (Nat.ltb_ge _ _)) by lia.
  by rewrite take_app_length', drop_app_length', Open_Seal.
Qed.

(** The payload of a message: the data, padded when obfuscation is on. *)
Lemma payload_spec (c : EncryptedConn) (data : list byte) (w : pad_entropy) :
  wf_conn c -> zlen data < 65534 ->
  exists payload,
    match obfs_on c with
    | Some o => addPaddingBuf data o bufferSize w
    | None => Done data
    end = Done payload /\
    unpad c payload = Done (Ok data) /\
    zlen data <= zlen payload <= zlen data + max_padding c /\
    (obfs_on c <> None -> 2 <= zlen payload).
Proof.
  unfold wf_conn, max_padding. intros Hwf Hd.
  destruct (obfs_on c) as [o|] eqn:Ho.
  - destruct (addPaddingBuf_spec data o w Hwf ltac:(lia)) as (pad & -> & Hp).
    exists (be16 (u16 (zlen data)) ++ data ++ pad).
    pose proof (padLen_range o w Hwf). destruct Hwf. pose proof (zlen_nonneg data).
    split; [done|]. split; [by eapply unpad_padded|].
    rewrite !zlen_app. change (zlen (be16 _)) with 2. lia.
  - exists data. unfold unpad. rewrite Ho. split; [done|]. split; [done|]. split; [lia|done].
Qed.

Lemma zlen_nonce (fill : nat -> byte) : zlen (map fill (seq 0 NonceSize)) = 12.
Proof. unfold zlen. by rewrite length_map, length_seq. Qed.

Lemma zlen_Seal (k n p : list byte) : zlen (gcm_Seal k n p) = zlen p + 16.
Proof. unfold zlen. rewrite Seal_length. lia. Qed.

Lemma packet_fits (body : list byte) :
  4 + zlen body <= bufferSize -> packet body = Done (be32 (u32 (zlen body)) ++ body).
Proof. intros H. unfold packet. by rewrite (proj2 (Z.ltb_ge _ _)). Qed.

Lemma packet_overflows (body : list byte) :
  bufferSize < 4 + zlen body -> packet body = Panic SliceOutOfRange.
Proof. intros H. unfold packet. by rewrite (proj2 (Z.ltb_lt _ _)). Qed.

Lemma send_packet_ok (c : EncryptedConn) (data body : list byte) (w : write_entropy) :
  c.(ec_out).(k_fail) = None -> 4 + zlen body <= bufferSize ->
  send_packet c data w body =
  Done (mkWR (zlen data) None (write_jitter c data w.(we_jitter)),
        c <| ec_out := mkSink (c.(ec_out).(k_writes) ++ [be32 (u32 (zlen body)) ++ body]) None |>).
Proof.
  intros Hk Hl. unfold send_packet. rewrite packet_fits by done.
  cbn [mbind outcome_bind]. by rewrite sink_write_ok.
Qed.

(** A sendable message becomes one packet, which decodes to it. *)
Lemma Write_sendable (c : EncryptedConn) (data : list byte) (w : write_entropy) :
  wf_conn c -> c.(ec_out).(k_fail) = None -> sendable c (data, w) ->
  exists body,
    Write c data w = send_packet c data w body /\
    0 < zlen body /\ 4 + zlen body <= bufferSize /\
    decode c body = Done (Ok data).
Proof.
  intros Hwf Hk (Hfit & Hd & Hnonce & Hne). unfold Write.
  destruct (payload_spec c data (we_pad w) Hwf Hd) as (payload & -> & Hun & Hl & Ho).
  cbn [mbind outcome_bind]. unfold overhead in Hfit. pose proof (zlen_nonneg data).
  destruct (ec_gcm c) as [key|] eqn:Hg.
  - destruct (we_nonce w) as [fill|]; [|done].
    eexists. split; [reflexivity|]. rewrite zlen_app, zlen_nonce, zlen_Seal.
    split; [lia|]. split; [lia|]. unfold decode. erewrite decrypt_sealed; [done|done|].
    by rewrite length_map, length_seq.
  - exists payload. split; [done|]. split; [|split; [lia|]].
    + destruct (obfs_on c) eqn:Eo; [specialize (Ho ltac:(done)); lia|].
      destruct data; [by specialize (Hne eq_refl eq_refl)|].
      rewrite zlen_cons in Hl. pose proof (zlen_nonneg data). lia.
    + unfold decode, decrypt. by rewrite Hg.
Qed.

(** The bytes of a wire that decode to the messages [q]. *)
Inductive wire_of (c : EncryptedConn) : list byte -> list (list byte) -> Prop :=
| wire_nil : wire_of c [] []
| wire_cons body m bytes q :
    0 < zlen body <= bufferSize ->
    decode c body = Done (Ok m) ->
    wire_of c bytes q ->
    wire_of c (be32 (u32 (zlen body)) ++ body ++ bytes) (m :: q).

Lemma wire_of_ext (c c' : EncryptedConn) (bytes : list byte) (q : list (list byte)) :
  peers c c' -> wire_of c bytes q -> wire_of c' bytes q.
Proof.
  intros Hp. induction 1 as [|body m bytes q Hb Hd _ IH]; [constructor|].
  constructor; [done| |done]. by rewrite <- (decode_ext c c').
Qed.

(** [c] holds the messages [q]: the leftover of a partial read, then packets. *)
Definition holds (c : EncryptedConn) (q : list (list byte)) : Prop :=
  exists bytes q',
    c.(ec_in) = mkStream bytes EOF /\ wire_of c bytes q' /\
    q = match c.(ec_readBuf) with [] => q' | b => b :: q' end.

Lemma ReadFull_header (L : Z) (rest : list byte) (e : error) :
  ReadFull 4 (mkStream (be32 L ++ rest) e) = (Ok (be32 L), mkStream rest e).
Proof. by apply ReadFull_app. Qed.

Lemma get32_be32_nil (L : Z) : 0 <= L < 4294967296 -> get32 (be32 (u32 L)) = L.
Proof.
  intros H. rewrite <- (app_nil_r (be32 _)), get32_be32, !u32_id by (rewrite ?u32_id; lia).
  done.
Qed.

Lemma holds_ext (c c' : EncryptedConn) (q : list (list byte)) :
  peers c c' -> c'.(ec_in) = c.(ec_in) -> c'.(ec_readBuf) = c.(ec_readBuf) ->
  holds c q -> holds c' q.
Proof.
  intros Hp Hi Hb (bytes & q' & Hin & Hw & Hq). exists bytes, q'.
  rewrite Hi, Hb. split; [done|]. split; [by eapply wire_of_ext, Hw|done].
Qed.

Lemma spec_read_leftover (m : list byte) (q : list (list byte)) (n : nat) :
  spec_read (m :: q) n =
  (Ok (take n m), match drop n m with [] => q | r => r :: q end).
Proof. done. Qed.

(** A well-formed packet on the wire is delivered. *)
Lemma Read_packet (c : EncryptedConn) (body m bytes : list byte) (e : error) (n : nat) :
  c.(ec_readBuf) = [] ->
  c.(ec_in) = mkStream (be32 (u32 (zlen body)) ++ body ++ bytes) e ->
  0 < zlen body <= bufferSize -> decode c body = Done (Ok m) ->
  Read c n = Done (Ok (take n m), c <| ec_in := mkStream bytes e |> <| ec_readBuf := drop n m |>).
Proof.
  intros Hbuf Hin Hb Hd. unfold Read.
  rewrite Hbuf, Hin, ReadFull_header, get32_be32_nil by (unfold bufferSize in Hb; lia).
  cbv zeta. change (Z.shiftl 2 20) with 2097152. unfold bufferSize in *.
  rewrite (proj2 (Z.eqb_neq _ _)), !(proj2 (Z.ltb_ge _ _)) by lia. cbn [orb].
  rewrite (ReadFull_app body) by (unfold zlen; lia). by rewrite Hd.
Qed.

(** One [Read] is one [spec_read]. *)
Lemma Read_refines (c : EncryptedConn) (q : list (list byte)) (n : nat) :
  holds c q ->
  exists c', Read c n = Done (fst (spec_read q n), c') /\ holds c' (snd (spec_read q n)) /\
    peers c c'.
Proof.
  intros (bytes & q' & Hin & Hw & Hq).
  destruct (ec_readBuf c) as [|b buf] eqn:Hbuf.
  - subst q. destruct Hw as [|body m bytes q Hb Hd Hw].
    + exists c. unfold Read. rewrite Hbuf, Hin. cbn. destruct c; cbn in *; subst.
      split; [done|]. split; [|done]. exists [], []. cbn. by repeat constructor.
    + erewrite Read_packet by done. eexists. split; [reflexivity|].
      split; [|by destruct c]. rewrite spec_read_leftover. exists bytes, q.
      destruct c; cbn in *. split; [done|]. split; [by eapply wire_of_ext, Hw|].
      by destruct (drop n m).
  - subst q. unfold Read. rewrite Hbuf. eexists. split; [reflexivity|].
    split; [|by destruct c]. rewrite spec_read_leftover. exists bytes, q'.
    destruct c; cbn in *; subst. split; [done|]. split; [by eapply wire_of_ext, Hw|].
    by destruct (drop n (b :: buf)).
Qed.

Lemma run_reads_refines (c : EncryptedConn) (q : list (list byte)) (sizes : list nat) :
  holds c q -> exists c', run_reads c sizes = Done (spec_reads q sizes, c').
Proof.
  revert c q. induction sizes as [|n sizes IH]; intros c q Hh; [by exists c|].
  destruct (Read_refines c q n Hh) as (c1 & Hr & Hh1 & _). cbn. rewrite Hr. cbn.
  destruct (IH c1 _ Hh1) as [c2 ->]. exists c2. cbn. by destruct (spec_read q n).
Qed.

(** A run of sendable messages appends exactly their packets to what was sent before. *)
Lemma run_writes_packets (r c : EncryptedConn) (msgs : list (list byte * write_entropy)) :
  peers c r -> wf_conn c -> c.(ec_out).(k_fail) = None -> Forall (sendable c) msgs ->
  exists rs c' pkts,
    run_writes c msgs = Done (rs, c') /\
    map (fun x => (x.(wr_n), x.(wr_err))) rs = map (fun m => (zlen m.1, None)) msgs /\
    c'.(ec_out) = mkSink (c.(ec_out).(k_writes) ++ pkts) None /\
    wire_of r (concat pkts) (map fst msgs).
Proof.
  revert c. induction msgs as [|[data w] msgs IH]; intros c Hp Hwf Hk Hs.
  { exists [], c, []. rewrite app_nil_r. repeat split; [|constructor]. by destruct (ec_out c); cbn in *; subst. }
  apply Forall_cons_1 in Hs as [Hm Hs].
  destruct (Write_sendable c data w Hwf Hk Hm) as (body & Hw & Hpos & Hfit & Hd).
  cbn [run_writes]. rewrite Hw, send_packet_ok by done. cbn [mbind outcome_bind].
  set (pkt := be32 (u32 (zlen body)) ++ body). set (c1 := c <| ec_out := _ |>).
  destruct (IH c1 Hp Hwf eq_refl Hs) as (rs & c2 & pkts & Hr & Hn & Ho & Hq).
  rewrite Hr. cbn. exists (mkWR (zlen data) None (write_jitter c data (we_jitter w)) :: rs), c2, (pkt :: pkts).
  split; [done|]. split; [cbn; by f_equal|]. split; [rewrite Ho; cbn; by rewrite <- app_assoc|].
  change (wire_of r (pkt ++ concat pkts) (data :: map fst msgs)). unfold pkt.
  rewrite <- app_assoc. constructor; [lia| |done]. by rewrite <- (decode_ext c r).
Qed.
End ConnLemmas.

(** ** Lemmas: the message queue *)

Lemma spec_read_conserves (q : list (list byte)) (n : nat) :
  (match fst (spec_read q n) with Ok l => l | Err _ => [] end) ++ concat (snd (spec_read q n))
  = concat q.
Proof.
  destruct q as [|m q]; [done|]. cbn.
  assert (concat (match drop n m with [] => q | r => r :: q end) = drop n m ++ concat q) as ->
    by by destruct (drop n m).
  by rewrite app_assoc, take_drop.
Qed.

(** Reads never reorder, repeat or invent bytes. *)
Lemma spec_reads_prefix (q : list (list byte)) (sizes : list nat) :
  exists rest, concat q = delivered (spec_reads q sizes) ++ rest.
Proof.
  revert q. induction sizes as [|n sizes IH]; intros q; [by exists (concat q)|].
  cbn. pose proof (spec_read_conserves q n) as Hc. destruct (spec_read q n) as [r q1].
  cbn in Hc |- *. destruct (IH q1) as [rest Hr]. exists rest.
  rewrite <- Hc, Hr. unfold delivered. cbn. by rewrite app_assoc.
Qed.

Lemma spec_read_progress (q : list (list byte)) (n : nat) :
  (0 < n)%nat -> q <> [] ->
  (length (concat (snd (spec_read q n))) + length (snd (spec_read q n))
   < length (concat q) + length q)%nat.
Proof.
  intros Hn Hq. destruct q as [|m q]; [done|]. cbn. destruct (drop n m) as [|b r] eqn:E.
  - rewrite length_app. lia.
  - cbn. rewrite !length_app. apply (f_equal length) in E. rewrite length_drop in E.
    cbn in E. lia.
Qed.

(** Enough reads of a non-empty buffer empty the queue. *)
Lemma spec_reads_drain (q : list (list byte)) (n k : nat) :
  (0 < n)%nat -> (length (concat q) + length q <= k)%nat ->
  delivered (spec_reads q (replicate k n)) = concat q.
Proof.
  intros Hn. revert q. induction k as [|k IH]; intros q Hk.
  { destruct q; [done|]. cbn in Hk. rewrite length_app in Hk. lia. }
  destruct (decide (q = [])) as [->|Hq].
  - clear IH Hk. cbn. unfold delivered. cbn. induction k as [|k IHk]; [done|]. exact IHk.
  - pose proof (spec_read_progress q n Hn Hq). pose proof (spec_read_conserves q n) as Hc.
    cbn [replicate spec_reads]. destruct (spec_read q n) as [r q1]. cbn in *.
    unfold delivered in *. cbn. rewrite IH by lia. done.
Qed.

(** ** A concrete cipher

    An instance of the laws, for the concrete runs: the tag repeats the key. *)
Definition toy_tag (k : list byte) : list byte := take 16 (k ++ replicate 16 x00).

#[export] Instance toy_crypto : Crypto := {|
  sha256_Sum256 m := take 32 (m ++ replicate 32 x00);
  gcm_Seal k _ p := p ++ toy_tag k;
  gcm_Open k _ c :=
    if decide (drop (length c - 16) c = toy_tag k) then Some (take (length c - 16) c) else None
|}.

Lemma length_toy_tag (k : list byte) : length (toy_tag k) = 16%nat.
Proof. unfold toy_tag. rewrite length_take, length_app, length_replicate. lia. Qed.

#[export] Instance toy_crypto_laws : CryptoLaws toy_crypto.
Proof.
  split.
  - intros m. cbn -[replicate]. rewrite length_take, length_app, length_replicate. lia.
  - intros k n p. cbn. by rewrite length_app, length_toy_tag.
  - intros k n p. cbn. rewrite length_app, length_toy_tag, Nat.add_sub.
    by rewrite drop_app_length, take_app_length, decide_True by done.
Qed.

Definition toy_entropy : write_entropy :=
  mkWriteEntropy (mkPadEntropy (Some 3) (fun i => byte_of (Z.of_nat i)) (Some 3) (Some 1))
    (Ok (fun i => byte_of (Z.of_nat i))) None.
Definition toy_obfs : ObfsConfig := mkObfsConfig true 4 32 0 0 0.
Definition toy_key : list byte := replicate 32 x2a.
Definition toy_conn (inp : list byte) : EncryptedConn :=
  mkEC (Some toy_key) (Some toy_obfs) [] (mkStream inp EOF) (mkSink [] None).
Definition toy_msgs : list (list byte * write_entropy) :=
  [(bytes_of "hello", toy_entropy); (bytes_of "world!", toy_entropy)].

(** ** Properties *)

(** C34: Padding is undone exactly: whatever is drawn, [removePadding] gives back
    data of up to 65533 bytes, and the padded length stays within the configured
    bounds.  On longer data the [uint16] length field wraps around: the reader
    panics when the remainder is 65534 or 65535, and otherwise silently keeps
    only the first [len mod 65536] bytes. *)
Theorem padding_roundtrip (data : list byte) (o : ObfsConfig) (w : pad_entropy) :
  wf_obfs o -> zlen data < 2 ^ 31 ->
  exists p,
    addPaddingBuf data o bufferSize w = Done p /\
    2 + zlen data + o.(Obfs_MinPadding) <= zlen p /\
    zlen p <= 2 + zlen data + Z.max o.(Obfs_MinPadding) (o.(Obfs_MaxPadding) - 1) /\
    (zlen data < 65534 -> removePadding p = Done (Some data)) /\
    removePadding p =
      if u16 (zlen data) <? 65534 then Done (Some (take (Z.to_nat (u16 (zlen data))) data))
      else Panic SliceOutOfRange.
Proof.
  intros Hwf Hd. destruct (addPaddingBuf_spec data o w Hwf Hd) as (pad & -> & Hp).
  pose proof (padLen_range o w Hwf). eexists. split; [reflexivity|].
  rewrite !zlen_app. change (zlen (be16 _)) with 2. split; [lia|]. split; [lia|].
  rewrite removePadding_framed. split; [|done]. intros Hlt.
  pose proof (zlen_nonneg data). rewrite u16_id, (proj2 (Z.ltb_lt _ _)) by lia.
  by rewrite take_ge by (unfold zlen; lia).
Qed.

Lemma padding_roundtrip_witness :
  exists p,
    addPaddingBuf (bytes_of "hi") toy_obfs bufferSize (we_pad toy_entropy) = Done p /\
    removePadding p = Done (Some (bytes_of "hi")).
Proof.
  destruct (padding_roundtrip (bytes_of "hi") toy_obfs (we_pad toy_entropy)
              ltac:(unfold wf_obfs; cbn; lia) ltac:(reflexivity)) as (p & H1 & _ & _ & H2 & _).
  exists p. split; [exact H1|]. apply H2. reflexivity.
Defined.

(** C1: An [EncryptedConn] implements a queue of messages.  Any sequence of
    sendable messages is written without error or panic, each write reporting
    its full length; and a peer with the same key and padding mode that reads
    the resulting bytes, into buffers of any sizes, gets exactly what
    [spec_read] takes from the queue of these messages, however the padding and
    the nonces were drawn. *)
Theorem conn_refines_queue {C : Crypto} (CL : CryptoLaws C) (w r : EncryptedConn)
    (msgs : list (list byte * write_entropy)) (sizes : list nat) :
  peers w r -> wf_conn w -> w.(ec_out) = mkSink [] None -> r.(ec_readBuf) = [] ->
  Forall (sendable w) msgs ->
  exists rs w',
    run_writes w msgs = Done (rs, w') /\
    map (fun x => (x.(wr_n), x.(wr_err))) rs = map (fun m => (zlen m.1, None)) msgs /\
    (r.(ec_in) = mkStream (k_bytes w'.(ec_out)) EOF ->
     exists r', run_reads r sizes = Done (spec_reads (map fst msgs) sizes, r')).
Proof.
  intros Hp Hwf Hout Hbuf Hs.
  destruct (run_writes_packets r w msgs Hp Hwf ltac:(by rewrite Hout) Hs)
    as (rs & w' & pkts & Hr & Hn & Ho & Hw).
  exists rs, w'. split; [done|]. split; [done|]. intros Hin.
  apply run_reads_refines. exists (k_bytes (ec_out w')), (map fst msgs).
  rewrite Hbuf, Ho, Hout. by split; [rewrite Hin, Ho, Hout|].
Qed.

Lemma conn_refines_queue_witness :
  exists rs w',
    run_writes (toy_conn []) toy_msgs = Done (rs, w') /\
    exists r', run_reads (toy_conn (k_bytes w'.(ec_out))) [3; 10; 4]%nat =
               Done (spec_reads (map fst toy_msgs) [3; 10; 4]%nat, r').
Proof.
  destruct (run_writes (toy_conn []) toy_msgs) as [[rs w']|] eqn:E; [|vm_compute in E; discriminate].
  exists rs, w'. split; [reflexivity|].
  destruct (conn_refines_queue toy_crypto_laws (toy_conn []) (toy_conn (k_bytes w'.(ec_out)))
    toy_msgs [3; 10; 4]%nat) as (rs' & w'' & H1 & _ & H2).
  - split; [reflexivity|]. cbn. split; intros; eauto.
  - unfold wf_conn, wf_obfs; cbn. lia.
  - reflexivity.
  - reflexivity.
  - repeat constructor; cbn; try discriminate; vm_compute; discriminate.
  - rewrite E in H1. injection H1 as <- <-. apply H2. reflexivity.
Defined.

(** The tunnel loses, repeats and reorders nothing.  Whatever buffer sizes
    the reader uses, what it has read is a prefix of what was written; and with
    non-empty buffers it has read everything after one read per byte and per
    message. *)
Theorem conn_delivers_all {C : Crypto} (CL : CryptoLaws C) (r : EncryptedConn)
    (q : list (list byte)) (sizes : list nat) (n k : nat) :
  holds r q -> (0 < n)%nat -> (length (concat q) + length q <= k)%nat ->
  (exists rs r' rest, run_reads r sizes = Done (rs, r') /\ concat q = delivered rs ++ rest) /\
  (exists rs r', run_reads r (replicate k n) = Done (rs, r') /\ delivered rs = concat q).
Proof.
  intros Hh Hn Hk. split.
  - destruct (run_reads_refines r q sizes Hh) as [r' Hr].
    destruct (spec_reads_prefix q sizes) as [rest Hp]. eauto.
  - destruct (run_reads_refines r q (replicate k n) Hh) as [r' Hr].
    eexists _, r'. split; [done|]. by apply spec_reads_drain.
Qed.

Lemma conn_delivers_all_witness :
  let r := mkEC None None [] (mkStream (be32 1 ++ [x41] ++ []) EOF) (mkSink [] None) in
  (exists rs r' rest, run_reads r [0; 5]%nat = Done (rs, r') /\ [x41] = delivered rs ++ rest) /\
  (exists rs r', run_reads r (replicate 2 1%nat) = Done (rs, r') /\ delivered rs = [x41]).
Proof.
  intros r. apply (conn_delivers_all toy_crypto_laws r [[x41]] [0; 5]%nat 1 2).
  - exists (be32 1 ++ [x41] ++ []), [[x41]]. split; [reflexivity|]. split; [|reflexivity].
    apply (wire_cons r [x41]); [split; vm_compute; congruence|reflexivity|constructor].
  - lia.
  - cbn. lia.
Defined.

(** A [Write] whose nonce can be drawn panics exactly when the packet does
    not fit the 128 KiB pool buffer; otherwise it hands one packet to the
    connection, or reports the connection's error. *)
Theorem Write_panics_iff {C : Crypto} (CL : CryptoLaws C) (c : EncryptedConn)
    (data : list byte) (w : write_entropy) :
  wf_conn c -> zlen data < 2 ^ 31 -> is_ok w.(we_nonce) = true ->
  Write c data w = Panic SliceOutOfRange <->
  bufferSize < overhead c + zlen data +
    match obfs_on c with Some o => 2 + padLen o w.(we_pad) | None => 0 end.
Proof.
  intros Hwf Hd Hn.
  assert (Hs : forall body, send_packet c data w body = Panic SliceOutOfRange <->
                            bufferSize < 4 + zlen body).
  { intros body. destruct (Z.ltb_spec bufferSize (4 + zlen body)).
    - unfold send_packet. by rewrite packet_overflows.
    - unfold send_packet. rewrite packet_fits by lia. cbn.
      destruct (sink_write _ _) as [[? [err|]] k]; split; intros; try done; lia. }
  assert (Hpay : exists payload,
    match obfs_on c with Some o => addPaddingBuf data o bufferSize w.(we_pad) | None => Done data end
    = Done payload /\
    zlen payload = zlen data +
      match obfs_on c with Some o => 2 + padLen o w.(we_pad) | None => 0 end).
  { unfold wf_conn in Hwf. destruct (obfs_on c) as [o|]; [|exists data; split; [done|lia]].
    destruct (addPaddingBuf_spec data o (we_pad w) Hwf Hd) as (pad & -> & Hp).
    eexists. split; [reflexivity|]. rewrite !zlen_app. change (zlen (be16 _)) with 2. lia. }
  destruct Hpay as (payload & Hp & Hl). unfold Write, overhead. rewrite Hp.
  cbn [mbind outcome_bind]. destruct (ec_gcm c).
  - destruct (we_nonce w); [|done]. rewrite Hs, zlen_app, zlen_nonce, zlen_Seal. lia.
  - rewrite Hs. lia.
Qed.

Lemma Write_panics_iff_witness :
  Write (toy_conn []) (replicate (Z.to_nat 131060) x00) toy_entropy = Panic SliceOutOfRange.
Proof.
  assert (Hd : zlen (replicate (Z.to_nat 131060) x00) = 131060)
    by (rewrite zlen_replicate; reflexivity).
  apply (Write_panics_iff toy_crypto_laws).
  - unfold wf_conn, wf_obfs; cbn. lia.
  - rewrite Hd. reflexivity.
  - reflexivity.
  - rewrite Hd. reflexivity.
Defined.

(** A packet makes [Read] panic exactly when it is authentic and its padding
    header wraps. *)
Lemma decode_panics_iff {C : Crypto} (c : EncryptedConn) (pkt : list byte) :
  (exists plaintext, decrypt c pkt = Ok plaintext /\ obfs_on c <> None /\
     65534 <= get16 plaintext /\ get16 plaintext + 2 <= zlen plaintext) <->
  decode c pkt = Panic SliceOutOfRange.
Proof.
  unfold decode, unpad. destruct (decrypt c pkt) as [pt|e]; [|naive_solver].
  destruct (obfs_on c) as [o|]; [|naive_solver].
  pose proof (removePadding_panics_iff pt) as Hp.
  destruct (removePadding pt) as [[?|]|?]; naive_solver.
Qed.

Lemma bind_panics {A B} (m : outcome A) (f : A -> B) (p : panic) :
  (r ← m; Done (f r)) = Panic p <-> m = Panic p.
Proof. destruct m; cbn; split; congruence. Qed.

(** C40: [Read] panics exactly in two situations: a packet header that announces
    more than the 128 KiB of the pool buffer but no more than the 2 MiB the
    check allows (whatever follows it, and whatever the key: no authentication
    comes first), or an authentic packet whose padding header declares 65534 or
    65535 bytes. *)
Theorem Read_panics_iff {C : Crypto} (c : EncryptedConn) (n : nat) :
  Read c n = Panic SliceOutOfRange <->
  c.(ec_readBuf) = [] /\
  exists header s,
    ReadFull 4 c.(ec_in) = (Ok header, s) /\
    (bufferSize < get32 header <= 2097152 \/
     0 < get32 header <= bufferSize /\
     exists pkt s' plaintext,
       ReadFull (Z.to_nat (get32 header)) s = (Ok pkt, s') /\
       decrypt c pkt = Ok plaintext /\ obfs_on c <> None /\
       65534 <= get16 plaintext /\ get16 plaintext + 2 <= zlen plaintext).
Proof.
  unfold Read. destruct (ec_readBuf c) as [|b buf]; [|split; [done|intros [? _]; done]].
  destruct (ReadFull 4 (ec_in c)) as [[header|e] s]; [|split; [done|naive_solver]].
  pose proof (get32_range header). change (Z.shiftl 2 20) with 2097152.
  assert (Hhdr : forall P : list byte -> stream -> Prop,
    (@nil byte = [] /\ exists h s0, (Ok header, s) = (Ok h, s0) /\ P h s0) <-> P header s)
    by (intros P; split; [by intros (_ & h & s0 & [= <- <-] & ?)|eauto]).
  rewrite Hhdr. clear Hhdr.
  destruct (Z.eqb_spec (get32 header) 0); cbn [orb]; [split; [done|unfold bufferSize; intros [?|[? _]]; lia]|].
  destruct (Z.ltb_spec 2097152 (get32 header)); [split; [done|unfold bufferSize; intros [?|[? _]]; lia]|].
  destruct (Z.ltb_spec bufferSize (get32 header)); [split; [intros; left; lia|done]|].
  destruct (ReadFull (Z.to_nat (get32 header)) s) as [[pkt|e] s'] eqn:Er.
  - rewrite bind_panics, <- (decode_panics_iff c pkt). split.
    + intros (p & Hd & Ho & Hg1 & Hg2). right. split; [lia|]. by exists pkt, s', p.
    + intros [?|(_ & ? & ? & p & [= <- <-] & Hd)]; [lia|]. by exists p.
  - split; [done|]. intros [?|(_ & ? & ? & ? & ? & _)]; [lia|done].
Qed.
