(* ===== verification/TlsFragment.v ===== *)
(** * ClientHello fragmentation ([tls_fragment.go], [tls_fragment_linux.go])

    [FragmentedConn] splits the first large write of a connection in two;
    [DialFragmented] draws the size and the delay and makes the connection, on
    Linux through a raw socket ([dialRawTCP]). *)

From stdpp Require Import gmap sets.
From S2P Require Import Prelude GoStrings GoBytes ConfigTypes EncryptedConn.
From Stdlib Require Import Init.Byte.

Local Open Scope string_scope.
Local Open Scope list_scope.
Local Open Scope Z_scope.

(** ** FragmentedConn *)

Record FragmentedConn := mkFC {
  fc_Conn : sink;
  fc_fragmentSize : Z;
  fc_delay : Z;
  fc_firstWrite : bool
}.
#[export] Instance eta_FragmentedConn : Eta FragmentedConn := fun c =>
  mkFC c.(fc_Conn) c.(fc_fragmentSize) c.(fc_delay) c.(fc_firstWrite).

(** [FragmentedConn.Write(b)]: the count, the error, the time slept between the
    fragments, and the connection afterwards. *)
Definition FragWrite (c : FragmentedConn) (b : list byte)
    : outcome (Z * option error * Z * FragmentedConn) :=
  if c.(fc_firstWrite) || (zlen b <=? c.(fc_fragmentSize)) then
    let '(n, err, k) := sink_write b c.(fc_Conn) in
    Done (n, err, 0, c <| fc_firstWrite := true |> <| fc_Conn := k |>)
  else
    frag1 ← slice b 0 c.(fc_fragmentSize);
    frag2 ← slice b c.(fc_fragmentSize) (zlen b);
    let '(n1, err, k) := sink_write frag1 c.(fc_Conn) in
    match err with
    | Some e => Done (n1, Some e, 0, c <| fc_firstWrite := true |> <| fc_Conn := k |>)
    | None =>
        let '(n2, err, k) := sink_write frag2 k in
        Done (n1 + n2, err, c.(fc_delay), c <| fc_firstWrite := true |> <| fc_Conn := k |>)
    end.

(** Successive writes; keeps the counts and the errors. *)
Fixpoint run_frag_writes (c : FragmentedConn) (bs : list (list byte))
    : outcome (list (Z * option error) * FragmentedConn) :=
  match bs with
  | [] => Done ([], c)
  | b :: bs =>
      '(n, err, _, c) ← FragWrite c b;
      '(rs, c) ← run_frag_writes c bs;
      Done ((n, err) :: rs, c)
  end.

(** ** DialFragmented *)

(** [DefaultFragmentConfig()] *)
Definition DefaultFragmentConfig : FragmentConfig := mkFragmentConfig true 64 191 1 2.

(** [lo], plus a draw up to [hi - lo] inclusive when that is positive. *)
Definition draw_between (lo hi : Z) (draw : option Z) : Z :=
  let diff := wrap64 (hi - lo) in
  if 0 <? diff then wrap64 (lo + secureRandInt (wrap64 (diff + 1)) draw) else lo.

(** The fragment size and the delay that [DialFragmented] chooses. *)
Definition fragment_size (cfg : FragmentConfig) (draw : option Z) : Z :=
  draw_between (pos_or 64 cfg.(Frag_MinSize)) (pos_or 191 cfg.(Frag_MaxSize)) draw.
Definition fragment_delay (cfg : FragmentConfig) (draw : option Z) : Z :=
  wrap64 (draw_between (pos_or 1 cfg.(Frag_MinDelay)) (pos_or 2 cfg.(Frag_MaxDelay)) draw
          * Millisecond).

(** A dialled connection of the standard library, seen through its outbound
    side, and whether [setTCPNoDelay] was called on it after the connect. *)
Record tcp_conn := mkTCP { tcp_sink : sink; tcp_nodelay_set : bool }.

Inductive net_conn :=
| PlainConn (c : tcp_conn)
| FragConn (c : FragmentedConn) (nodelay_set : bool).

(** [DialFragmented(addr, cfg, timeout)].  [raw] is what [dialRawTCP] returns,
    [std] what [net.DialTimeout] returns. *)
Definition DialFragmented (cfg : option FragmentConfig) (size_draw delay_draw : option Z)
    (raw std : result sink) : result net_conn :=
  match cfg with
  | Some cfg =>
      if cfg.(Frag_Enabled) then
        let wrap k := mkFC k (fragment_size cfg size_draw) (fragment_delay cfg delay_draw) false in
        match raw with
        | Ok k => Ok (FragConn (wrap k) false)
        | Err _ =>
            match std with
            | Ok k => Ok (FragConn (wrap k) true)
            | Err e => Err (Errorf "dial: %w" [ArgErr e])
            end
        end
      else k ← std; Ok (PlainConn (mkTCP k false))
  | None => k ← std; Ok (PlainConn (mkTCP k false))
  end.

(** ** The raw socket dialer (Linux)

    The system calls, in order, with the descriptors they concern. *)
Inductive sysevent :=
| SysSocket (fd : Z)
| SysNoDelay (fd : Z)
| SysNonblock (fd : Z) (on : bool)
| SysConnect (fd : Z)
| SysEpollCreate (epfd : Z)
| SysEpollAdd (epfd fd : Z)
| SysEpollWait (epfd ms : Z)
| SysGetsockopt (fd : Z)
| SysDup (fd newfd : Z)
| SysClose (fd : Z).

(** What [syscall.Connect] returns. *)
Inductive connect_result := Connected | InProgress | ConnectFailed (e : error).

(** The results of the calls; [os_resolve] is [net.ResolveTCPAddr] followed by
    [To4], [None] for an IPv6 address. *)
Record sysresults := mkSys {
  os_resolve : result (option unit);
  os_socket : result Z;
  os_connect : connect_result;
  os_epoll_create : result Z;
  os_epoll_add : option error;
  os_epoll_wait : result Z;
  os_sock_error : result Z;
  os_fileconn : result Z
}.

(** [waitConnect(fd, timeout)] and its system calls; the deferred close of the
    epoll descriptor comes last on every path after its creation. *)
Definition epoll_timeout (timeout : Z) : Z :=
  let ms := Z.quot timeout Millisecond in if ms <=? 0 then 10000 else ms.

Definition waitConnect (os : sysresults) (fd timeout : Z) : option error * list sysevent :=
  match os.(os_epoll_create) with
  | Err e => (Some (Errorf "epoll_create: %w" [ArgErr e]), [])
  | Ok epfd =>
      let (err, trace) :=
        match os.(os_epoll_add) with
        | Some e => (Some (Errorf "epoll_ctl: %w" [ArgErr e]), [SysEpollAdd epfd fd])
        | None =>
            let trace := [SysEpollAdd epfd fd; SysEpollWait epfd (epoll_timeout timeout)] in
            match os.(os_epoll_wait) with
            | Err e => (Some (Errorf "epoll_wait: %w" [ArgErr e]), trace)
            | Ok n =>
                if n =? 0 then (Some (Errorf "connect timed out" []), trace)
                else
                  (match os.(os_sock_error) with
                   | Err e => Some (Errorf "getsockopt: %w" [ArgErr e])
                   | Ok val =>
                       if val =? 0 then None else Some (Errorf "connect error: %s" [ArgInt val])
                   end, trace ++ [SysGetsockopt fd])
            end
        end in
      (err, [SysEpollCreate epfd] ++ trace ++ [SysClose epfd])
  end.

(** [dialRawTCP(addr, timeout)]: the descriptor of the new connection, and the
    system calls.  [os.File.Close] closes the descriptor it was made from;
    [net.FileConn] works on a duplicate. *)
Definition dialRawTCP (os : sysresults) (split : result (string * string)) (timeout : Z)
    : result Z * list sysevent :=
  match split with
  | Err e => (Err e, [])
  | Ok _ =>
      match os.(os_resolve) with
      | Err e => (Err e, [])
      | Ok None => (Err (Errorf "ipv6 not supported for raw dial" []), [])
      | Ok (Some _) =>
          match os.(os_socket) with
          | Err e => (Err (Errorf "socket: %w" [ArgErr e]), [])
          | Ok fd =>
              let opened := [SysSocket fd; SysNoDelay fd; SysNonblock fd true; SysConnect fd] in
              let adopt :=
                [SysNonblock fd false] ++
                match os.(os_fileconn) with
                | Ok newfd => [SysDup fd newfd; SysClose fd]
                | Err _ => [SysClose fd; SysClose fd]
                end in
              let conn := match os.(os_fileconn) with
                          | Ok newfd => Ok newfd
                          | Err e => Err (Errorf "file conn: %w" [ArgErr e])
                          end in
              match os.(os_connect) with
              | Connected => (conn, opened ++ adopt)
              | InProgress =>
                  match waitConnect os fd timeout with
                  | (Some e, trace) => (Err e, opened ++ trace ++ [SysClose fd])
                  | (None, trace) => (conn, opened ++ trace ++ adopt)
                  end
              | ConnectFailed e =>
                  (Err (Errorf "connect: %w" [ArgErr e]), opened ++ [SysClose fd])
              end
          end
      end
  end.

(** The descriptors a call owns: the ones it opened and has not closed.  [None] if it uses
    or closes one that is not its own, or if the system hands out a number it still owns;
    a number that was closed may come again. *)
Definition uses (e : sysevent) : gset Z :=
  match e with
  | SysNoDelay fd | SysNonblock fd _ | SysConnect fd | SysGetsockopt fd | SysDup fd _ | SysClose fd =>
      {[fd]}
  | SysEpollAdd epfd fd => {[epfd; fd]}
  | SysEpollWait epfd _ => {[epfd]}
  | SysSocket _ | SysEpollCreate _ => ∅
  end.
Definition opens (e : sysevent) : gset Z :=
  match e with SysSocket fd | SysEpollCreate fd | SysDup _ fd => {[fd]} | _ => ∅ end.
Definition closes (e : sysevent) : gset Z := match e with SysClose fd => {[fd]} | _ => ∅ end.
Definition owned_after (own : gset Z) (e : sysevent) : option (gset Z) :=
  if decide (uses e ⊆ own /\ opens e ## own) then Some ((own ∖ closes e) ∪ opens e) else None.
Fixpoint owned (own : gset Z) (t : list sysevent) : option (gset Z) :=
  match t with
  | [] => Some own
  | e :: t => own ← owned_after own e; owned own t
  end.

(** ** Lemmas *)

(** Is the next write of [c] going to be split? *)
Definition splits (c : FragmentedConn) (b : list byte) : bool :=
  negb c.(fc_firstWrite) && (c.(fc_fragmentSize) <? zlen b).

(** The writes that reach the wrapped connection when none of them fails. *)
Definition fragments (c : FragmentedConn) (b : list byte) : list (list byte) :=
  if splits c b
  then [take (Z.to_nat c.(fc_fragmentSize)) b; drop (Z.to_nat c.(fc_fragmentSize)) b]
  else [b].

Lemma concat_fragments (c : FragmentedConn) (b : list byte) : concat (fragments c b) = b.
Proof.
  unfold fragments. destruct (splits c b); cbn; rewrite app_nil_r; [apply take_drop|done].
Qed.

Lemma FragWrite_split (c : FragmentedConn) (b : list byte) :
  0 <= c.(fc_fragmentSize) -> splits c b = true ->
  slice b 0 c.(fc_fragmentSize) = Done (take (Z.to_nat c.(fc_fragmentSize)) b) /\
  slice b c.(fc_fragmentSize) (zlen b) = Done (drop (Z.to_nat c.(fc_fragmentSize)) b) /\
  c.(fc_firstWrite) || (zlen b <=? c.(fc_fragmentSize)) = false.
Proof.
  intros Hpos Hs. unfold splits in Hs. apply andb_prop in Hs as [Hf Hl].
  apply Z.ltb_lt in Hl. apply negb_true_iff in Hf. rewrite Hf.
  rewrite !slice_done by (unfold zlen in *; lia). cbn [orb].
  split; [by rewrite Z.sub_0_r, drop_0|]. split; [|by apply Z.leb_gt].
  by rewrite take_ge by (rewrite length_drop; unfold zlen in *; lia).
Qed.

Lemma FragWrite_whole (c : FragmentedConn) (b : list byte) :
  splits c b = false -> c.(fc_firstWrite) || (zlen b <=? c.(fc_fragmentSize)) = true.
Proof.
  unfold splits. destruct (fc_firstWrite c); [done|]. cbn.
  destruct (Z.ltb_spec (fc_fragmentSize c) (zlen b)); [done|]. intros _. by apply Z.leb_le.
Qed.

(** On a connection that does not fail, a write hands over its fragments. *)
Lemma FragWrite_ok (c : FragmentedConn) (b : list byte) :
  0 <= c.(fc_fragmentSize) -> c.(fc_Conn).(k_fail) = None ->
  FragWrite c b =
  Done (zlen b, None, if splits c b then c.(fc_delay) else 0,
        mkFC (mkSink (c.(fc_Conn).(k_writes) ++ fragments c b) None)
             c.(fc_fragmentSize) c.(fc_delay) true).
Proof.
  intros Hpos Hk. unfold FragWrite, fragments. destruct (splits c b) eqn:Hs.
  - destruct (FragWrite_split c b Hpos Hs) as (-> & -> & ->).
    cbn [mbind outcome_bind]. rewrite (sink_write_ok _ _ Hk), sink_write_ok by done.
    unfold upd; cbn. rewrite <- app_assoc. do 3 f_equal. f_equal.
    rewrite zlen_take, zlen_drop. unfold splits in Hs.
    apply andb_prop in Hs as [_ Hl%Z.ltb_lt]. lia.
  - rewrite (FragWrite_whole c b Hs), (sink_write_ok _ _ Hk). done.
Qed.

Lemma run_frag_writes_after (c : FragmentedConn) (bs : list (list byte)) :
  0 <= c.(fc_fragmentSize) -> c.(fc_Conn).(k_fail) = None -> c.(fc_firstWrite) = true ->
  run_frag_writes c bs =
  Done (map (fun b => (zlen b, None)) bs,
        mkFC (mkSink (c.(fc_Conn).(k_writes) ++ bs) None) c.(fc_fragmentSize) c.(fc_delay) true).
Proof.
  revert c. induction bs as [|b bs IH]; intros c Hp Hk Hf; cbn [run_frag_writes].
  - rewrite app_nil_r. destruct c as [[ws fl] fs d fw]. cbn in *. by subst.
  - rewrite FragWrite_ok by done. cbn [mbind outcome_bind]. rewrite IH by done. cbn.
    unfold fragments, splits. rewrite Hf. cbn. by rewrite <- app_assoc.
Qed.

Lemma draw_between_range (lo hi : Z) (draw : option Z) :
  0 < lo < 2 ^ 31 -> 0 < hi < 2 ^ 31 -> lo <= draw_between lo hi draw <= Z.max lo hi.
Proof.
  intros Hlo Hhi. unfold draw_between.
  rewrite (wrap64_id (hi - lo)) by (unfold int64_range; lia).
  destruct (Z.ltb_spec 0 (hi - lo)); [|lia].
  rewrite (wrap64_id (hi - lo + 1)) by (unfold int64_range; lia).
  pose proof (secureRandInt_range (hi - lo + 1) draw).
  rewrite wrap64_id by (unfold int64_range; lia). lia.
Qed.

Lemma pos_or_range (d v : Z) : 0 < d < 2 ^ 31 -> v < 2 ^ 31 -> 0 < pos_or d v < 2 ^ 31.
Proof. unfold pos_or. intros. case_bool; lia. Qed.

(** Settings below 2^31: the draws do not overflow. *)
Definition small_fragment_config (cfg : FragmentConfig) : Prop :=
  cfg.(Frag_MinSize) < 2 ^ 31 /\ cfg.(Frag_MaxSize) < 2 ^ 31 /\
  cfg.(Frag_MinDelay) < 2 ^ 31 /\ cfg.(Frag_MaxDelay) < 2 ^ 31.

Lemma fragment_size_range (cfg : FragmentConfig) (draw : option Z) :
  small_fragment_config cfg ->
  pos_or 64 cfg.(Frag_MinSize) <= fragment_size cfg draw
    <= Z.max (pos_or 64 cfg.(Frag_MinSize)) (pos_or 191 cfg.(Frag_MaxSize)) /\
  0 < fragment_size cfg draw.
Proof.
  intros (H1 & H2 & _). pose proof (pos_or_range 64 _ ltac:(lia) H1).
  pose proof (pos_or_range 191 _ ltac:(lia) H2).
  unfold fragment_size.
  pose proof (draw_between_range (pos_or 64 (Frag_MinSize cfg)) (pos_or 191 (Frag_MaxSize cfg)) draw).
  lia.
Qed.

Lemma fragment_delay_range (cfg : FragmentConfig) (draw : option Z) :
  small_fragment_config cfg ->
  pos_or 1 cfg.(Frag_MinDelay) * Millisecond <= fragment_delay cfg draw
    <= Z.max (pos_or 1 cfg.(Frag_MinDelay)) (pos_or 2 cfg.(Frag_MaxDelay)) * Millisecond.
Proof.
  intros (_ & _ & H1 & H2). pose proof (pos_or_range 1 _ ltac:(lia) H1).
  pose proof (pos_or_range 2 _ ltac:(lia) H2). unfold fragment_delay, Millisecond.
  pose proof (draw_between_range (pos_or 1 (Frag_MinDelay cfg)) (pos_or 2 (Frag_MaxDelay cfg)) draw).
  rewrite wrap64_id by (unfold int64_range; lia). lia.
Qed.

(** Did the raw dialer reach [net.FileConn]? *)
Definition connected (os : sysresults) (fd timeout : Z) : bool :=
  match os.(os_connect) with
  | Connected => true
  | InProgress => match fst (waitConnect os fd timeout) with None => true | Some _ => false end
  | ConnectFailed _ => false
  end.

Lemma owned_app (own : gset Z) (t u : list sysevent) :
  owned own (t ++ u) = owned own t ≫= fun own => owned own u.
Proof.
  revert own. induction t as [|e t IH]; intros own; [done|]. cbn.
  destruct (owned_after own e) as [own'|]; [apply IH|done].
Qed.

Lemma owned_cons (own own' : gset Z) (e : sysevent) (t : list sysevent) :
  uses e ⊆ own -> opens e ## own -> (own ∖ closes e) ∪ opens e = own' ->
  owned own (e :: t) = owned own' t.
Proof. intros H1 H2 <-. cbn. unfold owned_after. by rewrite decide_True. Qed.

(** Follows a trace of concrete events through the descriptors owned. *)
Ltac own_steps :=
  repeat (erewrite owned_cons; [|cbn; set_solver|cbn; set_solver|reflexivity]);
  cbn [owned uses opens closes].

(** [waitConnect] gives back what it opens, and uses nothing but that and [fd]. *)
Lemma waitConnect_owned (os : sysresults) (fd timeout : Z) (own : gset Z) :
  fd ∈ own -> (forall epfd, os.(os_epoll_create) = Ok epfd -> epfd ∉ own) ->
  owned own (snd (waitConnect os fd timeout)) = Some own.
Proof.
  intros Hfd He. unfold waitConnect. destruct (os_epoll_create os) as [epfd|]; [|done].
  specialize (He epfd eq_refl). destruct (os_epoll_add os); [|destruct (os_epoll_wait os) as [n|]];
    [|destruct (n =? 0)|]; cbn [fst snd app]; own_steps; f_equal; set_solver.
Qed.

(** The pieces of [dialRawTCP]: opening the socket, the ways to end. *)
Lemma opened_owned (fd : Z) (t : list sysevent) :
  owned ∅ ([SysSocket fd; SysNoDelay fd; SysNonblock fd true; SysConnect fd] ++ t) = owned {[fd]} t.
Proof. rewrite owned_app. own_steps. cbn [mbind option_bind]. f_equal. set_solver. Qed.

Lemma adopted_owned (fd newfd : Z) :
  newfd <> fd -> owned {[fd]} [SysNonblock fd false; SysDup fd newfd; SysClose fd] = Some {[newfd]}.
Proof. intros Hn. own_steps. f_equal. set_solver. Qed.

Lemma closed_owned (fd : Z) :
  owned {[fd]} [SysClose fd] = Some ∅ /\
  owned {[fd]} [SysNonblock fd false; SysClose fd] = Some ∅ /\
  owned {[fd]} [SysNonblock fd false; SysClose fd; SysClose fd] = None.
Proof.
  split; [own_steps; f_equal; set_solver|]. split; [own_steps; f_equal; set_solver|].
  erewrite owned_cons; [|cbn; set_solver..|reflexivity].
  erewrite owned_cons; [|cbn; set_solver..|reflexivity].
  cbn [owned]. unfold owned_after. rewrite decide_False; [done|]. cbn. set_solver.
Qed.

Lemma dialRawTCP_ok (os : sysresults) (split : result (string * string)) (timeout fd : Z) :
  is_ok split = true -> os.(os_resolve) = Ok (Some tt) -> os.(os_socket) = Ok fd ->
  is_ok (dialRawTCP os split timeout).1 = connected os fd timeout && is_ok os.(os_fileconn).
Proof.
  intros Hs Hr Ho. unfold dialRawTCP, connected. rewrite Hr, Ho. destruct split; [|done].
  destruct (os_connect os), (waitConnect os fd timeout) as [[we|] t], (os_fileconn os); done.
Qed.

(** ** Properties *)

(** A fragmented connection is transparent and splits exactly once.  When
    the wrapped connection does not fail, every write reports its full length
    and the bytes arrive unchanged and in order; the wrapped connection gets
    the same writes, except that a first write longer than the fragment size
    arrives as its first [fragmentSize] bytes and the rest, after the delay. *)
Theorem fragment_first_write_only (size delay : Z) (b : list byte) (bs : list (list byte)) :
  0 <= size ->
  exists c,
    run_frag_writes (mkFC (mkSink [] None) size delay false) (b :: bs)
      = Done (map (fun x => (zlen x, None)) (b :: bs), c) /\
    k_bytes c.(fc_Conn) = concat (b :: bs) /\
    k_writes c.(fc_Conn) =
      (if size <? zlen b then [take (Z.to_nat size) b; drop (Z.to_nat size) b] else [b]) ++ bs /\
    c.(fc_firstWrite) = true.
Proof.
  intros Hs. cbn [run_frag_writes]. rewrite FragWrite_ok by done. cbn [mbind outcome_bind].
  rewrite run_frag_writes_after by done. eexists. split; [reflexivity|].
  cbn [fc_Conn k_writes fc_firstWrite map].
  change ([] ++ fragments (mkFC (mkSink [] None) size delay false) b)
    with (fragments (mkFC (mkSink [] None) size delay false) b).
  split; [|done]. unfold k_bytes. cbn [k_writes]. by rewrite concat_app, concat_fragments.
Qed.

Lemma fragment_first_write_only_witness :
  exists c,
    run_frag_writes (mkFC (mkSink [] None) 2 5 false) [bytes_of "abc"; bytes_of "defg"]
      = Done (map (fun x => (zlen x, None)) [bytes_of "abc"; bytes_of "defg"], c) /\
    k_writes c.(fc_Conn) = [bytes_of "ab"; bytes_of "c"; bytes_of "defg"].
Proof.
  destruct (fragment_first_write_only 2 5 (bytes_of "abc") [bytes_of "defg"] ltac:(lia))
    as (c & H1 & _ & H2 & _).
  exists c. split; [exact H1|exact H2].
Defined.

(** [FragmentedConn.Write] keeps the [io.Writer] contract whenever the
    wrapped connection fails: it never panics, the count is the number of bytes
    that reached the wrapped connection, these are the first bytes of the data,
    and there is an error exactly when the count is short. *)
Theorem FragWrite_contract (c : FragmentedConn) (b : list byte) :
  0 <= c.(fc_fragmentSize) ->
  exists n err pause c',
    FragWrite c b = Done (n, err, pause, c') /\
    0 <= n <= zlen b /\ (err = None <-> n = zlen b) /\
    k_bytes c'.(fc_Conn) = k_bytes c.(fc_Conn) ++ take (Z.to_nat n) b /\
    c'.(fc_firstWrite) = true.
Proof.
  intros Hp. unfold FragWrite. destruct (splits c b) eqn:Hs.
  - destruct (FragWrite_split c b Hp Hs) as (-> & -> & ->). cbn [mbind outcome_bind].
    apply andb_prop in Hs as [_ Hl%Z.ltb_lt]. set (s := Z.to_nat (fc_fragmentSize c)).
    destruct (sink_write (take s b) (fc_Conn c)) as [[n1 e1] k1] eqn:E1.
    apply sink_write_spec in E1 as (Hn1 & Hb1 & He1). rewrite zlen_take in *.
    destruct e1 as [e|].
    + do 4 eexists. split; [reflexivity|]. cbn. rewrite Hb1, take_take.
      assert (n1 <> zlen b) by (intros ->; destruct He1 as [_ He1]; discriminate He1; lia).
      rewrite Nat.min_l by lia. split; [lia|]. split; [split; [done|lia]|done].
    + assert (n1 = Z.of_nat s) as -> by (destruct He1 as [He1 _]; rewrite (He1 eq_refl); lia).
      destruct (sink_write (drop s b) k1) as [[n2 e2] k2] eqn:E2.
      apply sink_write_spec in E2 as (Hn2 & Hb2 & He2). rewrite zlen_drop in *.
      do 4 eexists. split; [reflexivity|]. cbn. rewrite Hb2, Hb1, <- app_assoc.
      split; [lia|]. split; [rewrite He2; lia|]. split; [|done]. f_equal.
      rewrite Nat2Z.id, Z2Nat.inj_add, Nat2Z.id by lia. rewrite take_take, Nat.min_id.
      rewrite <- (take_drop s b) at 3. rewrite take_app_add'; [done|].
      rewrite length_take. unfold zlen in *. lia.
  - rewrite (FragWrite_whole c b Hs).
    destruct (sink_write b (fc_Conn c)) as [[n e] k] eqn:E.
    apply sink_write_spec in E as (Hn & Hb & He). by do 4 eexists.
Qed.

Lemma FragWrite_contract_witness :
  exists n err pause c',
    FragWrite (mkFC (mkSink [] (Some (3%nat, EOF))) 2 5 false) (bytes_of "abcd")
      = Done (n, err, pause, c') /\
    k_bytes c'.(fc_Conn) = take (Z.to_nat n) (bytes_of "abcd").
Proof.
  destruct (FragWrite_contract (mkFC (mkSink [] (Some (3%nat, EOF))) 2 5 false)
              (bytes_of "abcd") ltac:(cbn; lia)) as (n & err & p & c' & H1 & _ & _ & H2 & _).
  exists n, err, p, c'. split; [exact H1|exact H2].
Defined.

(** [DialFragmented] with fragmentation on fails only when both the raw and
    the standard dial fail; otherwise it returns a fresh fragmented connection
    whose fragment size lies between the configured (or default) bounds and is
    positive, and whose delay lies between the configured bounds, so the first
    write it takes never panics.  Without fragmentation it is the standard
    dial. *)
Theorem DialFragmented_spec (cfg : FragmentConfig) (sd dd : option Z) (raw std : result sink) :
  small_fragment_config cfg ->
  if cfg.(Frag_Enabled) then
    match DialFragmented (Some cfg) sd dd raw std with
    | Ok (FragConn c nd) =>
        (raw = Ok c.(fc_Conn) /\ nd = false \/ is_ok raw = false /\ std = Ok c.(fc_Conn) /\ nd = true) /\
        c.(fc_firstWrite) = false /\
        pos_or 64 cfg.(Frag_MinSize) <= c.(fc_fragmentSize)
          <= Z.max (pos_or 64 cfg.(Frag_MinSize)) (pos_or 191 cfg.(Frag_MaxSize)) /\
        0 < c.(fc_fragmentSize) /\
        pos_or 1 cfg.(Frag_MinDelay) * Millisecond <= c.(fc_delay)
          <= Z.max (pos_or 1 cfg.(Frag_MinDelay)) (pos_or 2 cfg.(Frag_MaxDelay)) * Millisecond
    | Ok (PlainConn _) => False
    | Err _ => is_ok raw = false /\ is_ok std = false
    end
  else DialFragmented (Some cfg) sd dd raw std = DialFragmented None sd dd raw std.
Proof.
  intros Hc. unfold DialFragmented. destruct (Frag_Enabled cfg); [|done].
  pose proof (fragment_size_range cfg sd Hc) as [? ?]. pose proof (fragment_delay_range cfg dd Hc).
  destruct raw as [k|e]; [|destruct std as [k|e']]; cbn; [|by auto 10..].
  by auto 10.
Qed.

Lemma DialFragmented_spec_witness :
  let c := mkFC (mkSink [] None) 109 2000000 false in
  DialFragmented (Some DefaultFragmentConfig) (Some 45) (Some 1) (Ok (mkSink [] None)) (Err EOF)
    = Ok (FragConn c false) /\ 0 < c.(fc_fragmentSize).
Proof.
  intros c. split; [reflexivity|].
  pose proof (DialFragmented_spec DefaultFragmentConfig (Some 45) (Some 1)
                (Ok (mkSink [] None)) (Err EOF)) as H.
  cbn [Frag_Enabled DefaultFragmentConfig] in H.
  apply H. unfold small_fragment_config; cbn; lia.
Defined.

(** C36: Descriptors of the raw dialer, on every path.  The dialer uses and closes only
    descriptors it owns at that moment, and in the end owns exactly the one it returns,
    none when it fails, whatever numbers the system reuses for what was closed (the
    duplicate usually gets the number of the closed epoll descriptor).  The one exception
    is the last call when [net.FileConn] fails: it closes the socket again, whose number
    is no longer its own.  Once the socket is open, the dial succeeds exactly if the
    connect does, at once or later, and [net.FileConn]. *)
Theorem dialRawTCP_descriptors (os : sysresults) (split : result (string * string))
    (timeout : Z) :
  (forall fd, os.(os_socket) = Ok fd ->
     os.(os_epoll_create) <> Ok fd /\ os.(os_fileconn) <> Ok fd) ->
  let '(r, t) := dialRawTCP os split timeout in
  (forall fd, is_ok split = true -> os.(os_resolve) = Ok (Some tt) -> os.(os_socket) = Ok fd ->
     is_ok r = connected os fd timeout && is_ok os.(os_fileconn)) /\
  match r with
  | Ok newfd => os.(os_fileconn) = Ok newfd /\ owned ∅ t = Some {[newfd]}
  | Err _ =>
      owned ∅ t = Some ∅ \/
      is_ok os.(os_fileconn) = false /\
      exists fd u, os.(os_socket) = Ok fd /\ connected os fd timeout = true /\
        t = u ++ [SysClose fd] /\ owned ∅ u = Some ∅ /\ owned ∅ t = None
  end.
Proof.
  intros Hnew. pose proof (dialRawTCP_ok os split timeout) as Hok.
  rewrite (surjective_pairing (dialRawTCP os split timeout)). split; [exact Hok|]. clear Hok.
  unfold dialRawTCP, connected. destruct split as [hp|]; [|by left].
  destruct (os_resolve os) as [[[]|]|]; [|by left..].
  destruct (os_socket os) as [fd|]; [|by left]. destruct (Hnew fd eq_refl) as [Hep Hdup].
  assert (Hdup' : forall newfd, os.(os_fileconn) = Ok newfd -> newfd <> fd) by naive_solver.
  pose proof (waitConnect_owned os fd timeout {[fd]} ltac:(set_solver)) as Hw.
  specialize (Hw ltac:(intros; set_solver)).
  destruct (waitConnect os fd timeout) as [werr wt] eqn:Ew. cbn [fst snd] in Hw.
  assert (Hwait : forall t, owned {[fd]} (wt ++ t) = owned {[fd]} t) by (intros t; by rewrite owned_app, Hw).
  destruct (os_fileconn os) as [newfd|fe]; (destruct (os_connect os); [|destruct werr as [e|]|]).
  all: cbn [fst snd]; rewrite ?opened_owned, ?Hwait; cbn [app].
  all: try (left; by apply closed_owned). all: try (split; [done|]; by apply adopted_owned, Hdup').
  all: right; split; [done|].
  - exists fd, ([SysSocket fd; SysNoDelay fd; SysNonblock fd true; SysConnect fd] ++
                [SysNonblock fd false; SysClose fd]).
    rewrite opened_owned. do 3 (split; [done|]). split; apply closed_owned.
  - exists fd, ([SysSocket fd; SysNoDelay fd; SysNonblock fd true; SysConnect fd] ++ wt ++
                [SysNonblock fd false; SysClose fd]).
    rewrite opened_owned, Hwait. do 2 (split; [by rewrite ?Ew|]).
    split; [by rewrite <- !app_assoc|].
    split; apply closed_owned.
Qed.

(** A connect that takes a while; the duplicate gets the number of the epoll descriptor. *)
Definition slow_connect (fileconn : result Z) : sysresults :=
  mkSys (Ok (Some tt)) (Ok 5) InProgress (Ok 6) None (Ok 1) (Ok 0) fileconn.

Lemma dialRawTCP_descriptors_witness :
  let '(r, t) := dialRawTCP (slow_connect (Ok 6)) (Ok ("10.0.0.1", "443")) Second in
  r = Ok 6 /\ owned ∅ t = Some {[6]}.
Proof.
  pose proof (dialRawTCP_descriptors (slow_connect (Ok 6)) (Ok ("10.0.0.1", "443")) Second) as H.
  split; [reflexivity|].
  apply H. intros fd [= <-]. split; discriminate.
Defined.

(** When [net.FileConn] fails, the socket is closed twice. *)
Example socket_closed_twice :
  let t := (dialRawTCP (slow_connect (Err EOF)) (Ok ("10.0.0.1", "443")) Second).2 in
  drop 9 t = [SysNonblock 5 false; SysClose 5; SysClose 5] /\ owned ∅ t = None.
Proof. split; vm_compute; reflexivity. Qed.
