(* ===== verification/Target.v ===== *)
(** * Stream targets ([server.go], [client.go])

    The side that opens a stream first sends where it should lead: a 2-byte
    length and a string such as [tcp://host:port] ([sendTarget]).  The side that
    accepts it reads this header, dials and relays ([handleForwardStream] on the
    server, [handleReverseStream] on the client: the same code). *)

From S2P Require Import Prelude GoStrings GoBytes.
From Stdlib Require Import Init.Byte.

Local Open Scope string_scope.
Local Open Scope list_scope.
Local Open Scope Z_scope.

(** ** Definitions *)

(** [splitTarget(s)] *)
Definition splitTarget (s : string) : string * string :=
  if HasPrefix s "udp://" then ("udp", TrimPrefix s "udp://")
  else ("tcp", TrimPrefix s "tcp://").

(** [sendTarget(w, target)]: the header and the target, in two writes. *)
Definition sendTarget (target : string) (w : sink) : option error * sink :=
  let b := bytes_of target in
  match sink_write (be16 (u16 (zlen b))) w with
  | (_, Some err, w) => (Some err, w)
  | (_, None, w) => let '(_, err, w) := sink_write b w in (err, w)
  end.

(** What a stream handler does to its stream and to the network, in order. *)
Inductive action :=
| SetReadDeadline (after : Z)
| ClearReadDeadline
| Dial (network addr : string) (timeout : Z)
| Relay
| CloseRemote
| CloseStream
| CloseLocal
| Sleep (d : Z).

(** The common body of [handleForwardStream] and [handleReverseStream]: the actions, and what is
    left of the inbound bytes when [relay] starts or the handler gives up.
    [dial] is the result of [net.DialTimeout]; the deferred closes run last. *)
Definition handleStream (dial : string -> string -> option error) (s : stream)
    : list action * stream :=
  let head := [SetReadDeadline (10 * Second)] in
  match ReadFull 2 s with
  | (Err _, s) => (head ++ [CloseStream], s)
  | (Ok hdr, s) =>
      let tLen := get16 hdr in
      if (tLen =? 0) || (4096 <? tLen) then (head ++ [CloseStream], s)
      else
        match ReadFull (Z.to_nat tLen) s with
        | (Err _, s) => (head ++ [CloseStream], s)
        | (Ok tBuf, s) =>
            let '(network, addr) := splitTarget (string_of tBuf) in
            let head := head ++ [ClearReadDeadline; Dial network addr (10 * Second)] in
            match dial network addr with
            | Some _ => (head ++ [CloseStream], s)
            | None => (head ++ [Relay; CloseRemote; CloseStream], s)
            end
        end
  end.

(** The handlers of the server and of the client. *)
Definition handleForwardStream (dial : string -> string -> option error) (s : stream)
    : list action * stream := handleStream dial s.
Definition handleReverseStream (dial : string -> string -> option error) (s : stream)
    : list action * stream := handleStream dial s.

(** [handleReverseTCP(local, target)]: [open1] and [open2] are the results of the
    two [openStream] attempts.  The stream, if one is opened, is returned with
    what was written to it before [relay]. *)
Definition handleReverseTCP (target : string) (open1 open2 : result sink)
    : list action * option sink :=
  let serve (head : list action) (k : sink) :=
    match sendTarget (String.append "tcp://" target) k with
    | (Some _, k) => (head ++ [CloseStream; CloseLocal], Some k)
    | (None, k) => (head ++ [Relay; CloseStream; CloseLocal], Some k)
    end in
  match open1 with
  | Ok k => serve [] k
  | Err _ =>
      match open2 with
      | Ok k => serve [Sleep (2 * Second)] k
      | Err _ => ([Sleep (2 * Second); CloseLocal], None)
      end
  end.

(** What the accepting side does with a target of the given bytes. *)
Definition accepted (dial : string -> string -> option error) (target : string) : list action :=
  let '(network, addr) := splitTarget target in
  [SetReadDeadline (10 * Second); ClearReadDeadline; Dial network addr (10 * Second)] ++
  match dial network addr with
  | Some _ => [CloseStream]
  | None => [Relay; CloseRemote; CloseStream]
  end.
Definition refused : list action := [SetReadDeadline (10 * Second); CloseStream].

(** ** Lemmas *)

Lemma splitTarget_tcp (addr : string) :
  splitTarget (String.append "tcp://" addr) = ("tcp", addr).
Proof.
  unfold splitTarget.
  change (HasPrefix (String.append "tcp://" addr) "udp://") with false.
  by rewrite TrimPrefix_app.
Qed.

Lemma splitTarget_udp (addr : string) :
  splitTarget (String.append "udp://" addr) = ("udp", addr).
Proof. unfold splitTarget. by rewrite HasPrefix_app, TrimPrefix_app. Qed.

Lemma sendTarget_ok (target : string) (ws : list (list byte)) :
  sendTarget target (mkSink ws None) =
  (None, mkSink (ws ++ [be16 (u16 (slen target)); bytes_of target]) None).
Proof.
  unfold sendTarget. rewrite zlen_bytes_of, sink_write_ok by done. cbn iota beta.
  rewrite sink_write_ok by done. cbn. by rewrite <- app_assoc.
Qed.

(** The handler on a complete header. *)
Lemma handleStream_framed (dial : string -> string -> option error) (n : Z)
    (body rest : list byte) (e : error) :
  0 <= n < 65536 -> zlen body = n ->
  handleStream dial (mkStream (be16 n ++ body ++ rest) e) =
  if (n =? 0) || (4096 <? n) then (refused, mkStream (body ++ rest) e)
  else (accepted dial (string_of body), mkStream rest e).
Proof.
  intros Hn Hb. unfold handleStream, accepted, refused.
  rewrite (ReadFull_app (be16 n)) by done.
  assert (Hg : get16 (be16 n) = n) by (rewrite <- (app_nil_r (be16 n)), get16_be16; by apply u16_id).
  rewrite Hg. cbv zeta. destruct (_ || _); [done|].
  rewrite (ReadFull_app body) by (unfold zlen in Hb; lia).
  destruct (splitTarget _) as [network addr]. by destruct (dial network addr).
Qed.

(** The handler's verdict on what [sendTarget] sent, for every target. *)
Lemma handle_sent (dial : string -> string -> option error) (target : string)
    (rest : list byte) (e : error) :
  let n := u16 (slen target) in
  let body := take (Z.to_nat n) (bytes_of target) in
  let left := drop (Z.to_nat n) (bytes_of target) ++ rest in
  handleStream dial (mkStream (k_bytes (snd (sendTarget target (mkSink [] None))) ++ rest) e) =
  if (n =? 0) || (4096 <? n) then (refused, mkStream (body ++ left) e)
  else (accepted dial (string_of body), mkStream left e).
Proof.
  intros n body left. rewrite sendTarget_ok. unfold k_bytes.
  cbn [snd k_writes concat app]. rewrite app_nil_r.
  assert (Hn : 0 <= n < 65536) by apply u16_range.
  assert (Hle : n <= slen target)
    by (unfold n, u16; apply Z.mod_le; [apply slen_nonneg|lia]).
  rewrite <- (take_drop (Z.to_nat n) (bytes_of target)) at 1. rewrite <- !app_assoc.
  apply handleStream_framed; [done|]. unfold body. rewrite zlen_take, zlen_bytes_of. lia.
Qed.

(** A target arrives.  A target of 1 to 4096 bytes written by [sendTarget] is
    read back exactly by the stream handler, which dials the network and address
    it names and then relays from the first byte after it; an empty or longer
    target (below 64 KiB) is refused without dialling. *)
Lemma sent_target_handled (dial : string -> string -> option error) (target : string)
    (rest : list byte) (e : error) :
  slen target < 65536 ->
  exists k,
    sendTarget target (mkSink [] None) = (None, k) /\
    handleStream dial (mkStream (k_bytes k ++ rest) e) =
      if (0 <? slen target) && (slen target <=? 4096)
      then (accepted dial target, mkStream rest e)
      else (refused, mkStream (bytes_of target ++ rest) e).
Proof.
  intros Hl. exists (snd (sendTarget target (mkSink [] None))).
  split; [by rewrite sendTarget_ok|]. rewrite handle_sent. pose proof (slen_nonneg target).
  rewrite u16_id by lia. rewrite take_ge, drop_ge, string_of_bytes_of
    by (rewrite length_bytes_of; unfold slen in *; lia).
  destruct (Z.eqb_spec (slen target) 0), (Z.ltb_spec 4096 (slen target)),
    (Z.ltb_spec 0 (slen target)), (Z.leb_spec (slen target) 4096); cbn; try done; lia.
Qed.

(** ** Properties *)

(** A target of 64 KiB or more is misread, not refused: the handler sees its
    first [len mod 65536] bytes as the target, and when these are 1 to 4096 bytes
    it dials them and takes the rest of the target for payload. *)
Theorem long_target_misread (dial : string -> string -> option error) (target : string)
    (rest : list byte) (e : error) (n : nat) :
  65536 <= slen target -> Z.of_nat n = slen target mod 65536 -> (0 < n <= 4096)%nat ->
  exists k,
    sendTarget target (mkSink [] None) = (None, k) /\
    handleStream dial (mkStream (k_bytes k ++ rest) e) =
      (accepted dial (string_of (take n (bytes_of target))),
       mkStream (drop n (bytes_of target) ++ rest) e).
Proof.
  intros Hl Hn Hr. exists (snd (sendTarget target (mkSink [] None))).
  split; [by rewrite sendTarget_ok|]. rewrite handle_sent. unfold u16.
  change (2 ^ 16) with 65536. rewrite <- Hn, Nat2Z.id.
  rewrite (proj2 (Z.eqb_neq _ _)), (proj2 (Z.ltb_ge _ _)) by lia. done.
Qed.

Lemma long_target_misread_witness :
  let target := String.append "ab" (string_of (replicate (Z.to_nat 65535) x2a)) in
  exists k,
    sendTarget target (mkSink [] None) = (None, k) /\
    handleStream (fun _ _ => None) (mkStream (k_bytes k ++ []) EOF) =
      (accepted (fun _ _ => None) (string_of (take 1 (bytes_of target))),
       mkStream (drop 1 (bytes_of target) ++ []) EOF).
Proof.
  intros target.
  assert (Hl : slen target = 65537).
  { unfold target. rewrite slen_app, <- (zlen_bytes_of (string_of _)), bytes_of_string_of.
    rewrite zlen_replicate. reflexivity. }
  apply (long_target_misread (fun _ _ => None) target [] EOF 1);
    rewrite ?Hl; [lia|reflexivity|lia].
Defined.

(** C22: A reverse TCP connection is served end to end.  Once one of the two
    attempts opens a stream, the server relays after a header from which the
    client dials exactly the configured target over TCP, and the client relays
    every byte that follows the header; when both attempts fail, the local
    connection is closed after the two seconds and nothing is sent. *)
Theorem reverse_tcp_end_to_end (dial : string -> string -> option error) (target : string)
    (rest : list byte) (e : error) :
  slen target <= 4090 ->
  exists k,
    (forall open2, handleReverseTCP target (Ok (mkSink [] None)) open2
       = ([Relay; CloseStream; CloseLocal], Some k)) /\
    (forall e1, handleReverseTCP target (Err e1) (Ok (mkSink [] None))
       = ([Sleep (2 * Second); Relay; CloseStream; CloseLocal], Some k)) /\
    (forall e1 e2, handleReverseTCP target (Err e1) (Err e2)
       = ([Sleep (2 * Second); CloseLocal], None)) /\
    handleReverseStream dial (mkStream (k_bytes k ++ rest) e) =
      ([SetReadDeadline (10 * Second); ClearReadDeadline; Dial "tcp" target (10 * Second)] ++
       match dial "tcp" target with
       | Some _ => [CloseStream]
       | None => [Relay; CloseRemote; CloseStream]
       end, mkStream rest e).
Proof.
  intros Hl. set (t := String.append "tcp://" target).
  assert (Ht : 6 <= slen t <= 4096).
  { unfold t. rewrite slen_app. pose proof (slen_nonneg target).
    change (slen "tcp://") with 6. lia. }
  destruct (sent_target_handled dial t rest e) as (k & Hs & Hh); [lia|]. exists k.
  unfold handleReverseTCP. fold t. rewrite Hs. do 3 (split; [done|]). unfold handleReverseStream. rewrite Hh.
  rewrite (proj2 (Z.ltb_lt _ _)), (proj2 (Z.leb_le _ _)) by lia. cbn [andb].
  unfold accepted, t. by rewrite splitTarget_tcp.
Qed.

Lemma reverse_tcp_end_to_end_witness :
  exists k,
    handleReverseTCP "10.0.0.1:80" (Err EOF) (Ok (mkSink [] None))
      = ([Sleep (2 * Second); Relay; CloseStream; CloseLocal], Some k) /\
    snd (handleReverseStream (fun _ _ => None) (mkStream (k_bytes k ++ [x2a]) EOF)) = mkStream [x2a] EOF.
Proof.
  destruct (reverse_tcp_end_to_end (fun _ _ => None) "10.0.0.1:80" [x2a] EOF ltac:(discriminate))
    as (k & _ & H1 & _ & H2).
  exists k. split; [exact (H1 EOF)|]. rewrite H2. reflexivity.
Defined.
