(* ===== verification/Sessions.v ===== *)
(** * The server's session table ([server.go])

    [setSession], [clearSession], [openStream] and [cleanupSessions] share the maps
    [sessions] and [sessionCreated] and the counter [GlobalStats.ActiveSessions].
    The maps are touched under [sessMu]; the counter of [setSession] moves after
    the unlock, so a step relation interleaves the two.  A [smux.Session] is an
    opaque identity: which sessions are closed is part of the state, and how many
    streams one has and what its [OpenStream] returns are arguments. *)

From S2P Require Import Prelude.
From stdpp Require Import gmap sets relations.

Local Open Scope string_scope.
Local Open Scope list_scope.
Local Open Scope Z_scope.

(** ** State *)

Abbreviation sid := positive (only parsing).

(** [Server]: the two maps.  The other fields are read-only configuration. *)
Record Server := mkServer {
  sessions : gmap string sid;
  sessionCreated : gmap string Z
}.
#[export] Instance eta_Server : Eta Server := fun r =>
  mkServer r.(sessions) r.(sessionCreated).

(** What a [setSession] call still has to do after its unlock. *)
Inductive pending_op :=
| CountNew (old : option sid) (new : sid)
| CountOld (old : sid)
| CloseOld (old : sid).

(** The server with what it shares: the sessions made so far, the closed ones, the
    counter, and the [setSession] calls that are past their unlock. *)
Record World := mkWorld {
  srv : Server;
  made : gset sid;
  closed : gset sid;
  ActiveSessions : Z;
  pending : list pending_op
}.
#[export] Instance eta_World : Eta World := fun r =>
  mkWorld r.(srv) r.(made) r.(closed) r.(ActiveSessions) r.(pending).

(** [NewServer(cfg)], in a process that has made no session yet. *)
Definition NewServer : Server := mkServer ∅ ∅.
Definition init : World := mkWorld NewServer ∅ ∅ 0 [].

(** ** Operations *)

(** [atomic.AddInt64(&GlobalStats.ActiveSessions, d)] and [sess.Close()]. *)
Definition count (d : Z) (w : World) : World :=
  w <| ActiveSessions ::= fun n => wrap64 (n + d) |>.
Definition close_session (x : sid) (w : World) : World := w <| closed ::= fun c => {[x]} ∪ c |>.

(** The critical section of [setSession(key, sess)]; [now] is [time.Now()]. *)
Definition setSession_locked (now : Z) (key : string) (sess : sid) (s : Server)
    : option sid * Server :=
  (s.(sessions) !! key,
   s <| sessions ::= <[key := sess]> |> <| sessionCreated ::= <[key := now]> |>).

(** [setSession(key, sess)], undisturbed. *)
Definition setSession (now : Z) (key : string) (sess : sid) (w : World) : World :=
  let '(old, s) := setSession_locked now key sess w.(srv) in
  let w := count 1 (w <| srv := s |>) in
  match old with
  | Some o => if decide (o = sess) then w else close_session o (count (-1) w)
  | None => w
  end.

(** The two deletes and the decrement that [clearSession] and [cleanupSessions] share. *)
Definition drop_session (key : string) (w : World) : World :=
  count (-1) (w <| srv # sessions ::= delete key |> <| srv # sessionCreated ::= delete key |>).

(** [clearSession(key, sess)] *)
Definition clearSession (key : string) (sess : sid) (w : World) : World :=
  if decide (w.(srv).(sessions) !! key = Some sess) then drop_session key w else w.

(** The loop body of [cleanupSessions] for one key.  [NumStreams] is the smux method. *)
Definition cleanup_entry (now : Z) (NumStreams : sid -> Z) (w : World) (key : string) : World :=
  match w.(srv).(sessions) !! key with
  | None => w
  | Some sess =>
      if decide (sess ∈ w.(closed)) then drop_session key w
      else
        match w.(srv).(sessionCreated) !! key with
        | Some created =>
            if (NumStreams sess =? 0) && (3 * Minute <? now - created)
            then drop_session key (close_session sess w) else w
        | None => w
        end
  end.

(** One tick of [cleanupSessions]; [order] is the order of the map iteration. *)
Definition cleanup (now : Z) (NumStreams : sid -> Z) (order : list string) (w : World) : World :=
  foldl (cleanup_entry now NumStreams) w order.

(** [openStream()]: the loop, with [lastErr].  [OpenStream] is the smux method. *)
Section OpenStream.
Context {stream : Type} (NumStreams : sid -> Z) (OpenStream : sid -> result stream).

Fixpoint openStream_loop (order : list string) (lastErr : option error) (w : World)
    : result stream * World :=
  match order with
  | [] =>
      (Err (match lastErr with
            | Some e => Errorf "all sessions failed: %v" [ArgErr e]
            | None => Errorf "no active client session" []
            end), w)
  | key :: order =>
      match w.(srv).(sessions) !! key with
      | None => openStream_loop order lastErr w
      | Some sess =>
          if decide (sess ∈ w.(closed)) then openStream_loop order lastErr w
          else if 200 <? NumStreams sess then openStream_loop order lastErr w
          else
            match OpenStream sess with
            | Ok st => (Ok st, w)
            | Err e => openStream_loop order (Some e) (close_session sess w)
            end
      end
  end.

Definition openStream (order : list string) (w : World) : result stream * World :=
  openStream_loop order None w.
End OpenStream.

(** The orders in which Go may iterate over the map. *)
Definition map_order (w : World) (order : list string) : Prop :=
  order ≡ₚ elements (dom w.(srv).(sessions)).

(** ** Interleaving *)

(** One atomic step of any goroutine: a critical section of [sessMu], an atomic
    addition, a [Close], or the end of a session on its own.  A session is cleared by the
    [upgrade] that set it; [clears] says for which sessions that may happen here. *)
Inductive step_of (clears : sid -> Prop) : World -> World -> Prop :=
| step_set w now key sess old s :
    (* [upgrade]: a new smux session *)
    sess ∉ w.(made) ->
    setSession_locked now key sess w.(srv) = (old, s) ->
    step_of clears w (w <| srv := s |> <| made ::= fun m => {[sess]} ∪ m |>
              <| pending ::= cons (CountNew old sess) |>)
| step_count_new w p1 p2 old new :
    w.(pending) = p1 ++ CountNew old new :: p2 ->
    step_of clears w (count 1 w <| pending := p1 ++
              match old with
              | Some o => if decide (o = new) then [] else [CountOld o]
              | None => []
              end ++ p2 |>)
| step_count_old w p1 p2 old :
    w.(pending) = p1 ++ CountOld old :: p2 ->
    step_of clears w (count (-1) w <| pending := p1 ++ CloseOld old :: p2 |>)
| step_close_old w p1 p2 old :
    w.(pending) = p1 ++ CloseOld old :: p2 ->
    step_of clears w (close_session old w <| pending := p1 ++ p2 |>)
| step_clear w key sess : clears sess -> step_of clears w (clearSession key sess w)
| step_cleanup w now NumStreams order :
    map_order w order -> step_of clears w (cleanup now NumStreams order w)
| step_open {stream} w NumStreams (OpenStream : sid -> result stream) order :
    map_order w order -> step_of clears w (openStream NumStreams OpenStream order w).2
| step_die w sess : step_of clears w (close_session sess w).

(** Any of them. *)
Definition step : World -> World -> Prop := step_of (fun _ => True).

Definition reachable (w : World) : Prop := rtc step init w.

(** What the calls in flight still owe the counter. *)
Definition owed (p : pending_op) : Z :=
  match p with
  | CountNew None _ => 1
  | CountNew (Some o) new => if decide (o = new) then 1 else 0
  | CountOld _ => -1
  | CloseOld _ => 0
  end.
Definition total_owed (ps : list pending_op) : Z := foldr (fun p n => owed p + n) 0 ps.
#[global] Arguments total_owed : simpl never.

(** ** The invariant *)

Record inv (w : World) : Prop := mkInv {
  inv_dom : dom w.(srv).(sessions) = dom w.(srv).(sessionCreated);
  inv_made : forall key sess, w.(srv).(sessions) !! key = Some sess -> sess ∈ w.(made);
  inv_inj : forall k1 k2 sess, w.(srv).(sessions) !! k1 = Some sess ->
      w.(srv).(sessions) !! k2 = Some sess -> k1 = k2;
  inv_count : wrap64 (w.(ActiveSessions) + total_owed w.(pending)) =
      wrap64 (Z.of_nat (size w.(srv).(sessions)))
}.

(** ** Lemmas *)

Lemma wrap64_congr (a b c : Z) : wrap64 a = wrap64 b -> wrap64 (a + c) = wrap64 (b + c).
Proof.
  unfold wrap64. intros E. apply Z.sub_cancel_r in E. apply Z.sub_cancel_r.
  replace (a + c + 2 ^ 63) with ((a + 2 ^ 63) + c) by lia.
  replace (b + c + 2 ^ 63) with ((b + 2 ^ 63) + c) by lia.
  by rewrite <- (Zplus_mod_idemp_l (a + _)), E, Zplus_mod_idemp_l.
Qed.

Lemma wrap64_add (a b : Z) : wrap64 (wrap64 a + b) = wrap64 (a + b).
Proof.
  apply wrap64_congr. apply wrap64_id, wrap64_range.
Qed.

Lemma total_owed_cons (x : pending_op) (p : list pending_op) :
  total_owed (x :: p) = owed x + total_owed p.
Proof. done. Qed.

Lemma total_owed_nil : total_owed [] = 0.
Proof. done. Qed.

Lemma total_owed_app (p q : list pending_op) :
  total_owed (p ++ q) = total_owed p + total_owed q.
Proof. induction p as [|x p IH]; [done|]. cbn [app]. rewrite !total_owed_cons, IH. lia. Qed.

(** The part of the invariant about the table, which most steps leave alone. *)
Lemma inv_same_table (w w' : World) :
  inv w -> w'.(srv) = w.(srv) -> w.(made) ⊆ w'.(made) ->
  wrap64 (w'.(ActiveSessions) + total_owed w'.(pending)) =
    wrap64 (w.(ActiveSessions) + total_owed w.(pending)) ->
  inv w'.
Proof.
  intros [Hd Hm Hi Hc] Es Hsub Ec. split; rewrite ?Es; try done; [|congruence].
  intros key sess Hk. apply Hsub. by eapply Hm.
Qed.

Lemma drop_session_inv (key : string) (sess : sid) (w : World) :
  inv w -> w.(srv).(sessions) !! key = Some sess -> inv (drop_session key w).
Proof.
  intros [Hd Hm Hi Hc] Hk. split; cbn.
  - rewrite !dom_delete_L. by rewrite Hd.
  - intros k s (_ & Hs)%lookup_delete_Some. by eapply Hm.
  - intros k1 k2 s (_ & H1)%lookup_delete_Some (_ & H2)%lookup_delete_Some. by eapply Hi.
  - rewrite map_size_delete_Some by done.
    assert (0 < size w.(srv).(sessions))%nat.
    { apply Nat.neq_0_lt_0. intros E%map_size_empty_inv. by rewrite E in Hk. }
    rewrite wrap64_add. transitivity (wrap64 (ActiveSessions w + total_owed (pending w) + -1));
      [apply (f_equal wrap64); lia|].
    rewrite (wrap64_congr _ _ _ Hc). apply (f_equal wrap64). lia.
Qed.

Lemma close_session_inv (x : sid) (w : World) : inv w -> inv (close_session x w).
Proof. intros Hw. by apply (inv_same_table w). Qed.

Lemma clearSession_inv (key : string) (sess : sid) (w : World) :
  inv w -> inv (clearSession key sess w).
Proof. intros Hw. unfold clearSession. case_decide; [|done]. by eapply drop_session_inv. Qed.

Lemma cleanup_entry_inv (now : Z) (NumStreams : sid -> Z) (w : World) (key : string) :
  inv w -> inv (cleanup_entry now NumStreams w key).
Proof.
  intros Hw. unfold cleanup_entry. destruct (sessions (srv w) !! key) eqn:Ek; [|done].
  case_decide; [by eapply drop_session_inv|]. destruct (sessionCreated _ !! _); [|done].
  destruct (_ && _); [|done]. eapply drop_session_inv; [by apply close_session_inv|done].
Qed.

Lemma cleanup_inv (now : Z) (NumStreams : sid -> Z) (order : list string) (w : World) :
  inv w -> inv (cleanup now NumStreams order w).
Proof.
  revert w. induction order as [|key order IH]; intros w Hw; [done|].
  cbn. by apply IH, cleanup_entry_inv.
Qed.

Lemma openStream_loop_inv {stream} NumStreams (OpenStream : sid -> result stream)
    (order : list string) (e : option error) (w : World) :
  inv w -> inv (openStream_loop NumStreams OpenStream order e w).2.
Proof.
  revert e w. induction order as [|key order IH]; intros e w Hw; cbn; [done|].
  destruct (sessions (srv w) !! key) as [sess|]; [|by apply IH].
  case_decide; [by apply IH|]. destruct (200 <? _); [by apply IH|].
  destruct (OpenStream sess); [done|]. by apply IH, close_session_inv.
Qed.

Lemma set_inv (now : Z) (key : string) (sess : sid) (old : option sid) (s : Server) (w : World) :
  inv w -> sess ∉ w.(made) -> setSession_locked now key sess w.(srv) = (old, s) ->
  inv (w <| srv := s |> <| made ::= fun m => {[sess]} ∪ m |>
         <| pending ::= cons (CountNew old sess) |>).
Proof.
  intros [Hd Hm Hi Hc] Hnew [= <- <-].
  assert (Hfresh : forall k, sessions (srv w) !! k <> Some sess)
    by (intros k Hk; by apply Hm in Hk).
  split; cbn.
  - by rewrite !dom_insert_L, Hd.
  - intros k x [[_ <-]|[_ Hk]]%lookup_insert_Some; [set_solver|]. apply Hm in Hk. set_solver.
  - intros k1 k2 x [[<- <-]|[_ H1]]%lookup_insert_Some [[<- E]|[_ H2]]%lookup_insert_Some;
      subst; try done; [by apply Hfresh in H2|by apply Hfresh in H1|by eapply Hi].
  - rewrite total_owed_cons. destruct (sessions (srv w) !! key) as [o|] eqn:Eo; cbn [owed].
    + rewrite decide_False by (intros ->; by eapply Hfresh).
      rewrite map_size_insert_Some by done. by rewrite Z.add_0_l.
    + rewrite map_size_insert_None by done.
      transitivity (wrap64 (ActiveSessions w + total_owed (pending w) + 1));
        [apply (f_equal wrap64); lia|].
      rewrite (wrap64_congr _ _ _ Hc). apply (f_equal wrap64). lia.
Qed.

Lemma step_of_step (clears : sid -> Prop) (w w' : World) : step_of clears w w' -> step w w'.
Proof. intros Hstep. inversion Hstep; subst; by econstructor. Qed.

Lemma step_inv (w w' : World) : step w w' -> inv w -> inv w'.
Proof.
  intros Hstep Hw. inversion Hstep; subst.
  - by eapply set_inv.
  - apply (inv_same_table w); [done|done|done|]. cbn. rewrite wrap64_add. apply (f_equal wrap64). rewrite H.
    rewrite !total_owed_app, total_owed_cons. destruct old as [o|]; cbn [owed];
      [case_decide|]; rewrite ?total_owed_cons, ?total_owed_nil; cbn [owed]; lia.
  - apply (inv_same_table w); [done|done|done|]. cbn. rewrite wrap64_add. apply (f_equal wrap64). rewrite H.
    rewrite !total_owed_app, !total_owed_cons. cbn. lia.
  - apply (inv_same_table w); [done|done|done|]. cbn. apply (f_equal wrap64). rewrite H.
    rewrite !total_owed_app, total_owed_cons. cbn. lia.
  - by apply clearSession_inv.
  - by apply cleanup_inv.
  - by apply openStream_loop_inv.
  - by apply close_session_inv.
Qed.

Lemma init_inv : inv init.
Proof. by split; cbn. Qed.

Lemma reachable_inv (w : World) : reachable w -> inv w.
Proof.
  unfold reachable. intros H.
  assert (forall a b, rtc step a b -> inv a -> inv b) as Hrtc.
  { induction 1; [done|]. intros. eauto using step_inv. }
  eapply Hrtc; [exact H|apply init_inv].
Qed.

(** *** [cleanupSessions] *)

(** Idle right now, and older than three minutes. *)
Definition zombie (now : Z) (NumStreams : sid -> Z) (w : World) (key : string) (sess : sid) : bool :=
  match w.(srv).(sessionCreated) !! key with
  | Some created => (NumStreams sess =? 0) && (3 * Minute <? now - created)
  | None => false
  end.
Definition kept (now : Z) (NumStreams : sid -> Z) (w : World) (key : string) (sess : sid) : bool :=
  negb (bool_decide (sess ∈ w.(closed))) && negb (zombie now NumStreams w key sess).

Section Cleanup.
Context (now : Z) (NumStreams : sid -> Z).

Lemma cleanup_entry_cases (w : World) (key : string) :
  (exists sess, w.(srv).(sessions) !! key = Some sess /\
     kept now NumStreams w key sess = false /\
     cleanup_entry now NumStreams w key =
       drop_session key (if bool_decide (sess ∈ w.(closed)) then w else close_session sess w)) \/
  ((forall sess, w.(srv).(sessions) !! key = Some sess -> kept now NumStreams w key sess = true) /\
   cleanup_entry now NumStreams w key = w).
Proof.
  unfold cleanup_entry, kept, zombie. destruct (sessions (srv w) !! key) as [sess|]; [|by right].
  destruct (decide (sess ∈ closed w)) as [Hc|Hc].
  { left. exists sess. by rewrite !bool_decide_true. }
  destruct (sessionCreated (srv w) !! key) as [t|];
    [|right; split; [intros x [= <-]; by rewrite bool_decide_false|done]].
  destruct (_ && _) eqn:E;
    [|right; split; [intros x [= <-]; by rewrite bool_decide_false, E|done]].
  left. exists sess. by rewrite !bool_decide_false, E.
Qed.

(** One iteration does not change what the loop decides about the other keys. *)
Lemma cleanup_entry_other (w : World) (key k : string) :
  inv w -> k <> key ->
  let w1 := cleanup_entry now NumStreams w key in
  w1.(srv).(sessions) !! k = w.(srv).(sessions) !! k /\
  w1.(srv).(sessionCreated) !! k = w.(srv).(sessionCreated) !! k /\
  (forall sess, w.(srv).(sessions) !! k = Some sess ->
     kept now NumStreams w1 k sess = kept now NumStreams w k sess).
Proof.
  intros Hw Hk. cbn. destruct (cleanup_entry_cases w key) as [(x & Hx & _ & ->)|[_ ->]]; [|done].
  assert (Hs : forall b : bool, srv (if b then w else close_session x w) = srv w)
    by (by intros []).
  cbn. rewrite Hs, !lookup_delete_ne by done. split; [done|]. split; [done|].
  intros sess Hsess. unfold kept, zombie. cbn. rewrite Hs, lookup_delete_ne by done. f_equal.
  assert (sess <> x) by (intros ->; apply Hk; by eapply (inv_inj _ Hw)).
  f_equal. destruct (bool_decide (x ∈ closed w)); [done|]. cbn.
  apply bool_decide_ext. set_solver.
Qed.

(** What a round over the keys of [order] leaves at key [k]. *)
Definition survivor (w : World) (order : list string) (k : string) {A} (v : option A) : option A :=
  match w.(srv).(sessions) !! k with
  | Some sess => if bool_decide (k ∈ order) && negb (kept now NumStreams w k sess) then None else v
  | None => v
  end.

Lemma cleanup_cons (key : string) (order : list string) (w : World) :
  cleanup now NumStreams (key :: order) w =
  cleanup now NumStreams order (cleanup_entry now NumStreams w key).
Proof. done. Qed.

Lemma cleanup_lookup (order : list string) (w : World) (k : string) :
  inv w -> NoDup order ->
  let w' := cleanup now NumStreams order w in
  w'.(srv).(sessions) !! k = survivor w order k (w.(srv).(sessions) !! k) /\
  w'.(srv).(sessionCreated) !! k = survivor w order k (w.(srv).(sessionCreated) !! k).
Proof.
  revert w. induction order as [|key order IH]; intros w Hw Hnd.
  { unfold survivor. cbn. by destruct (sessions (srv w) !! k). }
  rewrite cleanup_cons. intros w'. subst w'.
  apply NoDup_cons in Hnd as [Hkey Hnd].
  destruct (IH _ (cleanup_entry_inv now NumStreams w key Hw) Hnd) as [-> ->].
  unfold survivor. destruct (decide (k = key)) as [->|Hne].
  - rewrite !(bool_decide_false (key ∈ order)) by done.
    rewrite !(bool_decide_true (key ∈ key :: order)) by set_solver.
    destruct (cleanup_entry_cases w key) as [(x & Hx & Hnk & ->)|[Hk ->]].
    + rewrite Hx, Hnk. cbn. by rewrite !lookup_delete_eq.
    + destruct (sessions (srv w) !! key) as [x|] eqn:Ek; [|done].
      by rewrite (Hk x).
  - destruct (cleanup_entry_other w key k Hw Hne) as (-> & -> & Hkept).
    destruct (sessions (srv w) !! k) as [x|]; [|done]. rewrite (Hkept x) by done.
    by rewrite (bool_decide_ext (k ∈ order) (k ∈ key :: order)) by set_solver.
Qed.

(** The round closes the zombies among its keys, and nothing else. *)
Lemma cleanup_closed (order : list string) (w : World) (x : sid) :
  inv w -> NoDup order ->
  x ∈ (cleanup now NumStreams order w).(closed) <->
  x ∈ w.(closed) \/
  exists k, k ∈ order /\ w.(srv).(sessions) !! k = Some x /\ kept now NumStreams w k x = false.
Proof.
  revert w. induction order as [|key order IH]; intros w Hw Hnd; [set_solver|].
  rewrite cleanup_cons.
  apply NoDup_cons in Hnd as [Hkey Hnd].
  rewrite (IH _ (cleanup_entry_inv now NumStreams w key Hw) Hnd).
  assert (Hrest : (exists k, k ∈ order /\ sessions (srv (cleanup_entry now NumStreams w key)) !! k
                     = Some x /\ kept now NumStreams (cleanup_entry now NumStreams w key) k x = false)
                  <-> exists k, k ∈ order /\ sessions (srv w) !! k = Some x /\
                        kept now NumStreams w k x = false).
  { split; intros (k & Hin & Hk & Hkept); exists k;
      (destruct (cleanup_entry_other w key k Hw) as (E & _ & Ek); [by intros ->|]).
    - rewrite E in Hk. rewrite (Ek x Hk) in Hkept. done.
    - rewrite E, (Ek x Hk). done. }
  rewrite Hrest. clear Hrest.
  destruct (cleanup_entry_cases w key) as [(y & Hy & Hnk & ->)|[Hk ->]].
  - cbn. destruct (decide (y ∈ closed w)) as [Hc|Hc].
    + rewrite bool_decide_true by done. split; [set_solver|].
      intros [?|(k & [->|]%elem_of_cons & Hk & Hkept)]; [by left| |set_solver].
      left. by simplify_eq.
    + rewrite bool_decide_false by done. cbn. rewrite elem_of_union, elem_of_singleton. split.
      * intros [[->|?]|?]; [right; exists key; set_solver|by left|set_solver].
      * intros [?|(k & [->|]%elem_of_cons & Hk & Hkept)]; [by left; right| |set_solver].
        simplify_eq. by left; left.
  - split; [set_solver|]. intros [?|(k & [->|]%elem_of_cons & Hx & Hkept)]; [by left| |set_solver].
    by rewrite (Hk x) in Hkept.
Qed.
End Cleanup.

(** *** [openStream] *)

(** A session that [openStream] can use. *)
Definition usable {stream} (NumStreams : sid -> Z) (OpenStream : sid -> result stream)
    (w : World) (sess : sid) : Prop :=
  sess ∉ w.(closed) /\ NumStreams sess <= 200 /\ is_ok (OpenStream sess) = true.

Section OpenStreamLemmas.
Context {stream : Type} (NumStreams : sid -> Z) (OpenStream : sid -> result stream).
Abbreviation loop := (openStream_loop NumStreams OpenStream).

Lemma openStream_loop_srv (order : list string) (e : option error) (w : World) :
  (loop order e w).2.(srv) = w.(srv).
Proof.
  revert e w. induction order as [|key order IH]; intros e w; cbn; [done|].
  destruct (sessions (srv w) !! key) as [sess|]; [|done]. case_decide; [done|].
  destruct (200 <? _); [done|]. destruct (OpenStream sess); [done|]. by rewrite IH.
Qed.

(** Every session the loop closes is one whose [OpenStream] failed. *)
Lemma openStream_loop_closed (order : list string) (e : option error) (w : World) (x : sid) :
  x ∈ (loop order e w).2.(closed) -> x ∈ w.(closed) \/ is_ok (OpenStream x) = false.
Proof.
  revert e w. induction order as [|key order IH]; intros e w; cbn; [by left|].
  destruct (sessions (srv w) !! key) as [sess|]; [|apply IH]. case_decide; [apply IH|].
  destruct (200 <? _); [apply IH|]. destruct (OpenStream sess) eqn:E; [by left|].
  intros [Hx|Hx]%IH; [|by right]. cbn in Hx. apply elem_of_union in Hx as [->%elem_of_singleton|?];
    [right; by rewrite E|by left].
Qed.

Lemma openStream_loop_ok (order : list string) (e : option error) (w : World) (st : stream) :
  (loop order e w).1 = Ok st ->
  exists key sess, key ∈ order /\ w.(srv).(sessions) !! key = Some sess /\
    usable NumStreams OpenStream w sess /\ OpenStream sess = Ok st.
Proof.
  revert e w. induction order as [|key order IH]; intros e w; cbn; [done|].
  assert (Hlift : forall w' e', srv w' = srv w -> closed w ⊆ closed w' -> (loop order e' w').1 = Ok st ->
    exists k s, k ∈ key :: order /\ sessions (srv w) !! k = Some s /\
      usable NumStreams OpenStream w s /\ OpenStream s = Ok st).
  { intros w' e' Es Hsub (k & s & Hin & Hk & (Hc & Hn & Ho) & Hst)%IH. exists k, s.
    rewrite Es in Hk. repeat split; try done; set_solver. }
  destruct (sessions (srv w) !! key) as [sess|] eqn:Ek; [|by apply Hlift].
  case_decide as Hc; [by apply Hlift|].
  destruct (Z.ltb_spec 200 (NumStreams sess)); [by apply Hlift|].
  destruct (OpenStream sess) as [st'|er] eqn:Eo.
  - intros [= ->]. exists key, sess. repeat split; try done; [set_solver|by rewrite Eo].
  - apply Hlift; [done|set_solver].
Qed.

Lemma openStream_loop_finds (order : list string) (e : option error) (w : World)
    (key : string) (sess : sid) :
  key ∈ order -> w.(srv).(sessions) !! key = Some sess -> usable NumStreams OpenStream w sess ->
  is_ok (loop order e w).1 = true.
Proof.
  revert e w. induction order as [|k order IH]; intros e w Hin Hk (Hc & Hn & Ho);
    [set_solver|]. cbn.
  apply elem_of_cons in Hin as [<-|Hin].
  - rewrite Hk, decide_False by done. destruct (Z.ltb_spec 200 (NumStreams sess)); [lia|].
    by destruct (OpenStream sess).
  - destruct (sessions (srv w) !! k) as [x|]; [|by apply IH].
    case_decide; [by apply IH|]. destruct (200 <? _); [by apply IH|].
    destruct (OpenStream x) eqn:Ex; [done|]. apply IH; [done|done|].
    split; [|done]. cbn. rewrite not_elem_of_union, not_elem_of_singleton. split; [|done].
    intros ->. by rewrite Ex in Ho.
Qed.
End OpenStreamLemmas.

Lemma map_order_elem (w : World) (order : list string) (key : string) :
  map_order w order -> key ∈ order <-> key ∈ dom w.(srv).(sessions).
Proof. unfold map_order. intros ->. apply elem_of_elements. Qed.

Lemma map_order_NoDup (w : World) (order : list string) : map_order w order -> NoDup order.
Proof. unfold map_order. intros ->. apply NoDup_elements. Qed.

(** *** What becomes of a session that others cannot clear *)

Lemma openStream_loop_same {stream} NumStreams (OpenStream : sid -> result stream)
    (order : list string) (e : option error) (w : World) :
  let w' := (openStream_loop NumStreams OpenStream order e w).2 in
  w'.(srv) = w.(srv) /\ w'.(made) = w.(made).
Proof.
  revert e w. induction order as [|k order IH]; intros e w; cbn; [done|].
  destruct (sessions (srv w) !! k) as [x|]; [|apply IH]. case_decide; [apply IH|].
  destruct (200 <? _); [apply IH|]. destruct (OpenStream x); [done|]. apply (IH _ (close_session x w)).
Qed.

Lemma cleanup_made (now : Z) (NumStreams : sid -> Z) (order : list string) (w : World) :
  (cleanup now NumStreams order w).(made) = w.(made).
Proof.
  revert w. induction order as [|k order IH]; intros w; [done|]. cbn. etrans; [apply IH|].
  unfold cleanup_entry. destruct (_ !! _); [|done]. case_decide; [done|].
  destruct (_ !! _); [|done]. by destruct (_ && _).
Qed.

Section Kept.
Context (key : string) (sess : sid).

(** The call that replaced the session is still to close it. *)
Definition closes_later (p : pending_op) : Prop :=
  match p with
  | CountNew (Some old) new => old = sess /\ new <> sess
  | CountNew None _ => False
  | CountOld old | CloseOld old => old = sess
  end.

(** In the table under [key] and nowhere else; or out of it, closed or to be closed. *)
Definition looked_after (w : World) : Prop :=
  sess ∈ w.(made) /\
  (forall k, w.(srv).(sessions) !! k = Some sess -> k = key) /\
  (w.(srv).(sessions) !! key = Some sess \/ sess ∈ w.(closed) \/ Exists closes_later w.(pending)).

(** Not in the table, and never again. *)
Definition gone (w : World) : Prop :=
  sess ∈ w.(made) /\ forall k, w.(srv).(sessions) !! k <> Some sess.

Lemma kept_same_pending (w w' : World) :
  w'.(made) = w.(made) -> w'.(pending) = w.(pending) -> w.(closed) ⊆ w'.(closed) ->
  (forall k, w'.(srv).(sessions) !! k = Some sess -> w.(srv).(sessions) !! k = Some sess) ->
  (w.(srv).(sessions) !! key = Some sess -> w'.(srv).(sessions) !! key = Some sess \/ sess ∈ w'.(closed)) ->
  looked_after w -> looked_after w'.
Proof. unfold looked_after. intros -> -> Hc Hs Hk (Hm & Hu & Hp). split; [done|]. split; [auto|]. set_solver. Qed.

Lemma cleanup_entry_kept (now : Z) (NumStreams : sid -> Z) (w : World) (k : string) :
  looked_after w -> looked_after (cleanup_entry now NumStreams w k).
Proof.
  unfold cleanup_entry. destruct (sessions (srv w) !! k) as [x|] eqn:Ek; [|done].
  assert (Hdrop : forall w', w'.(srv) = w.(srv) -> w'.(made) = w.(made) -> w'.(pending) = w.(pending) ->
            w.(closed) ⊆ w'.(closed) -> x ∈ w'.(closed) -> looked_after w -> looked_after (drop_session k w')).
  { intros w' Es Em Ep Hc Hx. apply kept_same_pending; cbn; try done; rewrite Es.
    - by intros k' [_ ?]%lookup_delete_Some.
    - intros Hk. destruct (decide (k = key)) as [->|Hne].
      + right. by assert (x = sess) as <- by congruence.
      + left. by rewrite lookup_delete_ne. }
  case_decide; [by apply Hdrop|]. destruct (sessionCreated _ !! _); [|done].
  destruct (_ && _); [|done]. apply Hdrop; cbn; set_solver.
Qed.

Lemma cleanup_kept (now : Z) (NumStreams : sid -> Z) (order : list string) (w : World) :
  looked_after w -> looked_after (cleanup now NumStreams order w).
Proof.
  revert w. induction order as [|k order IH]; intros w Hw; [done|]. cbn. by apply IH, cleanup_entry_kept.
Qed.

Lemma close_kept (x : sid) (w : World) : looked_after w -> looked_after (close_session x w).
Proof. apply kept_same_pending; cbn; (done || set_solver). Qed.

Lemma openStream_loop_kept {stream} NumStreams (OpenStream : sid -> result stream)
    (order : list string) (e : option error) (w : World) :
  looked_after w -> looked_after (openStream_loop NumStreams OpenStream order e w).2.
Proof.
  revert e w. induction order as [|k order IH]; intros e w Hw; cbn; [done|].
  destruct (sessions (srv w) !! k) as [x|]; [|by apply IH]. case_decide; [by apply IH|].
  destruct (200 <? _); [by apply IH|]. destruct (OpenStream x); [done|]. by apply IH, close_kept.
Qed.

Lemma clear_other_kept (k : string) (x : sid) (w : World) :
  x <> sess -> looked_after w -> looked_after (clearSession k x w).
Proof.
  intros Hx. unfold clearSession. case_decide as Hk; [|done]. apply kept_same_pending; cbn; try done.
  - by intros k' [_ ?]%lookup_delete_Some.
  - intros Hs. left. rewrite lookup_delete_ne; [done|congruence].
Qed.

Lemma set_other_kept (now : Z) (k : string) (x : sid) (old : option sid) (s : Server) (w : World) :
  x ∉ w.(made) -> setSession_locked now k x w.(srv) = (old, s) -> looked_after w ->
  looked_after (w <| srv := s |> <| made ::= fun m => {[x]} ∪ m |> <| pending ::= cons (CountNew old x) |>).
Proof.
  intros Hx [= <- <-] (Hm & Hu & Hp). assert (x <> sess) by congruence.
  split; [cbn; set_solver|]. split; cbn.
  - intros k' [[_ ->]|[_ Hk']]%lookup_insert_Some; [done|by apply Hu].
  - destruct Hp as [Hp|[Hp|Hp]]; [|by auto|by right; right; right].
    destruct (decide (k = key)) as [->|Hne]; [|left; by rewrite lookup_insert_ne].
    right. right. rewrite Hp. by left.
Qed.

Lemma pending_kept (w w' : World) (p1 p2 q : list pending_op) (p : pending_op) :
  w'.(srv) = w.(srv) -> w'.(made) = w.(made) -> w.(closed) ⊆ w'.(closed) ->
  w.(pending) = p1 ++ p :: p2 -> w'.(pending) = p1 ++ q ++ p2 ->
  (closes_later p -> sess ∈ w'.(closed) \/ Exists closes_later q) -> looked_after w -> looked_after w'.
Proof.
  unfold looked_after. intros -> -> Hc E E' Hp (Hm & Hu & Hk). split; [done|]. split; [done|].
  destruct Hk as [Hk|[Hk|Hk]]; [by auto|by auto|]. rewrite E, Exists_app, Exists_cons in Hk.
  rewrite E', !Exists_app. naive_solver.
Qed.

Lemma step_of_kept (w w' : World) : step_of (fun x => x <> sess) w w' -> looked_after w -> looked_after w'.
Proof.
  intros Hstep. inversion Hstep as [? ? ? ? ? ? ? Hset|? p1 p2 old new E|? p1 p2 old E|? p1 p2 old E| | | |]; subst.
  - by eapply set_other_kept.
  - apply (pending_kept w _ p1 p2 (match old with
      | Some o => if decide (o = new) then [] else [CountOld o] | None => [] end) (CountNew old new)); try done.
    destruct old as [o|]; [|done]. intros [-> Hne]. right. rewrite decide_False by done. by left.
  - apply (pending_kept w _ p1 p2 [CloseOld old] (CountOld old)); try done. intros ->. right. by left.
  - apply (pending_kept w _ p1 p2 [] (CloseOld old)); cbn; try done; [set_solver|]. intros ->. left. set_solver.
  - by apply clear_other_kept.
  - by apply cleanup_kept.
  - by apply openStream_loop_kept.
  - by apply close_kept.
Qed.

(** Its own [setSession] and [clearSession]. *)
Lemma set_own_kept (now : Z) (old : option sid) (s : Server) (w : World) :
  inv w -> sess ∉ w.(made) -> setSession_locked now key sess w.(srv) = (old, s) ->
  looked_after (w <| srv := s |> <| made ::= fun m => {[sess]} ∪ m |> <| pending ::= cons (CountNew old sess) |>).
Proof.
  intros Hw Hnew [= <- <-]. split; [cbn; set_solver|]. split; cbn.
  - intros k [[<- _]|[_ Hk]]%lookup_insert_Some; [done|]. by apply (inv_made _ Hw) in Hk.
  - left. apply lookup_insert_eq.
Qed.

Lemma clear_own_gone (w : World) : looked_after w -> gone (clearSession key sess w).
Proof.
  intros (Hm & Hu & _). unfold clearSession. case_decide as Hk; (split; [done|]); cbn.
  - intros k [Hne Hs]%lookup_delete_Some. by apply Hne, eq_sym, Hu.
  - intros k Hs. assert (k = key) as -> by by apply Hu. done.
Qed.
(** It does not come back. *)
Lemma cleanup_shrinks (now : Z) (NumStreams : sid -> Z) (order : list string) (w : World)
    (k : string) (x : sid) :
  (cleanup now NumStreams order w).(srv).(sessions) !! k = Some x ->
  w.(srv).(sessions) !! k = Some x.
Proof.
  revert w. induction order as [|k' order IH]; intros w; [done|]. cbn. intros Hx%IH. revert Hx.
  unfold cleanup_entry. destruct (sessions (srv w) !! k'); [|done].
  case_decide; cbn; [by intros [_ ?]%lookup_delete_Some|]. destruct (sessionCreated _ !! _); [|done].
  destruct (_ && _); cbn; [by intros [_ ?]%lookup_delete_Some|done].
Qed.

Lemma step_of_gone (w w' : World) : step_of (fun x => x <> sess) w w' -> gone w -> gone w'.
Proof.
  intros Hstep [Hm Hg].
  inversion Hstep as [? ? ? ? ? ? Hnew Hset| | | | | | |]; subst; (split; [try done|try exact Hg]).
  - cbn. set_solver.
  - injection Hset as <- <-. cbn. intros k [[_ ->]|[_ Hk]]%lookup_insert_Some; [done|by apply (Hg k)].
  - unfold clearSession. by case_decide.
  - unfold clearSession. case_decide; [|done]. cbn. by intros k [_ ?%Hg]%lookup_delete_Some.
  - by rewrite cleanup_made.
  - by intros k ?%cleanup_shrinks%Hg.
  - unfold openStream. by rewrite (proj2 (openStream_loop_same _ _ _ _ _)).
  - unfold openStream. by rewrite (proj1 (openStream_loop_same _ _ _ _ _)).
Qed.
End Kept.

(** A session that is gone is looked_after under any key, trivially closed or not; it stays gone. *)
(** *** [setSession], undisturbed, is a run of the steps *)

Lemma setSession_steps (w : World) (now : Z) (key : string) (sess : sid) :
  sess ∉ w.(made) -> w.(pending) = [] ->
  (forall k x, w.(srv).(sessions) !! k = Some x -> x ∈ w.(made)) ->
  rtc step w (setSession now key sess w <| made ::= fun m => {[sess]} ∪ m |>).
Proof.
  intros Hnew Hp Hm. destruct w as [s m c n ps]. cbn in *. subst ps.
  eapply rtc_l; [by apply (step_set _ _ now key sess)|]. cbn.
  eapply rtc_l; [by apply (step_count_new _ _ [] [] (sessions s !! key) sess)|].
  unfold setSession, setSession_locked. cbn.
  destruct (sessions s !! key) as [o|] eqn:Eo; [|done].
  assert (o <> sess) by (intros ->; by apply Hnew, (Hm key)).
  rewrite !decide_False by done. cbn.
  eapply rtc_l; [by apply (step_count_old _ _ [] [] o)|].
  eapply rtc_l; [by apply (step_close_old _ _ [] [] o)|]. done.
Qed.

(** ** Properties *)

(** C17: However the goroutines interleave, the two maps have the same keys, no session
    sits under two keys, and once no [setSession] call is in flight the counter
    [ActiveSessions] is the number of sessions in the table. *)
Theorem session_table_invariant (w : World) :
  reachable w ->
  dom w.(srv).(sessions) = dom w.(srv).(sessionCreated) /\
  (forall k1 k2 sess, w.(srv).(sessions) !! k1 = Some sess ->
     w.(srv).(sessions) !! k2 = Some sess -> k1 = k2) /\
  (w.(pending) = [] -> int64_range w.(ActiveSessions) ->
   Z.of_nat (size w.(srv).(sessions)) < 2 ^ 63 ->
   w.(ActiveSessions) = Z.of_nat (size w.(srv).(sessions))).
Proof.
  intros [Hd Hm Hi Hc]%reachable_inv. split; [done|]. split; [done|].
  intros Hp Hr Hs. rewrite Hp, total_owed_nil, Z.add_0_r in Hc.
  rewrite wrap64_id in Hc by done. rewrite Hc. apply wrap64_id. unfold int64_range. lia.
Qed.

(** One cleanup round, in whatever order Go iterates over the map, removes from both
    maps exactly the sessions that are closed or idle and older than three minutes,
    keeps every other entry, and closes the idle ones and no other session. *)
Theorem cleanup_spec (w : World) (now : Z) (NumStreams : sid -> Z) (order : list string) :
  reachable w -> map_order w order ->
  let w' := cleanup now NumStreams order w in
  (forall key, w'.(srv).(sessions) !! key =
     match w.(srv).(sessions) !! key with
     | Some sess => if kept now NumStreams w key sess then Some sess else None
     | None => None
     end) /\
  dom w'.(srv).(sessionCreated) = dom w'.(srv).(sessions) /\
  (forall x, x ∈ w'.(closed) <-> x ∈ w.(closed) \/
     exists key, w.(srv).(sessions) !! key = Some x /\ zombie now NumStreams w key x = true).
Proof.
  intros Hw%reachable_inv Ho w'. pose proof (map_order_NoDup _ _ Ho) as Hnd.
  split; [|split].
  - intros key. subst w'. rewrite (proj1 (cleanup_lookup _ _ order w key Hw Hnd)).
    unfold survivor. destruct (sessions (srv w) !! key) as [sess|] eqn:Ek; [|done].
    rewrite bool_decide_true by (rewrite map_order_elem by done; by apply elem_of_dom_2 in Ek).
    by destruct (kept _ _ _ _ _).
  - symmetry. apply (cleanup_inv now NumStreams order w Hw).
  - intros x. subst w'. rewrite cleanup_closed by done.
    split; (intros [?|(k & Hk)]; [by left|]).
    + destruct Hk as (_ & Hk & Hnot). unfold kept in Hnot.
      apply andb_false_iff in Hnot as [Hnot|Hnot]; apply negb_false_iff in Hnot.
      * left. by apply bool_decide_eq_true in Hnot.
      * right. by exists k.
    + destruct Hk as [Hk Hz]. right. exists k. rewrite map_order_elem by done.
      split; [by apply elem_of_dom_2 in Hk|]. split; [done|].
      unfold kept. rewrite Hz. by rewrite andb_false_r.
Qed.

(** C33: [openStream] succeeds exactly when some session in the table is open, has at most
    200 streams and accepts a stream, whatever the iteration order; the stream then comes
    from such a session; and it closes no session whose [OpenStream] works. *)
Theorem openStream_spec {stream} (w : World) (NumStreams : sid -> Z)
    (OpenStream : sid -> result stream) (order : list string) :
  map_order w order ->
  let r := openStream NumStreams OpenStream order w in
  (is_ok r.1 = true <-> exists key sess, w.(srv).(sessions) !! key = Some sess /\
     usable NumStreams OpenStream w sess) /\
  (forall st, r.1 = Ok st -> exists key sess, w.(srv).(sessions) !! key = Some sess /\
     usable NumStreams OpenStream w sess /\ OpenStream sess = Ok st) /\
  r.2.(srv) = w.(srv) /\
  (forall x, x ∈ r.2.(closed) -> x ∈ w.(closed) \/ is_ok (OpenStream x) = false).
Proof.
  intros Ho. cbn. unfold openStream.
  assert (Hok : forall st, (openStream_loop NumStreams OpenStream order None w).1 = Ok st ->
    exists key sess, w.(srv).(sessions) !! key = Some sess /\
     usable NumStreams OpenStream w sess /\ OpenStream sess = Ok st).
  { intros st (k & x & _ & H)%openStream_loop_ok. by exists k, x. }
  split; [split|split; [done|split]].
  - destruct (openStream_loop _ _ _ _ _).1 as [st|] eqn:E; [|done]. intros _.
    destruct (Hok st eq_refl) as (k & x & Hk & Hu & _). by exists k, x.
  - intros (k & x & Hk & Hu). eapply openStream_loop_finds; [|done|done].
    rewrite map_order_elem by done. by apply elem_of_dom_2 in Hk.
  - apply openStream_loop_srv.
  - intros x. apply openStream_loop_closed.
Qed.

(** A client that reconnects from the same address replaces its session: the old one
    is closed, the count stays, and when the goroutine of the old session ends later its
    [clearSession] leaves the new entry alone. *)
Theorem stale_clear_keeps_successor (w : World) (now : Z) (key : string) (old new : sid) :
  reachable w -> w.(srv).(sessions) !! key = Some old -> new ∉ w.(made) ->
  int64_range w.(ActiveSessions) ->
  let w' := setSession now key new w in
  w'.(srv).(sessions) !! key = Some new /\ old ∈ w'.(closed) /\
  w'.(ActiveSessions) = w.(ActiveSessions) /\
  clearSession key old w' = w' /\
  (clearSession key new w').(srv).(sessions) = delete key w.(srv).(sessions).
Proof.
  intros Hw%reachable_inv Hk Hnew Hr w'.
  assert (old <> new) by (intros ->; by apply (inv_made _ Hw) in Hk).
  assert (Ew : w' = close_session old (count (-1) (count 1 (w <| srv :=
      w.(srv) <| sessions ::= <[key := new]> |> <| sessionCreated ::= <[key := now]> |> |>)))).
  { subst w'. unfold setSession, setSession_locked. by rewrite Hk, decide_False. }
  rewrite Ew. clear Ew. cbn. rewrite lookup_insert_eq.
  split; [done|]. split; [set_solver|]. split.
  - rewrite wrap64_add. rewrite <- (wrap64_id (ActiveSessions w)) at 2 by done.
    apply (f_equal wrap64). lia.
  - unfold clearSession. cbn. rewrite lookup_insert_eq.
    rewrite decide_False by congruence. split; [done|].
    rewrite decide_True by done. cbn. by rewrite delete_insert_eq.
Qed.

(** ** Witnesses *)

(** Two clients connect; the first one's session is idle from then on. *)
Definition two_clients : World :=
  let w := setSession 0 "10.0.0.1:5000" 1 init <| made ::= fun m => {[1%positive]} ∪ m |> in
  setSession (200 * Second) "10.0.0.2:6000" 2 w <| made ::= fun m => {[2%positive]} ∪ m |>.

Lemma two_clients_reachable : reachable two_clients.
Proof.
  assert (H1 : reachable (setSession 0 "10.0.0.1:5000" 1 init
                            <| made ::= fun m => {[1%positive]} ∪ m |>))
    by (apply (setSession_steps init 0 "10.0.0.1:5000" 1); [set_solver|done|done]).
  unfold reachable in *. etrans; [exact H1|]. apply setSession_steps; [|done|apply (inv_made _ (reachable_inv _ H1))].
  vm_compute. intros H; inversion H.
Qed.

Definition idle : sid -> Z := fun _ => 0.
Definition two_orders : list string := ["10.0.0.2:6000"; "10.0.0.1:5000"].

Lemma two_clients_order : map_order two_clients two_orders.
Proof.
  unfold map_order, two_orders.
  first [ assert (elements (dom two_clients.(srv).(sessions)) = two_orders) as ->
            by (vm_compute; reflexivity); reflexivity
        | assert (elements (dom two_clients.(srv).(sessions)) = rev two_orders) as ->
            by (vm_compute; reflexivity); apply perm_swap ].
Qed.

Lemma session_table_invariant_witness :
  reachable two_clients /\ two_clients.(ActiveSessions) = 2.
Proof.
  split; [apply two_clients_reachable|].
  destruct (session_table_invariant two_clients two_clients_reachable) as (_ & _ & Hc).
  rewrite Hc; [vm_compute; reflexivity|vm_compute; reflexivity| |].
  - vm_compute. by split.
  - vm_compute. done.
Defined.

Lemma cleanup_spec_witness :
  let w' := cleanup (230 * Second) idle two_orders two_clients in
  w'.(srv).(sessions) !! "10.0.0.1:5000" = None /\
  w'.(srv).(sessions) !! "10.0.0.2:6000" = Some 2%positive.
Proof.
  intros w'.
  destruct (cleanup_spec two_clients (230 * Second) idle two_orders two_clients_reachable
              two_clients_order) as (Hs & _).
  split; unfold w'; rewrite Hs; vm_compute; reflexivity.
Defined.

Lemma openStream_spec_witness :
  let open1 (x : sid) := if decide (x = 1%positive) then Err EOF else Ok x in
  is_ok (openStream idle open1 two_orders two_clients).1 = true.
Proof.
  intros open1.
  apply (openStream_spec two_clients idle open1 two_orders two_clients_order).
  exists "10.0.0.2:6000", 2%positive. split; [vm_compute; reflexivity|].
  split; [|split; [vm_compute; discriminate|vm_compute; reflexivity]].
  vm_compute. intros H; inversion H.
Defined.

Lemma stale_clear_keeps_successor_witness :
  let w' := setSession (300 * Second) "10.0.0.1:5000" 3 two_clients in
  clearSession "10.0.0.1:5000" 1 w' = w'.
Proof.
  apply (stale_clear_keeps_successor two_clients (300 * Second) "10.0.0.1:5000" 1 3).
  - apply two_clients_reachable.
  - vm_compute. reflexivity.
  - vm_compute. intros H; inversion H.
  - vm_compute. by split.
Defined.
