(* ===== verification/ClientPool.v ===== *)
(** * The client's session pool ([client.go])

    The slice of pooled sessions with its round-robin counter ([addSession],
    [removeSession], [sessionCount], [OpenStream], [sessionHealthCheck]), and the
    adaptive frame level that all workers change with compare-and-swap
    ([adjustFrameLevel]).  The slice is only touched under [sessMu] and every
    operation on it is one critical section, so it is modelled by pure functions.  The
    counter [sessIdx] is moved outside the lock, by every call at once: [OpenStream] gets
    what the other calls add to it between its own additions.  The frame level has no lock
    and gets a step relation. *)

From S2P Require Import Prelude GoStrings GoBytes Target.
From stdpp Require Import gmap sets relations.
From Stdlib Require Import Init.Byte.

Local Open Scope string_scope.
Local Open Scope list_scope.
Local Open Scope Z_scope.

(** ** The pool *)

Abbreviation sid := positive (only parsing).

(** [pooledSession]; [createdAt] in nanoseconds. *)
Record pooledSession := mkPS { ps_session : sid; ps_createdAt : Z }.

(** The part of [Client] the pool consists of; [cl_sessIdx] is a [uint64]. *)
Record Pool := mkPool { cl_sessions : list pooledSession; cl_sessIdx : Z }.
#[export] Instance eta_Pool : Eta Pool := fun r => mkPool r.(cl_sessions) r.(cl_sessIdx).

(** [sessionMaxAge] *)
Definition sessionMaxAge : Z := 20 * Minute.

(** [addSession(sess)] at time [now] *)
Definition addSession (now : Z) (sess : sid) (c : Pool) : Pool :=
  c <| cl_sessions ::= fun l => l ++ [mkPS sess now] |>.

(** The loop of [removeSession(sess)]: the first entry of the session goes. *)
Fixpoint remove_first (sess : sid) (l : list pooledSession) : list pooledSession :=
  match l with
  | [] => []
  | ps :: l => if decide (ps.(ps_session) = sess) then l else ps :: remove_first sess l
  end.
Definition removeSession (sess : sid) (c : Pool) : Pool :=
  c <| cl_sessions ::= remove_first sess |>.

(** [sessionCount()] *)
Definition sessionCount (c : Pool) : Z := zlen c.(cl_sessions).

(** The cleanup tick of [sessionHealthCheck]: what stays, and how many went. *)
Fixpoint alive_loop (IsClosed : sid -> bool) (l : list pooledSession)
    : list pooledSession * Z :=
  match l with
  | [] => ([], 0)
  | ps :: l =>
      let '(alive, removed) := alive_loop IsClosed l in
      if IsClosed ps.(ps_session) then (alive, removed + 1) else (ps :: alive, removed)
  end.
Definition clean_tick (IsClosed : sid -> bool) (c : Pool) : Pool * Z :=
  let '(alive, removed) := alive_loop IsClosed c.(cl_sessions) in
  (c <| cl_sessions := alive |>, removed).

(** The recycle tick of [sessionHealthCheck] at time [now]: the session it closes. *)
Definition older (IsClosed : sid -> bool) (now : Z) (oldest : option pooledSession)
    (ps : pooledSession) : option pooledSession :=
  if IsClosed ps.(ps_session) then oldest
  else if sessionMaxAge <? now - ps.(ps_createdAt) then
    match oldest with
    | None => Some ps
    | Some o => if ps.(ps_createdAt) <? o.(ps_createdAt) then Some ps else oldest
    end
  else oldest.
Definition recycle_tick (IsClosed : sid -> bool) (now : Z) (c : Pool) : option pooledSession :=
  foldl (older IsClosed now) None c.(cl_sessions).

(** ** OpenStream *)

(** What a round of the loop of [OpenStream] meets.  [c.sessIdx] is shared: calls in other
    goroutines add [rd_others] to it since the previous round of this one.  Meanwhile
    sessions may close, or start to refuse streams. *)
Record round := mkRound {
  rd_others : Z;
  rd_IsClosed : sid -> bool;
  rd_OpenStream : sid -> result sink
}.

Section OpenStream.
Context (rounds : nat -> round).

(** [OpenStream(target)]: round [k] of the loop over the copied [pool], with [attempts]
    left; also the streams it closed again, and the counter after its last addition. *)
Fixpoint OpenStream_loop (attempts k : nat) (pool : list pooledSession) (target : string)
    (idx : Z) (dropped : list sink) : outcome (result sink * list sink * Z) :=
  match attempts with
  | O => Done (Err (Errorf "all sessions exhausted" []), dropped, idx)
  | S attempts =>
      let idx := u64 (u64 (idx + (rounds k).(rd_others)) + 1) in
      let i := Z.rem (wrap64 idx) (zlen pool) in
      match (if i <? 0 then None else pool !! Z.to_nat i) with
      | None => Panic IndexOutOfRange
      | Some ps =>
          if (rounds k).(rd_IsClosed) ps.(ps_session) then
            OpenStream_loop attempts (S k) pool target idx dropped
          else
            match (rounds k).(rd_OpenStream) ps.(ps_session) with
            | Err _ => OpenStream_loop attempts (S k) pool target idx dropped
            | Ok st =>
                match sendTarget target st with
                | (Some _, st) => OpenStream_loop attempts (S k) pool target idx (dropped ++ [st])
                | (None, st) => Done (Ok st, dropped, idx)
                end
            end
      end
  end.

Definition OpenStream (target : string) (c : Pool) : outcome (result sink * list sink * Pool) :=
  let pool := c.(cl_sessions) in
  if zlen pool =? 0 then Done (Err (Errorf "no active sessions" []), [], c)
  else
    '(r, dropped, idx) ← OpenStream_loop (length pool) 0 pool target c.(cl_sessIdx) [];
    Done (r, dropped, c <| cl_sessIdx := idx |>).

(** How far the counter is after [k] rounds. *)
Fixpoint taken (k : nat) : Z :=
  match k with O => 0 | S k => taken k + (rounds k).(rd_others) + 1 end.

(** The session that round [k] of a call tries. *)
Definition visited (c : Pool) (k : nat) : option pooledSession :=
  c.(cl_sessions) !! Z.to_nat ((c.(cl_sessIdx) + taken (S k)) mod zlen c.(cl_sessions)).

(** No other call moves the counter, and the sessions stay as they are. *)
Definition undisturbed : Prop :=
  forall k, rounds k = mkRound 0 (rounds 0%nat).(rd_IsClosed) (rounds 0%nat).(rd_OpenStream).
End OpenStream.

(** What one session gives: a stream that took the target. *)
Definition attempt (rd : round) (target : string) (ps : pooledSession) : option sink :=
  if rd.(rd_IsClosed) ps.(ps_session) then None
  else
    match rd.(rd_OpenStream) ps.(ps_session) with
    | Err _ => None
    | Ok st => match sendTarget target st with (None, st) => Some st | (Some _, _) => None end
    end.

(** ** The adaptive frame level *)

(** [frameSizes] *)
Definition frameSizes : list Z := [2048; 4096; 8192; 16384; 32768].

(** What [adjustFrameLevel] computes from the level it loaded. *)
Definition next_level (delta old : Z) : Z :=
  let new := wrap32 (old + delta) in
  let new := if new <? 0 then 0 else new in
  if 4 <? new then 4 else new.

(** A goroutine inside [adjustFrameLevel(delta)]: about to load, or about to
    compare-and-swap; [AFDone] has returned. *)
Inductive af_pc :=
| AFLoad (delta : Z)
| AFSwap (delta old : Z)
| AFDone (delta : Z).

(** One atomic operation of one goroutine. *)
Definition af_step (p : af_pc) (level : Z) : af_pc * Z :=
  match p with
  | AFLoad d =>
      if next_level d level =? level then (AFDone d, level) else (AFSwap d level, level)
  | AFSwap d old =>
      if level =? old then (AFDone d, next_level d old) else (AFLoad d, level)
  | AFDone d => (AFDone d, level)
  end.

(** Any goroutine may move next. *)
Inductive af_sys_step : list af_pc * Z -> list af_pc * Z -> Prop :=
| af_move ps i p p' level level' :
    ps !! i = Some p -> af_step p level = (p', level') ->
    af_sys_step (ps, level) (<[i := p']> ps, level').

Definition af_delta (p : af_pc) : Z :=
  match p with AFLoad d | AFSwap d _ | AFDone d => d end.
Definition af_done (p : af_pc) : bool := match p with AFDone _ => true | _ => false end.

(** The specification: the adjustments happen one at a time. *)
Definition apply_deltas (ds : list Z) (level : Z) : Z :=
  foldl (fun l d => next_level d l) level ds.

(** ** Lemmas *)

(** *** The rounds of [OpenStream] *)

Section Rounds.
Context (rounds : nat -> round) (Hothers : forall k, 0 <= (rounds k).(rd_others)).
Abbreviation taken := (taken rounds).

Lemma taken_mono (j k : nat) : (j <= k)%nat -> Z.of_nat (k - j) <= taken k - taken j.
Proof.
  induction 1 as [|k Hjk IH]; [lia|]. cbn [ClientPool.taken]. specialize (Hothers k). lia.
Qed.

Lemma taken_ge (k : nat) : Z.of_nat k <= taken k.
Proof. pose proof (taken_mono 0 k ltac:(lia)) as H. cbn in H. lia. Qed.

(** The index of a round, while the counter is below [2^63]. *)
Lemma round_index (c : Pool) (k : nat) :
  0 <= c.(cl_sessIdx) -> c.(cl_sessIdx) + taken (S k) < 2 ^ 63 -> c.(cl_sessions) <> [] ->
  let idx := u64 (u64 (c.(cl_sessIdx) + taken k + (rounds k).(rd_others)) + 1) in
  let i := Z.rem (wrap64 idx) (zlen c.(cl_sessions)) in
  idx = c.(cl_sessIdx) + taken (S k) /\ 0 <= i /\
  exists ps, c.(cl_sessions) !! Z.to_nat i = Some ps /\ visited rounds c k = Some ps.
Proof.
  intros Hidx Hmax Hne idx i. pose proof (taken_ge k). pose proof (Hothers k) as Ho.
  cbn [ClientPool.taken] in Hmax.
  assert (E : idx = c.(cl_sessIdx) + taken (S k)).
  { subst idx. unfold u64. cbn [ClientPool.taken]. rewrite !Z.mod_small; [lia|..]; rewrite ?Z.mod_small; lia. }
  assert (Hl : 0 < zlen c.(cl_sessions)) by (destruct (cl_sessions c); [done|unfold zlen; cbn; lia]).
  assert (Ei : i = (c.(cl_sessIdx) + taken (S k)) mod zlen c.(cl_sessions)).
  { subst i. rewrite E. cbn [ClientPool.taken]. rewrite wrap64_id by (unfold int64_range; lia).
    apply Z.rem_mod_nonneg; lia. }
  pose proof (Z.mod_pos_bound (c.(cl_sessIdx) + taken (S k)) _ Hl) as Hb. rewrite <- Ei in Hb.
  split; [done|]. split; [lia|].
  destruct (lookup_lt_is_Some_2 (cl_sessions c) (Z.to_nat i)) as [ps Hps]; [unfold zlen in *; lia|].
  exists ps. split; [done|]. unfold visited. by rewrite <- Ei.
Qed.

(** Round [k] fails on the session it visits. *)
Definition round_fails (target : string) (c : Pool) (k : nat) : Prop :=
  exists ps, visited rounds c k = Some ps /\ attempt (rounds k) target ps = None.

(** The loop returns the stream of the first round that does not fail. *)
Lemma OpenStream_loop_spec (target : string) (c : Pool) (attempts k : nat) (dropped : list sink) :
  0 <= c.(cl_sessIdx) -> c.(cl_sessIdx) + taken (k + attempts) < 2 ^ 63 -> c.(cl_sessions) <> [] ->
  exists r dropped' idx,
    OpenStream_loop rounds attempts k c.(cl_sessions) target (c.(cl_sessIdx) + taken k) dropped =
      Done (r, dropped', idx) /\
    match r with
    | Ok st => exists m ps, (k <= m < k + attempts)%nat /\ visited rounds c m = Some ps /\
        attempt (rounds m) target ps = Some st /\ idx = c.(cl_sessIdx) + taken (S m) /\
        forall j, (k <= j < m)%nat -> round_fails target c j
    | Err _ => forall j, (k <= j < k + attempts)%nat -> round_fails target c j
    end.
Proof.
  intros Hidx Hmax Hne. revert k dropped Hmax. induction attempts as [|attempts IH]; intros k dropped Hmax.
  { eexists _, _, _. split; [reflexivity|]. cbn. lia. }
  pose proof (taken_mono (S k) (k + S attempts) ltac:(lia)).
  destruct (round_index c k) as (Ei & Hi & ps & Hps & Hv); [done|lia|done|].
  cbn [OpenStream_loop]. rewrite Ei in *. rewrite (proj2 (Z.ltb_ge _ 0)) by done. rewrite Hps.
  replace (k + S attempts)%nat with (S k + attempts)%nat in * by lia.
  assert (Hgo : attempt (rounds k) target ps = None -> forall dropped, exists r dropped' idx,
    OpenStream_loop rounds attempts (S k) c.(cl_sessions) target (c.(cl_sessIdx) + taken (S k)) dropped =
      Done (r, dropped', idx) /\
    match r with
    | Ok st => exists m ps, (k <= m < S k + attempts)%nat /\ visited rounds c m = Some ps /\
        attempt (rounds m) target ps = Some st /\ idx = c.(cl_sessIdx) + taken (S m) /\
        forall j, (k <= j < m)%nat -> round_fails target c j
    | Err _ => forall j, (k <= j < S k + attempts)%nat -> round_fails target c j
    end).
  { intros Hf d. destruct (IH (S k) d Hmax) as (r & d' & idx & Hr & Hspec).
    assert (Hcase : forall P : nat -> Prop, (forall j, (S k <= j)%nat -> P j -> round_fails target c j) ->
              forall j, (k <= j)%nat -> (j <> k -> P j) -> round_fails target c j).
    { intros P HP j Hj Hx. destruct (decide (j = k)) as [->|Hn]; [by exists ps|]. apply HP; [lia|by apply Hx]. }
    exists r, d', idx. split; [done|]. destruct r as [st|e].
    - destruct Hspec as (m & q & Hm & Hq & Ha & Hx & Hj). exists m, q. split; [lia|]. do 3 (split; [done|]).
      intros j Hjm. apply (Hcase (fun j => j < m)%nat); [intros; by apply Hj|lia|lia].
    - intros j Hjm. apply (Hcase (fun j => j < S k + attempts)%nat); [intros; by apply Hspec|lia|lia]. }
  unfold attempt in Hgo at 1. destruct (rd_IsClosed (rounds k) (ps_session ps)) eqn:Ec; [by apply Hgo|].
  destruct (rd_OpenStream (rounds k) (ps_session ps)) as [st|] eqn:Eo; [|by apply Hgo].
  destruct (sendTarget target st) as [[e|] st'] eqn:Es; [by apply Hgo|].
  eexists _, _, _. split; [reflexivity|]. exists k, ps. split; [lia|]. split; [done|].
  split; [unfold attempt; by rewrite Ec, Eo, Es|]. split; [done|]. lia.
Qed.
End Rounds.

(** Undisturbed, the rounds visit the pool rotated to start one past the previous session. *)
Lemma visited_rotates (rounds : nat -> round) (c : Pool) (k : nat) :
  undisturbed rounds -> 0 <= c.(cl_sessIdx) -> (k < length c.(cl_sessions))%nat ->
  taken rounds (S k) = Z.of_nat (S k) /\
  visited rounds c k = rotate (Z.to_nat (c.(cl_sessIdx) + 1)) c.(cl_sessions) !! k.
Proof.
  intros Hu Hidx Hk. assert (E : forall k, taken rounds k = Z.of_nat k).
  { intros j. induction j as [|j IH]; [done|]. cbn [taken]. rewrite IH, Hu. cbn. lia. }
  split; [done|]. unfold visited. rewrite E, lookup_rotate_r by done. f_equal. unfold rotate_nat_add, zlen.
  do 2 f_equal. lia.
Qed.

Section HealthCheck.
Context (IsClosed : sid -> bool).

(** *** Cleaning and recycling *)

Lemma alive_loop_filter (l : list pooledSession) :
  alive_loop IsClosed l =
  (List.filter (fun ps => negb (IsClosed ps.(ps_session))) l,
   zlen (List.filter (fun ps => IsClosed ps.(ps_session)) l)).
Proof.
  induction l as [|ps l IH]; [done|]. cbn. rewrite IH.
  destruct (IsClosed _); cbn; [|done]. by rewrite zlen_cons, Z.add_comm.
Qed.

(** Sessions that may be recycled. *)
Definition expired (now : Z) (ps : pooledSession) : Prop :=
  IsClosed ps.(ps_session) = false /\ sessionMaxAge < now - ps.(ps_createdAt).

(** [o] is the oldest expired session among [seen]. *)
Definition oldest_of (now : Z) (seen : list pooledSession) (o : option pooledSession) : Prop :=
  match o with
  | None => Forall (fun q => ~ expired now q) seen
  | Some ps => ps ∈ seen /\ expired now ps /\
      Forall (fun q => expired now q -> ps.(ps_createdAt) <= q.(ps_createdAt)) seen
  end.

Lemma older_oldest (now : Z) (seen : list pooledSession) (o : option pooledSession)
    (ps : pooledSession) :
  oldest_of now seen o -> oldest_of now (seen ++ [ps]) (older IsClosed now o ps).
Proof.
  intros Ho. unfold older.
  assert (Hskip : ~ expired now ps -> oldest_of now (seen ++ [ps]) o).
  { intros Hn. destruct o as [q|]; cbn in *; rewrite Forall_app, Forall_singleton; [|done].
    destruct Ho as (? & ? & ?). split; [set_solver|]. done. }
  destruct (IsClosed (ps_session ps)) eqn:Ec; [apply Hskip; intros [? _]; congruence|].
  destruct (Z.ltb_spec sessionMaxAge (now - ps_createdAt ps)); [|apply Hskip; intros [_ ?]; lia].
  assert (Hexp : expired now ps) by done.
  destruct o as [q|]; cbn in Ho.
  - destruct Ho as (Hin & Hq & Hle).
    case_bool; cbn; rewrite Forall_app, Forall_singleton; (split; [set_solver|]);
      (split; [done|]); (split; [|lia]); [|done].
    eapply Forall_impl; [exact Hle|]. cbn. intros r Hr Hexpr. specialize (Hr Hexpr). lia.
  - cbn. rewrite Forall_app, Forall_singleton. split; [set_solver|]. split; [done|].
    split; [|lia]. eapply Forall_impl; [exact Ho|]. done.
Qed.

Lemma older_foldl (now : Z) (seen l : list pooledSession) (o : option pooledSession) :
  oldest_of now seen o -> oldest_of now (seen ++ l) (foldl (older IsClosed now) o l).
Proof.
  revert seen o. induction l as [|ps l IH]; intros seen o Ho; cbn; [by rewrite app_nil_r|].
  replace (seen ++ ps :: l) with ((seen ++ [ps]) ++ l) by (by rewrite <- app_assoc).
  by apply IH, older_oldest.
Qed.
End HealthCheck.

(** *** Frame levels *)

Lemma next_level_range (d l : Z) : 0 <= next_level d l <= 4.
Proof. unfold next_level. repeat case_bool; lia. Qed.

Lemma next_level_clamps (d l : Z) :
  0 <= l <= 4 -> - 2 ^ 30 <= d < 2 ^ 30 -> next_level d l = Z.max 0 (Z.min 4 (l + d)).
Proof.
  intros Hl Hd. unfold next_level, wrap32. rewrite Z.mod_small by lia.
  replace (l + d + 2 ^ 31 - 2 ^ 31) with (l + d) by lia. repeat case_bool; lia.
Qed.

Lemma apply_deltas_app (ds es : list Z) (l : Z) :
  apply_deltas (ds ++ es) l = apply_deltas es (apply_deltas ds l).
Proof. apply foldl_app. Qed.

(** The adjustments that have returned, in the order in which they took effect. *)
Definition linearised (l0 : Z) (x : list af_pc * Z) : Prop :=
  exists ds, ds ≡ₚ map af_delta (List.filter af_done x.1) /\ x.2 = apply_deltas ds l0.

Lemma af_step_delta (p p' : af_pc) (l l' : Z) : af_step p l = (p', l') -> af_delta p' = af_delta p.
Proof. destruct p; cbn; repeat case_bool; by intros [= <- <-]. Qed.

Lemma af_step_effect (p p' : af_pc) (l l' : Z) :
  af_step p l = (p', l') ->
  (af_done p' = af_done p /\ l' = l) \/
  (af_done p = false /\ af_done p' = true /\ l' = next_level (af_delta p) l).
Proof.
  destruct p; cbn; repeat case_bool; intros [= <- <-]; cbn; subst; auto.
Qed.

Lemma af_sys_step_linearised (l0 : Z) (x y : list af_pc * Z) :
  af_sys_step x y -> linearised l0 x ->
  linearised l0 y /\ map af_delta y.1 = map af_delta x.1.
Proof.
  destruct 1 as [ps i p p' l l' Hi Hstep]. intros (ds & Hds & Hl). cbn in *.
  apply list_elem_of_split_length in Hi as (ps1 & ps2 & -> & ->).
  rewrite <- (Nat.add_0_r (length ps1)), insert_app_r. cbn [insert list_insert].
  pose proof (af_step_delta _ _ _ _ Hstep) as Hdelta.
  split; [|by rewrite !map_app; cbn; rewrite Hdelta].
  unfold linearised. cbn. rewrite List.filter_app, map_app in *. cbn [List.filter] in *.
  destruct (af_step_effect _ _ _ _ Hstep) as [[-> ->]|(Hp & -> & ->)].
  - exists ds. split; [|done]. destruct (af_done p); [|done]. cbn in *. by rewrite Hdelta.
  - rewrite Hp in Hds. exists (ds ++ [af_delta p]). rewrite apply_deltas_app, <- Hl. cbn.
    split; [|done]. rewrite Hdelta, Hds, <- app_assoc. apply Permutation_app_head.
    symmetry. apply Permutation_cons_append.
Qed.

Lemma af_run_linearised (l0 : Z) (x y : list af_pc * Z) :
  rtc af_sys_step x y -> linearised l0 x -> linearised l0 y /\ map af_delta y.1 = map af_delta x.1.
Proof.
  induction 1 as [x|x y z Hxy _ IH]; intros Hx; [done|].
  destruct (af_sys_step_linearised l0 x y Hxy Hx) as [Hy <-]. by apply IH.
Qed.

(** ** Properties *)

(** C31: [OpenStream] with the index shared.  Below [2^63] calls it never panics,
    whatever other calls add to the index between its rounds and whatever becomes of the
    sessions: each of at most as many rounds as the pool has sessions visits the session
    the index names, the first that does not fail gives the stream, and the call fails
    only when every round does.  When nothing interferes it is round robin: the rounds
    visit the pool rotated to start one past the previous session, each session once, and
    the call fails only when every session is closed, refuses a stream or does not take
    the target.  (With interference the last part fails: [OpenStream_misses].) *)
Theorem OpenStream_round_robin (rounds : nat -> round) (target : string) (c : Pool) :
  (forall k, 0 <= (rounds k).(rd_others)) -> 0 <= c.(cl_sessIdx) ->
  c.(cl_sessIdx) + taken rounds (length c.(cl_sessions)) < 2 ^ 63 ->
  let ring := rotate (Z.to_nat (c.(cl_sessIdx) + 1)) c.(cl_sessions) in
  let fails ps := attempt (rounds 0%nat) target ps = None in
  exists r dropped c',
    OpenStream rounds target c = Done (r, dropped, c') /\
    c'.(cl_sessions) = c.(cl_sessions) /\
    match r with
    | Ok st => exists k ps, (k < length c.(cl_sessions))%nat /\ visited rounds c k = Some ps /\
        attempt (rounds k) target ps = Some st /\
        (forall j, (j < k)%nat -> round_fails rounds target c j) /\
        c'.(cl_sessIdx) = c.(cl_sessIdx) + taken rounds (S k) /\
        (undisturbed rounds -> ring !! k = Some ps /\ Forall fails (take k ring) /\
           c'.(cl_sessIdx) = c.(cl_sessIdx) + 1 + Z.of_nat k)
    | Err _ => (forall k, (k < length c.(cl_sessions))%nat -> round_fails rounds target c k) /\
        (undisturbed rounds -> Forall fails c.(cl_sessions))
    end.
Proof.
  intros Hothers Hidx Hmax ring fails.
  assert (Hring : undisturbed rounds -> forall k, (k <= length c.(cl_sessions))%nat ->
    (forall j, (j < k)%nat -> round_fails rounds target c j) -> Forall fails (take k ring)).
  { intros Hu k Hk Hf. apply Forall_lookup. intros j ps [Hj Hjk]%lookup_take_Some.
    destruct (Hf j Hjk) as (q & Hq & Ha). destruct (visited_rotates rounds c j Hu Hidx ltac:(lia)) as [_ Hv].
    rewrite Hv in Hq. fold ring in Hq. assert (q = ps) as -> by congruence.
    unfold fails, attempt in *. rewrite (Hu j) in Ha. exact Ha. }
  unfold OpenStream. destruct (Z.eqb_spec (zlen (cl_sessions c)) 0) as [E|E].
  { pose proof (zlen_0_nil c.(cl_sessions) ltac:(lia)) as E'. eexists _, _, c. split; [done|]. split; [done|]. rewrite E'. cbn. split; [lia|done]. }
  destruct (OpenStream_loop_spec rounds Hothers target c (length (cl_sessions c)) 0 []) as
    (r & d & idx & Hrun & Hr); [done|done|by intros H; rewrite H in E|].
  cbn [taken] in Hrun. rewrite Z.add_0_r in Hrun. rewrite Hrun. cbn [mbind outcome_bind].
  eexists _, _, _. split; [reflexivity|]. split; [done|]. cbn [Nat.add] in Hr. destruct r as [st|e].
  - destruct Hr as (k & ps & Hk & Hv & Ha & -> & Hf). exists k, ps. cbn [cl_sessIdx].
    assert (Hf' : forall j, (j < k)%nat -> round_fails rounds target c j) by (intros; apply Hf; lia).
    do 5 (split; [done || lia|]). intros Hu.
    destruct (visited_rotates rounds c k Hu Hidx ltac:(lia)) as [Et Hv']. rewrite Et. fold ring in Hv'.
    split; [congruence|]. split; [apply Hring; [done|lia|done]|cbn; lia].
  - assert (Hf : forall k, (k < length c.(cl_sessions))%nat -> round_fails rounds target c k)
      by (intros; apply Hr; lia).
    split; [done|]. intros Hu. specialize (Hring Hu _ (le_n _) Hf).
    rewrite take_ge in Hring by (unfold ring; rewrite length_rotate; lia).
    rewrite Forall_forall in Hring |- *. intros ps Hps. apply Hring. unfold ring. by apply elem_of_rotate.
Qed.

(** The health check.  The cleanup tick keeps exactly the open sessions, in order.  The
    recycle tick closes at most one session: the oldest of the open ones older than twenty
    minutes, and none when there is no such session. *)
Theorem health_check_spec (IsClosed : sid -> bool) (now : Z) (c : Pool) :
  (clean_tick IsClosed c).1.(cl_sessions) =
    List.filter (fun ps => negb (IsClosed ps.(ps_session))) c.(cl_sessions) /\
  sessionCount (clean_tick IsClosed c).1 + (clean_tick IsClosed c).2 = sessionCount c /\
  oldest_of IsClosed now c.(cl_sessions) (recycle_tick IsClosed now c).
Proof.
  unfold clean_tick. rewrite alive_loop_filter. cbn. split; [done|]. split.
  - unfold sessionCount. cbn. induction (cl_sessions c) as [|ps l IH]; [done|]. cbn.
    destruct (IsClosed _); cbn; rewrite !zlen_cons; lia.
  - apply (older_foldl IsClosed now [] (cl_sessions c) None). by constructor.
Qed.

(** C18: [adjustFrameLevel] is linearisable.  However the loads and compare-and-swaps of
    the goroutines interleave, the level is at every moment the result of applying the
    adjustments that have returned one at a time, in some order, so that once all
    have returned none is lost; and it never leaves 0..4, the indices of [frameSizes]. *)
Theorem adjustFrameLevel_linearizable (ds : list Z) (l0 : Z) (ps : list af_pc) (l : Z) :
  0 <= l0 <= 4 ->
  rtc af_sys_step (map AFLoad ds, l0) (ps, l) ->
  0 <= l <= 4 /\
  (exists es, es ≡ₚ map af_delta (List.filter af_done ps) /\ l = apply_deltas es l0) /\
  (forallb af_done ps = true -> exists es, es ≡ₚ ds /\ l = apply_deltas es l0).
Proof.
  intros Hl0 Hrun.
  assert (H0 : linearised l0 (map AFLoad ds, l0)).
  { exists []. cbn. split; [|done]. clear Hrun. by induction ds. }
  assert (Hd0 : map af_delta (map AFLoad ds) = ds) by (rewrite map_map; apply map_id).
  assert (Hgen : linearised l0 (ps, l) /\ map af_delta ps = ds).
  { rewrite <- Hd0 at 1. exact (af_run_linearised l0 _ _ Hrun H0). }
  destruct Hgen as [(es & Hes & Hl) Hds]. cbn in *.
  split; [|split; [by exists es|]].
  - rewrite Hl. clear - Hl0. revert l0 Hl0. induction es as [|d es IH]; intros l0 Hl0; [done|].
    cbn. apply IH, next_level_range.
  - intros Hall. exists es. split; [|done]. rewrite Hes, <- Hds. f_equiv.
    clear - Hall. induction ps as [|p ps IH]; [done|]. cbn in *.
    apply andb_true_iff in Hall as [-> Hall]. by rewrite IH.
Qed.

(** ** Witnesses *)

Definition three_sessions : Pool := mkPool [mkPS 1 0; mkPS 2 0; mkPS 3 0] 1.
(** Session 3 is closed, session 1 refuses, session 2 works. *)
Definition is_third (x : sid) : bool := bool_decide (x = 3%positive).
Definition refuse_first (x : sid) : result sink :=
  if bool_decide (x = 1%positive) then Err EOF else Ok (mkSink [] None).

Definition quiet (_ : nat) : round := mkRound 0 is_third refuse_first.

Lemma OpenStream_round_robin_witness :
  exists k dropped c',
    OpenStream quiet "tcp://a:1" three_sessions = Done (Ok k, dropped, c') /\
    c'.(cl_sessIdx) = 4 /\
    exists n ps, rotate 2 three_sessions.(cl_sessions) !! n = Some ps /\ ps.(ps_session) = 2%positive.
Proof.
  destruct (OpenStream_round_robin quiet "tcp://a:1" three_sessions)
    as (r & d & c' & Hrun & _ & Hr);
    [intros k; vm_compute; discriminate|vm_compute; discriminate|vm_compute; reflexivity|].
  assert (E : OpenStream quiet "tcp://a:1" three_sessions =
              Done (Ok (mkSink [[x00; x09]; bytes_of "tcp://a:1"] None), [], mkPool three_sessions.(cl_sessions) 4))
    by (vm_compute; reflexivity).
  rewrite Hrun in E. injection E as -> -> ->. eexists _, _, _. split; [exact Hrun|]. split; [reflexivity|].
  destruct Hr as (k & ps & _ & _ & _ & _ & _ & Hu).
  destruct (Hu (fun _ => eq_refl)) as (Hring & _ & Hk). exists k, ps. split; [exact Hring|].
  assert (Ek : k = 2%nat) by (cbn in Hk; lia). subst k. injection Hring as <-. reflexivity.
Defined.

(** Two calls alternate over a working session 1 and a closed session 2.  The second call
    gets session 1; both rounds of the first land on session 2, so it fails although
    session 1 works. *)
Definition two_sessions : Pool := mkPool [mkPS 1 0; mkPS 2 0] 0.
Definition amid (others : list Z) (k : nat) : round :=
  mkRound (nth k others 0) (fun x => bool_decide (x = 2%positive)) (fun _ => Ok (mkSink [] None)).
Example OpenStream_misses :
  OpenStream (amid [0; 1]) "tcp://a:1" two_sessions =
    Done (Err (Errorf "all sessions exhausted" []), [], mkPool two_sessions.(cl_sessions) 3) /\
  (exists st, OpenStream (amid [1]) "tcp://a:1" two_sessions =
    Done (Ok st, [], mkPool two_sessions.(cl_sessions) 2)) /\
  attempt (amid [0; 1] 1) "tcp://a:1" (mkPS 1 0) <> None.
Proof. split; [vm_compute; reflexivity|]. split; [eexists; vm_compute; reflexivity|vm_compute; discriminate]. Qed.

(** Two goroutines raise the level from 2; the second loses the first race. *)
Lemma race_run :
  rtc af_sys_step (map AFLoad [1; 1], 2) ([AFDone 1; AFDone 1], 4).
Proof.
  eapply rtc_l; [eapply (af_move _ 0); reflexivity|]. cbn.
  eapply rtc_l; [eapply (af_move _ 1); reflexivity|]. cbn.
  eapply rtc_l; [eapply (af_move _ 0); reflexivity|]. cbn.
  eapply rtc_l; [eapply (af_move _ 1); reflexivity|]. cbn.
  eapply rtc_l; [eapply (af_move _ 1); reflexivity|]. cbn.
  eapply rtc_l; [eapply (af_move _ 1); reflexivity|]. cbn. reflexivity.
Qed.

Lemma adjustFrameLevel_linearizable_witness :
  exists es, es ≡ₚ [1; 1] /\ 4 = apply_deltas es 2.
Proof.
  destruct (adjustFrameLevel_linearizable [1; 1] 2 [AFDone 1; AFDone 1] 4 ltac:(lia) race_run)
    as (_ & _ & H).
  apply H. reflexivity.
Defined.
