(* ===== verification/PoolWorker.v ===== *)
(** * Pool workers and connections ([client.go])

    What the client connects to and how: the path list ([NewClient]), the choice of
    a path by latency ([bestPath], [latencyProber]), the failover state of a worker
    ([poolWorker]), one connection from dial to session end ([connectAndServe],
    [dialSession]) and the socket options ([setTCPOptions]).

    The network is an argument: [link] says what each stage returns.  A nil
    [net.Conn] is [None], and calling a method on it panics. *)

From S2P Require Import Prelude GoStrings GoBytes NetAddr ConfigTypes Config TlsFragment ClientPool.
From Stdlib Require Import Init.Byte.

Local Open Scope string_scope.
Local Open Scope list_scope.
Local Open Scope Z_scope.

(** ** Paths *)

(** The path list [NewClient(cfg)] builds. *)
Definition client_paths (cfg : Config) : list PathConfig :=
  if decide (cfg.(cfg_Paths) = [] /\ cfg.(cfg_ServerURL) <> EmptyString) then
    [mkPathConfig cfg.(cfg_Transport) cfg.(cfg_ServerURL) 2 false 3 10]
  else cfg.(cfg_Paths).

(** [Start]: the number of workers, and the first frame level. *)
Definition pool_size (paths : list PathConfig) : result Z :=
  match paths with
  | [] => Err (Errorf "no paths configured" [])
  | p :: _ => Ok (pos_or 4 p.(Path_ConnectionPool))
  end.
Definition initial_frame_level (cfg : Config) : Z :=
  if 32768 <=? cfg.(cfg_Smux).(Smux_FrameSize) then 4 else 0.

(** [bestPath()]: [pathLatency] has an entry per path, 0 while unmeasured. *)
Fixpoint best_loop (i best : nat) (bestRTT : Z) (rest : list Z) : nat :=
  match rest with
  | [] => best
  | rtt :: rest =>
      if (0 <? rtt) && ((bestRTT =? 0) || (rtt <? bestRTT))
      then best_loop (S i) i rtt rest
      else best_loop (S i) best bestRTT rest
  end.
Definition bestPath (pathLatency : list Z) : nat :=
  match pathLatency with
  | [] | [_] => 0
  | rtt0 :: rest => best_loop 1 0 rtt0 rest
  end.

(** One probe of [latencyProber]: the round-trip time, or 999 s on a failed dial. *)
Definition store_probe (i : nat) (rtt : result Z) (pathLatency : list Z) : list Z :=
  <[i := match rtt with Ok t => t | Err _ => 999 * Second end]> pathLatency.

(** One round of probes over the paths, from path [i] on. *)
Fixpoint probe_round (i : nat) (rtts : list (result Z)) (pathLatency : list Z) : list Z :=
  match rtts with
  | [] => pathLatency
  | rtt :: rtts => probe_round (S i) rtts (store_probe i rtt pathLatency)
  end.

(** ** The worker *)

Definition maxFailsBeforeSwitch : Z := 3.

(** The variables of [poolWorker] that survive an iteration. *)
Record worker := mkWorker { pw_pathIdx : nat; pw_failCount : Z }.

(** What an iteration does besides: the level change, the counter, the wait. *)
Inductive worker_effect :=
| AdjustFrameLevel (delta : Z)
| CountReconnect
| Wait (d : Z).

(** [retryInterval] of a path. *)
Definition retry_interval (p : PathConfig) : Z :=
  pos_or (3 * Second) (wrap64 (p.(Path_RetryInterval) * Second)).

(** What starts an iteration's outcome: a warm standby session that was open and has
    ended since, or a [connectAndServe] that returned after [dur]; [best] is what
    [bestPath] says at that moment. *)
Inductive attempt_event :=
| Reused
| Served (failed : bool) (dur : Z) (best : nat).

(** One iteration of the loop of [poolWorker], the context still alive. *)
Definition worker_step (paths : list PathConfig) (s : worker) (e : attempt_event)
    : worker * list worker_effect :=
  let n := length paths in
  let retry := retry_interval (default zero_PathConfig (paths !! s.(pw_pathIdx))) in
  match e with
  | Reused => (mkWorker s.(pw_pathIdx) 0, [])
  | Served false _ _ => (mkWorker s.(pw_pathIdx) 0, [Wait retry])
  | Served true dur best =>
      let short := dur <? 30 * Second in
      let fails := if short then s.(pw_failCount) + 1 else 0 in
      let fx := if short then [AdjustFrameLevel (-1)] else [] in
      if (maxFailsBeforeSwitch <=? fails) && (1 <? n)%nat then
        let newIdx := if (best =? s.(pw_pathIdx))%nat
                      then ((s.(pw_pathIdx) + 1) mod n)%nat else best in
        (mkWorker newIdx 0,
         fx ++ if (newIdx =? 0)%nat then [Wait (10 * Second)] else [CountReconnect; Wait retry])
      else (mkWorker s.(pw_pathIdx) fails, fx ++ [CountReconnect; Wait retry])
  end.

(** A run of a worker. *)
Definition worker_run (paths : list PathConfig) (s : worker) (es : list attempt_event) : worker :=
  foldl (fun s e => (worker_step paths s e).1) s es.

(** ** One connection *)

Section WithUnicode.
Context `{UnicodeTables}.

(** The transport, timeout and address of a path. *)
Definition path_transport (cfg : Config) (p : PathConfig) : string :=
  str_or cfg.(cfg_Transport) (ToLower (TrimSpace p.(Path_Transport))).
Definition path_timeout (p : PathConfig) : Z :=
  pos_or (10 * Second) (wrap64 (p.(Path_DialTimeout) * Second)).
Definition path_dial_addr (cfg : Config) (p : PathConfig) : string :=
  let '(host, port) := parseAddr (TrimSpace p.(Path_Addr)) (path_transport cfg p) in
  JoinHostPort host port.

(** Which dialer a transport takes. *)
Inductive dialer := DialTLS | DialFrag | DialPlain.
Definition path_dialer (transport : string) : dialer :=
  if decide (transport = "httpsmux" \/ transport = "wssmux") then DialTLS
  else if decide (transport = "httpmux" \/ transport = "wsmux") then DialFrag
  else DialPlain.

(** [fragmentCfg()] *)
Definition fragmentCfg (cfg : Config) : option FragmentConfig :=
  if cfg.(cfg_Fragment).(Frag_Enabled) then Some cfg.(cfg_Fragment)
  else if decide (cfg.(cfg_Transport) = "httpsmux" \/ cfg.(cfg_Transport) = "wssmux")
       then Some DefaultFragmentConfig
       else None.

(** The server name of [dialFragmentedTLS]. *)
Definition tls_sni (m : MimicConfig) (addr : string) : string :=
  if decide (m.(Mimic_FakeDomain) = EmptyString) then
    match SplitHostPort addr with Ok (h, _) => h | Err _ => EmptyString end
  else m.(Mimic_FakeDomain).

(** What the stages of one connection return: the dial, whether the context ended
    during it, [ClientHandshake], [NewEncryptedConn], [smux.Client]; then how
    many streams were accepted before [AcceptStream] failed, and after how long. *)
Record link := mkLink {
  lk_dial : result unit;
  lk_cancelled : option error;
  lk_handshake : result unit;
  lk_encrypt : result unit;
  lk_smux : result sid;
  lk_streams : nat;
  lk_end : error;
  lk_lived : Z
}.

(** The connection a [net.Conn] variable holds: the dialled one, the one
    [ClientHandshake] wraps around it, the encrypted and the compressed one. *)
Inductive layer := LRaw | LBuffered | LEncrypted | LCompressed.

Inductive conn_event :=
| EvDial (d : dialer) (addr : string) (timeout : Z)
| EvOptions
| EvClose (l : layer)
| EvSmux (l : layer) (maxFrame : Z)
| EvAdd (sess : sid)
| EvServeStream
| EvRemove (sess : sid)
| EvCloseSession (sess : sid)
| EvAdjust (delta : Z).

(** [conn.Close()] on a variable that may be nil. *)
Definition close_conn (c : option layer) : outcome (list conn_event) :=
  match c with Some l => Done [EvClose l] | None => Panic NilDereference end.

(** [frameSizes[level]] *)
Definition frame_size (level : Z) : outcome Z :=
  match (if level <? 0 then None else frameSizes !! Z.to_nat level) with
  | Some f => Done f
  | None => Panic IndexOutOfRange
  end.

(** [NewCompressedConn] above an encrypted connection, when the settings ask for it. *)
Definition compress_layer (algo : string) : layer :=
  if decide (algo <> EmptyString /\ algo <> "none") then
    if decide (algo = "snappy") then LCompressed else LEncrypted
  else LEncrypted.

(** How a stage's error is returned: [fmt.Errorf("stage: %w", err)], or as it is. *)
Definition wrapped (stage : string) (e : error) : error :=
  Errorf (String.append stage ": %w") [ArgErr e].
Definition unwrapped (stage : string) (e : error) : error := e.

(** Handshake, encryption, compression and smux, as [connectAndServe] and
    [dialSession] both do them on the dialled connection.  When the handshake fails,
    [conn] is what [ClientHandshake] returned: nil. *)
Definition establish (wrap : string -> error -> error) (cfg : Config) (level : Z) (lk : link)
    : outcome (result sid * list conn_event) :=
  match lk.(lk_handshake) with
  | Err e => t ← close_conn None; Done (Err (wrap "handshake" e), t)
  | Ok _ =>
      match lk.(lk_encrypt) with
      | Err e => t ← close_conn (Some LBuffered); Done (Err (wrap "encrypt" e), t)
      | Ok _ =>
          let smuxConn := compress_layer cfg.(cfg_Compression) in
          frame ← frame_size level;
          let t := [EvSmux smuxConn frame] in
          match lk.(lk_smux) with
          | Err e =>
              t' ← close_conn (Some smuxConn);
              Done (Err (wrap "smux" e), t ++ t')
          | Ok sess => Done (Ok sess, t)
          end
      end
  end.

(** [connectAndServe(ctx, id, path)] at frame level [level]: its error (it returns no
    nil) and what it did. *)
Definition connectAndServe (cfg : Config) (path : PathConfig) (level : Z) (lk : link)
    : outcome (error * list conn_event) :=
  if decide (TrimSpace path.(Path_Addr) = EmptyString) then Done (Errorf "empty address" [], [])
  else
    let dial := EvDial (path_dialer (path_transport cfg path)) (path_dial_addr cfg path)
                       (path_timeout path) in
    match lk.(lk_dial) with
    | Err e => Done (wrapped "dial" e, [dial])
    | Ok _ =>
        match lk.(lk_cancelled) with
        | Some e => Done (e, [dial; EvClose LRaw])
        | None =>
            '(r, t) ← establish wrapped cfg level lk;
            match r with
            | Err e => Done (e, [dial; EvOptions] ++ t)
            | Ok sess =>
                Done (wrapped "session closed" lk.(lk_end),
                      [dial; EvOptions] ++ t ++ [EvAdd sess] ++
                      replicate lk.(lk_streams) EvServeStream ++
                      [EvRemove sess; EvCloseSession sess] ++
                      if 2 * Minute <? lk.(lk_lived) then [EvAdjust 1] else [])
            end
        end
    end.

(** [dialSession()] on the path [bestPath] chose; the caller owns the session. *)
Definition dialSession (cfg : Config) (path : PathConfig) (level : Z) (lk : link)
    : outcome (result sid * list conn_event) :=
  let dial := EvDial (path_dialer (path_transport cfg path)) (path_dial_addr cfg path)
                     (path_timeout path) in
  match lk.(lk_dial) with
  | Err e => Done (Err e, [dial])
  | Ok _ => '(r, t) ← establish unwrapped cfg level lk; Done (r, [dial; EvOptions] ++ t)
  end.
End WithUnicode.

(** ** Socket options *)

(** The dynamic types [setTCPOptions] meets: [*net.TCPConn]; [*FragmentedConn], which
    embeds a [net.Conn] and adds [Write], so has none of the methods of [hasTCP]; and a
    type of another package, which has them or not. *)
Inductive conn_kind := KTCP | KFragmented | KOther (has : bool).

Inductive sockopt :=
| SetKeepAlive (on : bool)
| SetKeepAlivePeriod (d : Z)
| SetNoDelay (on : bool)
| SetReadBuffer (bytes : Z)
| SetWriteBuffer (bytes : Z).

Definition has_hasTCP (k : conn_kind) : bool :=
  match k with KTCP => true | KFragmented => false | KOther has => has end.

Definition tcp_options (a : AdvancedConfig) : list sockopt :=
  [SetKeepAlive true; SetKeepAlivePeriod (wrap64 (a.(Adv_TCPKeepAlive) * Second));
   SetNoDelay a.(Adv_TCPNoDelay)] ++
  (if 0 <? a.(Adv_TCPReadBuffer) then [SetReadBuffer a.(Adv_TCPReadBuffer)] else []) ++
  (if 0 <? a.(Adv_TCPWriteBuffer) then [SetWriteBuffer a.(Adv_TCPWriteBuffer)] else []).

(** [setTCPOptions(conn)] *)
Definition setTCPOptions (a : AdvancedConfig) (k : conn_kind) : list sockopt :=
  match k with
  | KTCP => tcp_options a
  | _ => if has_hasTCP k then tcp_options a else []
  end.

(** The type of connection each dialer returns; [utls_has] is about [*utls.UConn]. *)
Definition dialled_kind (utls_has : bool) (cfg : Config) (d : dialer) : conn_kind :=
  match d with
  | DialPlain => KTCP
  | DialTLS => KOther utls_has
  | DialFrag =>
      match fragmentCfg cfg with
      | Some f => if f.(Frag_Enabled) then KFragmented else KTCP
      | None => KTCP
      end
  end.

(** ** Lemmas *)

(** *** [bestPath] *)

(** [b] is the first of the fastest measured paths, or 0 when none is measured. *)
Definition fastest (lat : list Z) (b : nat) : Prop :=
  (b < length lat)%nat /\
  ((b = 0%nat /\ Forall (fun r => r <= 0) lat) \/
   exists r, lat !! b = Some r /\ 0 < r /\
     forall i q, lat !! i = Some q -> 0 < q -> r <= q /\ ((i < b)%nat -> r < q)).

Lemma fastest_snoc (seen : list Z) (b : nat) (r t : Z) :
  seen !! b = Some r -> fastest seen b ->
  (0 <? t) && ((r =? 0) || (t <? r)) = false -> 0 <= r ->
  fastest (seen ++ [t]) b.
Proof.
  intros Hb [Hlt Hf] Ht Hr. split; [rewrite length_app; lia|].
  assert (Hle : t <= 0 \/ 0 < t /\ 0 < r <= t).
  { destruct (Z.ltb_spec 0 t), (Z.eqb_spec r 0), (Z.ltb_spec t r); cbn in Ht; try done; lia. }
  destruct Hf as [[-> Hall]|(r' & Hr' & Hpos & Hmin)].
  - left. split; [done|]. rewrite Forall_app, Forall_singleton. split; [done|].
    apply (Forall_lookup_1 _ _ _ _ Hall) in Hb. lia.
  - right. exists r'. assert (r' = r) as -> by congruence.
    split; [by apply lookup_app_l_Some|]. split; [done|]. intros i q Hi Hq.
    apply lookup_app_Some in Hi as [Hi|[Hge Hi]]; [by apply Hmin|].
    apply list_lookup_singleton_Some in Hi as [_ <-]. lia.
Qed.

Lemma fastest_new (seen : list Z) (b : nat) (r t : Z) :
  seen !! b = Some r -> fastest seen b -> 0 < t -> r = 0 \/ t < r ->
  fastest (seen ++ [t]) (length seen).
Proof.
  intros Hb [Hlt Hf] Ht Hr. split; [rewrite length_app; cbn; lia|]. right. exists t.
  split; [by apply list_lookup_middle|]. split; [done|]. intros i q Hi Hq.
  apply lookup_app_Some in Hi as [Hi|[Hge Hi]];
    [|apply list_lookup_singleton_Some in Hi as [Hi <-]; split; [lia|intros; lia]].
  destruct Hf as [[_ Hall]|(r' & Hr' & Hpos & Hmin)].
  - apply (Forall_lookup_1 _ _ _ _ Hall) in Hi. lia.
  - assert (r' = r) as -> by congruence. destruct (Hmin i q Hi Hq). lia.
Qed.

Lemma best_loop_fastest (seen rest : list Z) (b : nat) (r : Z) :
  Forall (fun t => 0 <= t) seen -> Forall (fun t => 0 <= t) rest ->
  seen !! b = Some r -> fastest seen b ->
  fastest (seen ++ rest) (best_loop (length seen) b r rest).
Proof.
  revert seen b r. induction rest as [|t rest IH]; intros seen b r Hs Hrest Hb Hf;
    cbn [best_loop]; [by rewrite app_nil_r|].
  apply Forall_cons in Hrest as [Ht Hrest].
  replace (seen ++ t :: rest) with ((seen ++ [t]) ++ rest) by (by rewrite <- app_assoc).
  replace (S (length seen)) with (length (seen ++ [t])) by (rewrite length_app; cbn; lia).
  assert (Hs' : Forall (fun t => 0 <= t) (seen ++ [t])) by (by apply Forall_app_2; [|constructor]).
  destruct (_ && _) eqn:E.
  - apply andb_true_iff in E as [E1 E2]. apply Z.ltb_lt in E1.
    apply IH; [done|done|by apply list_lookup_middle|].
    eapply fastest_new; [done|done|done|].
    apply orb_true_iff in E2 as [E2%Z.eqb_eq|E2%Z.ltb_lt]; [by left|by right].
  - apply IH; [done|done|by apply lookup_app_l_Some|].
    eapply fastest_snoc; [done|done|done|]. by eapply (Forall_lookup_1 _ _ _ _ Hs).
Qed.

Lemma bestPath_fastest (lat : list Z) :
  lat <> [] -> Forall (fun t => 0 <= t) lat -> fastest lat (bestPath lat).
Proof.
  destruct lat as [|t0 rest]; [done|]. intros _ [H0 Hr]%Forall_cons.
  assert (Hone : fastest [t0] 0).
  { split; [cbn; lia|]. destruct (Z.eqb_spec t0 0); [left|right].
    - split; [done|]. constructor; [lia|done].
    - exists t0. split; [done|]. split; [lia|]. intros i q Hi _.
      apply list_lookup_singleton_Some in Hi as [-> <-]. split; [lia|intros; lia]. }
  destruct rest as [|t1 rest]; [exact Hone|].
  apply (best_loop_fastest [t0] (t1 :: rest) 0 t0);
    [by apply Forall_singleton|done|done|done].
Qed.

(** A round of probes measures every path. *)
Definition probed (rtt : result Z) : Z := match rtt with Ok t => t | Err _ => 999 * Second end.

Lemma probe_round_map (seen old : list Z) (rtts : list (result Z)) :
  length rtts = length old ->
  probe_round (length seen) rtts (seen ++ old) = seen ++ map probed rtts.
Proof.
  revert seen old. induction rtts as [|r rtts IH]; intros seen [|o old] Hl; try done. cbn.
  unfold store_probe. fold (probed r).
  rewrite <- (Nat.add_0_r (length seen)), insert_app_r. cbn.
  replace (S (length seen + 0)) with (length (seen ++ [probed r])) by (rewrite length_app; cbn; lia).
  replace (seen ++ probed r :: old) with ((seen ++ [probed r]) ++ old) by (by rewrite <- app_assoc).
  rewrite IH by (cbn in Hl; lia). by rewrite <- app_assoc.
Qed.

(** *** The worker *)

Definition best_of_event (e : attempt_event) : option nat :=
  match e with Served true _ best => Some best | _ => None end.
Definition bests_in (P : nat -> Prop) (es : list attempt_event) : Prop :=
  Forall (fun e => forall b, best_of_event e = Some b -> P b) es.

(** Where one iteration leaves the worker. *)
Lemma worker_step_idx (paths : list PathConfig) (s : worker) (e : attempt_event) :
  let s' := (worker_step paths s e).1 in
  s'.(pw_pathIdx) = s.(pw_pathIdx) \/
  exists b, best_of_event e = Some b /\ (1 < length paths)%nat /\
    s'.(pw_pathIdx) = if (b =? s.(pw_pathIdx))%nat
                      then ((s.(pw_pathIdx) + 1) mod length paths)%nat else b.
Proof.
  destruct e as [|[] dur best]; cbn -[Nat.ltb]; [by left| |by left].
  destruct (_ && _) eqn:E; cbn; [right|by left]. exists best.
  apply andb_true_iff in E as [_ E%Nat.ltb_lt]. done.
Qed.

Lemma worker_step_fails (paths : list PathConfig) (s : worker) (e : attempt_event) :
  0 <= s.(pw_failCount) ->
  let s' := (worker_step paths s e).1 in
  0 <= s'.(pw_failCount) /\
  ((1 < length paths)%nat -> s'.(pw_failCount) < maxFailsBeforeSwitch).
Proof.
  unfold maxFailsBeforeSwitch.
  intros Hs. destruct e as [|[] dur best]; cbn -[Nat.ltb]; [lia| |lia].
  unfold maxFailsBeforeSwitch.
  destruct (Z.ltb_spec dur (30 * Second)); repeat case_bool; cbn; lia.
Qed.

(** A short-lived connection, with several paths. *)
Lemma worker_step_short (paths : list PathConfig) (i : nat) (fails dur : Z) (best : nat) :
  (1 < length paths)%nat -> dur < 30 * Second ->
  (worker_step paths (mkWorker i fails) (Served true dur best)).1 =
  if maxFailsBeforeSwitch <=? fails + 1
  then mkWorker (if (best =? i)%nat then ((i + 1) mod length paths)%nat else best) 0
  else mkWorker i (fails + 1).
Proof.
  intros Hn Hd. apply Z.ltb_lt in Hd. apply Nat.ltb_lt in Hn. cbn -[Nat.ltb Nat.modulo].
  rewrite Hd, Hn, andb_true_r. by destruct (maxFailsBeforeSwitch <=? fails + 1).
Qed.

Lemma next_path_ne (n i : nat) : (1 < n)%nat -> (i < n)%nat -> ((i + 1) mod n)%nat <> i.
Proof.
  intros Hn Hi. destruct (decide (i + 1 = n)%nat) as [E|].
  - rewrite E, Nat.Div0.mod_same. lia.
  - rewrite Nat.mod_small by lia. lia.
Qed.

(** *** Connections *)

Lemma frame_size_done (level : Z) : 0 <= level <= 4 -> exists f, frame_size level = Done f.
Proof.
  intros Hl. assert (level = 0 \/ level = 1 \/ level = 2 \/ level = 3 \/ level = 4)
    as [-> | [-> | [-> | [-> | ->]]]] by lia; by eexists.
Qed.

(** Does a trace close the connection that was dialled, directly, through a layer
    above it, or with the smux session that owns it? *)
Definition releases (t : list conn_event) : bool :=
  existsb (fun e => match e with EvClose _ | EvCloseSession _ => true | _ => false end) t.
Definition adds (t : list conn_event) : list sid :=
  omap (fun e => match e with EvAdd x => Some x | _ => None end) t.
Definition removes (t : list conn_event) : list sid :=
  omap (fun e => match e with EvRemove x => Some x | _ => None end) t.

Lemma releases_app (t u : list conn_event) : releases (t ++ u) = releases t || releases u.
Proof. apply existsb_app. Qed.

Lemma adds_app (t u : list conn_event) : adds (t ++ u) = adds t ++ adds u.
Proof. apply omap_app. Qed.

Lemma removes_app (t u : list conn_event) : removes (t ++ u) = removes t ++ removes u.
Proof. apply omap_app. Qed.

Lemma adds_cons (e : conn_event) (t : list conn_event) :
  adds (e :: t) = match e with EvAdd x => x :: adds t | _ => adds t end.
Proof. by destruct e. Qed.

Lemma removes_cons (e : conn_event) (t : list conn_event) :
  removes (e :: t) = match e with EvRemove x => x :: removes t | _ => removes t end.
Proof. by destruct e. Qed.

Lemma releases_cons (e : conn_event) (t : list conn_event) :
  releases (e :: t) =
  match e with EvClose _ | EvCloseSession _ => true | _ => releases t end.
Proof. by destruct e. Qed.

Create Rewrite HintDb trace.
#[local] Hint Rewrite adds_app removes_app releases_app adds_cons removes_cons releases_cons
  orb_true_r : trace.

Lemma streams_silent (n : nat) :
  adds (replicate n EvServeStream) = [] /\ removes (replicate n EvServeStream) = [].
Proof. induction n as [|n [IH1 IH2]]; [done|]. by cbn. Qed.

(** [establish] panics exactly on a failed handshake, and otherwise cleans up after
    every error. *)
Lemma establish_cases (wrap : string -> error -> error) (cfg : Config) (level : Z) (lk : link) :
  0 <= level <= 4 ->
  match lk.(lk_handshake) with
  | Err _ => establish wrap cfg level lk = Panic NilDereference
  | Ok _ => exists r t, establish wrap cfg level lk = Done (r, t) /\
      adds t = [] /\ removes t = [] /\
      match r with
      | Ok x => lk.(lk_encrypt) = Ok tt /\ lk.(lk_smux) = Ok x
      | Err _ => releases t = true
      end
  end.
Proof.
  intros Hl. unfold establish. destruct (frame_size_done level Hl) as [f Hf]. rewrite Hf.
  destruct (lk_handshake lk); [|done].
  destruct (lk_encrypt lk) as [[]|]; cbn; [|by eexists _, _].
  by destruct (lk_smux lk); eexists _, _.
Qed.

(** ** Properties *)

(** Latency routing.  After a round of [latencyProber], [bestPath] names a path, and
    when some path has answered its probe, the first of those that answered fastest: an
    unreachable path is never preferred to a reachable one. *)
Theorem latency_routing (rtts : list (result Z)) (lat : list Z) :
  rtts <> [] -> length rtts = length lat ->
  Forall (fun r => match r with Ok t => 0 < t < 999 * Second | Err _ => True end) rtts ->
  let b := bestPath (probe_round 0 rtts lat) in
  (b < length rtts)%nat /\
  forall j t, rtts !! j = Some (Ok t) ->
    exists tb, rtts !! b = Some (Ok tb) /\ tb <= t /\ ((j < b)%nat -> tb < t).
Proof.
  intros Hne Hl Hr b. subst b.
  rewrite (probe_round_map [] lat rtts Hl : probe_round 0 rtts lat = map probed rtts).
  assert (Hpos : Forall (fun t => 0 < t) (map probed rtts)).
  { apply Forall_map. eapply Forall_impl; [exact Hr|]. intros [t|e]; cbn; [lia|done]. }
  destruct (bestPath_fastest (map probed rtts)) as [Hlt Hf].
  { by destruct rtts. }
  { eapply Forall_impl; [exact Hpos|]. cbn. lia. }
  rewrite length_map in Hlt. split; [done|]. intros j t Hj.
  assert (Hj' : map probed rtts !! j = Some t) by (by rewrite list_lookup_fmap, Hj).
  assert (Ht : 0 < t < 999 * Second) by exact (Forall_lookup_1 _ _ _ _ Hr Hj).
  destruct Hf as [[_ Hall]|(r & Hb & _ & Hmin)].
  { apply (Forall_lookup_1 _ _ _ _ Hall) in Hj'. lia. }
  destruct (Hmin j t Hj' ltac:(lia)) as [Hle Hlt'].
  apply list_lookup_fmap_Some in Hb as ([tb|e] & -> & Hb); cbn in *; [|lia].
  by exists tb.
Qed.

(** A worker's path index always names a path, and with several paths the failure
    count stays below the switching threshold. *)
Theorem worker_run_in_range (paths : list PathConfig) (s : worker) (es : list attempt_event) :
  (s.(pw_pathIdx) < length paths)%nat -> 0 <= s.(pw_failCount) < maxFailsBeforeSwitch ->
  bests_in (fun b => (b < length paths)%nat) es ->
  let s' := worker_run paths s es in
  (s'.(pw_pathIdx) < length paths)%nat /\ 0 <= s'.(pw_failCount) /\
  ((1 < length paths)%nat -> s'.(pw_failCount) < maxFailsBeforeSwitch).
Proof.
  intros Hi Hf. revert s Hi Hf. unfold worker_run.
  assert (Hgen : forall s, (s.(pw_pathIdx) < length paths)%nat -> 0 <= s.(pw_failCount) ->
    ((1 < length paths)%nat -> s.(pw_failCount) < maxFailsBeforeSwitch) ->
    bests_in (fun b => (b < length paths)%nat) es ->
    let s' := foldl (fun s e => (worker_step paths s e).1) s es in
    (s'.(pw_pathIdx) < length paths)%nat /\ 0 <= s'.(pw_failCount) /\
    ((1 < length paths)%nat -> s'.(pw_failCount) < maxFailsBeforeSwitch)).
  { induction es as [|e es IH]; intros s Hi Hf Hm Hes; [done|].
    apply Forall_cons in Hes as [He Hes]. cbn.
    destruct (worker_step_fails paths s e Hf) as [Hf' Hm']. apply IH; try done.
    destruct (worker_step_idx paths s e) as [-> | (b & Hb & Hn & ->)]; [done|].
    destruct (Nat.eqb_spec b (pw_pathIdx s)); [apply Nat.mod_upper_bound; lia|by apply He]. }
  intros s Hi Hf Hes. apply Hgen; [done|lia|lia|done].
Qed.

(** Failover.  With several paths, three short-lived connections in a row make the
    worker leave its path for a different one, and start counting afresh. *)
Theorem three_failures_switch (paths : list PathConfig) (s : worker) (d1 d2 d3 : Z)
    (b1 b2 b3 : nat) :
  (1 < length paths)%nat -> (s.(pw_pathIdx) < length paths)%nat -> s.(pw_failCount) = 0 ->
  d1 < 30 * Second -> d2 < 30 * Second -> d3 < 30 * Second -> (b3 < length paths)%nat ->
  let s' := worker_run paths s [Served true d1 b1; Served true d2 b2; Served true d3 b3] in
  s'.(pw_pathIdx) <> s.(pw_pathIdx) /\ (s'.(pw_pathIdx) < length paths)%nat /\
  s'.(pw_failCount) = 0.
Proof.
  intros Hn Hi Hf H1 H2 H3 Hb s'. subst s'. destruct s as [i fails].
  cbn [pw_pathIdx pw_failCount] in *. subst fails.
  unfold worker_run. cbn [foldl]. rewrite worker_step_short by done.
  change (maxFailsBeforeSwitch <=? 0 + 1) with false. cbv iota.
  rewrite worker_step_short by done.
  change (maxFailsBeforeSwitch <=? 0 + 1 + 1) with false. cbv iota.
  rewrite worker_step_short by done.
  change (maxFailsBeforeSwitch <=? 0 + 1 + 1 + 1) with true. cbv iota.
  cbn [pw_pathIdx pw_failCount]. destruct (Nat.eqb_spec b3 i) as [->|Hne]; [|done].
  split; [by apply next_path_ne|]. split; [apply Nat.mod_upper_bound; lia|done].
Qed.

(** The failover does not cycle.  While [bestPath] keeps naming the same path [b],
    because its probe still answers although tunnels through it die, a worker only
    ever uses [b] and the path after it: with three paths or more, the others are
    never tried. *)
Theorem failover_alternates (paths : list PathConfig) (s : worker) (es : list attempt_event)
    (b : nat) :
  let next := ((b + 1) mod length paths)%nat in
  s.(pw_pathIdx) = b \/ s.(pw_pathIdx) = next ->
  bests_in (fun best => best = b) es ->
  (worker_run paths s es).(pw_pathIdx) = b \/ (worker_run paths s es).(pw_pathIdx) = next.
Proof.
  intros next. revert s. unfold worker_run.
  induction es as [|e es IH]; intros s Hs Hes; [done|].
  apply Forall_cons in Hes as [He Hes]. cbn. apply IH; [|done].
  destruct (worker_step_idx paths s e) as [-> | (b' & Hb' & _ & ->)]; [done|].
  rewrite (He b' Hb'). destruct (Nat.eqb_spec b (pw_pathIdx s)) as [<-|]; [by right|by left].
Qed.

Section WithUnicode.
Context `{UnicodeTables}.

(** C30: [connectAndServe] panics exactly when a dialled connection fails the mimicry
    handshake (it calls [Close] on the nil connection the handshake returned).
    Otherwise it returns, a connection that was dialled has been closed, and the pool
    is left as it was: it removes the session it added and no other. *)
Theorem connectAndServe_releases (cfg : Config) (path : PathConfig) (level : Z) (lk : link) :
  0 <= level <= 4 ->
  (is_done (connectAndServe cfg path level lk) = false <->
     TrimSpace path.(Path_Addr) <> EmptyString /\ is_ok lk.(lk_dial) = true /\
     lk.(lk_cancelled) = None /\ is_ok lk.(lk_handshake) = false) /\
  (forall e t, connectAndServe cfg path level lk = Done (e, t) ->
     adds t = removes t /\
     (TrimSpace path.(Path_Addr) <> EmptyString -> is_ok lk.(lk_dial) = true ->
      releases t = true)).
Proof.
  intros Hl. pose proof (establish_cases wrapped cfg level lk Hl) as He.
  unfold connectAndServe. destruct (decide (TrimSpace (Path_Addr path) = EmptyString)) as [Hblank|Ha].
  { cbn. split; [split; [done|by intros [? _]]|]. by intros e t [= <- <-]. }
  destruct (lk_dial lk) as [[]|e]; [|cbn; split; [split; [done|by intros (_ & ? & _)]|];
    by intros e' t [= <- <-]].
  destruct (lk_cancelled lk) as [e|]; [cbn; split; [split; [done|by intros (_ & _ & ? & _)]|];
    by intros e' t [= <- <-]|].
  destruct (lk_handshake lk); [|rewrite He; cbn; split; [done|by intros]].
  destruct He as (r & t & -> & Hadd & Hrem & Hr). cbn [mbind outcome_bind].
  split; [destruct r; cbn; split; [done|by intros (_ & _ & _ & ?)|done|by intros (_ & _ & _ & ?)]|].
  intros e' t'. destruct (streams_silent (lk_streams lk)) as [Sa Sr].
  destruct r as [x|e]; intros [= <- <-]; autorewrite with trace; rewrite ?Hadd, ?Hrem, ?Sa, ?Sr.
  - split; [|done]. by destruct (2 * Minute <? lk_lived lk).
  - by rewrite Hr.
Qed.

(** The buffers the aggressive profile forces never reach an [httpmux] or [wsmux]
    connection: the profile turns fragmentation on, and [setTCPOptions] sets nothing on
    a fragmented connection. *)
Theorem aggressive_buffers_lost (unmarshal : list byte -> Config -> result Config)
    (file : result (list byte)) (cfg : Config) (path : PathConfig) (utls_has : bool) :
  LoadConfig unmarshal file = Ok cfg -> cfg.(cfg_Profile) = "aggressive" ->
  path_dialer (path_transport cfg path) = DialFrag ->
  8388608 <= cfg.(cfg_Advanced).(Adv_TCPReadBuffer) /\
  setTCPOptions cfg.(cfg_Advanced)
    (dialled_kind utls_has cfg (path_dialer (path_transport cfg path))) = [].
Proof.
  intros (b & c0 & _ & _ & -> & _)%LoadConfig_inv Hp ->. revert Hp. rewrite finalize_passes.
  intros Hp.
  destruct (chosen_profile_promise _ (normalize_strings c0) eq_refl) as [Hagg _].
  destruct (Hagg Hp) as (_ & _ & _ & _ & Hread & _ & Hfrag & _). split; [exact Hread|].
  unfold dialled_kind, fragmentCfg. by rewrite !Hfrag.
Qed.
End WithUnicode.

(** ** Witnesses *)

Definition two_paths : list PathConfig :=
  [zero_PathConfig <| Path_Addr := "a" |>; zero_PathConfig <| Path_Addr := "b" |>].
Definition three_paths : list PathConfig := two_paths ++ [zero_PathConfig <| Path_Addr := "c" |>].
Definition short_failures (best n : nat) : list attempt_event :=
  replicate n (Served true Second best).

(** Two paths answer, the first one does not. *)
Definition some_rtts : list (result Z) := [Err EOF; Ok 70; Ok 30; Ok 30].

Lemma latency_routing_witness :
  bestPath (probe_round 0 some_rtts [0; 0; 0; 0]) = 2%nat /\
  exists tb, some_rtts !! 2%nat = Some (Ok tb) /\ tb <= 70.
Proof.
  assert (Hr : Forall (fun r : result Z => match r with Ok t => 0 < t < 999 * Second | Err _ => True end)
                 some_rtts) by (repeat constructor; vm_compute; reflexivity).
  split; [reflexivity|].
  destruct (latency_routing some_rtts [0; 0; 0; 0] ltac:(discriminate) eq_refl Hr) as [_ H].
  destruct (H 1%nat 70 eq_refl) as (tb & Hb & Hle & _). exists tb. split; [exact Hb|exact Hle].
Defined.

Lemma worker_run_in_range_witness :
  let s := worker_run two_paths (mkWorker 0 0) (Reused :: short_failures 0 4) in
  s = mkWorker 1 1 /\ (s.(pw_pathIdx) < 2)%nat.
Proof.
  set (es := Reused :: short_failures 0 4).
  assert (Hes : bests_in (fun b => (b < length two_paths)%nat) es).
  { unfold bests_in, es, short_failures. apply Forall_cons. split; [done|].
    apply Forall_replicate. intros b [= <-]. cbn. lia. }
  split; [reflexivity|].
  apply (worker_run_in_range two_paths (mkWorker 0 0) es); [cbn; lia|by vm_compute|exact Hes].
Defined.

Lemma three_failures_switch_witness :
  (worker_run three_paths (mkWorker 2 0) (short_failures 2 3)).(pw_pathIdx) <> 2%nat.
Proof.
  apply (three_failures_switch three_paths (mkWorker 2 0) Second Second Second 2 2 2);
    first [reflexivity | cbn; lia].
Defined.

Lemma failover_alternates_witness :
  let s := worker_run three_paths (mkWorker 0 0) (short_failures 0 30) in
  s.(pw_pathIdx) = 0%nat \/ s.(pw_pathIdx) = 1%nat.
Proof.
  apply (failover_alternates three_paths (mkWorker 0 0) (short_failures 0 30) 0); [by left|].
  unfold bests_in, short_failures. apply Forall_replicate. by intros b [= <-].
Defined.

(** A link whose handshake is answered with an error page. *)
Definition rejected_link : link :=
  mkLink (Ok tt) None (Err EOF) (Ok tt) (Ok 1%positive) 0 EOF 0.
(** A link that carries three streams for five minutes. *)
Definition good_link : link :=
  mkLink (Ok tt) None (Ok tt) (Ok tt) (Ok 1%positive) 3 EOF (5 * Minute).

Lemma connectAndServe_releases_witness :
  let path := zero_PathConfig <| Path_Addr := "h:1" |> in
  is_done (@connectAndServe ascii_tables zero_Config path 4 rejected_link) = false /\
  exists e t, @connectAndServe ascii_tables zero_Config path 4 good_link = Done (e, t) /\
    releases t = true.
Proof.
  intros path. split.
  - apply (@connectAndServe_releases ascii_tables zero_Config path 4 rejected_link); [lia|].
    split; [vm_compute; discriminate|]. by repeat split.
  - destruct (@connectAndServe_releases ascii_tables zero_Config path 4 good_link ltac:(lia))
      as [_ Hrel].
    destruct (@connectAndServe ascii_tables zero_Config path 4 good_link) as [[e t]|] eqn:E;
      [|vm_compute in E; discriminate].
    exists e, t. split; [reflexivity|].
    apply (Hrel e t eq_refl); [vm_compute; discriminate|reflexivity].
Defined.

Lemma aggressive_buffers_lost_witness :
  let path := zero_PathConfig <| Path_Transport := "httpmux" |> in
  setTCPOptions sample_Config.(cfg_Advanced)
    (dialled_kind false sample_Config
       (path_dialer (@path_transport ascii_tables sample_Config path))) = [].
Proof.
  intros path.
  apply (@aggressive_buffers_lost ascii_tables sample_file (Ok []) sample_Config path false);
    vm_compute; reflexivity.
Defined.
