(* ===== verification/Failover.v ===== *)
(** * Failover reaches the best path ([poolWorker], [latencyProber], [bestPath])

    [PoolWorker] models one iteration of the worker's loop and one round of probes; this
    file composes them: how soon a worker that keeps failing tries the path the probes
    recommend. *)

From S2P Require Import Prelude ConfigTypes PoolWorker.

Local Open Scope list_scope.
Local Open Scope Z_scope.

(** The paths that [connectAndServe] is called on in a run; a standby session needs none. *)
Fixpoint attempted (paths : list PathConfig) (s : worker) (es : list attempt_event) : list nat :=
  match es with
  | [] => []
  | e :: es =>
      match e with Served _ _ _ => [s.(pw_pathIdx)] | Reused => [] end ++
      attempted paths (worker_step paths s e).1 es
  end.

(** A connection that failed within 30 s, while the latencies were [lat]. *)
Definition short_failure (lat : list Z) (dur : Z) : attempt_event :=
  Served true dur (bestPath lat).

(** ** Lemmas *)

(** The fastest path of a complete round is the one [bestPath] names. *)
Lemma bestPath_strict (rtts : list (result Z)) (lat : list Z) (j : nat) (t : Z) :
  length rtts = length lat ->
  Forall (fun r => match r with Ok t => 0 < t < 999 * Second | Err _ => True end) rtts ->
  rtts !! j = Some (Ok t) ->
  (forall i u, rtts !! i = Some (Ok u) -> i <> j -> t < u) ->
  bestPath (probe_round 0 rtts lat) = j.
Proof.
  intros Hl Hr Hj Hmin. rewrite (probe_round_map [] lat rtts Hl : probe_round 0 rtts lat = map probed rtts).
  assert (Hpos : Forall (fun t => 0 <= t) (map probed rtts)).
  { apply Forall_map. eapply Forall_impl; [exact Hr|]. intros [x|e]; cbn; [lia|done]. }
  pose proof (Forall_lookup_1 _ _ _ _ Hr Hj) as Ht. cbn in Ht.
  destruct (bestPath_fastest (map probed rtts)) as [_ Hf]; [by destruct rtts|done|].
  assert (Hj' : map probed rtts !! j = Some t) by (by rewrite list_lookup_fmap, Hj).
  destruct Hf as [[_ Hall]|(r & Hb & Hrpos & Hbest)].
  { apply (Forall_lookup_1 _ _ _ _ Hall) in Hj'. lia. }
  destruct (Hbest j t Hj' ltac:(lia)) as [Hle _].
  apply list_lookup_fmap_Some in Hb as ([u|e] & -> & Hb); cbn in Hle; [|lia].
  destruct (decide (bestPath (map probed rtts) = j)) as [|Hne]; [done|].
  specialize (Hmin _ u Hb Hne). lia.
Qed.

(** From another path, the failures that are left before the switch lead to the best. *)
Lemma attempted_best (paths : list PathConfig) (i b : nat) (f : Z) (ds : list Z) :
  (1 < length paths)%nat -> 0 <= f < maxFailsBeforeSwitch -> Forall (fun d => d < 30 * Second) ds ->
  (4 <= length ds + Z.to_nat f)%nat ->
  b ∈ attempted paths (mkWorker i f) (map (fun d => Served true d b) ds).
Proof.
  intros Hn. revert i f. induction ds as [|d ds IH]; intros i f Hf Hds Hlen.
  { unfold maxFailsBeforeSwitch in Hf. cbn in Hlen. lia. }
  apply Forall_cons_1 in Hds as [Hd Hds].
  cbn [map attempted pw_pathIdx app]. destruct (decide (i = b)) as [->|Hne]; [left|right].
  rewrite worker_step_short by done.
  destruct (Z.leb_spec maxFailsBeforeSwitch (f + 1)) as [Hsw|Hsw].
  - rewrite (proj2 (Nat.eqb_neq b i)) by done. destruct ds as [|d' ds].
    { unfold maxFailsBeforeSwitch in *. cbn in Hlen. lia. }
    cbn. left.
  - apply IH; [lia|done|]. cbn [length] in Hlen. lia.
Qed.

(** ** Properties *)

(** C13: A worker that keeps failing gets to the path that works.  When a
    complete round of probes has found one path faster than all others that answered,
    and the worker's connections end within 30 s, then wherever it was and however
    many failures it had counted, one of its next four connections is on that path. *)
Theorem failover_reaches_best (paths : list PathConfig) (s : worker) (rtts : list (result Z))
    (lat ds : list Z) (j : nat) (t : Z) :
  (1 < length paths)%nat -> 0 <= s.(pw_failCount) < maxFailsBeforeSwitch ->
  length rtts = length lat ->
  Forall (fun r => match r with Ok t => 0 < t < 999 * Second | Err _ => True end) rtts ->
  rtts !! j = Some (Ok t) ->
  (forall i u, rtts !! i = Some (Ok u) -> i <> j -> t < u) ->
  Forall (fun d => d < 30 * Second) ds -> length ds = 4%nat ->
  j ∈ attempted paths s (map (short_failure (probe_round 0 rtts lat)) ds).
Proof.
  intros Hn Hf Hl Hr Hj Hmin Hds H4. unfold short_failure.
  rewrite (bestPath_strict rtts lat j t) by done. destruct s as [i f].
  apply attempted_best; [done|done|done|lia].
Qed.

(** ** Witnesses *)

Lemma failover_reaches_best_witness :
  attempted three_paths (mkWorker 1 0)
    (map (short_failure (probe_round 0 [Err EOF; Err EOF; Ok 40] [0; 0; 0])) [1; 2; 3; 4])
    = [1; 1; 1; 2]%nat /\
  2%nat ∈ attempted three_paths (mkWorker 1 0)
    (map (short_failure (probe_round 0 [Err EOF; Err EOF; Ok 40] [0; 0; 0])) [1; 2; 3; 4]).
Proof.
  split; [vm_compute; reflexivity|].
  apply (failover_reaches_best three_paths (mkWorker 1 0) [Err EOF; Err EOF; Ok 40] [0; 0; 0]
           [1; 2; 3; 4] 2 40).
  - cbn. lia.
  - vm_compute. split; [discriminate|reflexivity].
  - reflexivity.
  - repeat constructor; vm_compute; reflexivity.
  - reflexivity.
  - intros [|[|[|i]]] u Hi Hne; cbn in Hi; try discriminate. by destruct Hne.
  - repeat constructor; vm_compute; reflexivity.
  - reflexivity.
Defined.
