(* ===== verification/Routing.v ===== *)
(** * Latency-based routing as it runs ([NewClient], [latencyProber], [bestPath], [poolWorker])

    [PoolWorker] has [bestPath] and a round of probes as functions on the latencies.  Here
    the prober stores one latency at a time while every worker reads them one at a time,
    each access by an index into a slice that [NewClient] has made; an index out of range
    would end the process. *)

From stdpp Require Import list.
From S2P Require Import Prelude Steps ConfigTypes Config ClientPool PoolWorker.

Local Open Scope string_scope.
Local Open Scope list_scope.
Local Open Scope Z_scope.

(** ** The client *)

(** [Client], less the settings it copies from the configuration; the channel of the
    standby session has room for one. *)
Record Client := mkClient {
  c_cfg : Config;
  c_paths : list PathConfig;
  c_pool : Pool;
  c_standbyCh : option sid;
  c_frameLevel : Z;
  c_pathLatency : list Z
}.

Definition NewClient (cfg : Config) : Client :=
  let paths := client_paths cfg in
  mkClient cfg paths (mkPool [] 0) None 0 (replicate (length paths) 0).

(** ** [bestPath], one load at a time *)

Definition load (lat : list Z) (i : nat) : outcome Z :=
  match lat !! i with Some v => Done v | None => Panic IndexOutOfRange end.

(** Before the load of the first entry; in the loop. *)
Inductive scan := ScanFirst | ScanAt (i best : nat) (bestRTT : Z).

(** The next load, or the result. *)
Definition scan_step (n : nat) (lat : list Z) (s : scan) : outcome (scan + nat) :=
  match s with
  | ScanFirst =>
      if (n <=? 1)%nat then Done (inr 0%nat)
      else rtt ← load lat 0; Done (inl (ScanAt 1 0 rtt))
  | ScanAt i best bestRTT =>
      if (i <? n)%nat then
        rtt ← load lat i;
        Done (inl (if (0 <? rtt) && ((bestRTT =? 0) || (rtt <? bestRTT))
                   then ScanAt (S i) i rtt else ScanAt (S i) best bestRTT))
      else Done (inr best)
  end.

(** ** The prober *)

(** Waiting; before the probe of path [i]; returned. *)
Inductive prober := PrWait | PrNext (i : nat) | PrDone.

Definition prober_step (n : nat) (cancelled : bool) (rtt : result Z) (p : prober) (lat : list Z)
    : outcome (prober * list Z) :=
  match p with
  | PrWait => Done (if cancelled then PrDone else PrNext 0, lat)
  | PrNext i =>
      if (i <? n)%nat then
        if cancelled then Done (PrDone, lat)
        else _ ← load lat i; Done (PrNext (S i), store_probe i rtt lat)
      else Done (PrWait, lat)
  | PrDone => Done (PrDone, lat)
  end.

(** ** The workers *)

(** In the first [bestPath]; at the head of the loop; in the [bestPath] after a short
    failure. *)
Inductive routed :=
| RtFirst (s : scan)
| RtLoop (w : worker)
| RtSwitch (w : worker) (dur : Z) (s : scan).

(** Whether a failure after [dur] makes the worker look for another path. *)
Definition switches (n : nat) (w : worker) (dur : Z) : bool :=
  let fails := if dur <? 30 * Second then w.(pw_failCount) + 1 else 0 in
  (maxFailsBeforeSwitch <=? fails) && (1 <? n)%nat.

(** How an iteration ends. *)
Inductive iteration := ItReused | ItServed (failed : bool) (dur : Z).

Definition routed_step (paths : list PathConfig) (it : iteration) (lat : list Z) (r : routed)
    : outcome routed :=
  let n := length paths in
  match r with
  | RtFirst s =>
      x ← scan_step n lat s;
      Done match x with inl s => RtFirst s | inr b => RtLoop (mkWorker b 0) end
  | RtLoop w =>
      match paths !! w.(pw_pathIdx) with
      | None => Panic IndexOutOfRange
      | Some _ =>
          Done match it with
               | ItReused => RtLoop (worker_step paths w Reused).1
               | ItServed failed dur =>
                   if failed && switches n w dur then RtSwitch w dur ScanFirst
                   else RtLoop (worker_step paths w (Served failed dur 0)).1
               end
      end
  | RtSwitch w dur s =>
      x ← scan_step n lat s;
      Done match x with
           | inl s => RtSwitch w dur s
           | inr b => RtLoop (worker_step paths w (Served true dur b)).1
           end
  end.

(** ** Together *)

Record World := mkWorld {
  rt_paths : list PathConfig;
  rt_lat : list Z;
  rt_prober : prober;
  rt_workers : list routed;
  rt_cancelled : bool
}.
#[export] Instance eta_World : Eta World := fun w =>
  mkWorld w.(rt_paths) w.(rt_lat) w.(rt_prober) w.(rt_workers) w.(rt_cancelled).

Definition start (c : Client) (poolSize : nat) : World :=
  mkWorld c.(c_paths) c.(c_pathLatency) PrWait (replicate poolSize (RtFirst ScanFirst)) false.

(** A step, or a panic. *)
Inductive step (w : World) : outcome World -> Prop :=
| step_prober rtt : step w
    ('(p, lat) ← prober_step (length w.(rt_paths)) w.(rt_cancelled) rtt w.(rt_prober) w.(rt_lat);
     Done (w <| rt_prober := p |> <| rt_lat := lat |>))
| step_worker k r it : w.(rt_workers) !! k = Some r -> step w
    (r ← routed_step w.(rt_paths) it w.(rt_lat) r; Done (w <| rt_workers ::= <[k := r]> |>))
| step_cancel : step w (Done (w <| rt_cancelled := true |>)).

Definition moves (w w' : World) : Prop := step w (Done w').

(** ** Lemmas *)

(** What a scan has found so far is an index. *)
Definition scan_ok (n : nat) (s : scan) : Prop :=
  match s with ScanFirst => True | ScanAt i best _ => (0 < i)%nat /\ (best < n)%nat end.
Definition routed_ok (n : nat) (r : routed) : Prop :=
  match r with
  | RtFirst s => scan_ok n s
  | RtLoop w => (w.(pw_pathIdx) < n)%nat
  | RtSwitch w _ s => (w.(pw_pathIdx) < n)%nat /\ scan_ok n s
  end.

Record inv (n : nat) (w : World) : Prop := mkInv {
  inv_paths : length w.(rt_paths) = n;
  inv_lat : length w.(rt_lat) = n;
  inv_workers : Forall (routed_ok n) w.(rt_workers)
}.

Lemma load_ok (lat : list Z) (i : nat) : (i < length lat)%nat -> exists v, load lat i = Done v.
Proof. intros Hi. unfold load. destruct (lookup_lt_is_Some_2 lat i Hi) as [v ->]. by exists v. Qed.

Lemma scan_step_ok (n : nat) (lat : list Z) (s : scan) :
  length lat = n -> (0 < n)%nat -> scan_ok n s ->
  exists x, scan_step n lat s = Done x /\
    match x with inl s' => scan_ok n s' | inr b => (b < n)%nat end.
Proof.
  intros Hl Hn Hs. destruct s as [|i best rtt]; cbn -[Nat.ltb Nat.leb].
  - destruct (Nat.leb_spec n 1); [by exists (inr 0%nat)|].
    destruct (load_ok lat 0 ltac:(lia)) as [v ->]. cbn. eexists. split; [reflexivity|]. cbn. lia.
  - destruct Hs as [Hi Hb]. destruct (Nat.ltb_spec i n) as [Hlt|Hge]; [|by exists (inr best)].
    destruct (load_ok lat i ltac:(lia)) as [v ->]. cbn. eexists. split; [reflexivity|].
    destruct (_ && _); cbn; lia.
Qed.

Lemma worker_step_in_range (paths : list PathConfig) (w : worker) (e : attempt_event) :
  (w.(pw_pathIdx) < length paths)%nat ->
  (forall b, best_of_event e = Some b -> (b < length paths)%nat) ->
  ((worker_step paths w e).1.(pw_pathIdx) < length paths)%nat.
Proof.
  intros Hw Hb. destruct (worker_step_idx paths w e) as [-> | (b & He & Hn & ->)]; [done|].
  destruct (b =? _)%nat; [apply Nat.mod_upper_bound; lia|by apply Hb].
Qed.

Lemma routed_step_ok (paths : list PathConfig) (it : iteration) (lat : list Z) (r : routed) :
  length lat = length paths -> (0 < length paths)%nat -> routed_ok (length paths) r ->
  exists r', routed_step paths it lat r = Done r' /\ routed_ok (length paths) r'.
Proof.
  intros Hl Hn Hr. destruct r as [s|w|w dur s]; cbn -[worker_step scan_step switches] in *.
  - destruct (scan_step_ok _ lat s Hl Hn Hr) as ([s'|b] & -> & Hx); cbn;
      (eexists; split; [reflexivity|done]).
  - destruct (lookup_lt_is_Some_2 paths _ Hr) as [p ->]. eexists. split; [reflexivity|].
    destruct it as [|[] dur]; [done| |done].
    destruct (switches _ w dur); [done|].
    apply worker_step_in_range; [done|]. intros b [= <-]. lia.
  - destruct Hr as [Hw Hs].
    destruct (scan_step_ok _ lat s Hl Hn Hs) as ([s'|b] & -> & Hx); cbn -[worker_step];
      eexists; (split; [reflexivity|]); [done|].
    apply worker_step_in_range; [done|]. by intros b' [= <-].
Qed.

Lemma prober_step_ok (n : nat) (c : bool) (rtt : result Z) (p : prober) (lat : list Z) :
  length lat = n ->
  exists p' lat', prober_step n c rtt p lat = Done (p', lat') /\ length lat' = n.
Proof.
  intros Hl. destruct p as [|i|]; cbn -[Nat.ltb]; [by eexists _, _| |by eexists _, _].
  destruct (Nat.ltb_spec i n); [|by eexists _, _]. destruct c; [by eexists _, _|].
  destruct (load_ok lat i ltac:(lia)) as [v ->]. cbn. eexists _, _. split; [reflexivity|].
  unfold store_probe. by rewrite length_insert.
Qed.

(** Every step goes through, and keeps the invariant. *)
Lemma routing_step_ok (n : nat) (w : World) (o : outcome World) :
  (0 < n)%nat -> inv n w -> step w o -> exists w', o = Done w' /\ inv n w'.
Proof.
  intros Hn [Hp Hl Hw] [rtt|k r it Hk|].
  - rewrite Hp. destruct (prober_step_ok n (rt_cancelled w) rtt (rt_prober w) (rt_lat w) Hl)
      as (p & lat & -> & Hlat). cbn. by eexists.
  - subst n. destruct (routed_step_ok (rt_paths w) it (rt_lat w) r Hl Hn) as (r' & -> & Hr');
      [by eapply (Forall_lookup_1 _ _ _ _ Hw)|].
    cbn. eexists. split; [reflexivity|]. split; cbn; [done|done|]. by apply Forall_insert.
  - by eexists.
Qed.

Lemma routing_reachable_inv (c : Client) (poolSize : nat) (w : World) :
  length c.(c_pathLatency) = length c.(c_paths) -> (0 < length c.(c_paths))%nat ->
  rtc moves (start c poolSize) w -> inv (length c.(c_paths)) w.
Proof.
  intros Hl Hn Hr. apply (rtc_preserved moves (inv (length (c_paths c))) _ _) in Hr; [done| |].
  - intros x y Hx Hs. by destruct (routing_step_ok _ x _ Hn Hx Hs) as (? & [= <-] & ?).
  - split; [done|done|]. by apply Forall_replicate.
Qed.

(** *** A scan that nobody disturbs is [bestPath] *)

Fixpoint scan_run (fuel : nat) (n : nat) (lat : list Z) (s : scan) : option nat :=
  match fuel with
  | O => None
  | S fuel =>
      match scan_step n lat s with
      | Done (inl s) => scan_run fuel n lat s
      | Done (inr b) => Some b
      | Panic _ => None
      end
  end.

Lemma scan_run_loop (seen rest : list Z) (best : nat) (rtt : Z) :
  scan_run (S (length rest)) (length (seen ++ rest)) (seen ++ rest) (ScanAt (length seen) best rtt) =
  Some (best_loop (length seen) best rtt rest).
Proof.
  revert seen best rtt. induction rest as [|t rest IH]; intros seen best rtt.
  - cbn -[Nat.ltb]. by rewrite app_nil_r, Nat.ltb_irrefl.
  - cbn [length scan_run scan_step].
    rewrite (proj2 (Nat.ltb_lt _ _)) by (rewrite length_app; cbn; lia).
    unfold load. rewrite list_lookup_middle by done. cbn [mbind outcome_bind best_loop].
    specialize (IH (seen ++ [t])). rewrite <- app_assoc in IH. cbn [app] in IH.
    replace (length (seen ++ [t])) with (S (length seen)) in IH by (rewrite length_app; cbn; lia).
    destruct (_ && _); apply IH.
Qed.

Lemma scan_run_bestPath (lat : list Z) :
  scan_run (S (S (length lat))) (length lat) lat ScanFirst = Some (bestPath lat).
Proof.
  destruct lat as [|t0 [|t1 rest]]; [done|done|].
  assert (Hmono : forall k n l s b, scan_run k n l s = Some b -> scan_run (S k) n l s = Some b).
  { induction k as [|k IH]; intros n l s b Hk; [done|].
    change (scan_run (S (S k)) n l s) with (match scan_step n l s with
      | Done (inl s) => scan_run (S k) n l s | Done (inr b) => Some b | Panic _ => None end).
    cbn [scan_run] in Hk. destruct (scan_step n l s) as [[s'|b']|]; auto. }
  change (scan_run (S (S (length (t1 :: rest)))) (length ([t0] ++ t1 :: rest)) ([t0] ++ t1 :: rest)
    (ScanAt (length [t0]) 0 t0) = Some (best_loop (length [t0]) 0 t0 (t1 :: rest))).
  apply Hmono, scan_run_loop.
Qed.

(** ** Properties *)

(** C14: Routing never leaves its slices.  A client made from a configuration with at least
    one path runs its prober and any number of workers; however the prober's stores, the
    workers' loads, their failures and the cancellation interleave, no step indexes
    [c.paths] or [c.pathLatency] out of range, and every worker is on a path of the
    configuration.  A [bestPath] during which nothing is stored returns what the function
    on the whole slice does. *)
Theorem routing_in_range (cfg : Config) (poolSize : nat) (w : World) (o : outcome World) :
  client_paths cfg <> [] -> rtc moves (start (NewClient cfg) poolSize) w -> step w o ->
  (exists w', o = Done w') /\
  Forall (fun r => match r with
                   | RtLoop x | RtSwitch x _ _ => is_Some (client_paths cfg !! x.(pw_pathIdx))
                   | RtFirst _ => True
                   end) w.(rt_workers) /\
  scan_run (S (S (length w.(rt_lat)))) (length w.(rt_lat)) w.(rt_lat) ScanFirst =
    Some (bestPath w.(rt_lat)).
Proof.
  intros Hne Hr Hs.
  assert (Hn : (0 < length (client_paths cfg))%nat) by (destruct (client_paths cfg); cbn; [done|lia]).
  apply routing_reachable_inv in Hr; [|by apply length_replicate|done].
  destruct (routing_step_ok _ w o Hn Hr Hs) as (w' & -> & _).
  split; [by exists w'|]. split; [|apply scan_run_bestPath].
  destruct Hr as [_ _ Hw]. eapply Forall_impl; [exact Hw|].
  intros [s|x|x dur s]; cbn; [done|apply lookup_lt_is_Some_2|].
  intros [Hx _]. by apply lookup_lt_is_Some_2.
Qed.

(** ** Witnesses *)

(** Two paths; the worker reads the first latency before the prober stores it and the
    second one after. *)
Definition two_path_config : Config := zero_Config <| cfg_Paths := two_paths |>.

Lemma routing_in_range_witness :
  exists w, rtc moves (start (NewClient two_path_config) 1) w /\
    (exists b, w.(rt_workers) = [RtLoop (mkWorker b 0)] /\ is_Some (two_paths !! b)).
Proof.
  set (w0 := start (NewClient two_path_config) 1).
  set (w1 := mkWorld two_paths [0; 0] PrWait [RtFirst (ScanAt 1 0 0)] false).
  set (w2 := mkWorld two_paths [0; 0] (PrNext 0) [RtFirst (ScanAt 1 0 0)] false).
  set (w3 := mkWorld two_paths [70; 0] (PrNext 1) [RtFirst (ScanAt 1 0 0)] false).
  set (w4 := mkWorld two_paths [70; 30] (PrNext 2) [RtFirst (ScanAt 1 0 0)] false).
  set (w5 := mkWorld two_paths [70; 30] (PrNext 2) [RtFirst (ScanAt 2 1 30)] false).
  set (w6 := mkWorld two_paths [70; 30] (PrNext 2) [RtLoop (mkWorker 1 0)] false).
  assert (Hr : rtc moves w0 w6).
  { eapply rtc_l; [exact (step_worker w0 0 (RtFirst ScanFirst) ItReused eq_refl : moves w0 w1)|].
    eapply rtc_l; [exact (step_prober w1 (Ok 70) : moves w1 w2)|].
    eapply rtc_l; [exact (step_prober w2 (Ok 70) : moves w2 w3)|].
    eapply rtc_l; [exact (step_prober w3 (Ok 30) : moves w3 w4)|].
    eapply rtc_l; [exact (step_worker w4 0 _ ItReused eq_refl : moves w4 w5)|].
    eapply rtc_l; [exact (step_worker w5 0 _ ItReused eq_refl : moves w5 w6)|]. done. }
  exists w6. split; [exact Hr|]. exists 1%nat. split; [reflexivity|].
  destruct (routing_in_range two_path_config 1 w6 (Done (w6 <| rt_cancelled := true |>))
    ltac:(discriminate) Hr (step_cancel w6)) as (_ & Hall & _).
  exact (Forall_inv Hall).
Defined.
