(* ===== verification/TlsDial.v ===== *)
(** * TLS over a fragmented connection ([client.go], [dialFragmentedTLS])

    The uTLS library is an argument: one handshake with one server is a program of writes
    ([wprog]) that ends with the handshake's error.  What the server sends is part of the
    program; how the handshake writes, and what happens to those writes in the
    [FragmentedConn] below, is not. *)

From S2P Require Import Prelude GoStrings GoBytes NetConn ConfigTypes Config TlsFragment PoolWorker.
From Stdlib Require Import Init.Byte.

Local Open Scope string_scope.
Local Open Scope list_scope.
Local Open Scope Z_scope.

(** ** Definitions *)

(** [conn.Write(b)] on what [DialFragmented] returned. *)
Definition net_Write (b : list byte) (c : net_conn) : outcome (Z * option error * net_conn) :=
  match c with
  | PlainConn t =>
      let '(n, err, k) := sink_write b t.(tcp_sink) in
      Done (n, err, PlainConn (mkTCP k t.(tcp_nodelay_set)))
  | FragConn f nodelay =>
      '(n, err, _, f) ← FragWrite f b; Done (n, err, FragConn f nodelay)
  end.
#[export] Instance net_IoWriter : IoWriter net_conn := {| nc_Write := net_Write |}.

(** What the TCP connection below has sent. *)
Definition net_sink (c : net_conn) : sink :=
  match c with PlainConn t => t.(tcp_sink) | FragConn f _ => f.(fc_Conn) end.

(** [dialFragmentedTLS(addr, timeout)]: the connection the TLS records go to, or the
    error; and the connection [uConn.Close] closed on a failed handshake.  [utls] is the
    handshake of a [utls.UClient] with a server name and [InsecureSkipVerify]. *)
Definition dialFragmentedTLS (cfg : Config) (mimic : MimicConfig)
    (size_draw delay_draw : option Z) (raw std : result sink)
    (utls : string -> bool -> wprog (option error)) (addr : string)
    : outcome (result net_conn * option net_conn) :=
  match DialFragmented (fragmentCfg cfg) size_draw delay_draw raw std with
  | Err err => Done (Err err, None)
  | Ok rawConn =>
      '(err, conn) ← run_prog (utls (tls_sni mimic addr) cfg.(cfg_SkipTLSVerify)) rawConn;
      match err with
      | Some err => Done (Err (Errorf "tls handshake: %w" [ArgErr err]), Some conn)
      | None => Done (Ok conn, None)
      end
  end.

(** ** Lemmas *)

(** After its first write a fragmented connection takes writes as they are. *)
Lemma accepts_whole (c : FragmentedConn) (nodelay : bool) (ws : list (list byte)) :
  0 <= c.(fc_fragmentSize) -> c.(fc_Conn).(k_fail) = None -> c.(fc_firstWrite) = true ->
  accepts (FragConn c nodelay) ws
    (FragConn (c <| fc_Conn := mkSink (c.(fc_Conn).(k_writes) ++ ws) None |>) nodelay).
Proof.
  intros Hp. revert c Hp. induction ws as [|w ws IH]; intros c Hp Hk Hf.
  - rewrite app_nil_r. destruct c as [[? ?] ? ? ?]. cbn in *. subst. constructor.
  - econstructor.
    + cbn. rewrite FragWrite_ok by done. unfold fragments, splits. rewrite Hf. cbn.
      reflexivity.
    + match goal with |- accepts (FragConn ?c' _) _ _ => pose proof (IH c' Hp eq_refl eq_refl) as H end.
      cbn in H. rewrite <- app_assoc in H. destruct c. cbn in *. by subst.
Qed.

(** A fresh one splits its first write, once. *)
Lemma accepts_first (size delay : Z) (nodelay : bool) (hello : list byte) (ws : list (list byte)) :
  0 <= size ->
  accepts (FragConn (mkFC (mkSink [] None) size delay false) nodelay) (hello :: ws)
    (FragConn (mkFC (mkSink ((if size <? zlen hello
                              then [take (Z.to_nat size) hello; drop (Z.to_nat size) hello]
                              else [hello]) ++ ws) None) size delay true) nodelay).
Proof.
  intros Hp. econstructor.
  - cbn. rewrite FragWrite_ok by done. reflexivity.
  - by apply (accepts_whole (mkFC (mkSink (_ : list (list byte)) None) size delay true)).
Qed.

Lemma accepts_plain (c : tcp_conn) (ws : list (list byte)) :
  c.(tcp_sink).(k_fail) = None ->
  accepts (PlainConn c) ws
    (PlainConn (mkTCP (mkSink (c.(tcp_sink).(k_writes) ++ ws) None) c.(tcp_nodelay_set))).
Proof.
  revert c. induction ws as [|w ws IH]; intros c Hk.
  - rewrite app_nil_r. destruct c as [[? ?] ?]. cbn in *. subst. constructor.
  - econstructor.
    + cbn. rewrite sink_write_ok by done. reflexivity.
    + match goal with |- accepts (PlainConn ?c' ) _ _ => pose proof (IH c' eq_refl) as H end.
      cbn in H. by rewrite <- app_assoc in H.
Qed.

(** A handshake whose writes all succeed. *)
Lemma dialFragmentedTLS_accept (cfg : Config) (m : MimicConfig) (sd dd : option Z)
    (raw std : result sink) utls (addr : string) (c c' : net_conn) :
  DialFragmented (fragmentCfg cfg) sd dd raw std = Ok c ->
  accepts c (accept (utls (tls_sni m addr) cfg.(cfg_SkipTLSVerify))).1 c' ->
  dialFragmentedTLS cfg m sd dd raw std utls addr =
  Done (match (accept (utls (tls_sni m addr) cfg.(cfg_SkipTLSVerify))).2 with
        | Some e => (Err (Errorf "tls handshake: %w" [ArgErr e]), Some c')
        | None => (Ok c', None)
        end).
Proof.
  intros Hd Ha. unfold dialFragmentedTLS. rewrite Hd, (run_accept _ _ _ Ha). cbn.
  by destruct (accept _).2.
Qed.

Lemma fragmentCfg_enabled (cfg : Config) (f : FragmentConfig) :
  fragmentCfg cfg = Some f -> f.(Frag_Enabled) = true.
Proof.
  unfold fragmentCfg. destruct (Frag_Enabled (cfg_Fragment cfg)) eqn:E; [by intros [= <-]|].
  case_decide; by intros [= <-].
Qed.

(** ** Properties *)

(** C16: The ClientHello is cut once, and nothing else is.  With fragmentation on (also by
    default for the TLS transports), over a dialled connection that takes its writes, the
    TCP connection gets the handshake's first write as its first [s] bytes and the rest,
    [s] between the configured (or default) bounds, and whole only if it is no longer than
    [s]; then the other writes of the handshake, and the records of the connection
    returned, each as one write.  A handshake error is wrapped and closes the connection. *)
Theorem tls_hello_fragmented (cfg : Config) (m : MimicConfig) (sd dd : option Z)
    (raw std : result sink) utls (addr : string) (f : FragmentConfig)
    (hello : list byte) (flights records : list (list byte)) (res : option error) :
  fragmentCfg cfg = Some f -> small_fragment_config f ->
  raw = Ok (mkSink [] None) \/ is_ok raw = false /\ std = Ok (mkSink [] None) ->
  accept (utls (tls_sni m addr) cfg.(cfg_SkipTLSVerify)) = (hello :: flights, res) ->
  exists (s : Z) (conn conn' : net_conn),
    pos_or 64 f.(Frag_MinSize) <= s
      <= Z.max (pos_or 64 f.(Frag_MinSize)) (pos_or 191 f.(Frag_MaxSize)) /\
    dialFragmentedTLS cfg m sd dd raw std utls addr =
      Done (match res with
            | Some e => (Err (Errorf "tls handshake: %w" [ArgErr e]), Some conn)
            | None => (Ok conn, None)
            end) /\
    accepts conn records conn' /\
    k_writes (net_sink conn') =
      (if s <? zlen hello then [take (Z.to_nat s) hello; drop (Z.to_nat s) hello] else [hello])
      ++ flights ++ records.
Proof.
  intros Hf Hs Hdial Hacc.
  set (s := fragment_size f sd). pose proof (fragment_size_range f sd Hs) as [Hb Hpos].
  assert (exists nodelay, DialFragmented (fragmentCfg cfg) sd dd raw std =
            Ok (FragConn (mkFC (mkSink [] None) s (fragment_delay f dd) false) nodelay))
    as [nodelay Hd].
  { rewrite Hf. unfold DialFragmented. rewrite (fragmentCfg_enabled _ _ Hf).
    destruct Hdial as [->|[Hr ->]]; [by eexists|]. destruct raw; [done|by eexists]. }
  pose proof (accepts_first s (fragment_delay f dd) nodelay hello flights ltac:(lia)) as Ha.
  do 3 eexists. split; [exact Hb|]. split; [|split].
  - erewrite (dialFragmentedTLS_accept _ _ _ _ _ _ _ _ _ _ Hd); rewrite Hacc; [reflexivity|exact Ha].
  - apply (accepts_whole (mkFC (mkSink (_ : list (list byte)) None) s _ true)); cbn; [lia|done..].
  - cbn. by rewrite <- app_assoc.
Qed.

(** A stand-in for the library: a hello of 300 bytes, then a finished message that carries
    the server name; it fails when told to verify the server. *)
Definition toy_utls (sni : string) (skip : bool) : wprog (option error) :=
  Put (replicate 300 x16) (fun _ =>
    Put (bytes_of sni) (fun _ => Ret (if skip then None else Some (Errorf "bad certificate" [])))).

Lemma tls_hello_fragmented_witness :
  let cfg := zero_Config <| cfg_Transport := "wssmux" |> <| cfg_SkipTLSVerify := true |> in
  exists s conn,
    64 <= s <= 191 /\
    dialFragmentedTLS cfg zero_MimicConfig (Some 45) (Some 1) (Err EOF) (Ok (mkSink [] None))
      toy_utls "example.com:443" = Done (Ok conn, None) /\
    (s <? zlen (replicate 300 x16)) = true.
Proof.
  intros cfg.
  destruct (tls_hello_fragmented cfg zero_MimicConfig (Some 45) (Some 1) (Err EOF)
    (Ok (mkSink [] None)) toy_utls "example.com:443" DefaultFragmentConfig
    (replicate 300 x16) [bytes_of "example.com"] [] None)
    as (s & conn & _ & Hs & Hd & _); [reflexivity|unfold small_fragment_config; cbn; lia
    |right; split; reflexivity|reflexivity|].
  cbn in Hs. exists s, conn. split; [lia|]. split; [exact Hd|].
  apply Z.ltb_lt. change (zlen (replicate 300 x16)) with 300. lia.
Defined.

(** Without fragmentation the handshake's writes reach the TCP connection as they are. *)
Lemma tls_hello_plain (cfg : Config) (m : MimicConfig) (sd dd : option Z)
    (raw : result sink) utls (addr : string) :
  fragmentCfg cfg = None ->
  dialFragmentedTLS cfg m sd dd raw (Ok (mkSink [] None)) utls addr =
  let '(ws, res) := accept (utls (tls_sni m addr) cfg.(cfg_SkipTLSVerify)) in
  let conn := PlainConn (mkTCP (mkSink ws None) false) in
  Done (match res with
        | Some e => (Err (Errorf "tls handshake: %w" [ArgErr e]), Some conn)
        | None => (Ok conn, None)
        end).
Proof.
  intros Hf. erewrite (dialFragmentedTLS_accept _ _ _ _ _ _ _ _ (PlainConn (mkTCP (mkSink [] None) false)));
    [|by rewrite Hf|apply accepts_plain; reflexivity].
  cbn. by destruct (accept _).
Qed.
