(* ===== verification/Mimic.v ===== *)
(** * The mimicry handshake ([mimic.go], the HTTP handlers of [server.go])

    The client opens a tunnel with a request that looks like a WebSocket upgrade
    ([ClientHandshake]); the server routes it ([Server.Start]), checks it
    ([validate]) and upgrades it or answers as a web server would ([writeDecoy]).

    A request is modelled by the fields [validate] reads; that HTTP carries them
    from one side to the other is the standard library's business.  [net/url] is
    modelled on plain URLs; its behaviour on the others is the parameter
    [UrlTables]. *)

From stdpp Require Import gmap strings.
From S2P Require Import Prelude GoStrings GoBytes NetAddr ConfigTypes.
From Stdlib Require Import Ascii Init.Byte.

Local Open Scope string_scope.
Local Open Scope list_scope.
Local Open Scope Z_scope.

(** ** Characters *)

Definition char_in (lo hi : ascii) (c : ascii) : bool :=
  (Nat.leb (nat_of_ascii lo) (nat_of_ascii c) && Nat.leb (nat_of_ascii c) (nat_of_ascii hi))%bool.
Definition alnum (c : ascii) : bool :=
  char_in "a" "z" c || char_in "A" "Z" c || char_in "0" "9" c.
Definition one_of (s : string) (c : ascii) : bool := has_char c s.

(** ** Headers ([net/http], [net/textproto]) *)

Definition token_char (c : ascii) : bool := alnum c || one_of "!#$%&'*+-.^_`|~" c.
Definition ascii_upper (c : ascii) : ascii :=
  if char_in "a" "z" c then ascii_of_nat (nat_of_ascii c - 32) else c.

(** [textproto.CanonicalMIMEHeaderKey(k)]: upper case after a dash and at the start. *)
Fixpoint canonical_loop (upper : bool) (k : string) : string :=
  match k with
  | EmptyString => EmptyString
  | String c k => String (if upper then ascii_upper c else ascii_lower c)
                    (canonical_loop (Ascii.eqb c "-") k)
  end.
Definition canonical (k : string) : string :=
  if string_forallb token_char k then canonical_loop true k else k.

(** [http.Header] with one value per key, which is all [Set] makes. *)
Abbreviation Header := (gmap string string) (only parsing).
Definition Header_Set (k v : string) (h : Header) : Header := <[canonical k := v]> h.
Definition Header_Get (k : string) (h : Header) : string := default EmptyString (h !! canonical k).

(** [req.AddCookie(c)] for a value that needs no quoting. *)
Definition AddCookie (name value : string) (h : Header) : Header :=
  let s := String.append name (String.append "=" value) in
  let c := Header_Get "Cookie" h in
  Header_Set "Cookie" (if decide (c = EmptyString) then s
                       else String.append c (String.append "; " s)) h.

(** The fields of [http.Request] that the server reads. *)
Record request := mkRequest {
  r_Method : string;
  r_Host : string;
  r_Path : string;
  r_Header : Header
}.

(** ** URLs *)

Definition path_char (c : ascii) : bool := alnum c || one_of "-._~!$&'()*+,;=:@/" c.
Definition plain_path (p : string) : bool := string_forallb path_char p.
Definition host_char (c : ascii) : bool := alnum c || one_of "-." c.
Definition plain_host (h : string) : bool :=
  negb (bool_decide (h = EmptyString)) && string_forallb host_char h.

(** What [net/url] does with the URLs and paths that are not plain. *)
Class UrlTables := {
  url_parse_rest : string -> result (string * string);
  url_escape_rest : string -> string
}.

Section WithUrl.
Context `{UrlTables}.

(** Host and path of a plain [http] URL: everything up to the first slash, and the rest. *)
Definition split_authority (s : string) : string * string :=
  match cut "/" s with
  | Some (h, p) => (h, String "/" p)
  | None => (s, EmptyString)
  end.

(** [url.Parse] and the host and path [http.NewRequest] takes from it. *)
Definition url_Parse (s : string) : result (string * string) :=
  let '(h, p) := split_authority (TrimPrefix s "http://") in
  if HasPrefix s "http://" && plain_host h && plain_path p then Ok (h, p)
  else url_parse_rest s.

(** [u.String()] of the URL of [base] with its path replaced by [p]. *)
Definition url_with_path (base p : string) : string :=
  String.append base (if plain_path p then p else url_escape_rest p).

(** ** Random strings *)

Definition letters : string := "abcdefghijklmnopqrstuvwxyzABCDEFGHIJKLMNOPQRSTUVWXYZ0123456789".

(** [randAlphaNum(n)]; [rand] is what [cryptoRand.Read] fills in, [None] on an error. *)
Definition randAlphaNum (n : nat) (rand : option (list byte)) : string :=
  match rand with
  | None => String.string_of_list_ascii (repeat "x"%char n)
  | Some b =>
      String.string_of_list_ascii
        (map (fun x => default "a"%char
                         (String.get (Z.to_nat (byte_val x mod slen letters)) letters))
             (take n b))
  end.

(** [hex.EncodeToString(b)] *)
Definition hex_digit (n : Z) : ascii :=
  default "0"%char (String.get (Z.to_nat n) "0123456789abcdef").
Fixpoint hex_encode (b : list byte) : string :=
  match b with
  | [] => EmptyString
  | x :: b => String (hex_digit (byte_val x / 16)) (String (hex_digit (byte_val x mod 16)) (hex_encode b))
  end.

(** [base64.StdEncoding.EncodeToString(b)] *)
Definition base64_digit (n : Z) : ascii :=
  default "A"%char (String.get (Z.to_nat n)
    "ABCDEFGHIJKLMNOPQRSTUVWXYZabcdefghijklmnopqrstuvwxyz0123456789+/").
Fixpoint base64_encode (b : list byte) : string :=
  match b with
  | [] => EmptyString
  | [x] =>
      let v := Z.shiftl (byte_val x) 16 in
      String (base64_digit (Z.shiftr v 18)) (String (base64_digit (Z.land (Z.shiftr v 12) 63)) "==")
  | [x; y] =>
      let v := Z.shiftl (byte_val x) 16 + Z.shiftl (byte_val y) 8 in
      String (base64_digit (Z.shiftr v 18)) (String (base64_digit (Z.land (Z.shiftr v 12) 63))
        (String (base64_digit (Z.land (Z.shiftr v 6) 63)) "="))
  | x :: y :: z :: b =>
      let v := Z.shiftl (byte_val x) 16 + Z.shiftl (byte_val y) 8 + byte_val z in
      String (base64_digit (Z.shiftr v 18)) (String (base64_digit (Z.land (Z.shiftr v 12) 63))
        (String (base64_digit (Z.land (Z.shiftr v 6) 63)) (String (base64_digit (Z.land v 63))
           (base64_encode b))))
  end.

(** [generateWebSocketKey()] and [generateSessionID()]; [rand] holds the 16 bytes. *)
Definition generateWebSocketKey (rand : option (list byte)) : string :=
  match rand with Some b => base64_encode b | None => "dGhlIHNhbXBsZSBub25jZQ==" end.
Definition generateSessionID (rand : option (list byte)) : string :=
  match rand with Some b => hex_encode b | None => "0000000000000000" end.

(** The three draws of a handshake. *)
Record mimic_entropy := mkMimicEntropy {
  me_path : option (list byte);
  me_key : option (list byte);
  me_session : option (list byte)
}.

(** ** The client's request *)

(** [BuildURLWithFakePath(baseURL, fakePath)] *)
Definition BuildURLWithFakePath (baseURL fakePath : string) (rand : option (list byte))
    : result string :=
  if decide (fakePath = EmptyString) then Ok baseURL
  else
    _ ← url_Parse baseURL;
    let fp := if Contains fakePath "{rand}"
              then ReplaceAll fakePath "{rand}" (randAlphaNum 8 rand) else fakePath in
    let fp := if HasPrefix fp "/" then fp else String "/" fp in
    Ok (url_with_path baseURL fp).

(** The loop over [cfg.CustomHeaders]. *)
Definition add_custom (h : Header) (line : string) : Header :=
  match SplitN2 line ":" with
  | [k; v] => Header_Set (TrimSpace k) (TrimSpace v) h
  | _ => h
  end.

Definition mimic_domain (cfg : option MimicConfig) : string :=
  match cfg with Some m => str_or "www.google.com" m.(Mimic_FakeDomain) | None => "www.google.com" end.
Definition mimic_fake_path (cfg : option MimicConfig) : string :=
  match cfg with Some m => str_or "/" m.(Mimic_FakePath) | None => "/" end.
Definition mimic_agent (cfg : option MimicConfig) : string :=
  let ua := "Mozilla/5.0 (Windows NT 10.0; Win64; x64) AppleWebKit/537.36" in
  match cfg with Some m => str_or ua m.(Mimic_UserAgent) | None => ua end.

(** The headers [ClientHandshake] sets, in its order. *)
Definition handshake_header (cfg : option MimicConfig) (w : mimic_entropy) : Header :=
  let h := foldl (fun h kv => Header_Set kv.1 kv.2 h) ∅
    [("Host", mimic_domain cfg); ("User-Agent", mimic_agent cfg); ("Connection", "Upgrade");
     ("Upgrade", "websocket"); ("Sec-WebSocket-Key", generateWebSocketKey w.(me_key));
     ("Sec-WebSocket-Version", "13"); ("Accept", "*/*"); ("Accept-Language", "en-US,en;q=0.9")] in
  match cfg with
  | Some m =>
      let h := foldl add_custom h m.(Mimic_CustomHeaders) in
      if m.(Mimic_SessionCookie) then AddCookie "session" (generateSessionID w.(me_session)) h else h
  | None => h
  end.

(** The request of [ClientHandshake]; the error of [BuildURLWithFakePath] is dropped. *)
Definition handshake_url (cfg : option MimicConfig) (w : mimic_entropy) : string :=
  let base := String.append "http://" (mimic_domain cfg) in
  let path := mimic_fake_path cfg in
  if Contains path "{rand}" then
    match BuildURLWithFakePath base path w.(me_path) with Ok u => u | Err _ => EmptyString end
  else String.append base path.
Definition handshake_request (cfg : option MimicConfig) (w : mimic_entropy) : result request :=
  '(host, path) ← url_Parse (handshake_url cfg w);
  Ok (mkRequest "GET" host path (handshake_header cfg w)).
End WithUrl.

(** ** The server's response *)

(** [bufio.Reader.ReadLine] as [net/textproto] uses it: up to a newline, less a
    carriage return before it. *)
Definition chomp (l : string) : string :=
  match string_rev l with
  | String c r => if Ascii.eqb c "013" then string_rev r else l
  | EmptyString => l
  end.
Definition read_line (s : string) : option (string * string) :=
  match cut (String "010" EmptyString) s with
  | Some (l, rest) => Some (chomp l, rest)
  | None => None
  end.

(** The header lines up to the empty one; the fuel is the length of the text. *)
Fixpoint read_header (fuel : nat) (s : string) : option string :=
  match fuel with
  | O => None
  | S fuel =>
      match read_line s with
      | None => None
      | Some (l, rest) =>
          if decide (l = EmptyString) then Some rest
          else if has_char ":" l then read_header fuel rest else None
      end
  end.

(** Three digits. *)
Definition status_code (s : string) : option Z :=
  match s with
  | String a (String b (String c EmptyString)) =>
      if char_in "0" "9" a && char_in "0" "9" b && char_in "0" "9" c then
        Some (Z.of_nat (nat_of_ascii a - 48) * 100 + Z.of_nat (nat_of_ascii b - 48) * 10 +
              Z.of_nat (nat_of_ascii c - 48))
      else None
  | _ => None
  end.

(** [http.ReadResponse] on an HTTP/1.1 response: the status, and the text after the
    header. *)
Definition ReadResponse (s : string) : option (Z * string) :=
  match read_line s with
  | None => None
  | Some (line, rest) =>
      match SplitN2 line " " with
      | [proto; status] =>
          if decide (proto = "HTTP/1.1" \/ proto = "HTTP/1.0") then
            match status_code (hd EmptyString (SplitN2 status " ")) with
            | Some code =>
                match read_header (String.length rest) rest with
                | Some rest => Some (code, rest)
                | None => None
                end
            | None => None
            end
          else None
      | _ => None
      end
  end.

(** The second half of [ClientHandshake]: reads the response from the bytes the server
    sent, and returns what [bufferedConn.Read] then delivers.  [close_body] is what is
    left after [resp.Body.Close()]; a 101 response has no body. *)
Definition finish_handshake (close_body : string -> string) (inbound : list byte)
    : result (list byte) :=
  match ReadResponse (string_of inbound) with
  | None => Err (Errorf "malformed HTTP response" [])
  | Some (code, rest) =>
      let rest := if (100 <=? code) && (code <=? 199) then rest else close_body rest in
      if negb (code =? 101) && negb (code =? 200) then
        Err (Errorf "handshake failed: expected 101 or 200, got %d" [ArgInt code])
      else Ok (bytes_of rest)
  end.

(** [ClientHandshake(conn, cfg)]: the request goes out as [httputil.DumpRequest] renders it
    ([dump]); the result is what the returned connection reads first. *)
Definition ClientHandshake `{UrlTables} (dump : request -> result (list byte))
    (close_body : string -> string) (cfg : option MimicConfig) (w : mimic_entropy)
    (out : sink) (inbound : list byte) : result (list byte) * sink :=
  match handshake_request cfg w with
  | Err err => (Err err, out)
  | Ok req =>
      match dump req with
      | Err err => (Err err, out)
      | Ok reqDump =>
          let '(_, err, out) := sink_write reqDump out in
          match err with
          | Some err => (Err err, out)
          | None => (finish_handshake close_body inbound, out)
          end
      end
  end.

(** ** Routing ([Server.Start] and [http.ServeMux]) *)

(** [mimicPath(m)] *)
Definition mimicPath (m : option MimicConfig) : string :=
  let p := match m with Some m => str_or "/tunnel" m.(Mimic_FakePath) | None => "/tunnel" end in
  if HasPrefix p "/" then p else String "/" p.

(** [strings.Split(tunnelPath, OPEN)[0]] *)
Definition before_brace (p : string) : string := hd EmptyString (Split p "{").

Inductive handler := Tunnel | Decoy.

(** [mux.HandleFunc(pattern, h)]: panics on a pattern that is there already, or that
    has white space (what stands before it is no method).  Patterns with percent escapes,
    which are compared unescaped, are beyond this model. *)
Definition HandleFunc (pattern : string) (h : handler) (mux : list (string * handler))
    : outcome (list (string * handler)) :=
  if decide (pattern ∈ mux.*1) then Panic BadRoute
  else if has_char " " pattern || has_char "009" pattern then Panic BadRoute
  else Done (mux ++ [(pattern, h)]).

(** The routes [Start] registers. *)
Definition routes (m : option MimicConfig) : outcome (list (string * handler)) :=
  let prefix := before_brace (mimicPath m) in
  mux ← HandleFunc prefix Tunnel [];
  mux ← (if decide (prefix = "/tunnel") then Done mux else HandleFunc "/tunnel" Tunnel mux);
  HandleFunc "/" Decoy mux.

(** [path.Clean] leaves the path alone, up to a trailing slash. *)
Fixpoint clean_segments (l : list string) : bool :=
  match l with
  | [] => true
  | [s] => negb (bool_decide (s = ".")) && negb (bool_decide (s = ".."))
  | s :: l => negb (bool_decide (s = EmptyString)) && negb (bool_decide (s = ".")) &&
              negb (bool_decide (s = "..")) && clean_segments l
  end.
Definition is_clean (p : string) : bool :=
  match Split p "/" with
  | EmptyString :: ((_ :: _) as l) => clean_segments l
  | _ => false
  end.

Inductive routed := Serve (h : handler) | Redirect | NotFound.

(** The longest subtree pattern (one with a final slash) that matches [p]. *)
Definition longer (p : string) (best : option (string * handler)) (r : string * handler)
    : option (string * handler) :=
  if HasSuffix r.1 "/" && HasPrefix p r.1 then
    match best with
    | Some b => if (slen b.1 <? slen r.1) then Some r else best
    | None => Some r
    end
  else best.

(** [ServeMux.Handler] for a request path. *)
Definition dispatch (mux : list (string * handler)) (p : string) : routed :=
  if negb (is_clean p) then Redirect
  else
    match List.find (fun r => bool_decide (r.1 = p)) mux with
    | Some (_, h) => Serve h
    | None =>
        if negb (HasSuffix p "/") && bool_decide (String.append p "/" ∈ mux.*1) then Redirect
        else
          match foldl (longer p) None mux with
          | Some (_, h) => Serve h
          | None => NotFound
          end
    end.

(** ** Validation and decoys *)

Section WithUnicode.
Context `{UnicodeTables}.

(** [validate(r)] *)
Definition validate (m : option MimicConfig) (r : request) : bool * string :=
  if negb (bool_decide (r.(r_Method) = "GET")) then (false, "method")
  else
    let bad_host :=
      match m with
      | Some m =>
          let domain := m.(Mimic_FakeDomain) in
          if decide (domain = EmptyString) then false
          else
            let host := match SplitHostPort r.(r_Host) with Ok (h, _) => h | Err _ => r.(r_Host) end in
            negb (bool_decide (host = domain)) && negb (HasSuffix host (String "." domain)) &&
            negb (ParseIP host)
      | None => false
      end in
    if bad_host then (false, "host")
    else if bool_decide (Header_Get "Upgrade" r.(r_Header) = EmptyString) ||
            negb (Contains (ToLower (Header_Get "Connection" r.(r_Header))) "upgrade")
    then (false, "no upgrade")
    else
      let expected :=
        match m with
        | Some m => if decide (m.(Mimic_FakePath) = EmptyString) then "/tunnel"
                    else before_brace m.(Mimic_FakePath)
        | None => "/tunnel"
        end in
      if negb (HasPrefix r.(r_Path) expected) then (false, "path") else (true, EmptyString).

(** [buildDecoyBody(path)] at the Unix time [now], and [writeDecoy]: status and body. *)
Inductive decoy_body := DecoyJSON (ts : Z) | DecoyHTML.
Definition buildDecoyBody (now : Z) (path : string) : decoy_body :=
  if Contains path "api" || Contains path "json" then DecoyJSON now else DecoyHTML.
Definition writeDecoy (now : Z) (r : request) : Z * decoy_body :=
  (if decide (r.(r_Path) = "/" \/ r.(r_Path) = "/index.html") then 200 else 404,
   buildDecoyBody now r.(r_Path)).

(** What the server does with a request: [handleTunnel], [handleDecoy], or the mux. *)
Inductive served := Upgrade | DecoyPage (status : Z) (body : decoy_body) | MuxRedirect | MuxNotFound.
Definition handleTunnel (m : option MimicConfig) (now : Z) (r : request) : served :=
  if (validate m r).1 then Upgrade else let '(s, b) := writeDecoy now r in DecoyPage s b.
Definition handleDecoy (now : Z) (r : request) : served :=
  let '(s, b) := writeDecoy now r in DecoyPage s b.
Definition serve (m : option MimicConfig) (mux : list (string * handler)) (now : Z) (r : request)
    : served :=
  match dispatch mux r.(r_Path) with
  | Serve Tunnel => handleTunnel m now r
  | Serve Decoy => handleDecoy now r
  | Redirect => MuxRedirect
  | NotFound => MuxNotFound
  end.
End WithUnicode.

(** The status line and headers [upgrade] writes on the hijacked connection. *)
Definition CRLF : string := String "013" (String "010" EmptyString).
Definition switchResp : string :=
  String.append "HTTP/1.1 101 Switching Protocols" (String.append CRLF
    (String.append "Upgrade: websocket" (String.append CRLF
       (String.append "Connection: Upgrade" (String.append CRLF
          (String.append "Sec-WebSocket-Accept: s3pPLMBiTxaQ9kYGzzhZRbK+xOo=" (String.append CRLF
             CRLF))))))).

Example mimic_runs :
  let u := Build_UrlTables (fun _ => Err EOF) (fun p => p) in
  let m := mkMimicConfig "www.google.com" "/s/{rand}/x" "" [] true false in
  (match handshake_request (Some m) (mkMimicEntropy (Some (replicate 8 x05)) None (Some [x00; xff])) with
   | Ok r => (r.(r_Host), r.(r_Path), Header_Get "connection" r.(r_Header), Header_Get "Cookie" r.(r_Header))
   | Err _ => ("", "", "", "") end,
   match routes (Some m) with Done rs => rs | _ => [] end,
   base64_encode (bytes_of "the sample nonce"),
   finish_handshake (fun s => s) (bytes_of (String.append switchResp "rest")))
  = (("www.google.com", "/s/ffffffff/x", "Upgrade", "session=00ff"),
     [("/s/", Tunnel); ("/tunnel", Tunnel); ("/", Decoy)],
     "dGhlIHNhbXBsZSBub25jZQ==", Ok (bytes_of "rest")).
Proof. vm_compute. reflexivity. Qed.

(** ** Lemmas *)

(** *** The text before the first brace *)

Lemma before_brace_cut (p : string) :
  before_brace p = match cut "{" p with Some (a, _) => a | None => p end.
Proof. unfold before_brace. rewrite Split_cut by done. by destruct (cut "{" p) as [[]|]. Qed.

Lemma before_brace_plain (p : string) : has_char "{" p = false -> before_brace p = p.
Proof. intros Hp. rewrite before_brace_cut. by rewrite (proj2 (cut_char_none _ _) Hp). Qed.

Lemma before_brace_slash (p : string) :
  HasPrefix p "/" = true -> HasPrefix (before_brace p) "/" = true.
Proof.
  intros (b & ->)%prefix_true_iff. rewrite before_brace_cut, cut_unfold.
  change (String.prefix "{" (String.append "/" b)) with false. cbn [String.append].
  destruct (cut "{" b) as [[x y]|]; [exact (HasPrefix_app "/" x)|exact (HasPrefix_app "/" b)].
Qed.

(** Before the first brace comes a prefix of what comes before any brace. *)
Lemma before_brace_app (a b : string) :
  exists t, a = String.append (before_brace (String.append a (String "{" b))) t.
Proof.
  rewrite before_brace_cut. revert b. induction a as [|c a IH]; intros b.
  - exists EmptyString. change (String.append "" (String "{" b)) with (String.append "{" b).
    by rewrite cut_prefix.
  - cbn [String.append]. rewrite cut_unfold, prefix_cons.
    assert (String.prefix "" (String.append a (String "{" b)) = true) as ->
      by exact (prefix_app "" _).
    destruct (Ascii.eqb "{" c); cbn; [by exists (String c a)|].
    destruct (IH b) as [t Ht].
    destruct (cut "{" (String.append a (String "{" b))) as [[x y]|] eqn:E.
    + exists t. cbn. by rewrite Ht at 1.
    + exfalso. apply cut_char_none in E. rewrite has_char_app, has_char_cons in E.
      by rewrite orb_true_r in E.
Qed.

Lemma string_of_app (a b : list byte) : string_of (a ++ b) = String.append (string_of a) (string_of b).
Proof. unfold string_of. induction a as [|x a IH]; [done|].
  exact (f_equal (String (ascii_of_byte x)) IH).
Qed.

Lemma HasPrefix_iff (s p : string) : HasPrefix s p = true <-> exists r, s = String.append p r.
Proof. apply prefix_true_iff. Qed.

(** Substituting for [RAND] keeps what comes before the first brace and makes the
    path longer than that by at least the length of the substitute. *)
Lemma replaced_path (fp x : string) :
  Contains fp "{rand}" = true ->
  exists t, ReplaceAll fp "{rand}" x = String.append (before_brace fp) t /\
            (String.length x <= String.length t)%nat.
Proof.
  intros Hc. unfold ReplaceAll. rewrite Split_cut by done. unfold Contains in Hc.
  destruct (cut "{rand}" fp) as [[a b]|] eqn:E; [|done].
  apply cut_spec in E. destruct (before_brace_app a (String.append "rand}" b)) as [t Ht].
  assert (Ef : String.append a (String "{" (String.append "rand}" b)) = fp) by (by rewrite E).
  rewrite Ef in Ht. clear E Ef Hc. rewrite Ht. rewrite Split_cut by done.
  assert (Hj : exists u, Join (match cut "{rand}" b with
                | Some (a0, b0) => a0 :: Split b0 "{rand}" | None => [b] end) x = u) by eauto.
  destruct Hj as [u Hu]. destruct (cut "{rand}" b) as [[a0 b0]|]; cbn [Join] in *;
    rewrite Hu, <- ?sapp_assoc; eexists; (split; [reflexivity|]); rewrite !slength_app; lia.
Qed.

(** *** Routing *)

Lemma clean_slash (p : string) : is_clean p = true -> HasPrefix p "/" = true.
Proof.
  unfold is_clean. rewrite Split_cut by done. destruct (cut "/" p) as [[a b]|] eqn:E.
  - destruct a; [|by destruct (Split b "/")]. intros _. apply cut_spec in E. subst p.
    exact (HasPrefix_app "/" b).
  - by destruct p.
Qed.

Lemma HasSuffix_app (a b : string) : HasSuffix (String.append a b) b = true.
Proof.
  unfold HasSuffix. rewrite slength_app. apply andb_true_iff. split; [apply Nat.leb_le; lia|].
  apply bool_decide_eq_true.
  replace (String.length a + String.length b - String.length b)%nat with (String.length a) by lia.
  apply sdrop_app.
Qed.

Lemma HasPrefix_length (s p : string) :
  HasPrefix s p = true -> (String.length p <= String.length s)%nat.
Proof. intros (r & ->)%HasPrefix_iff. rewrite slength_app. lia. Qed.

(** The routes of a server, when registering them does not panic. *)
Definition good_prefix (prefix : string) : Prop :=
  prefix <> "/" /\ has_char " " prefix = false /\ has_char "009" prefix = false.

Lemma routes_done (m : option MimicConfig) :
  let prefix := before_brace (mimicPath m) in
  good_prefix prefix ->
  routes m = Done ((if decide (prefix = "/tunnel") then [] else [(prefix, Tunnel)]) ++
                   [("/tunnel", Tunnel); ("/", Decoy)]).
Proof.
  intros prefix (Hslash & Hsp & Htab). unfold routes. fold prefix.
  assert (H1 : HandleFunc prefix Tunnel [] = Done [(prefix, Tunnel)])
    by (unfold HandleFunc; cbn; by rewrite Hsp, Htab).
  rewrite H1. cbn [mbind outcome_bind].
  destruct (decide (prefix = "/tunnel")) as [->|Hne]; [done|].
  unfold HandleFunc at 2. cbn [fmap list_fmap fst].
  rewrite decide_False by (rewrite list_elem_of_singleton; congruence). cbn [mbind outcome_bind].
  change (has_char " " "/tunnel" || has_char "009" "/tunnel") with false. cbv iota.
  cbn [mbind outcome_bind]. unfold HandleFunc.
  rewrite decide_False; [done|]. cbn. rewrite !elem_of_cons, elem_of_nil. naive_solver.
Qed.

Lemma routes_panic (m : option MimicConfig) :
  ~ good_prefix (before_brace (mimicPath m)) -> routes m = Panic BadRoute.
Proof.
  intros Hbad. unfold routes. set (prefix := before_brace (mimicPath m)) in *.
  destruct (decide (prefix = "/")) as [E|Hslash].
  - rewrite E. done.
  - unfold HandleFunc at 3. cbn [fmap list_fmap].
    rewrite decide_False by (apply not_elem_of_nil).
    destruct (has_char " " prefix || has_char "009" prefix) eqn:Ews; [done|].
    exfalso. apply Hbad. by apply orb_false_iff in Ews as [??].
Qed.

(** What stands on the wire between the prefix and a request path. *)
Definition reaches_tunnel (prefix p : string) : Prop :=
  p = prefix \/ p = "/tunnel" \/ (HasSuffix prefix "/" = true /\ HasPrefix p prefix = true).

Lemma longer_tunnel (prefix p : string) :
  HasSuffix prefix "/" = true -> HasPrefix p prefix = true -> prefix <> "/" -> prefix <> "" ->
  foldl (longer p) None ([(prefix, Tunnel); ("/tunnel", Tunnel); ("/", Decoy)]) =
    Some (prefix, Tunnel).
Proof.
  intros Hs Hp Hne Hemp. cbn [foldl]. unfold longer at 3. cbn [fst]. rewrite Hs, Hp. cbn [andb].
  unfold longer at 2. cbn [fst]. change (HasSuffix "/tunnel" "/") with false. cbn [andb].
  unfold longer. cbn [fst]. destruct (_ && _); [|done].
  assert (1 <= slen prefix).
  { unfold slen. destruct prefix; [done|]. cbn. lia. }
  change (slen "/") with 1. by destruct (Z.ltb_spec (slen prefix) 1); [lia|].
Qed.

Lemma longer_decoy (p : string) (rs : list (string * handler)) :
  HasPrefix p "/" = true ->
  Forall (fun r => HasSuffix r.1 "/" && HasPrefix p r.1 = false) rs ->
  foldl (longer p) None (rs ++ [("/", Decoy)]) = Some ("/", Decoy).
Proof.
  intros Hp Hrs. rewrite foldl_app.
  assert (foldl (longer p) None rs = None) as ->.
  { induction Hrs as [|r rs Hr _ IH]; [done|]. cbn. unfold longer at 2. by rewrite Hr. }
  cbn. unfold longer. cbn [fst]. rewrite Hp. done.
Qed.

Lemma append_slash_ne (p q : string) : p <> "" -> String.append p "/" <> "/".
Proof. destruct p as [|c p]; [done|]. intros _ [= _ E]. by destruct p. Qed.

Lemma append_slash_tunnel (p : string) : String.append p "/" <> "/tunnel".
Proof.
  intros E. pose proof (HasSuffix_app p "/") as Hs. rewrite E in Hs. done.
Qed.

Definition server_mux (prefix : string) : list (string * handler) :=
  (if decide (prefix = "/tunnel") then [] else [(prefix, Tunnel)]) ++
  [("/tunnel", Tunnel); ("/", Decoy)].

(** An exact match decides. *)
Lemma server_mux_exact (prefix p : string) :
  List.find (fun r => bool_decide (r.1 = p)) (server_mux prefix) =
  if decide (p = prefix) then Some (p, Tunnel)
  else if decide (p = "/tunnel") then Some (p, Tunnel)
  else if decide (p = "/") then Some (p, Decoy) else None.
Proof.
  assert (Htail : List.find (fun r : string * handler => bool_decide (r.1 = p))
            [("/tunnel", Tunnel); ("/", Decoy)] =
          if decide (p = "/tunnel") then Some (p, Tunnel)
          else if decide (p = "/") then Some (p, Decoy) else None).
  { cbn [List.find fst]. destruct (decide (p = "/tunnel")) as [->|H1]; [done|].
    rewrite bool_decide_false by congruence.
    destruct (decide (p = "/")) as [->|H2]; [done|]. by rewrite bool_decide_false by congruence. }
  unfold server_mux. destruct (decide (prefix = "/tunnel")) as [->|Hne]; cbn [app].
  - rewrite Htail. by destruct (decide (p = "/tunnel")) as [->|].
  - change (List.find ?f (?x :: ?l)) with (if f x then Some x else List.find f l).
    cbv beta. cbn [fst]. rewrite Htail. destruct (decide (p = prefix)) as [->|Hp].
    + by rewrite bool_decide_true.
    + by rewrite bool_decide_false by congruence.
Qed.

(** Without an exact match, the prefix decides if it is a subtree; else the decoy. *)
Lemma server_mux_subtree (prefix p : string) :
  HasPrefix prefix "/" = true -> prefix <> "/" -> HasPrefix p "/" = true ->
  foldl (longer p) None (server_mux prefix) =
  if HasSuffix prefix "/" && HasPrefix p prefix then Some (prefix, Tunnel) else Some ("/", Decoy).
Proof.
  intros Hslash Hne Hp. destruct (HasSuffix prefix "/" && HasPrefix p prefix) eqn:E.
  - apply andb_true_iff in E as [Es Ep]. unfold server_mux.
    rewrite decide_False by (intros ->; done).
    apply longer_tunnel; [done|done|done|by intros ->].
  - unfold server_mux. change ([("/tunnel", Tunnel); ("/", Decoy)])
      with ([("/tunnel", Tunnel)] ++ [("/", Decoy)]). rewrite app_assoc.
    apply longer_decoy; [done|]. apply Forall_app. split; [|by constructor].
    destruct (decide _); by repeat constructor.
Qed.

Lemma dispatch_tunnel (prefix p : string) :
  HasPrefix prefix "/" = true -> prefix <> "/" -> is_clean p = true ->
  dispatch (server_mux prefix) p = Serve Tunnel <-> reaches_tunnel prefix p.
Proof.
  intros Hslash Hne Hclean. pose proof (clean_slash p Hclean) as Hp.
  unfold dispatch, reaches_tunnel. rewrite Hclean, server_mux_exact. cbn [negb].
  assert (Hlong : forall q, HasPrefix q prefix = true -> (String.length prefix <= String.length q)%nat)
    by (intros q; apply HasPrefix_length).
  destruct (decide (p = prefix)) as [->|H1]; [split; [by left|done]|].
  destruct (decide (p = "/tunnel")) as [->|H2]; [split; [by right; left|done]|].
  destruct (decide (p = "/")) as [->|H3].
  { split; [done|]. intros [?|[?|[_ Hpre]]]; [done|done|]. apply HasPrefix_iff in Hpre as [r Hr].
    apply HasPrefix_iff in Hslash as [r' ->]. cbn in Hr. injection Hr as Hr.
    by destruct r'. }
  rewrite server_mux_subtree by done.
  destruct (negb (HasSuffix p "/") && bool_decide (String.append p "/" ∈ (server_mux prefix).*1))
    eqn:Ered.
  - split; [done|]. intros [?|[?|[_ Hpre%Hlong]]]; [done|done|]. exfalso.
    apply andb_true_iff in Ered as [_ Hin]. apply bool_decide_eq_true in Hin.
    assert (p <> "") by (by intros ->).
    assert (String.append p "/" = prefix) as E.
    { unfold server_mux in Hin. destruct (decide (prefix = "/tunnel")); cbn in Hin;
        rewrite !elem_of_cons, elem_of_nil in Hin;
        pose proof (append_slash_ne p "" ltac:(done)); pose proof (append_slash_tunnel p);
        naive_solver. }
    rewrite <- E, slength_app in Hpre. cbn in Hpre. lia.
  - destruct (HasSuffix prefix "/" && HasPrefix p prefix) eqn:E; split; try done.
    + intros _. right; right. by apply andb_true_iff.
    + intros [?|[?|[Es Ep]]]; [done|done|]. by rewrite Es, Ep in E.
Qed.

(** *** The client's request *)

Lemma string_forallb_app (f : ascii -> bool) (a b : string) :
  string_forallb f (String.append a b) = string_forallb f a && string_forallb f b.
Proof. induction a as [|c a IH]; [done|]. cbn. by rewrite IH, andb_assoc. Qed.

Lemma forallb_no_char (f : ascii -> bool) (s : string) (c : ascii) :
  string_forallb f s = true -> f c = false -> has_char c s = false.
Proof.
  intros Hs Hc. induction s as [|d s IH]; [done|]. cbn in Hs.
  apply andb_true_iff in Hs as [Hd Hs]. rewrite has_char_cons, IH by done.
  destruct (Ascii.eqb_spec d c); [congruence|done].
Qed.

Lemma plain_host_no (h : string) (c : ascii) :
  plain_host h = true -> host_char c = false -> has_char c h = false.
Proof. intros [_ Hh]%andb_true_iff. by apply forallb_no_char. Qed.

Lemma plain_host_ne (h : string) : plain_host h = true -> h <> EmptyString.
Proof. by intros Hh ->. Qed.

Section Client.
Context `{UrlTables}.

Lemma url_Parse_plain (h p : string) :
  plain_host h = true -> plain_path p = true -> p = EmptyString \/ HasPrefix p "/" = true ->
  url_Parse (String.append "http://" (String.append h p)) = Ok (h, p).
Proof.
  intros Hh Hp Hslash. unfold url_Parse. rewrite HasPrefix_app, TrimPrefix_app.
  assert (split_authority (String.append h p) = (h, p)) as ->.
  { pose proof (plain_host_no h "/" Hh eq_refl) as Hno. unfold split_authority.
    destruct Hslash as [->|(r & ->)%HasPrefix_iff].
    - rewrite sapp_nil_r. by rewrite (proj2 (cut_char_none _ _) Hno).
    - change (String.append h (String.append "/" r)) with (String.append h (String "/" r)).
      by rewrite cut_char_app. }
  by rewrite Hh, Hp.
Qed.

(** The path a client with settings [m] asks for. *)
Definition client_path (m : MimicConfig) (w : mimic_entropy) : string :=
  let fp := m.(Mimic_FakePath) in
  if Contains fp "{rand}" then ReplaceAll fp "{rand}" (randAlphaNum 8 w.(me_path)) else fp.

Lemma client_path_prefix (m : MimicConfig) (w : mimic_entropy) :
  exists t, client_path m w = String.append (before_brace m.(Mimic_FakePath)) t /\
    (Contains m.(Mimic_FakePath) "{rand}" = true ->
     String.length (randAlphaNum 8 w.(me_path)) <= String.length t)%nat.
Proof.
  unfold client_path. destruct (Contains (Mimic_FakePath m) "{rand}") eqn:E.
  - destruct (replaced_path _ (randAlphaNum 8 (me_path w)) E) as (t & Ht & Hl). by exists t.
  - rewrite before_brace_cut. destruct (cut "{" (Mimic_FakePath m)) as [[a b]|] eqn:Ec.
    + exists (String.append "{" b). split; [by apply cut_spec in Ec|done].
    + exists EmptyString. by rewrite sapp_nil_r.
Qed.

Lemma HasPrefix_trans (s p q : string) :
  HasPrefix s p = true -> HasPrefix p q = true -> HasPrefix s q = true.
Proof.
  intros (r & ->)%HasPrefix_iff (r' & ->)%HasPrefix_iff. rewrite <- sapp_assoc.
  apply HasPrefix_app.
Qed.

Lemma handshake_url_plain (m : MimicConfig) (w : mimic_entropy) :
  plain_host m.(Mimic_FakeDomain) = true -> HasPrefix m.(Mimic_FakePath) "/" = true ->
  plain_path (client_path m w) = true ->
  handshake_url (Some m) w =
    String.append "http://" (String.append m.(Mimic_FakeDomain) (client_path m w)).
Proof.
  intros Hh Hslash Hp. unfold handshake_url, mimic_domain, mimic_fake_path.
  rewrite (str_or_keeps "www.google.com") by (by apply plain_host_ne).
  rewrite (str_or_keeps "/") by (intros E; by rewrite E in Hslash).
  destruct (Contains (Mimic_FakePath m) "{rand}") eqn:E;
    [|unfold client_path; by rewrite E, <- sapp_assoc].
  unfold BuildURLWithFakePath. rewrite decide_False by (intros E'; by rewrite E' in Hslash).
  pose proof (url_Parse_plain (Mimic_FakeDomain m) "" Hh eq_refl (or_introl eq_refl)) as Hu.
  rewrite sapp_nil_r in Hu. rewrite Hu. cbn [mbind result_bind]. rewrite E.
  assert (Hc : client_path m w = ReplaceAll (Mimic_FakePath m) "{rand}" (randAlphaNum 8 (me_path w)))
    by (unfold client_path; by rewrite E).
  rewrite <- Hc.
  assert (HasPrefix (client_path m w) "/" = true) as ->.
  { destruct (client_path_prefix m w) as (t & -> & _).
    eapply HasPrefix_trans; [apply HasPrefix_app|by apply before_brace_slash]. }
  unfold url_with_path. by rewrite Hp, <- sapp_assoc.
Qed.

(** Custom headers that leave the two upgrade headers alone. *)
Definition keeps_upgrade (line : string) : Prop :=
  match SplitN2 line ":" with
  | [k; _] => canonical (TrimSpace k) <> "Connection" /\ canonical (TrimSpace k) <> "Upgrade"
  | _ => True
  end.

Lemma add_custom_keeps (lines : list string) (h : Header) (k : string) :
  canonical k = "Connection" \/ canonical k = "Upgrade" -> Forall keeps_upgrade lines ->
  Header_Get k (foldl add_custom h lines) = Header_Get k h.
Proof.
  intros Hk Hl. revert h. induction Hl as [|line lines Hline _ IH]; intros h; [done|].
  cbn. rewrite IH. unfold add_custom, keeps_upgrade in *.
  destruct (SplitN2 line ":") as [|a [|b [|]]]; try done.
  unfold Header_Get, Header_Set. rewrite lookup_insert_ne; [done|].
  intros E. destruct Hline as [H1 H2], Hk as [Hk|Hk]; congruence.
Qed.

Lemma AddCookie_keeps (k name value : string) (h : Header) :
  canonical k <> "Cookie" -> Header_Get k (AddCookie name value h) = Header_Get k h.
Proof.
  intros Hk. unfold AddCookie. cbv zeta.
  match goal with |- context [Header_Set "Cookie" ?v _] => generalize v end. intros v.
  unfold Header_Get, Header_Set. rewrite lookup_insert_ne; [done|].
  change (canonical "Cookie") with "Cookie". congruence.
Qed.

Lemma handshake_header_upgrade (m : MimicConfig) (w : mimic_entropy) :
  Forall keeps_upgrade m.(Mimic_CustomHeaders) ->
  Header_Get "Connection" (handshake_header (Some m) w) = "Upgrade" /\
  Header_Get "Upgrade" (handshake_header (Some m) w) = "websocket".
Proof.
  intros Hl. unfold handshake_header.
  set (h := foldl (fun h kv => Header_Set kv.1 kv.2 h) ∅ _).
  assert (Hh : Header_Get "Connection" h = "Upgrade" /\ Header_Get "Upgrade" h = "websocket").
  { subst h. unfold Header_Get, Header_Set. cbn [foldl fst snd].
    split; repeat first [ rewrite lookup_insert_eq; reflexivity
                        | rewrite lookup_insert_ne by (vm_compute; discriminate) ]. }
  assert (Hc : forall k, canonical k = "Connection" \/ canonical k = "Upgrade" ->
    Header_Get k (if Mimic_SessionCookie m
                  then AddCookie "session" (generateSessionID (me_session w))
                         (foldl add_custom h (Mimic_CustomHeaders m))
                  else foldl add_custom h (Mimic_CustomHeaders m)) = Header_Get k h).
  { intros k Hk. destruct (Mimic_SessionCookie m); [|by apply add_custom_keeps].
    rewrite AddCookie_keeps; [by apply add_custom_keeps|].
    intros E. rewrite E in Hk. by destruct Hk. }
  destruct Hh as [H1 H2]. cbv beta zeta.
  by rewrite (Hc "Connection" (or_introl eq_refl)), (Hc "Upgrade" (or_intror eq_refl)).
Qed.
End Client.

(** *** Responses *)

Lemma read_line_app (l rest : string) :
  has_char "010" l = false -> read_line (String.append l (String "010" rest)) = Some (chomp l, rest).
Proof. intros Hl. unfold read_line. by rewrite cut_char_app. Qed.

(** A header line of the form the server writes. *)
Lemma read_header_line (fuel : nat) (l rest : string) :
  has_char "010" l = false -> chomp l <> EmptyString -> has_char ":" (chomp l) = true ->
  read_header (S fuel) (String.append l (String "010" rest)) = read_header fuel rest.
Proof.
  intros Hl Hne Hc. cbn [read_header]. rewrite read_line_app by done.
  by rewrite decide_False, Hc.
Qed.

Definition with_cr (l : string) : string := String.append l (String "013" EmptyString).

Lemma ReadResponse_switch (t : string) :
  ReadResponse (String.append switchResp t) = Some (101, t).
Proof.
  set (body := String.append (with_cr "Upgrade: websocket") (String "010"
                (String.append (with_cr "Connection: Upgrade") (String "010"
                  (String.append (with_cr "Sec-WebSocket-Accept: s3pPLMBiTxaQ9kYGzzhZRbK+xOo=")
                    (String "010" (String.append (with_cr "") (String "010" t)))))))).
  assert (E : String.append switchResp t =
              String.append (with_cr "HTTP/1.1 101 Switching Protocols") (String "010" body))
    by reflexivity.
  assert (Hfuel : exists n, String.length body = S (S (S (S n)))) by (eexists; reflexivity).
  destruct Hfuel as [n Hn].
  assert (Hh : read_header (String.length body) body = Some t).
  { rewrite Hn. unfold body. rewrite !read_header_line by (first [reflexivity|discriminate]).
    cbn [read_header]. by rewrite read_line_app. }
  rewrite E. unfold ReadResponse. rewrite read_line_app by reflexivity. rewrite Hh. reflexivity.
Qed.

#[export] Instance good_prefix_dec (prefix : string) : Decision (good_prefix prefix).
Proof. unfold good_prefix. apply _. Defined.

Lemma routes_inv (m : option MimicConfig) (mux : list (string * handler)) :
  routes m = Done mux ->
  good_prefix (before_brace (mimicPath m)) /\ mux = server_mux (before_brace (mimicPath m)).
Proof.
  intros Hmux. destruct (decide (good_prefix (before_brace (mimicPath m)))) as [Hg|Hb].
  - split; [done|]. rewrite (routes_done m Hg) in Hmux. by injection Hmux as <-.
  - by rewrite routes_panic in Hmux.
Qed.

Section Server.
Context `{UrlTables} `{UnicodeTables}.

Lemma mimicPath_slash (m : MimicConfig) :
  HasPrefix m.(Mimic_FakePath) "/" = true -> mimicPath (Some m) = m.(Mimic_FakePath).
Proof.
  intros Hs. unfold mimicPath. rewrite str_or_keeps by (intros E; by rewrite E in Hs). by rewrite Hs.
Qed.

Lemma mimicPath_has_slash (m : option MimicConfig) : HasPrefix (mimicPath m) "/" = true.
Proof.
  unfold mimicPath. destruct (HasPrefix (match m with Some _ => _ | None => _ end) "/") eqn:E;
    [done|exact (HasPrefix_app "/" _)].
Qed.

Lemma plain_path_no (p t : string) (c : ascii) :
  plain_path (String.append p t) = true -> path_char c = false -> has_char c p = false.
Proof.
  unfold plain_path. rewrite string_forallb_app. intros [Hp _]%andb_true_iff. by apply forallb_no_char.
Qed.

(** The settings under which the two ends of a tunnel agree: a host name, and a path
    that starts with a slash, needs no escaping or cleaning, is not the root, and has
    its first brace, if any, right after a slash. *)
Record agreeable (m : MimicConfig) (w : mimic_entropy) : Prop := mkAgreeable {
  ag_domain : plain_host m.(Mimic_FakeDomain) = true;
  ag_slash : HasPrefix m.(Mimic_FakePath) "/" = true;
  ag_plain : plain_path (client_path m w) = true;
  ag_clean : is_clean (client_path m w) = true;
  ag_root : before_brace m.(Mimic_FakePath) <> "/";
  ag_brace : has_char "{" m.(Mimic_FakePath) = false \/
             HasSuffix (before_brace m.(Mimic_FakePath)) "/" = true;
  ag_headers : Forall keeps_upgrade m.(Mimic_CustomHeaders)
}.

Lemma agreeable_routes (m : MimicConfig) (w : mimic_entropy) :
  agreeable m w -> routes (Some m) = Done (server_mux (before_brace m.(Mimic_FakePath))).
Proof.
  intros [Hd Hs Hp Hc Hr Hb _]. pose proof (routes_done (Some m)) as Hroutes.
  rewrite (mimicPath_slash m Hs) in Hroutes. rewrite Hroutes; [done|].
  destruct (client_path_prefix m w) as (t & Ht & _). rewrite Ht in Hp.
  split; [done|]. split; by eapply plain_path_no.
Qed.

Lemma agreeable_validates (m : MimicConfig) (w : mimic_entropy) (path : string) :
  agreeable m w -> HasPrefix path (before_brace m.(Mimic_FakePath)) = true ->
  validate (Some m)
    (mkRequest "GET" m.(Mimic_FakeDomain) path (handshake_header (Some m) w)) = (true, "").
Proof.
  intros [Hd Hs _ _ _ _ Hh] Hpath. unfold validate. cbn [r_Method r_Host r_Path r_Header negb].
  rewrite bool_decide_true by done. cbn [negb].
  destruct (decide (Mimic_FakeDomain m = "")) as [E|_]; [by rewrite E in Hd|].
  pose proof (SplitHostPort_no_colon _ (plain_host_no _ ":" Hd eq_refl)) as Hshp.
  destruct (SplitHostPort (Mimic_FakeDomain m)); [done|].
  rewrite (bool_decide_true (Mimic_FakeDomain m = _)) by done. cbn [negb andb].
  destruct (handshake_header_upgrade m w Hh) as [-> ->].
  change (bool_decide ("websocket" = "") || negb (Contains (ToLower "Upgrade") "upgrade")) with false.
  cbv iota. destruct (decide (Mimic_FakePath m = "")) as [E|_]; [by rewrite E in Hs|].
  by rewrite Hpath.
Qed.

(** ** Properties *)

(** C21: A client and a server with the same agreeable settings agree: the server's
    routes can be registered, and the request the client makes, whatever it drew, is
    routed to the tunnel handler and upgraded. *)
Theorem handshake_accepted (m : MimicConfig) (w : mimic_entropy) (now : Z) :
  agreeable m w ->
  exists r mux, handshake_request (Some m) w = Ok r /\ routes (Some m) = Done mux /\
    r.(r_Path) = client_path m w /\ serve (Some m) mux now r = Upgrade.
Proof.
  intros Hag. pose proof (agreeable_routes m w Hag) as Hr. destruct (Hag) as [Hd Hs Hp Hc Hroot Hb _].
  destruct (client_path_prefix m w) as (t & Ht & _).
  assert (Hpre : HasPrefix (client_path m w) (before_brace (Mimic_FakePath m)) = true)
    by (rewrite Ht; apply HasPrefix_app).
  assert (Hslash : HasPrefix (before_brace (Mimic_FakePath m)) "/" = true)
    by (by apply before_brace_slash).
  eexists _, _. split; [|split; [exact Hr|]].
  - unfold handshake_request. rewrite (handshake_url_plain m w) by done.
    rewrite url_Parse_plain by (first [done|by right; eapply HasPrefix_trans]).
    cbn [mbind result_bind]. reflexivity.
  - split; [done|]. unfold serve, handleTunnel. cbn [r_Path].
    rewrite (proj2 (dispatch_tunnel (before_brace (Mimic_FakePath m)) (client_path m w)
                      Hslash Hroot Hc)).
    + by rewrite (agreeable_validates m w (client_path m w) Hag Hpre).
    + destruct Hb as [Hb|Hb]; [left|by right; right].
      rewrite before_brace_plain by done. unfold client_path.
      destruct (Contains (Mimic_FakePath m) "{rand}") eqn:E; [|done].
      apply Contains_iff in E as (a & b & E). exfalso.
      rewrite E, has_char_app in Hb. cbn in Hb. by rewrite orb_true_r in Hb.
Qed.

(** Routing.  [Start] panics exactly when the text before the first brace of the path
    is the root or has white space.  Otherwise a clean path reaches the tunnel handler
    exactly when it is that prefix, or [/tunnel], or lies below a prefix that ends in a
    slash. *)
Theorem tunnel_routes (m : option MimicConfig) :
  let prefix := before_brace (mimicPath m) in
  (good_prefix prefix <-> is_done (routes m) = true) /\
  (forall mux p, routes m = Done mux -> is_clean p = true ->
     dispatch mux p = Serve Tunnel <-> reaches_tunnel prefix p).
Proof.
  intros prefix. split; [split|].
  - intros Hg. by rewrite routes_done.
  - destruct (routes m) as [mux|] eqn:E; [|done]. intros _. by apply (routes_inv m mux).
  - intros mux p [[Hne _] ->]%routes_inv Hp.
    apply dispatch_tunnel; [|done|done]. by apply before_brace_slash, mimicPath_has_slash.
Qed.

(** A [RAND] that does not start a path segment makes the tunnel unreachable: the
    request of the client whose settings the server shares is never routed to the
    tunnel handler, because the server registers the text before the brace as one
    exact path. *)
Theorem rand_inside_segment_unreachable (m : MimicConfig) (w : mimic_entropy) b
    (mux : list (string * handler)) :
  HasPrefix m.(Mimic_FakePath) "/" = true -> Contains m.(Mimic_FakePath) "{rand}" = true ->
  HasSuffix (before_brace m.(Mimic_FakePath)) "/" = false ->
  w.(me_path) = Some b -> length b = 8%nat ->
  is_clean (client_path m w) = true -> routes (Some m) = Done mux ->
  dispatch mux (client_path m w) <> Serve Tunnel.
Proof.
  intros Hs Hc Hsuf Hb Hlen Hclean [[Hroot _] ->]%routes_inv Hd.
  apply dispatch_tunnel in Hd; [|by apply before_brace_slash, mimicPath_has_slash|done|done].
  rewrite (mimicPath_slash m Hs) in *.
  destruct (client_path_prefix m w) as (t & Ht & Hlt). specialize (Hlt Hc).
  assert (Hr : String.length (randAlphaNum 8 (me_path w)) = 8%nat).
  { rewrite Hb. unfold randAlphaNum.
    do 9 (destruct b as [|? b]; try discriminate Hlen). reflexivity. }
  destruct Hd as [Hd|[Hd|[Hd _]]]; [| |congruence].
  - apply (f_equal String.length) in Hd. rewrite Ht, slength_app in Hd. lia.
  - apply (f_equal String.length) in Hd. rewrite Ht, slength_app in Hd. cbn in Hd.
    assert (0 < String.length (before_brace (Mimic_FakePath m)))%nat; [|lia].
    pose proof (before_brace_slash _ Hs) as Hb'. destruct (before_brace _); [done|cbn; lia].
Qed.

(** A fake path without a leading slash locks every client out: [mimicPath] adds the
    slash when it registers the route, but [validate] compares with the path as it
    was written, so it rejects every request. *)
Theorem slashless_path_rejects_all (m : MimicConfig) (r : request) :
  before_brace m.(Mimic_FakePath) <> EmptyString ->
  HasPrefix (before_brace m.(Mimic_FakePath)) "/" = false ->
  HasPrefix r.(r_Path) "/" = true ->
  (validate (Some m) r).1 = false.
Proof.
  intros Hne Hslash Hpath. unfold validate.
  destruct (negb (bool_decide (r_Method r = "GET"))); [done|].
  match goal with |- (if ?b then _ else _).1 = _ => destruct b end; [done|].
  destruct (_ || _); [done|]. destruct (decide (Mimic_FakePath m = "")) as [E|_].
  { by rewrite E in Hne. }
  destruct (HasPrefix (r_Path r) (before_brace (Mimic_FakePath m))) eqn:E; [|done].
  exfalso. apply HasPrefix_iff in E as [t Ht]. rewrite Ht in Hpath.
  destruct (before_brace (Mimic_FakePath m)) as [|c p]; [done|].
  apply HasPrefix_iff in Hpath as [u Hu]. cbn in Hu. injection Hu as -> _.
  by rewrite (HasPrefix_app "/" p : HasPrefix (String "/" p) "/" = true) in Hslash.
Qed.

(** What follows the server's response is what the handshake leaves to read. *)
Lemma finish_switch (close_body : string -> string) (rest : list byte) :
  finish_handshake close_body (bytes_of switchResp ++ rest) = Ok rest.
Proof.
  unfold finish_handshake. rewrite string_of_app, string_of_bytes_of.
  assert (ReadResponse (String.append switchResp (string_of rest)) = Some (101, string_of rest))
    as -> by apply ReadResponse_switch.
  change (Ok (bytes_of (string_of rest)) = Ok rest). by rewrite bytes_of_string_of.
Qed.

(** A handshake whose request goes out and is answered by [upgrade]. *)
Lemma ClientHandshake_switched `{UrlTables} (dump : request -> result (list byte))
    (close_body : string -> string) (cfg : option MimicConfig) (w : mimic_entropy)
    (r : request) (d rest : list byte) (out : sink) :
  handshake_request cfg w = Ok r -> dump r = Ok d -> out.(k_fail) = None ->
  ClientHandshake dump close_body cfg w out (bytes_of switchResp ++ rest) =
  (Ok rest, mkSink (out.(k_writes) ++ [d]) None).
Proof.
  intros Hr Hd Hk. unfold ClientHandshake. rewrite Hr, Hd, sink_write_ok by done.
  by rewrite finish_switch.
Qed.
End Server.

(** ** Witnesses *)

Definition plain_urls : UrlTables := Build_UrlTables (fun _ => Err EOF) (fun p => p).
Definition any_tables : UnicodeTables := fun s => s.
Definition rand_mimic (path : string) : MimicConfig :=
  mkMimicConfig "www.google.com" path "" ["X-Trace: 1"; "bad line"] true false.
Definition eight_bytes : mimic_entropy := mkMimicEntropy (Some (replicate 8 x05)) None None.

Lemma rand_mimic_agreeable : @agreeable (rand_mimic "/s/{rand}") eight_bytes.
Proof.
  split; try (vm_compute; reflexivity); [vm_compute; discriminate|by right|].
  repeat constructor; vm_compute; discriminate.
Qed.

Lemma handshake_accepted_witness :
  exists r mux, @handshake_request plain_urls (Some (rand_mimic "/s/{rand}")) eight_bytes = Ok r /\
    @serve any_tables (Some (rand_mimic "/s/{rand}")) mux 0 r = Upgrade.
Proof.
  destruct (@handshake_accepted plain_urls any_tables _ _ 0 rand_mimic_agreeable)
    as (r & mux & Hr & _ & _ & Hs).
  exists r, mux. split; [exact Hr|exact Hs].
Defined.

Lemma rand_inside_segment_unreachable_witness :
  let m := rand_mimic "/s{rand}" in
  client_path m eight_bytes = "/sffffffff" /\
  dispatch (server_mux "/s") (client_path m eight_bytes) <> Serve Tunnel.
Proof.
  intros m. split; [vm_compute; reflexivity|].
  apply (rand_inside_segment_unreachable m eight_bytes (replicate 8 x05) (server_mux "/s"));
    vm_compute; reflexivity.
Defined.

Lemma slashless_path_rejects_all_witness :
  let m := rand_mimic "search" in
  (@validate any_tables (Some m) (mkRequest "GET" "www.google.com" "/search"
     (handshake_header (Some m) eight_bytes))).1 = false.
Proof.
  intros m. apply (@slashless_path_rejects_all any_tables m); vm_compute;
    first [discriminate | reflexivity].
Defined.
