(* ===== verification/BufConn.v ===== *)
(** * Pooled readers ([bufferedConn] and [readerPool] of [mimic.go])

    [ClientHandshake] takes a [bufio.Reader] from a pool, attaches it to its connection
    and, if the handshake succeeds, leaves it in a [bufferedConn], whose [Close] detaches
    the reader and puts it back.  Readers are shared objects: a step relation over their
    identities shows who holds which.  None of this is under a lock, so every [Get],
    [Reset], [Put] and access to the field [r] is a step of its own; a [Read] loads the field
    first and uses the reader afterwards. *)

From stdpp Require Import gmap sets relations.
From S2P Require Import Prelude Steps.

Local Open Scope list_scope.

(** ** State *)

(** Connections and readers by identity. *)
Abbreviation cid := positive (only parsing).
Abbreviation rid := positive (only parsing).

(** A connection in [ClientHandshake]: it has got a reader, which is attached to it, or the
    handshake has failed, and the reader is detached again.  A [bufferedConn]: with its
    field [r], in the deferred function of [Close] after the test of [c.r], after the
    [Reset], after the [Put], and with the field set to nil. *)
Inductive bconn :=
| Got (r : rid) | Shaking (r : rid) | Failing (r : rid) | Emptied (r : rid)
| Open (r : rid) | Closing (r : rid) | Detached (r : rid) | Given (r : rid) | Shut.

(** The pool, the readers made so far, what each reader reads from ([None] is the empty
    [strings.Reader]), the connections, and the [Read]s that have loaded [r]. *)
Record World := mkWorld {
  bw_free : list rid;
  bw_next : rid;
  bw_src : gmap rid (option cid);
  bw_conns : gmap cid bconn;
  bw_reading : list (cid * rid)
}.
#[export] Instance eta_World : Eta World := fun w =>
  mkWorld w.(bw_free) w.(bw_next) w.(bw_src) w.(bw_conns) w.(bw_reading).

Definition init : World := mkWorld [] 1 ∅ ∅ [].

(** ** Operations *)

(** [readerPool.Get()]: some pooled reader, or a new one. *)
Definition pool_Get (choice : option nat) (w : World) : rid * World :=
  match choice ≫= fun i => w.(bw_free) !! i with
  | Some r => (r, w <| bw_free ::= fun l => match choice with
                                             | Some i => take i l ++ drop (S i) l
                                             | None => l
                                             end |>)
  | None => (w.(bw_next), w <| bw_next ::= Pos.succ |>)
  end.

(** [r.Reset(conn)], [r.Reset(strings.NewReader(EMPTY))] and [readerPool.Put(r)]. *)
Definition Reset (r : rid) (src : option cid) (w : World) : World :=
  w <| bw_src ::= <[r := src]> |>.
Definition pool_Put (r : rid) (w : World) : World := w <| bw_free ::= cons r |>.

Definition set_conn (c : cid) (b : bconn) (w : World) : World := w <| bw_conns ::= <[c := b]> |>.

(** [ClientHandshake(conn)] from [readerPool.Get()] ... *)
Definition handshake_start (c : cid) (choice : option nat) (w : World) : World :=
  let '(r, w) := pool_Get choice w in set_conn c (Got r) w.

(** ... over the [Reset], the response, whose failure is followed by another [Reset] ... *)
Definition handshake_step (c : cid) (ok : bool) (w : World) : World :=
  match w.(bw_conns) !! c with
  | Some (Got r) => set_conn c (Shaking r) (Reset r (Some c) w)
  | Some (Shaking r) => set_conn c (if ok then Open r else Failing r) w
  | Some (Failing r) => set_conn c (Emptied r) (Reset r None w)
  (* ... and a [Put], to its return *)
  | Some (Emptied r) => pool_Put r w <| bw_conns ::= delete c |>
  | _ => w
  end.

(** The field [c.r]. *)
Definition field (b : bconn) : option rid :=
  match b with Open r | Closing r | Detached r | Given r => Some r | _ => None end.

(** [bufferedConn.Read(p)]: the load of [c.r], which a nil reader's method panics on, and
    the read itself: whose bytes it returns. *)
Definition Read_load (c : cid) (w : World) : outcome World :=
  match w.(bw_conns) !! c with
  | Some Shut => Panic NilDereference
  | Some b =>
      match field b with
      | Some r => Done (w <| bw_reading ::= cons (c, r) |>)
      | None => Done w
      end
  | None => Done w
  end.
Definition Read_source (r : rid) (w : World) : option cid := default None (w.(bw_src) !! r).

(** [bufferedConn.Close()]: its deferred function, an action at a time. *)
Definition Close_step (c : cid) (w : World) : World :=
  match w.(bw_conns) !! c with
  | Some (Open r) => set_conn c (Closing r) w                    (* if c.r != nil *)
  | Some (Closing r) => set_conn c (Detached r) (Reset r None w) (* c.r.Reset(...) *)
  | Some (Detached r) => set_conn c (Given r) (pool_Put r w)     (* readerPool.Put(c.r) *)
  | Some (Given r) => set_conn c Shut w                          (* c.r = nil *)
  | _ => w
  end.

(** One step of any goroutine.  A connection is handshaken once, and smux closes it once, so
    no two [Close]s of a connection overlap.  A [sync.Pool] may drop what is in it. *)
Inductive step : World -> World -> Prop :=
| step_start w c choice : w.(bw_conns) !! c = None -> step w (handshake_start c choice w)
| step_shake w c ok : step w (handshake_step c ok w)
| step_load w w' c : Read_load c w = Done w' -> step w w'
| step_read w p1 p2 c r :
    w.(bw_reading) = p1 ++ (c, r) :: p2 -> step w (w <| bw_reading := p1 ++ p2 |>)
| step_close w c : step w (Close_step c w)
| step_drop w p1 p2 r : w.(bw_free) = p1 ++ r :: p2 -> step w (w <| bw_free := p1 ++ p2 |>).

Definition reachable (w : World) : Prop := rtc step init w.

(** ** Ownership *)

(** The reader a connection is responsible for, and whether it is attached to it. *)
Definition owned (b : bconn) : option rid :=
  match b with
  | Got r | Shaking r | Failing r | Emptied r | Open r | Closing r | Detached r => Some r
  | Given _ | Shut => None
  end.
Definition attached (b : bconn) : bool :=
  match b with Shaking _ | Failing _ | Open _ | Closing _ => true | _ => false end.

(** [c] is responsible for [r]. *)
Definition holds (w : World) (c : cid) (r : rid) : Prop :=
  exists b, w.(bw_conns) !! c = Some b /\ owned b = Some r.

Record inv (w : World) : Prop := mkInv {
  inv_free : NoDup w.(bw_free);
  inv_idle : forall r, r ∈ w.(bw_free) -> Read_source r w = None /\ forall c, ~ holds w c r;
  inv_uniq : forall c1 c2 r, holds w c1 r -> holds w c2 r -> c1 = c2;
  inv_own : forall c b r, w.(bw_conns) !! c = Some b -> owned b = Some r ->
    Read_source r w = if attached b then Some c else None;
  inv_made : forall r, r ∈ w.(bw_free) \/ (exists c, holds w c r) -> (r < w.(bw_next))%positive
}.

(** Readers not yet made read from nothing. *)
Definition inv_new (w : World) : Prop :=
  forall r, (w.(bw_next) <= r)%positive -> Read_source r w = None.

(** ** Lemmas *)

Lemma Read_source_Reset (w : World) (r r' : rid) (src : option cid) :
  Read_source r' (Reset r src w) = if decide (r' = r) then src else Read_source r' w.
Proof.
  unfold Read_source. cbn. case_decide as E; [subst; by rewrite lookup_insert_eq|].
  by rewrite lookup_insert_ne.
Qed.

(** What [Get] hands out: a detached reader that nobody holds, and that is not in the pool
    any more. *)
Lemma pool_Get_spec (choice : option nat) (w w1 : World) (r : rid) :
  inv w -> inv_new w -> pool_Get choice w = (r, w1) ->
  w1.(bw_conns) = w.(bw_conns) /\ w1.(bw_src) = w.(bw_src) /\ w1.(bw_reading) = w.(bw_reading) /\
  NoDup w1.(bw_free) /\ r ∉ w1.(bw_free) /\ (forall x, x ∈ w1.(bw_free) -> x ∈ w.(bw_free)) /\
  (forall c, ~ holds w c r) /\ Read_source r w = None /\ (r < w1.(bw_next))%positive /\
  (w.(bw_next) <= w1.(bw_next))%positive.
Proof.
  intros Hw Hnew. unfold pool_Get. destruct (choice ≫= _) as [x|] eqn:E; intros [= <- <-]; cbn.
  - destruct choice as [i|]; [|done]. cbn in E.
    pose proof (inv_free _ Hw) as Hnd. rewrite <- (take_drop_middle _ _ _ E) in Hnd.
    apply NoDup_app in Hnd as (H1 & H12 & [H2 H3]%NoDup_cons).
    assert (Hin : x ∈ bw_free w) by by eapply list_elem_of_lookup_2.
    destruct (inv_idle _ Hw x Hin) as [Hsrc Hheld].
    do 3 (split; [done|]). split; [|split; [|split; [|do 2 (split; [done|]); split]]].
    + apply NoDup_app. split; [done|]. split; [|done]. intros y Hy. apply H12 in Hy.
      by apply not_elem_of_cons in Hy as [_ Hy].
    + rewrite elem_of_app. intros [Hx|Hx]; [|done]. apply H12 in Hx.
      apply Hx. by left.
    + intros y. rewrite elem_of_app. rewrite <- (take_drop_middle _ _ _ E) at 3.
      rewrite elem_of_app, elem_of_cons. intros [?|?]; auto.
    + apply (inv_made _ Hw). by left.
    + lia.
  - do 3 (split; [done|]). split; [apply (inv_free _ Hw)|].
    assert (Hlt : ~ (bw_next w < bw_next w)%positive) by lia.
    split; [intros Hx; apply Hlt, (inv_made _ Hw); by left|]. split; [done|].
    split; [intros c Hc; apply Hlt, (inv_made _ Hw); right; by exists c|].
    split; [apply Hnew; lia|]. lia.
Qed.

(** Who holds what after a connection has changed. *)
Lemma holds_set (w w' : World) (c : cid) (b : bconn) (c' : cid) (r : rid) :
  w'.(bw_conns) = <[c := b]> w.(bw_conns) -> holds w' c' r ->
  (c' = c /\ owned b = Some r) \/ (c' <> c /\ holds w c' r).
Proof.
  intros E (b' & Hb & Ho). rewrite E in Hb. destruct (decide (c' = c)) as [->|Hne].
  - rewrite lookup_insert_eq in Hb. injection Hb as <-. by left.
  - rewrite lookup_insert_ne in Hb by done. right. split; [done|]. by exists b'.
Qed.

(** A connection takes or keeps its reader. *)
Lemma keep_inv (w w' : World) (c : cid) (b : bconn) (r : rid) :
  inv w -> w'.(bw_conns) = <[c := b]> w.(bw_conns) -> owned b = Some r ->
  (forall c', holds w c' r -> c' = c) -> r ∉ w'.(bw_free) ->
  NoDup w'.(bw_free) -> (forall x, x ∈ w'.(bw_free) -> x ∈ w.(bw_free)) ->
  (w.(bw_next) <= w'.(bw_next))%positive -> (r < w'.(bw_next))%positive ->
  (forall x, Read_source x w' =
     if decide (x = r) then if attached b then Some c else None else Read_source x w) ->
  inv w'.
Proof.
  intros Hw Ec Hb Hr Hfree Hnd Hsub Hle Hlt Hsrc. split.
  - done.
  - intros x Hx. rewrite Hsrc, decide_False by (intros ->; done).
    destruct (inv_idle _ Hw x (Hsub x Hx)) as [Hi Hn]. split; [done|].
    intros c' [[-> Ho]|[_ Hh]]%(holds_set w w' c b _ _ Ec); [congruence|by eapply Hn].
  - intros c1 c2 x [[-> O1]|[N1 H1]]%(holds_set w w' c b _ _ Ec)
      [[-> O2]|[N2 H2]]%(holds_set w w' c b _ _ Ec); [done|..].
    + assert (x = r) as -> by congruence. by apply Hr in H2.
    + assert (x = r) as -> by congruence. by apply Hr in H1.
    + by eapply (inv_uniq _ Hw).
  - intros c' b' x Hc' Ho. rewrite Hsrc. rewrite Ec in Hc'. destruct (decide (c' = c)) as [->|Hne].
    + rewrite lookup_insert_eq in Hc'. injection Hc' as <-. by rewrite decide_True by congruence.
    + rewrite lookup_insert_ne in Hc' by done.
      rewrite decide_False; [by apply (inv_own _ Hw)|]. intros ->. apply Hne, Hr. by exists b'.
  - intros x [Hx|[c' [[-> Ho]|[_ Hh]]%(holds_set w w' c b _ _ Ec)]].
    + pose proof (inv_made _ Hw x (or_introl (Hsub x Hx))). lia.
    + congruence.
    + pose proof (inv_made _ Hw x (or_intror (ex_intro _ c' Hh))). lia.
Qed.

(** A connection gives its detached reader back: [Close], and a handshake that fails. *)
Lemma give_back_inv (w w' : World) (c : cid) (b : bconn) (r : rid) :
  inv w -> w.(bw_conns) !! c = Some b -> owned b = Some r -> attached b = false ->
  w'.(bw_free) = r :: w.(bw_free) -> w'.(bw_next) = w.(bw_next) -> w'.(bw_src) = w.(bw_src) ->
  (forall c' b' x, w'.(bw_conns) !! c' = Some b' -> owned b' = Some x ->
     c' <> c /\ w.(bw_conns) !! c' = Some b') -> inv w'.
Proof.
  intros Hw Hb Ho Ha Hfree Hnext Hsrc Hold.
  assert (Hh : holds w c r) by by exists b.
  assert (Hr : r ∉ w.(bw_free)) by (intros [_ Hn]%(inv_idle _ Hw); by eapply Hn).
  assert (Hold' : forall c' x, holds w' c' x -> c' <> c /\ holds w c' x).
  { intros c' x (b' & Hb' & Ho'). destruct (Hold c' b' x Hb' Ho'). split; [done|]. by exists b'. }
  assert (Hs : forall x, Read_source x w' = Read_source x w) by (intros; unfold Read_source; by rewrite Hsrc).
  split; rewrite ?Hfree.
  - constructor; [done|apply (inv_free _ Hw)].
  - intros x Hx. rewrite Hs. apply elem_of_cons in Hx as [->|Hx].
    + split; [rewrite (inv_own _ Hw c b r Hb Ho); by rewrite Ha|].
      intros c' [Hne Hh']%Hold'. by destruct Hne; eapply (inv_uniq _ Hw).
    + destruct (inv_idle _ Hw x Hx) as [Hi Hn]. split; [done|]. intros c' [_ Hh']%Hold'. by eapply Hn.
  - intros c1 c2 x [_ H1]%Hold' [_ H2]%Hold'. by eapply (inv_uniq _ Hw).
  - intros c' b' x Hb' Ho'. rewrite Hs. destruct (Hold c' b' x Hb' Ho') as [_ Hb1].
    by apply (inv_own _ Hw).
  - intros x Hx. rewrite Hnext. apply (inv_made _ Hw).
    destruct Hx as [[->|Hx]%elem_of_cons|[c' [_ Hh']%Hold']]; [right; by exists c|by left|right; by exists c'].
Qed.

Lemma handshake_start_inv (w : World) (c : cid) (choice : option nat) :
  inv w -> inv_new w -> w.(bw_conns) !! c = None ->
  inv (handshake_start c choice w) /\ inv_new (handshake_start c choice w).
Proof.
  intros Hw Hnew Hc. unfold handshake_start. destruct (pool_Get choice w) as [r w1] eqn:E.
  destruct (pool_Get_spec _ _ _ _ Hw Hnew E)
    as (Ec & Es & _ & Hnd & Hr & Hsub & Hheld & Hsrc & Hlt & Hle).
  assert (Hs : forall x, Read_source x (set_conn c (Got r) w1) = Read_source x w)
    by (intros; unfold Read_source; cbn; by rewrite Es).
  split.
  - apply (keep_inv w _ c (Got r) r); cbn; try done; [by rewrite Ec|by intros c' ?%Hheld|].
    intros x. rewrite Hs. by case_decide; subst.
  - intros x Hx. rewrite Hs. apply Hnew. cbn in Hx. lia.
Qed.

(** A step of a connection that keeps its reader. *)
Lemma conn_step_inv (w w' : World) (c : cid) (b b' : bconn) (r : rid) :
  inv w -> inv_new w -> w.(bw_conns) !! c = Some b -> owned b = Some r -> owned b' = Some r ->
  w' = set_conn c b' w /\ attached b' = attached b \/
  w' = set_conn c b' (Reset r (if attached b' then Some c else None) w) ->
  inv w' /\ inv_new w'.
Proof.
  intros Hw Hnew Hb Ho Ho' Hw'. assert (Hh : holds w c r) by by exists b.
  assert (Hmade : (r < w.(bw_next))%positive) by (apply (inv_made _ Hw); right; by exists c).
  assert (Hsrc : forall x, Read_source x w' =
    if decide (x = r) then if attached b' then Some c else None else Read_source x w).
  { intros x. destruct Hw' as [[-> Ha]| ->].
    - change (Read_source x (set_conn c b' w)) with (Read_source x w). case_decide; [|done].
      subst. rewrite (inv_own _ Hw c b r Hb Ho). by rewrite Ha.
    - apply (Read_source_Reset w r x). }
  assert (Hf : w'.(bw_free) = w.(bw_free) /\ w'.(bw_next) = w.(bw_next) /\
               w'.(bw_conns) = <[c := b']> w.(bw_conns)) by (by destruct Hw' as [[-> _]| ->]).
  destruct Hf as (Hf & Hn & Ec). split.
  - apply (keep_inv w w' c b' r); rewrite ?Hf, ?Hn; try done; [| |apply (inv_free _ Hw)].
    + intros c' Hc'. by eapply (inv_uniq _ Hw).
    + intros [_ Hx]%(inv_idle _ Hw). by eapply Hx.
  - intros x Hx. rewrite Hn in Hx. rewrite Hsrc, decide_False by lia. by apply Hnew.
Qed.

(** A step that gives the reader back. *)
Lemma conn_give_inv (w w' : World) (c : cid) (b : bconn) (r : rid) :
  inv w -> inv_new w -> w.(bw_conns) !! c = Some b -> owned b = Some r -> attached b = false ->
  w' = set_conn c (Given r) (pool_Put r w) \/ w' = pool_Put r w <| bw_conns ::= delete c |> ->
  inv w' /\ inv_new w'.
Proof.
  intros Hw Hnew Hb Ho Ha Hw'. split; [|by destruct Hw' as [-> | ->]].
  apply (give_back_inv w w' c b r); try done; try (by destruct Hw' as [-> | ->]).
  intros c' b' x. destruct Hw' as [-> | ->]; cbn.
  - destruct (decide (c' = c)) as [->|Hne]; [rewrite lookup_insert_eq; by intros [= <-]|].
    by rewrite lookup_insert_ne.
  - destruct (decide (c' = c)) as [->|Hne]; [by rewrite lookup_delete_eq|].
    by rewrite lookup_delete_ne.
Qed.

Lemma handshake_step_inv (w : World) (c : cid) (ok : bool) :
  inv w -> inv_new w -> inv (handshake_step c ok w) /\ inv_new (handshake_step c ok w).
Proof.
  intros Hw Hnew. unfold handshake_step.
  destruct (bw_conns w !! c) as [[r|r|r|r|r|r|r|r|]|] eqn:Ec; [..|done]; try done.
  - eapply (conn_step_inv w _ c (Got r) (Shaking r)); try done. by right.
  - destruct ok;
      [eapply (conn_step_inv w _ c _ (Open r))|eapply (conn_step_inv w _ c _ (Failing r))];
      try exact Ec; try done; by left.
  - eapply (conn_step_inv w _ c _ (Emptied r)); try done. by right.
  - eapply (conn_give_inv w _ c (Emptied r)); try done. by right.
Qed.

Lemma Close_step_inv (w : World) (c : cid) :
  inv w -> inv_new w -> inv (Close_step c w) /\ inv_new (Close_step c w).
Proof.
  intros Hw Hnew. unfold Close_step.
  destruct (bw_conns w !! c) as [[r|r|r|r|r|r|r|r|]|] eqn:Ec; [..|done]; try done.
  - eapply (conn_step_inv w _ c _ (Closing r)); try done. by left.
  - eapply (conn_step_inv w _ c _ (Detached r)); try done. by right.
  - eapply (conn_give_inv w _ c (Detached r)); try done. by left.
  - split; [|done]. destruct Hw as [H1 H2 H3 H4 H5].
    assert (Hold : forall c' b' x, <[c := Shut]> (bw_conns w) !! c' = Some b' -> owned b' = Some x ->
      bw_conns w !! c' = Some b').
    { intros c' b' x. destruct (decide (c' = c)) as [->|Hne];
        [rewrite lookup_insert_eq; by intros [= <-]|by rewrite lookup_insert_ne]. }
    assert (Hh : forall c' x, holds (set_conn c Shut w) c' x -> holds w c' x)
      by (intros c' x (b' & Hb & Ho); exists b'; split; [by eapply Hold|done]).
    split; cbn; [done| | | |].
    + intros x Hx. destruct (H2 x Hx) as [Hi Hn]. split; [done|]. intros c' Hc'%Hh. by eapply Hn.
    + intros c1 c2 x Hc1%Hh Hc2%Hh. by eapply H3.
    + intros c' b' x Hb Ho. eapply H4; [by eapply Hold|done].
    + intros x [Hx|[c' Hc'%Hh]]; apply H5; [by left|right; by exists c'].
Qed.

(** The readers of the [Read]s in flight do not matter to the invariant. *)
Lemma inv_reading (w : World) (l : list (cid * rid)) : inv w -> inv (w <| bw_reading := l |>).
Proof. intros []. by split. Qed.

Lemma Read_load_cases (c : cid) (w w' : World) :
  Read_load c w = Done w' ->
  w' = w \/ exists b r, bw_conns w !! c = Some b /\ field b = Some r /\
    w' = w <| bw_reading ::= cons (c, r) |>.
Proof.
  unfold Read_load. destruct (bw_conns w !! c) as [b|]; [|intros [= <-]; by left].
  destruct b as [r|r|r|r|r|r|r|r|]; cbn; intros [= <-]; eauto 10.
Qed.

Lemma pool_step_inv (w w' : World) : step w w' -> inv w -> inv_new w -> inv w' /\ inv_new w'.
Proof.
  intros Hs Hw Hnew. destruct Hs as [w c choice Hc|w c ok|w w' c Hl|w p1 p2 c r Hr|w c|w p1 p2 r Hf].
  - by apply handshake_start_inv.
  - by apply handshake_step_inv.
  - apply Read_load_cases in Hl as [->|(b & r & _ & _ & ->)]; [done|].
    split; [by apply (inv_reading w)|done].
  - split; [by apply inv_reading|done].
  - by apply Close_step_inv.
  - split; [|done]. destruct Hw as [H1 H2 H3 H4 H5]. rewrite Hf in *.
    assert (Hsub : forall x, x ∈ p1 ++ p2 -> x ∈ p1 ++ r :: p2) by set_solver.
    split; cbn; [|by intros x ?%Hsub%H2|done|done|intros x [?%Hsub|?]; apply H5; auto].
    eapply sublist_NoDup; [exact H1|]. apply sublist_app; [done|by apply sublist_cons].
Qed.

Lemma pool_init_inv : inv init /\ inv_new init.
Proof.
  assert (Hno : forall c r, ~ holds init c r) by (intros c r (b & Hb & _); cbn in Hb; by rewrite lookup_empty in Hb).
  split; [|intros r _; unfold Read_source; cbn; by rewrite lookup_empty].
  split; cbn.
  - constructor.
  - intros r Hr. by apply elem_of_nil in Hr.
  - by intros c1 c2 r ?%Hno.
  - intros c b r Hb. by rewrite lookup_empty in Hb.
  - intros r [Hr|[c Hc%Hno]]; [by apply elem_of_nil in Hr|done].
Qed.

(** A reader that a [Read] has loaded is in the field of its connection until that is nil. *)
Definition quiet (w : World) : Prop :=
  forall c r, (c, r) ∈ w.(bw_reading) ->
    exists b, w.(bw_conns) !! c = Some b /\ (field b = Some r \/ b = Shut).

(** A connection that changes keeps its field, or it becomes nil. *)
Lemma quiet_set (w w' : World) (c : cid) (b b' : bconn) :
  quiet w -> w.(bw_conns) !! c = Some b -> (field b' = field b \/ field b = None \/ b' = Shut) ->
  w'.(bw_conns) = <[c := b']> w.(bw_conns) -> w'.(bw_reading) = w.(bw_reading) -> b <> Shut ->
  quiet w'.
Proof.
  intros Hq Hb Hf Ec Er Hs c' r Hin. rewrite Er in Hin. rewrite Ec.
  destruct (Hq c' r Hin) as (b0 & H0 & Hor). destruct (decide (c' = c)) as [->|Hne].
  - rewrite lookup_insert_eq. exists b'. split; [done|]. assert (b0 = b) as -> by congruence.
    destruct Hor as [?|?]; [|done]. destruct Hf as [?|[?|?]]; [left|..]; try congruence. by right.
  - rewrite lookup_insert_ne by done. by exists b0.
Qed.

Lemma step_quiet (w w' : World) : step w w' -> quiet w -> quiet w'.
Proof.
  intros Hs Hq. destruct Hs as [w c choice Hc|w c ok|w w' c Hl|w p1 p2 c r Hr|w c|w p1 p2 r Hf].
  - unfold handshake_start, pool_Get. intros c' r' Hin.
    assert (Hin0 : (c', r') ∈ bw_reading w) by (destruct (choice ≫= _); exact Hin).
    apply Hq in Hin0 as (b & Hb & Ho). assert (c' <> c) by congruence. exists b. split; [|done].
    destruct (choice ≫= _); cbn; by rewrite lookup_insert_ne.
  - unfold handshake_step. destruct (bw_conns w !! c) as [[r|r|r|r|r|r|r|r|]|] eqn:Ec; try done;
      try (eapply (quiet_set w _ c); [done|exact Ec|by right; left|done..]).
    intros c' r' Hin. destruct (Hq c' r' Hin) as (b & Hb & Ho).
    assert (c' <> c) by (intros ->; rewrite Ec in Hb; injection Hb as <-; by destruct Ho).
    exists b. cbn. by rewrite lookup_delete_ne.
  - apply Read_load_cases in Hl as [->|(b & r & Hb & Hf & ->)]; [done|].
    intros c' r' Hin. cbn in *. apply elem_of_cons in Hin as [[= -> ->]|Hin]; [|by apply Hq].
    exists b. auto.
  - intros c' r' Hin. cbn in *. apply Hq. rewrite Hr. set_solver.
  - unfold Close_step. destruct (bw_conns w !! c) as [[r|r|r|r|r|r|r|r|]|] eqn:Ec; try done;
      eapply (quiet_set w _ c); try done; try exact Ec; cbn; auto.
  - done.
Qed.

Lemma pool_reachable_inv (w : World) : reachable w -> inv w /\ quiet w.
Proof.
  intros Hw. cut ((inv w /\ inv_new w) /\ quiet w); [naive_solver|].
  apply (rtc_preserved step (fun w => (inv w /\ inv_new w) /\ quiet w) init); [|done|].
  - intros x y [[Hi Hn] Hq] Hs. split; [by apply (pool_step_inv x)|by apply (step_quiet x)].
  - split; [apply pool_init_inv|]. intros c r Hin. by apply elem_of_nil in Hin.
Qed.

(** ** Properties *)

(** C20: Pooled readers are not shared.  However the single actions of handshakes, reads and
    closes interleave, no two connections are responsible for the same reader, none for one
    that is in the pool, and a reader reads from its connection from the [Reset] that
    attaches it to the [Reset] that detaches it, and from nothing otherwise.  So a [Read]
    returns bytes of its own connection as long as that connection's [Close] has not
    begun; and a [Read] panics, on the nil reader, exactly after [Close]. *)
Theorem readers_exclusive (w : World) :
  reachable w ->
  (forall c1 c2 r, holds w c1 r -> holds w c2 r -> c1 = c2) /\
  (forall c b r, w.(bw_conns) !! c = Some b -> owned b = Some r ->
     r ∉ w.(bw_free) /\ Read_source r w = if attached b then Some c else None) /\
  (forall r, r ∈ w.(bw_free) -> Read_source r w = None) /\
  (forall c r r', (c, r) ∈ w.(bw_reading) -> w.(bw_conns) !! c = Some (Open r') ->
     Read_source r w = Some c) /\
  (forall c, is_done (Read_load c w) = false <-> w.(bw_conns) !! c = Some Shut).
Proof.
  intros [Hw Hq]%pool_reachable_inv. split; [|split; [|split; [|split]]].
  - intros c1 c2 r. by apply (inv_uniq _ Hw).
  - intros c b r Hb Ho. split; [|by apply (inv_own _ Hw)].
    intros [_ Hn]%(inv_idle _ Hw). apply (Hn c). by exists b.
  - intros r Hr. by apply (inv_idle _ Hw).
  - intros c r r' Hin Hc. destruct (Hq c r Hin) as (b & Hb & Ho).
    assert (b = Open r') as -> by congruence. destruct Ho as [[= ->]|]; [|done].
    by rewrite (inv_own _ Hw c (Open r) r Hb).
  - intros c. unfold Read_load. by destruct (bw_conns w !! c) as [[]|].
Qed.

(** A [Close] during a [Read] breaks this: the reader goes to the pool while the
    [Read] still uses it, the next handshake attaches it to its own connection, and the
    [Read] of the closed connection takes the bytes of the new one.  It need not have
    begun before the [Close]: the field still holds the reader when it is in the pool. *)
Theorem close_during_read_steals :
  (exists w c c' r, reachable w /\ (c, r) ∈ w.(bw_reading) /\
    w.(bw_conns) !! c = Some Shut /\ w.(bw_conns) !! c' = Some (Open r) /\
    Read_source r w = Some c' /\ c <> c') /\
  (exists w w' c c' r, reachable w /\ w.(bw_reading) = [] /\ w.(bw_conns) !! c = Some (Given r) /\
    Read_load c w = Done w' /\ (c, r) ∈ w'.(bw_reading) /\ Read_source r w' = Some c' /\ c <> c').
Proof.
  set (up := fun c choice w => handshake_step c true (handshake_step c true (handshake_start c choice w))).
  assert (Hup : forall c choice w, reachable w -> bw_conns w !! c = None -> reachable (up c choice w)).
  { intros c choice w Hw Hc. unfold up. do 2 (eapply rtc_r; [|apply step_shake]).
    eapply rtc_r; [exact Hw|by apply step_start]. }
  assert (Hclose : forall n c w, reachable w -> reachable (Nat.iter n (Close_step c) w)).
  { intros n c w Hw. induction n as [|n IH]; [done|]. cbn. eapply rtc_r; [exact IH|apply step_close]. }
  split.
  - exists (up 2%positive (Some 0%nat) (Nat.iter 4 (Close_step 1)
      (up 1%positive None init <| bw_reading ::= cons (1%positive, 1%positive) |>))),
      1%positive, 2%positive, 1%positive.
    split; [|split; [cbn; by left|repeat split; vm_compute; congruence]].
    apply Hup; [|reflexivity]. apply Hclose. eapply rtc_r; [apply (Hup 1%positive None); [constructor|done]|].
    by apply (step_load _ _ 1).
  - set (w := up 2%positive (Some 0%nat) (Nat.iter 3 (Close_step 1) (up 1%positive None init))).
    assert (Hgiven : bw_conns w !! 1%positive = Some (Given 1)) by reflexivity.
    exists w, (w <| bw_reading ::= cons (1%positive, 1%positive) |>), 1%positive, 2%positive, 1%positive.
    split; [apply Hup; [|reflexivity]; apply Hclose, Hup; [constructor|done]|].
    split; [reflexivity|]. split; [exact Hgiven|].
    split; [unfold Read_load; rewrite Hgiven; reflexivity|].
    split; [cbn; by left|]. split; [reflexivity|done].
Qed.

(** ** Witnesses *)

(** One connection is up, another is being made. *)
Definition one_up : World :=
  handshake_step 2 true (handshake_start 2 None
    (handshake_step 1 true (handshake_step 1 true (handshake_start 1 None init)))).

Lemma readers_exclusive_witness :
  reachable one_up /\ Read_source 1 one_up = Some 1%positive.
Proof.
  assert (Hr : reachable one_up).
  { eapply rtc_r; [|apply step_shake]. eapply rtc_r; [|by apply step_start].
    do 2 (eapply rtc_r; [|apply step_shake]). eapply rtc_r; [constructor|by apply step_start]. }
  split; [exact Hr|]. destruct (readers_exclusive one_up Hr) as (_ & Hown & _).
  destruct (Hown 1%positive (Open 1) 1%positive) as [_ Hs]; [reflexivity|reflexivity|exact Hs].
Defined.
