(* ===== verification/Upgrade.v ===== *)
(** * The server's side of a connection ([upgrade] of [server.go])

    After [validate] the server hijacks the HTTP connection, sends the 101 response,
    wraps the connection in encryption and compression, makes a smux session, and keeps
    it in the session table until it dies.  The HTTP server and smux are arguments; the
    table operations are those of [Sessions], the connection that of [EncryptedConn]. *)

From stdpp Require Import gmap strings sets relations.
From S2P Require Import Sessions.
From S2P Require Import Prelude GoStrings GoBytes ConfigTypes Config EncryptedConn.
From S2P Require Import PoolWorker Mimic.
From Stdlib Require Import Init.Byte.

Local Open Scope string_scope.
Local Open Scope list_scope.
Local Open Scope Z_scope.

Abbreviation sid := positive (only parsing).

(** ** Definitions *)

(** A hijacked connection: its dynamic type, the address of the peer, its two sides. *)
Record hijacked := mkHijacked {
  hj_kind : conn_kind;
  hj_RemoteAddr : string;
  hj_in : stream;
  hj_out : sink
}.

(** What the stages of one upgrade meet: whether the response writer is a [Hijacker] (it
    is not under HTTP/2), [Hijack], [smux.Server]; then how many streams were accepted
    before [AcceptStream] failed. *)
Record uplink := mkUplink {
  ul_hijacker : bool;
  ul_hijack : result hijacked;
  ul_smux : result sid;
  ul_streams : nat
}.

Inductive up_event :=
| UpError (status : Z)
| UpOption (o : sockopt)
| UpClose (l : layer)
| UpSmux (l : layer) (sc : SmuxSettings)
| UpSet (key : string) (sess : sid)
| UpServeStream
| UpClear (key : string) (sess : sid).

(** The socket options of a [*net.TCPConn]. *)
Definition upgrade_options (a : AdvancedConfig) (k : conn_kind) : list sockopt :=
  match k with
  | KTCP =>
      [SetNoDelay true; SetKeepAlive true; SetKeepAlivePeriod (15 * Second);
       SetReadBuffer (if 0 <? a.(Adv_TCPReadBuffer) then a.(Adv_TCPReadBuffer) else 8388608);
       SetWriteBuffer (if 0 <? a.(Adv_TCPWriteBuffer) then a.(Adv_TCPWriteBuffer) else 8388608)]
  | _ => []
  end.

Section Upgrade.
Context `{Crypto}.

(** [upgrade(w, r)]: what it does, and the connection under smux, if it gets that far. *)
Definition upgrade (smux_DefaultConfig : SmuxSettings) (cfg : Config) (ul : uplink)
    : list up_event * option EncryptedConn :=
  if negb ul.(ul_hijacker) then ([UpError 500], None)
  else
    match ul.(ul_hijack) with
    | Err _ => ([UpError 500], None)
    | Ok conn =>
        let t := map UpOption (upgrade_options cfg.(cfg_Advanced) conn.(hj_kind)) in
        match sink_write (bytes_of switchResp) conn.(hj_out) with
        | (_, Some _, _) => (t ++ [UpClose LRaw], None)
        | (_, None, out) =>
            match NewEncryptedConn conn.(hj_in) out cfg.(cfg_PSK) (Some cfg.(cfg_Obfs)) with
            | Err _ => (t ++ [UpClose LRaw], None)
            | Ok ec =>
                let smuxConn := compress_layer cfg.(cfg_Compression) in
                let t := t ++ [UpSmux smuxConn (buildSmuxConfig smux_DefaultConfig cfg)] in
                match ul.(ul_smux) with
                | Err _ => (t ++ [UpClose smuxConn], None)
                | Ok sess =>
                    let key := conn.(hj_RemoteAddr) in
                    (t ++ [UpSet key sess] ++ replicate ul.(ul_streams) UpServeStream ++
                     [UpClear key sess], Some ec)
                end
            end
        end
    end.
End Upgrade.

(** The events on the session table among everybody else's: between any two of them the
    others take any steps but to clear the session of this upgrade.  What [setSession] does
    after its unlock may come late. *)
Inductive table_move : up_event -> Sessions.World -> Sessions.World -> Prop :=
| move_set w now key sess old s :
    sess ∉ w.(Sessions.made) -> Sessions.setSession_locked now key sess w.(srv) = (old, s) ->
    table_move (UpSet key sess) w
      (w <| Sessions.srv := s |> <| Sessions.made ::= fun m => {[sess]} ∪ m |>
         <| Sessions.pending ::= cons (Sessions.CountNew old sess) |>)
| move_clear w key sess : table_move (UpClear key sess) w (Sessions.clearSession key sess w)
| move_other w e :
    match e with UpSet _ _ | UpClear _ _ => False | _ => True end -> table_move e w w.

Definition others (sess : sid) : Sessions.World -> Sessions.World -> Prop :=
  rtc (Sessions.step_of (fun x => x <> sess)).

Fixpoint table_steps (sess : sid) (t : list up_event) (w w' : Sessions.World) : Prop :=
  match t with
  | [] => others sess w w'
  | e :: t => exists a b, others sess w a /\ table_move e a b /\ table_steps sess t b w'
  end.

(** The same with nobody else at the table; [now] is the time of the [setSession],
    and [smux.Server] has made its session before. *)
Definition table_event (now : Z) (w : Sessions.World) (e : up_event) : Sessions.World :=
  match e with
  | UpSet key sess =>
      Sessions.setSession now key sess (w <| Sessions.made ::= fun m => {[sess]} ∪ m |>)
  | UpClear key sess => Sessions.clearSession key sess w
  | _ => w
  end.
Definition table_run (now : Z) (t : list up_event) (w : Sessions.World) : Sessions.World :=
  foldl (table_event now) w t.

(** ** Lemmas *)

Definition closes (t : list up_event) : bool :=
  existsb (fun e => match e with UpClose _ => true | _ => false end) t.
Definition registers (t : list up_event) : bool :=
  existsb (fun e => match e with UpSet _ _ => true | _ => false end) t.

(** The events that leave the table alone. *)
Definition table_silent (e : up_event) : bool :=
  match e with UpSet _ _ | UpClear _ _ => false | _ => true end.

Lemma table_run_silent (now : Z) (t : list up_event) (w : Sessions.World) :
  forallb table_silent t = true -> table_run now t w = w.
Proof.
  revert w. induction t as [|e t IH]; intros w; [done|]. cbn. intros [He Ht]%andb_true_iff.
  rewrite <- (IH w Ht) at 2. by destruct e.
Qed.

Lemma table_run_app (now : Z) (t u : list up_event) (w : Sessions.World) :
  table_run now (t ++ u) w = table_run now u (table_run now t w).
Proof. apply foldl_app. Qed.

Lemma options_silent (a : AdvancedConfig) (k : conn_kind) :
  let t := map UpOption (upgrade_options a k) in
  forallb table_silent t = true /\ closes t = false /\ registers t = false.
Proof. destruct k; done. Qed.

Lemma served_streams_silent (n : nat) : forallb table_silent (replicate n UpServeStream) = true.
Proof. induction n; done. Qed.

Section Laws.
Context `{CL : CryptoLaws}.

(** A 32-byte digest is an AES-256 key, so encryption can always be set up. *)
Lemma NewEncryptedConn_ok (inp : stream) (out : sink) (psk : string) (obfs : option ObfsConfig) :
  NewEncryptedConn inp out psk obfs =
  Ok (mkEC (if decide (psk = EmptyString) then None else Some (sha256_Sum256 (bytes_of psk)))
        obfs [] inp out).
Proof.
  unfold NewEncryptedConn. case_decide; [done|]. unfold aes_NewCipher.
  rewrite bool_decide_true; [done|]. rewrite Sum256_length. set_solver.
Qed.

(** The three ends of an upgrade. *)
Lemma upgrade_cases (d : SmuxSettings) (cfg : Config) (ul : uplink) (conn : hijacked) :
  ul.(ul_hijacker) = true -> ul.(ul_hijack) = Ok conn ->
  match sink_write (bytes_of switchResp) conn.(hj_out), ul.(ul_smux) with
  | (_, None, out), Ok sess =>
      exists t1, forallb table_silent t1 = true /\ closes t1 = false /\
        upgrade d cfg ul =
          (t1 ++ [UpSet conn.(hj_RemoteAddr) sess] ++ replicate ul.(ul_streams) UpServeStream ++
           [UpClear conn.(hj_RemoteAddr) sess],
           Some (mkEC (if decide (cfg.(cfg_PSK) = EmptyString) then None
                       else Some (sha256_Sum256 (bytes_of cfg.(cfg_PSK))))
                   (Some cfg.(cfg_Obfs)) [] conn.(hj_in) out))
  | _, _ =>
      exists t, forallb table_silent t = true /\ closes t = true /\ upgrade d cfg ul = (t, None)
  end.
Proof.
  intros Hh Hc. unfold upgrade. rewrite Hh, Hc. cbn [negb].
  destruct (options_silent (cfg_Advanced cfg) (hj_kind conn)) as (Hs & Hcl & _).
  destruct (sink_write _ _) as [[n [e|]] out].
  - eexists. split; [|split; [|reflexivity]].
    + rewrite forallb_app, Hs. done.
    + unfold closes in *. rewrite existsb_app. apply orb_true_r.
  - rewrite NewEncryptedConn_ok. destruct (ul_smux ul) as [sess|e].
    + eexists. split; [|split; [|reflexivity]].
      * by rewrite forallb_app, Hs.
      * unfold closes in *. by rewrite existsb_app, Hcl.
    + eexists. split; [|split; [|reflexivity]].
      * by rewrite !forallb_app, Hs.
      * unfold closes in *. rewrite existsb_app. apply orb_true_r.
Qed.
End Laws.

(** Setting and clearing a fresh session, with streams in between. *)
Lemma table_run_session (now : Z) (t1 : list up_event) (n : nat) (key : string) (sess : sid)
    (w : Sessions.World) :
  forallb table_silent t1 = true -> Sessions.reachable w -> w.(Sessions.pending) = [] ->
  sess ∉ w.(Sessions.made) ->
  let w1 := table_run now (t1 ++ [UpSet key sess]) w in
  let w2 := table_run now (t1 ++ [UpSet key sess] ++ replicate n UpServeStream ++ [UpClear key sess]) w in
  Sessions.reachable w1 /\ Sessions.reachable w2 /\
  w1.(Sessions.srv).(Sessions.sessions) = <[key := sess]> w.(Sessions.srv).(Sessions.sessions) /\
  w2.(Sessions.srv).(Sessions.sessions) = delete key w.(Sessions.srv).(Sessions.sessions) /\
  (forall old, w.(Sessions.srv).(Sessions.sessions) !! key = Some old -> old ∈ w1.(Sessions.closed)).
Proof.
  intros Ht Hw Hp Hnew w1 w2.
  assert (E1 : w1 = Sessions.setSession now key sess (w <| Sessions.made ::= fun m => {[sess]} ∪ m |>))
    by (unfold w1; by rewrite table_run_app, (table_run_silent now t1)).
  assert (E2 : w2 = Sessions.clearSession key sess w1).
  { unfold w2, w1. rewrite app_assoc, !table_run_app.
    by rewrite (table_run_silent now (replicate n UpServeStream)) by apply served_streams_silent. }
  pose proof (Sessions.reachable_inv w Hw) as Hinv.
  assert (R1 : Sessions.reachable w1).
  { rewrite E1. unfold Sessions.reachable in *. etrans; [exact Hw|].
    apply Sessions.setSession_steps; [done|done|apply (Sessions.inv_made _ Hinv)]. }
  assert (S1 : w1.(Sessions.srv).(Sessions.sessions) =
               <[key := sess]> w.(Sessions.srv).(Sessions.sessions)).
  { rewrite E1. unfold Sessions.setSession, Sessions.setSession_locked. cbn.
    destruct (Sessions.sessions _ !! key); [by case_decide|done]. }
  split; [exact R1|]. split; [|split; [exact S1|split]].
  - rewrite E2. eapply rtc_r; [exact R1|]. by apply Sessions.step_clear.
  - rewrite E2. unfold Sessions.clearSession. rewrite S1, lookup_insert_eq, decide_True by done.
    cbn. rewrite S1. apply delete_insert_eq.
  - intros old Hold. assert (old <> sess) by (intros ->; by apply (Sessions.inv_made _ Hinv) in Hold).
    rewrite E1. unfold Sessions.setSession, Sessions.setSession_locked. cbn. rewrite Hold, decide_False by done.
    cbn. set_solver.
Qed.

(** *** The table with others at it *)

Lemma table_steps_app (sess : sid) (t u : list up_event) (w w' : Sessions.World) :
  table_steps sess (t ++ u) w w' -> exists x, table_steps sess t w x /\ table_steps sess u x w'.
Proof.
  revert w. induction t as [|e t IH]; intros w; cbn; [by exists w|].
  intros (a & b & Ha & Hb & (x & Hx & Hu)%IH). exists x. split; [by exists a, b|done].
Qed.

Lemma table_steps_silent (sess : sid) (t : list up_event) (w w' : Sessions.World) :
  forallb table_silent t = true -> table_steps sess t w w' -> others sess w w'.
Proof.
  revert w. induction t as [|e t IH]; intros w; cbn; [done|].
  intros [He Ht]%andb_true_iff (a & b & Ha & Hb & Hr%IH); [|done].
  destruct Hb; [done|done|]. unfold others in *. by etrans.
Qed.

Lemma others_inv (sess : sid) (w w' : Sessions.World) :
  others sess w w' -> Sessions.inv w -> Sessions.inv w'.
Proof. induction 1; [done|]. eauto using Sessions.step_inv, Sessions.step_of_step. Qed.

Lemma others_looked_after (key : string) (sess : sid) (w w' : Sessions.World) :
  others sess w w' -> Sessions.looked_after key sess w -> Sessions.looked_after key sess w'.
Proof. induction 1; [done|]. eauto using Sessions.step_of_kept. Qed.

Lemma others_gone (sess : sid) (w w' : Sessions.World) :
  others sess w w' -> Sessions.gone sess w -> Sessions.gone sess w'.
Proof. induction 1; [done|]. eauto using Sessions.step_of_gone. Qed.

Lemma table_steps_session (key : string) (sess : sid) (t1 : list up_event) (n : nat)
    (w w' : Sessions.World) :
  Sessions.inv w -> forallb table_silent t1 = true ->
  (table_steps sess (t1 ++ [UpSet key sess] ++ replicate n UpServeStream) w w' ->
     Sessions.looked_after key sess w') /\
  (table_steps sess (t1 ++ [UpSet key sess] ++ replicate n UpServeStream ++ [UpClear key sess]) w w' ->
     Sessions.gone sess w').
Proof.
  intros Hw Ht.
  assert (Hset : forall x, table_steps sess (t1 ++ [UpSet key sess] ++ replicate n UpServeStream) w x ->
                   Sessions.looked_after key sess x).
  { intros x (a & Ha & (b & c & Hb & Hc & Hr))%table_steps_app.
    apply table_steps_silent in Ha; [|done]. apply (others_inv _ _ _ Ha) in Hw.
    apply (others_inv _ _ _ Hb) in Hw. cbn [app] in Hr.
    apply table_steps_silent in Hr; [|apply served_streams_silent].
    eapply others_looked_after; [exact Hr|]. inversion Hc; subst; [|done].
    by eapply Sessions.set_own_kept. }
  split; [apply Hset|]. rewrite !app_assoc, <- (app_assoc t1).
  intros (x & Hx%Hset & (a & b & Ha & Hb & Hr))%table_steps_app.
  eapply others_gone; [exact Hr|]. apply (others_looked_after _ _ _ _ Ha) in Hx.
  inversion Hb; subst; [|done]. by apply Sessions.clear_own_gone.
Qed.

Lemma results_ok {A} (rs : list write_result) (msgs : list A) (f : A -> Z) :
  map (fun x => (x.(wr_n), x.(wr_err))) rs = map (fun m => (f m, None)) msgs ->
  Forall (fun x => x.(wr_err) = None) rs.
Proof.
  revert msgs. induction rs as [|r rs IH]; intros [|m msgs] E; [constructor|done|done|].
  cbn in E. injection E as _ Hr E. constructor; [done|by eapply IH].
Qed.

(** What a client that has read the response holds after the server's writes. *)
Lemma upgraded_client {C : Crypto} (CL : CryptoLaws C) (d : SmuxSettings) (cfg ccfg : Config)
    (ul : uplink) (conn : hijacked) (t : list up_event) (sv : EncryptedConn)
    (msgs : list (list byte * write_entropy)) (close_body : string -> string) (cout : sink) :
  ul.(ul_hijacker) = true -> ul.(ul_hijack) = Ok conn -> conn.(hj_out) = mkSink [] None ->
  upgrade d cfg ul = (t, Some sv) ->
  cfg.(cfg_PSK) = ccfg.(cfg_PSK) ->
  cfg.(cfg_Obfs).(Obfs_Enabled) = ccfg.(cfg_Obfs).(Obfs_Enabled) ->
  wf_obfs cfg.(cfg_Obfs) -> Forall (sendable sv) msgs ->
  exists rs sv' rest cl,
    run_writes sv msgs = Done (rs, sv') /\ Forall (fun x => x.(wr_err) = None) rs /\
    finish_handshake close_body (k_bytes sv'.(ec_out)) = Ok rest /\
    NewEncryptedConn (mkStream rest EOF) cout ccfg.(cfg_PSK) (Some ccfg.(cfg_Obfs)) = Ok cl /\
    holds cl (map fst msgs).
Proof.
  intros Hh Hc Hout Hup Hpsk Hobfs Hwf Hs.
  pose proof (upgrade_cases d cfg ul conn Hh Hc) as Hcase. rewrite Hup, Hout in Hcase.
  rewrite sink_write_ok in Hcase by done. cbn [k_writes app] in Hcase.
  destruct (ul_smux ul) as [sess|e]; [|by destruct Hcase as (? & _ & _ & ?)].
  destruct Hcase as (t1 & _ & _ & [= _ ->]).
  set (sv := mkEC _ _ _ _ _) in *.
  set (rd rest := mkEC (if decide (cfg_PSK ccfg = EmptyString) then None
                   else Some (sha256_Sum256 (bytes_of (cfg_PSK ccfg))))
               (Some (cfg_Obfs ccfg)) [] (mkStream rest EOF) cout).
  assert (Hp : forall rest, peers sv (rd rest)).
  { intros rest. split; [cbn; by rewrite Hpsk|]. unfold obfs_on. cbn. rewrite Hobfs.
    destruct (Obfs_Enabled (cfg_Obfs ccfg)); split; intros []; eauto; done. }
  assert (Hwf' : wf_conn sv) by (unfold wf_conn, obfs_on; cbn; by destruct (Obfs_Enabled _)).
  destruct (run_writes_packets (rd []) sv msgs (Hp []) Hwf' eq_refl Hs)
    as (rs & sv' & pkts & Hr & Hres & Ho & Hq).
  exists rs, sv', (concat pkts), (rd (concat pkts)). split; [done|].
  split; [by apply (results_ok rs msgs (fun m => zlen m.1))|].
  split; [rewrite Ho; unfold k_bytes; cbn [k_writes]; rewrite concat_app; apply finish_switch|].
  split; [apply NewEncryptedConn_ok|].
  exists (concat pkts), (map fst msgs). split; [done|]. split; [|done].
  by eapply wire_of_ext; [|exact Hq].
Qed.

(** ** Properties *)

(** C19: An upgrade either gives the connection back or keeps a session.  A connection that
    cannot be hijacked is answered with status 500.  On a hijacked one, when the 101
    response cannot be sent or smux fails, the connection is closed and the table is not
    touched; otherwise the session is in the table under the peer's address (its
    predecessor there is closed) from before the first stream to the end of the last, and
    then the entry is gone, all of it by steps the table's invariant allows.  With other
    upgrades and cleanups at the table meanwhile, the session is there, or was closed, or
    is about to be by the upgrade that replaced it; in the end it is gone.  Setting up
    the encryption never fails, whatever the pre-shared key. *)
Theorem upgrade_registers_or_closes {C : Crypto} (CL : CryptoLaws C) (d : SmuxSettings)
    (cfg : Config) (ul : uplink) (now : Z) (w : Sessions.World) :
  Sessions.reachable w -> w.(Sessions.pending) = [] ->
  (forall sess, ul.(ul_smux) = Ok sess -> sess ∉ w.(Sessions.made)) ->
  let '(t, ec) := upgrade d cfg ul in
  match ul.(ul_hijacker), ul.(ul_hijack) with
  | true, Ok conn =>
      let key := conn.(hj_RemoteAddr) in
      match sink_write (bytes_of switchResp) conn.(hj_out), ul.(ul_smux) with
      | (_, None, out), Ok sess =>
          ec = Some (mkEC (if decide (cfg.(cfg_PSK) = EmptyString) then None
                           else Some (sha256_Sum256 (bytes_of cfg.(cfg_PSK))))
                       (Some cfg.(cfg_Obfs)) [] conn.(hj_in) out) /\
          exists t1, t = t1 ++ replicate ul.(ul_streams) UpServeStream ++ [UpClear key sess] /\
            let w1 := table_run now t1 w in
            let w2 := table_run now t w in
            closes t = false /\ Sessions.reachable w1 /\ Sessions.reachable w2 /\
            w1.(srv).(Sessions.sessions) = <[key := sess]> w.(srv).(Sessions.sessions) /\
            (forall old, w.(srv).(Sessions.sessions) !! key = Some old -> old ∈ w1.(closed)) /\
            w2.(srv).(Sessions.sessions) = delete key w.(srv).(Sessions.sessions) /\
            (forall x, table_steps sess (t1 ++ replicate ul.(ul_streams) UpServeStream) w x ->
               Sessions.looked_after key sess x) /\
            (forall x, table_steps sess t w x -> Sessions.gone sess x)
      | _, _ => ec = None /\ closes t = true /\ table_run now t w = w
      end
  | _, _ => t = [UpError 500] /\ ec = None
  end.
Proof.
  intros Hw Hp Hnew. destruct (upgrade d cfg ul) as [t ec] eqn:E.
  destruct (ul_hijacker ul) eqn:Eh; [|unfold upgrade in E; rewrite Eh in E; by injection E as <- <-].
  destruct (ul_hijack ul) as [conn|e] eqn:Ec;
    [|unfold upgrade in E; rewrite Eh, Ec in E; by injection E as <- <-].
  pose proof (upgrade_cases d cfg ul conn Eh Ec) as Hcase. rewrite E in Hcase.
  assert (Hfail : (exists u, forallb table_silent u = true /\ closes u = true /\ (t, ec) = (u, None)) ->
                  ec = None /\ closes t = true /\ table_run now t w = w).
  { intros (u & Hs & Hc & [= -> ->]). split; [done|]. split; [done|]. by apply table_run_silent. }
  destruct (sink_write _ _) as [[n [er|]] out]; [by apply Hfail|].
  destruct (ul_smux ul) as [sess|er]; [|by apply Hfail].
  destruct Hcase as (t1 & Hs & Hc & [= -> ->]). split; [done|].
  exists (t1 ++ [UpSet (hj_RemoteAddr conn) sess]). split; [by rewrite <- app_assoc|].
  destruct (table_run_session now t1 (ul_streams ul) (hj_RemoteAddr conn) sess w Hs Hw Hp
              (Hnew sess eq_refl)) as (R1 & R2 & S1 & S2 & Hold).
  split.
  { unfold closes in *. rewrite !existsb_app, Hc. clear. by induction (ul_streams ul). }
  do 5 (split; [done|]). rewrite <- app_assoc.
  split; intros x; by apply table_steps_session; [apply Sessions.reachable_inv|].
Qed.

(** The tunnel, end to end, from server to client.  Everything a server writes on a
    connection it has upgraded, after the 101 response, is what the client reads through
    its own encryption after [ClientHandshake], message by message, into buffers of any
    sizes, if both have the same pre-shared key and both or neither obfuscate. *)
Theorem tunnel_end_to_end {C : Crypto} (CL : CryptoLaws C) (d : SmuxSettings) (cfg ccfg : Config)
    (ul : uplink) (conn : hijacked) (t : list up_event) (sv : EncryptedConn)
    (msgs : list (list byte * write_entropy)) (close_body : string -> string)
    (cout : sink) (sizes : list nat) :
  ul.(ul_hijacker) = true -> ul.(ul_hijack) = Ok conn -> conn.(hj_out) = mkSink [] None ->
  upgrade d cfg ul = (t, Some sv) ->
  cfg.(cfg_PSK) = ccfg.(cfg_PSK) ->
  cfg.(cfg_Obfs).(Obfs_Enabled) = ccfg.(cfg_Obfs).(Obfs_Enabled) ->
  wf_obfs cfg.(cfg_Obfs) -> Forall (sendable sv) msgs ->
  exists rs sv' rest cl cl',
    run_writes sv msgs = Done (rs, sv') /\
    finish_handshake close_body (k_bytes sv'.(ec_out)) = Ok rest /\
    NewEncryptedConn (mkStream rest EOF) cout ccfg.(cfg_PSK) (Some ccfg.(cfg_Obfs)) = Ok cl /\
    run_reads cl sizes = Done (spec_reads (map fst msgs) sizes, cl').
Proof.
  intros Hh Hc Hout Hup Hpsk Hobfs Hwf Hs.
  destruct (upgraded_client CL d cfg ccfg ul conn t sv msgs close_body cout Hh Hc Hout Hup Hpsk
              Hobfs Hwf Hs) as (rs & sv' & rest & cl & Hr & _ & Hf & Hcl & Hq).
  destruct (run_reads_refines cl (map fst msgs) sizes Hq) as [cl' Hreads].
  by exists rs, sv', rest, cl, cl'.
Qed.

(** ** Witnesses *)

Definition smux_defaults : SmuxSettings := mkSmuxSettings 1 (10 * Second) (30 * Second) 32768 4194304 65536.
Definition up_config : Config := zero_Config <| cfg_PSK := "secret" |> <| cfg_Obfs := toy_obfs |>.
Definition up_conn : hijacked := mkHijacked KTCP "10.0.0.1:5000" (mkStream [] EOF) (mkSink [] None).
Definition up_link : uplink := mkUplink true (Ok up_conn) (Ok 7%positive) 2.

(** The client at that address comes back; its first session is replaced. *)
Lemma upgrade_registers_or_closes_witness :
  let w2 := table_run (9 * Second) (upgrade smux_defaults up_config up_link).1 two_clients in
  w2.(srv).(Sessions.sessions) = delete "10.0.0.1:5000" two_clients.(srv).(Sessions.sessions).
Proof.
  assert (Hnew : forall sess, ul_smux up_link = Ok sess -> sess ∉ two_clients.(Sessions.made))
    by (intros sess [= <-]; vm_compute; intros H; inversion H).
  pose proof (upgrade_registers_or_closes toy_crypto_laws smux_defaults up_config up_link
    (9 * Second) two_clients two_clients_reachable eq_refl Hnew) as H.
  destruct (upgrade smux_defaults up_config up_link) as [t ec]. cbn in H.
  destruct H as (_ & t1 & _ & _ & _ & _ & _ & _ & H & _). exact H.
Defined.

Lemma tunnel_end_to_end_witness :
  exists sv rs sv' rest cl cl',
    upgrade smux_defaults up_config up_link = ((upgrade smux_defaults up_config up_link).1, Some sv) /\
    run_writes sv toy_msgs = Done (rs, sv') /\
    finish_handshake (fun s => s) (k_bytes sv'.(ec_out)) = Ok rest /\
    NewEncryptedConn (mkStream rest EOF) (mkSink [] None) "secret" (Some toy_obfs) = Ok cl /\
    run_reads cl [3; 10; 4]%nat = Done (spec_reads (map fst toy_msgs) [3; 10; 4]%nat, cl').
Proof.
  destruct (upgrade smux_defaults up_config up_link) as [t [sv|]] eqn:E; [|discriminate E].
  assert (Esv : sv = mkEC (Some (sha256_Sum256 (bytes_of "secret"))) (Some toy_obfs) []
                       (mkStream [] EOF) (mkSink [bytes_of switchResp] None))
    by (vm_compute in E; injection E as _ <-; reflexivity).
  assert (Hs : Forall (sendable sv) toy_msgs).
  { rewrite Esv. repeat constructor; cbn; try discriminate; vm_compute; discriminate. }
  assert (Hwf : wf_obfs (cfg_Obfs up_config)) by (unfold wf_obfs; cbn; lia).
  destruct (tunnel_end_to_end toy_crypto_laws smux_defaults up_config up_config up_link up_conn t sv
    toy_msgs (fun s => s) (mkSink [] None) [3; 10; 4]%nat eq_refl eq_refl eq_refl E eq_refl eq_refl
    Hwf Hs) as (rs & sv' & rest & cl & cl' & H1 & H2 & H3 & H4).
  exists sv, rs, sv', rest, cl, cl'. split; [reflexivity|]. split; [exact H1|]. split; [exact H2|].
  split; [exact H3|exact H4].
Defined.
