(* ===== verification/Compression.v ===== *)
(** * Compression ([compression.go])

    [CompressedConn] puts a snappy stream between the encrypted connection and smux.  The
    snappy library is an argument: its writer is a program of writes to the connection
    below, its reader a reader over any reader.  The theorems say what the two ends of a
    tunnel get when both wrap their connections as [upgrade] and [connectAndServe] do. *)

From S2P Require Import Prelude GoStrings GoBytes IoReader NetConn ConfigTypes EncryptedConn.
From S2P Require Import Config PoolWorker Mimic Upgrade.
From Stdlib Require Import Init.Byte.

Local Open Scope string_scope.
Local Open Scope list_scope.
Local Open Scope Z_scope.

(** ** Connections *)

(** An [EncryptedConn] with the random choices of its coming writes. *)
Record enc_end := mkEnd {
  ee_conn : EncryptedConn;
  ee_draws : nat -> write_entropy;
  ee_next : nat
}.

#[export] Instance enc_IoWriter `{Crypto} : IoWriter enc_end := {|
  nc_Write b e :=
    '(r, c) ← EncryptedConn.Write e.(ee_conn) b (e.(ee_draws) e.(ee_next));
    Done (r.(wr_n), r.(wr_err), mkEnd c e.(ee_draws) (S e.(ee_next)))
|}.
#[export] Instance enc_NetConn `{Crypto} : NetConn enc_end := {|
  nc_Read n e :=
    '(r, c) ← Read e.(ee_conn) n; Done (r, mkEnd c e.(ee_draws) e.(ee_next));
  nc_Close e :=
    let '(err, c) := EncryptedConn.Close e.(ee_conn) in (err, mkEnd c e.(ee_draws) e.(ee_next))
|}.

(** ** Snappy *)

Class Snappy := {
  snappy_Writer : Type;
  snappy_Reader : Type;
  snappy_NewBufferedWriter : snappy_Writer;
  snappy_NewReader : snappy_Reader;
  sw_Write : list byte -> snappy_Writer -> wprog (Z * option error * snappy_Writer);
  sw_Flush : snappy_Writer -> wprog (option error * snappy_Writer);
  sw_Close : snappy_Writer -> wprog (option error * snappy_Writer);
  sr_Read : forall R : Type, (nat -> R -> outcome (result (list byte) * R)) ->
    nat -> snappy_Reader * R -> outcome (result (list byte) * (snappy_Reader * R))
}.

(** The chunks that writing and flushing each of [ds] hands down. *)
Fixpoint flushes `{Snappy} (sw : snappy_Writer) (ds : list (list byte)) : list (list byte) :=
  match ds with
  | [] => []
  | d :: ds =>
      let '(cs1, (_, _, sw)) := accept (sw_Write d sw) in
      let '(cs2, (_, sw)) := accept (sw_Flush sw) in
      cs1 ++ cs2 ++ flushes sw ds
  end.

(** What the package documents: [Writer] is an [io.Writer] whose errors are sticky, and a
    [Reader] over any reader of what was written and flushed gives the data back. *)
Class SnappyLaws (S : Snappy) := {
  sw_ok : snappy_Writer -> Prop;
  NewWriter_ok : sw_ok snappy_NewBufferedWriter;
  Write_accepted : forall d sw, sw_ok sw ->
    let '(_, (n, err, sw')) := accept (sw_Write d sw) in n = zlen d /\ err = None /\ sw_ok sw';
  Flush_accepted : forall sw, sw_ok sw ->
    let '(_, (err, sw')) := accept (sw_Flush sw) in err = None /\ sw_ok sw';
  Write_honest : forall d sw, honest (fun x => x.1.2) (sw_Write d sw);
  Flush_honest : forall sw, honest fst (sw_Flush sw);
  Read_decodes : forall (R : Type) (read : nat -> R -> outcome (result (list byte) * R))
      (P : nat -> list byte -> R -> Prop), ByteSource read P ->
    forall ds, exists Q, ByteSource (sr_Read R read) Q /\
      forall k r, P k (concat (flushes snappy_NewBufferedWriter ds)) r ->
        exists k', Q k' (concat ds) (snappy_NewReader, r)
}.

(** ** The wrapper *)

Record CompressedConn `{Snappy} (W : Type) := mkCC {
  cc_Conn : W;
  cc_reader : snappy_Reader;
  cc_writer : snappy_Writer
}.
Arguments mkCC {_ _} _ _ _.
Arguments cc_Conn {_ _} _.
Arguments cc_reader {_ _} _.
Arguments cc_writer {_ _} _.

Section Wrapper.
Context `{Snappy} {W : Type} `{NetConn W}.

(** [CompressedConn.Read(b)] *)
Definition cc_Read (n : nat) (c : CompressedConn W)
    : outcome (result (list byte) * CompressedConn W) :=
  '(r, (sr, w)) ← sr_Read W nc_Read n (c.(cc_reader), c.(cc_Conn));
  Done (r, mkCC w sr c.(cc_writer)).

(** [CompressedConn.Write(b)]: the write, then a flush. *)
Definition cc_Write (b : list byte) (c : CompressedConn W)
    : outcome (Z * option error * CompressedConn W) :=
  '((n, err, sw), w) ← run_prog (sw_Write b c.(cc_writer)) c.(cc_Conn);
  match err with
  | Some e => Done (n, Some e, mkCC w c.(cc_reader) sw)
  | None =>
      '((err, sw), w) ← run_prog (sw_Flush sw) w;
      match err with
      | Some e => Done (n, Some e, mkCC w c.(cc_reader) sw)
      | None => Done (n, None, mkCC w c.(cc_reader) sw)
      end
  end.

(** [CompressedConn.Close()]: the error of the writer's [Close] is dropped. *)
Definition cc_Close (c : CompressedConn W) : outcome (option error * CompressedConn W) :=
  '((_, sw), w) ← run_prog (sw_Close c.(cc_writer)) c.(cc_Conn);
  let '(err, w) := nc_Close w in
  Done (err, mkCC w c.(cc_reader) sw).

(** The [net.Conn] that [NewCompressedConn(conn, algo)] returns. *)
Inductive layered :=
| Passthrough (w : W)
| Compressed (c : CompressedConn W).

Definition NewCompressedConn (conn : W) (algo : string) : layered :=
  if decide (algo = "snappy")
  then Compressed (mkCC conn snappy_NewReader snappy_NewBufferedWriter)
  else Passthrough conn.

(** The connection smux gets: [upgrade], [connectAndServe] and [dialSession] wrap when
    the setting is neither empty nor [none]. *)
Definition smux_conn (algo : string) (ec : W) : layered :=
  if bool_decide (algo <> EmptyString) && bool_decide (algo <> "none")
  then NewCompressedConn ec algo
  else Passthrough ec.

Definition layered_Read (n : nat) (l : layered) : outcome (result (list byte) * layered) :=
  match l with
  | Passthrough w => '(r, w) ← nc_Read n w; Done (r, Passthrough w)
  | Compressed c => '(r, c) ← cc_Read n c; Done (r, Compressed c)
  end.
Definition layered_Write (b : list byte) (l : layered) : outcome (Z * option error * layered) :=
  match l with
  | Passthrough w => '(n, err, w) ← nc_Write b w; Done (n, err, Passthrough w)
  | Compressed c => '(n, err, c) ← cc_Write b c; Done (n, err, Compressed c)
  end.

(** Successive writes: the counts and errors. *)
Fixpoint layered_writes (ds : list (list byte)) (l : layered)
    : outcome (list (Z * option error) * layered) :=
  match ds with
  | [] => Done ([], l)
  | d :: ds =>
      '(n, err, l) ← layered_Write d l;
      '(rs, l) ← layered_writes ds l;
      Done ((n, err) :: rs, l)
  end.
End Wrapper.
Arguments layered {_} _.

(** What a connection with the given setting hands to the layer below. *)
Definition chunks `{Snappy} (algo : string) (ds : list (list byte)) : list (list byte) :=
  if decide (algo = "snappy") then flushes snappy_NewBufferedWriter ds else ds.

(** ** Lemmas: the encrypted connection below *)

Section Encrypted.
Context `{Crypto}.

Lemma send_packet_count (c c' : EncryptedConn) (data body : list byte) (w : write_entropy)
    (r : write_result) :
  send_packet c data w body = Done (r, c') -> r.(wr_err) = None -> r.(wr_n) = zlen data.
Proof.
  unfold send_packet. destruct (packet body); [|done]. cbn.
  destruct (sink_write _ _) as [[? [?|]] ?]; by intros [= <- _].
Qed.

Lemma Write_count (c c' : EncryptedConn) (data : list byte) (w : write_entropy)
    (r : write_result) :
  EncryptedConn.Write c data w = Done (r, c') -> r.(wr_err) = None -> r.(wr_n) = zlen data.
Proof.
  unfold EncryptedConn.Write.
  destruct (match obfs_on c with Some _ => _ | None => _ end) as [payload|]; [|done]. cbn.
  destruct (ec_gcm c); [|apply send_packet_count].
  destruct (we_nonce w); [apply send_packet_count|by intros [= <- _]].
Qed.

#[export] Instance enc_IoWriterLaws : IoWriterLaws enc_end.
Proof.
  split. intros b w n w' Hw. cbn in Hw.
  destruct (EncryptedConn.Write _ _ _) as [[r c]|] eqn:E; [|done].
  injection Hw as <- Herr _. by eapply Write_count.
Qed.

(** The messages [cs], each with the next draws. *)
Fixpoint drawn (draws : nat -> write_entropy) (i : nat) (cs : list (list byte))
    : list (list byte * write_entropy) :=
  match cs with
  | [] => []
  | c :: cs => (c, draws i) :: drawn draws (S i) cs
  end.

Lemma drawn_fst (draws : nat -> write_entropy) (i : nat) (cs : list (list byte)) :
  map fst (drawn draws i cs) = cs.
Proof. revert i. induction cs as [|c cs IH]; intros i; [done|]. cbn. by rewrite IH. Qed.

Lemma run_writes_accepts (draws : nat -> write_entropy) (i : nat) (cs : list (list byte))
    (c c' : EncryptedConn) (rs : list write_result) :
  run_writes c (drawn draws i cs) = Done (rs, c') ->
  Forall (fun x => x.(wr_err) = None) rs ->
  accepts (mkEnd c draws i) cs (mkEnd c' draws (i + length cs)).
Proof.
  revert i c rs. induction cs as [|b cs IH]; intros i c rs; cbn.
  - intros [= <- <-] _. rewrite Nat.add_0_r. constructor.
  - destruct (EncryptedConn.Write c b (draws i)) as [[r c1]|] eqn:Ew; [|done]. cbn.
    destruct (run_writes c1 _) as [[rs1 c2]|] eqn:Er; [|done]. cbn. intros [= <- <-].
    intros [Hr Hrs]%Forall_cons_1. econstructor.
    + cbn. rewrite Ew. cbn. rewrite Hr. by rewrite (Write_count _ _ _ _ _ Ew Hr).
    + rewrite Nat.add_succ_r, <- Nat.add_succ_l. by eapply IH.
Qed.

(** An [EncryptedConn] that holds messages is a source of their bytes. *)
Definition enc_holds (k : nat) (l : list byte) (e : enc_end) : Prop :=
  exists q, holds e.(ee_conn) q /\ l = concat q /\ k = (length (concat q) + length q)%nat.

#[export] Instance enc_source : ByteSource nc_Read enc_holds.
Proof.
  intros n k l e Hn (q & Hq & -> & ->).
  destruct (Read_refines (ee_conn e) q n Hq) as (c' & Hr & Hq' & _).
  cbn. rewrite Hr. cbn. eexists _, _. split; [done|].
  pose proof (spec_read_conserves q n) as Hc.
  destruct q as [|m q]; [split; [done|]; split; [done|]; by exists []|].
  pose proof (spec_read_progress (m :: q) n Hn ltac:(done)) as Hlt.
  destruct (spec_read (m :: q) n) as [res q1] eqn:Es. cbn in Es. injection Es as <- <-.
  cbn [fst snd] in *. split; [rewrite length_take; lia|].
  eexists _, _. split; [exact Hlt|]. split; [by rewrite Hc|]. by eexists.
Qed.
End Encrypted.

(** ** Lemmas: the wrapper *)

Section WrapperLemmas.
Context {S : Snappy} {SL : SnappyLaws S} {W : Type} `{NC : NetConn W} `{!IoWriterLaws W}.

(** The chunks of one [Write] and the writer after it. *)
Definition write_chunks (d : list byte) (sw : snappy_Writer) : list (list byte) * snappy_Writer :=
  let '(cs1, (_, _, sw)) := accept (sw_Write d sw) in
  let '(cs2, (_, sw)) := accept (sw_Flush sw) in
  (cs1 ++ cs2, sw).

Lemma flushes_cons (sw : snappy_Writer) (d : list byte) (ds : list (list byte)) :
  flushes sw (d :: ds) = (write_chunks d sw).1 ++ flushes (write_chunks d sw).2 ds.
Proof.
  unfold write_chunks. cbn. destruct (accept _) as [cs1 [[? ?] sw1]].
  destruct (accept _) as [cs2 [? sw2]]. cbn. by rewrite <- app_assoc.
Qed.

Lemma write_chunks_ok (d : list byte) (sw : snappy_Writer) :
  sw_ok sw -> sw_ok (write_chunks d sw).2.
Proof.
  intros Hok. unfold write_chunks. pose proof (Write_accepted d sw Hok) as Hw.
  destruct (accept _) as [cs1 [[n err] sw1]]. destruct Hw as (_ & _ & Hok1).
  pose proof (Flush_accepted sw1 Hok1) as Hf. destruct (accept _) as [cs2 [err2 sw2]].
  by destruct Hf as [_ ?].
Qed.

(** A connection below that takes the chunks makes the write succeed. *)
Lemma cc_Write_accepted (d : list byte) (c : CompressedConn W) (w' : W) :
  sw_ok c.(cc_writer) -> accepts c.(cc_Conn) (write_chunks d c.(cc_writer)).1 w' ->
  cc_Write d c = Done (zlen d, None, mkCC w' c.(cc_reader) (write_chunks d c.(cc_writer)).2).
Proof.
  intros Hok. unfold write_chunks, cc_Write.
  pose proof (Write_accepted d _ Hok) as Hw.
  pose proof (run_accept (sw_Write d (cc_writer c)) (cc_Conn c)) as Hr1.
  destruct (accept (sw_Write d (cc_writer c))) as [cs1 [[n err] sw1]].
  destruct Hw as (-> & -> & Hok1). cbn in Hr1.
  pose proof (Flush_accepted sw1 Hok1) as Hf.
  pose proof (run_accept (W := W) (sw_Flush sw1)) as Hr2.
  destruct (accept (sw_Flush sw1)) as [cs2 [err2 sw2]]. destruct Hf as [-> Hok2]. cbn in Hr2 |- *.
  intros (w1 & Ha1 & Ha2)%accepts_app_inv.
  rewrite (Hr1 w1 Ha1). cbn. by rewrite (Hr2 w1 w' Ha2).
Qed.

(** A write that reports success has handed its chunks down. *)
Lemma cc_Write_reported (d : list byte) (c c' : CompressedConn W) (n : Z) :
  sw_ok c.(cc_writer) -> cc_Write d c = Done (n, None, c') ->
  n = zlen d /\ c'.(cc_writer) = (write_chunks d c.(cc_writer)).2 /\
  c'.(cc_reader) = c.(cc_reader) /\
  accepts c.(cc_Conn) (write_chunks d c.(cc_writer)).1 c'.(cc_Conn).
Proof.
  intros Hok. unfold write_chunks, cc_Write.
  pose proof (Write_accepted d _ Hok) as Hw.
  pose proof (run_honest (W := W) (fun x => x.1.2) (sw_Write d (cc_writer c))) as Hh1.
  destruct (run_prog (sw_Write d (cc_writer c)) (cc_Conn c)) as [[[[n1 [e|]] sw1] w1]|] eqn:E1;
    [done| |done]. cbn.
  destruct (Hh1 _ _ _ (Write_honest _ _) E1 eq_refl) as [Ea Ha1].
  destruct (accept (sw_Write d (cc_writer c))) as [cs1 [[n2 err] sw2]].
  destruct Hw as (-> & -> & Hok1). cbn in Ea, Ha1. injection Ea as -> ->.
  pose proof (run_honest (W := W) fst (sw_Flush sw2)) as Hh2.
  destruct (run_prog (sw_Flush sw2) w1) as [[[[e|] sw3] w3]|] eqn:E2; [done| |done]. cbn.
  destruct (Hh2 _ _ _ (Flush_honest _) E2 eq_refl) as [Ea Ha2].
  destruct (accept (sw_Flush sw2)) as [cs2 [err2 sw4]]. cbn in Ea, Ha2. injection Ea as -> ->.
  intros [= <- <-]. cbn. split; [done|]. split; [done|]. split; [done|]. by eapply accepts_app.
Qed.

(** A run of writes over a connection that takes their chunks. *)
Lemma cc_writes_accepted (ds : list (list byte)) (c : CompressedConn W) (w' : W) :
  sw_ok c.(cc_writer) -> accepts c.(cc_Conn) (flushes c.(cc_writer) ds) w' ->
  exists sw, layered_writes ds (Compressed c) =
    Done (map (fun d => (zlen d, None)) ds, Compressed (mkCC w' c.(cc_reader) sw)).
Proof.
  revert c. induction ds as [|d ds IH]; intros c Hok Ha.
  - inversion Ha; subst. exists (cc_writer c). by destruct c.
  - rewrite flushes_cons in Ha. apply accepts_app_inv in Ha as (w1 & H1 & H2).
    cbn [layered_writes layered_Write]. rewrite (cc_Write_accepted d c w1 Hok H1). cbn.
    destruct (IH (mkCC w1 (cc_reader c) (write_chunks d (cc_writer c)).2)
                (write_chunks_ok d _ Hok) H2) as [sw ->].
    by exists sw.
Qed.

Lemma passthrough_writes_accepted (ds : list (list byte)) (w w' : W) :
  accepts w ds w' ->
  layered_writes ds (Passthrough w) = Done (map (fun d => (zlen d, None)) ds, Passthrough w').
Proof.
  revert w. induction ds as [|d ds IH]; intros w Ha; inversion Ha as [|? ? w1 ? ? Hw Ha']; subst; [done|].
  cbn. rewrite Hw. cbn. by rewrite (IH w1 Ha').
Qed.

(** The connection under a layer. *)
Definition layered_end (l : layered W) : W :=
  match l with Passthrough w => w | Compressed c => c.(cc_Conn) end.

Lemma smux_conn_cases (algo : string) (w : W) :
  smux_conn algo w =
  if decide (algo = "snappy")
  then Compressed (mkCC w snappy_NewReader snappy_NewBufferedWriter) else Passthrough w.
Proof.
  unfold smux_conn, NewCompressedConn. destruct (decide (algo = "snappy")) as [->|Hn]; [done|].
  by destruct (_ && _).
Qed.

(** Writing through a layer: the chunks arrive below, and every write reports success. *)
Lemma layered_writes_accepted (algo : string) (ds : list (list byte)) (w w' : W) :
  accepts w (chunks algo ds) w' ->
  exists l, layered_writes ds (smux_conn algo w) = Done (map (fun d => (zlen d, None)) ds, l) /\
    layered_end l = w'.
Proof.
  rewrite smux_conn_cases. unfold chunks. case_decide; intros Ha.
  - destruct (cc_writes_accepted ds (mkCC w snappy_NewReader snappy_NewBufferedWriter) w'
                NewWriter_ok Ha) as [sw ->]. by eexists.
  - rewrite (passthrough_writes_accepted ds w w' Ha). by eexists.
Qed.

(** Reading through a layer over a source of its chunks: a source of the data. *)
Lemma layered_source (P : nat -> list byte -> W -> Prop) (algo : string) (ds : list (list byte)) :
  ByteSource nc_Read P ->
  exists Q, ByteSource layered_Read Q /\
    forall k w, P k (concat (chunks algo ds)) w -> exists k', Q k' (concat ds) (smux_conn algo w).
Proof.
  intros HP. unfold chunks. setoid_rewrite smux_conn_cases. case_decide.
  - destruct (Read_decodes W nc_Read P HP ds) as (Q & HQ & Hstart).
    exists (fun k l x => match x with Compressed c => Q k l (cc_reader c, cc_Conn c) | _ => False end).
    split; [|exact Hstart]. intros n k l [w|c] Hn Hq; [done|].
    destruct (HQ n k l _ Hn Hq) as (res & [sr w] & Hr & Hres).
    exists res, (Compressed (mkCC w sr (cc_writer c))). cbn. unfold cc_Read. by rewrite Hr.
  - exists (fun k l x => match x with Passthrough w => P k l w | _ => False end).
    split; [|by eauto]. intros n k l [w|c] Hn Hq; [|done].
    destruct (HP n k l w Hn Hq) as (res & w' & Hr & Hres).
    exists res, (Passthrough w'). cbn. by rewrite Hr.
Qed.
End WrapperLemmas.

(** The stages of [upgrade] and [connectAndServe] name the layer this connection has. *)
Lemma smux_conn_layer `{Snappy} {W} (algo : string) (w : W) :
  compress_layer algo =
  match smux_conn algo w with Passthrough _ => LEncrypted | Compressed _ => LCompressed end.
Proof.
  unfold compress_layer, smux_conn, NewCompressedConn.
  repeat case_bool_decide; repeat case_decide; cbn; naive_solver.
Qed.

(** ** A concrete codec

    Complemented bytes, collected until the flush. *)
Definition flip (b : byte) : byte := byte_of (255 - byte_val b).

Lemma flip_flip (b : byte) : flip (flip b) = b.
Proof.
  unfold flip. rewrite byte_val_of. pose proof (byte_val_range b).
  rewrite Z.mod_small by lia. replace (255 - (255 - byte_val b)) with (byte_val b) by lia.
  apply byte_of_val.
Qed.

(** The writer keeps what is not flushed yet, and its first error. *)
#[export] Instance toy_snappy : Snappy := {|
  snappy_Writer := list byte * option error;
  snappy_Reader := unit;
  snappy_NewBufferedWriter := ([], None);
  snappy_NewReader := tt;
  sw_Write d '(buf, err) :=
    match err with
    | Some e => Ret (0, Some e, (buf, err))
    | None => Ret (zlen d, None, (buf ++ d, None))
    end;
  sw_Flush '(buf, err) :=
    match err with
    | Some e => Ret (Some e, (buf, err))
    | None =>
        match buf with
        | [] => Ret (None, ([], None))
        | _ => Put (map flip buf) (fun r => Ret (r.2, ([], r.2)))
        end
    end;
  sw_Close '(buf, err) := Ret (err, (buf, err));
  sr_Read R read n '(sr, r) :=
    '(x, r) ← read n r;
    Done (match x with Ok b => Ok (map flip b) | Err e => Err e end, (sr, r))
|}.

Lemma toy_flushes (ds : list (list byte)) :
  concat (flushes (([], None) : @snappy_Writer toy_snappy) ds) = map flip (concat ds).
Proof.
  induction ds as [|[|b d] ds IH]; [done|cbn; exact IH|].
  cbn. cbn in IH. by rewrite IH, map_app.
Qed.

#[export] Instance toy_snappy_laws : SnappyLaws toy_snappy.
Proof.
  refine {| sw_ok := (fun w => w.2 = None) : @snappy_Writer toy_snappy -> Prop |}.
  - done.
  - intros d [buf err]. cbn. intros ->. done.
  - intros [buf err]. cbn. intros ->. by destruct buf.
  - intros d [buf [e|]]; done.
  - intros [[|b buf] [e|]]; cbn; try done. intros n [e|]; done.
  - intros R read P HP ds.
    exists (fun k l x => exists w, P k w x.2 /\ l = map flip w). split.
    + intros n k l [sr r] Hn (w & Hp & ->).
      destruct (HP n k w r Hn Hp) as (res & r' & Hr & Hres). cbn. rewrite Hr. cbn.
      eexists _, _. split; [done|]. destruct res as [b|e].
      * destruct Hres as (Hb & k' & w' & Hk & -> & Hp'). split; [by rewrite length_map|].
        exists k', (map flip w'). split; [done|]. split; [apply map_app|by exists w'].
      * destruct Hres as (-> & -> & Hp'). split; [done|]. split; [done|]. by exists [].
    + intros k r Hp. eexists k, _. split; [exact Hp|].
      pose proof (toy_flushes ds) as E. cbn in E |- *. rewrite E, map_map. symmetry. rewrite <- (map_id (concat ds)) at 2.
      apply map_ext. apply flip_flip.
Qed.

(** ** Properties *)

(** A compressed write reports success exactly when the connection below has taken every
    chunk of the data and its flush: nothing is lost silently, and no flushed data waits
    for a later write. *)
Theorem compressed_write_honest {S : Snappy} (SL : SnappyLaws S) {W : Type} `{NC : NetConn W} `{!IoWriterLaws W}
    (d : list byte) (c : CompressedConn W) (w' : W) :
  sw_ok c.(cc_writer) ->
  accepts c.(cc_Conn) (write_chunks d c.(cc_writer)).1 w' <->
  exists n c', cc_Write d c = Done (n, None, c') /\ n = zlen d /\ c'.(cc_Conn) = w' /\
    sw_ok c'.(cc_writer).
Proof.
  intros Hok. split.
  - intros Ha. eexists _, _. split; [by apply cc_Write_accepted|]. do 2 (split; [done|]).
    by apply write_chunks_ok.
  - intros (n & c' & Hw & _ & <- & _). by eapply cc_Write_reported.
Qed.

(** C3: The whole tunnel, compression included.  A server that has upgraded a
    request and a client that has read the response wrap their encrypted connections by
    the same [compression] setting, whatever it is.  Then every write of the server
    reports its full length, and what the client reads, into buffers of any sizes, is a
    prefix of the bytes written; and enough reads give all of them. *)
Theorem compressed_tunnel {C : Crypto} (CL : CryptoLaws C) {S : Snappy} (SL : SnappyLaws S)
    (d : SmuxSettings) (cfg ccfg : Config) (ul : uplink) (conn : hijacked) (t : list up_event)
    (sv : EncryptedConn) (draws cdraws : nat -> write_entropy) (ds : list (list byte))
    (close_body : string -> string) (cout : sink) (sizes : list nat) (n : nat) :
  ul.(ul_hijacker) = true -> ul.(ul_hijack) = Ok conn -> conn.(hj_out) = mkSink [] None ->
  upgrade d cfg ul = (t, Some sv) ->
  cfg.(cfg_PSK) = ccfg.(cfg_PSK) -> cfg.(cfg_Compression) = ccfg.(cfg_Compression) ->
  cfg.(cfg_Obfs).(Obfs_Enabled) = ccfg.(cfg_Obfs).(Obfs_Enabled) ->
  wf_obfs cfg.(cfg_Obfs) ->
  Forall (sendable sv) (drawn draws 0 (chunks cfg.(cfg_Compression) ds)) ->
  Forall (fun k => 0 < k)%nat sizes -> (0 < n)%nat ->
  exists l rest cl,
    layered_writes ds (smux_conn cfg.(cfg_Compression) (mkEnd sv draws 0)) =
      Done (map (fun b => (zlen b, None)) ds, l) /\
    finish_handshake close_body (k_bytes (layered_end l).(ee_conn).(ec_out)) = Ok rest /\
    NewEncryptedConn (mkStream rest EOF) cout ccfg.(cfg_PSK) (Some ccfg.(cfg_Obfs)) = Ok cl /\
    let rd := smux_conn ccfg.(cfg_Compression) (mkEnd cl cdraws 0) in
    (exists xs rd' l', reads layered_Read sizes rd = Done (xs, rd') /\
       concat ds = delivered xs ++ l') /\
    exists m0, forall m, (m0 <= m)%nat ->
      exists xs rd', reads layered_Read (replicate m n) rd = Done (xs, rd') /\
        delivered xs = concat ds.
Proof.
  intros Hh Hc Hout Hup Hpsk Hcomp Hobfs Hwf Hs Hsizes Hn. rewrite <- Hcomp.
  destruct (upgraded_client CL d cfg ccfg ul conn t sv (drawn draws 0 (chunks (cfg_Compression cfg) ds))
              close_body cout Hh Hc Hout Hup Hpsk Hobfs Hwf Hs)
    as (rs & sv' & rest & cl & Hr & Hok & Hf & Hcl & Hh').
  rewrite drawn_fst in Hh'. apply run_writes_accepts in Hr; [|done].
  destruct (layered_writes_accepted (NC := enc_NetConn) _ _ _ _ Hr) as (l & Hl & He).
  exists l, rest, cl. split; [exact Hl|]. rewrite He. split; [exact Hf|]. split; [exact Hcl|].
  destruct (layered_source enc_holds (cfg_Compression cfg) ds enc_source) as (Q & HQ & Hstart).
  destruct (Hstart _ (mkEnd cl cdraws 0) (ex_intro _ _ (conj Hh' (conj eq_refl eq_refl))))
    as (k & Hq). split.
  - destruct (source_prefix sizes _ _ _ Hsizes Hq) as (xs & rd' & _ & l' & Hx & Hd & _). eauto.
  - exists k. intros m Hm. by apply (source_drain (P := Q) n m k).
Qed.

(** ** Witnesses *)

Definition snappy_config : Config := up_config <| cfg_Compression := "snappy" |>.
Definition toy_data : list (list byte) := [bytes_of "hello "; []; bytes_of "world"].

(** What the client reads is what the server wrote, through a codec, a cipher and padding. *)
Lemma compressed_tunnel_witness :
  exists t sv l rest cl m xs rd',
    upgrade smux_defaults snappy_config up_link = (t, Some sv) /\
    layered_writes toy_data (smux_conn "snappy" (mkEnd sv (fun _ => toy_entropy) 0)) =
      Done ([(6, None); (0, None); (5, None)], l) /\
    finish_handshake (fun s => s) (k_bytes (layered_end l).(ee_conn).(ec_out)) = Ok rest /\
    NewEncryptedConn (mkStream rest EOF) (mkSink [] None) "secret" (Some toy_obfs) = Ok cl /\
    reads layered_Read (replicate m 4%nat) (smux_conn "snappy" (mkEnd cl (fun _ => toy_entropy) 0))
      = Done (xs, rd') /\ delivered xs = bytes_of "hello world".
Proof.
  destruct (upgrade smux_defaults snappy_config up_link) as [t [sv|]] eqn:E; [|discriminate E].
  assert (Esv : sv = mkEC (Some (sha256_Sum256 (bytes_of "secret"))) (Some toy_obfs) []
                       (mkStream [] EOF) (mkSink [bytes_of switchResp] None))
    by (vm_compute in E; injection E as _ <-; reflexivity).
  assert (Hs : Forall (sendable sv) (drawn (fun _ => toy_entropy) 0 (chunks "snappy" toy_data))).
  { rewrite Esv. repeat constructor; cbn; try discriminate; vm_compute; discriminate. }
  assert (Hwf : wf_obfs (cfg_Obfs snappy_config)) by (unfold wf_obfs; cbn; lia).
  destruct (compressed_tunnel toy_crypto_laws toy_snappy_laws smux_defaults snappy_config
    snappy_config up_link up_conn t sv (fun _ => toy_entropy) (fun _ => toy_entropy) toy_data
    (fun s => s) (mkSink [] None) [] 4 eq_refl eq_refl eq_refl E eq_refl eq_refl eq_refl Hwf Hs
    (List.Forall_nil _) ltac:(lia)) as (l & rest & cl & H1 & H2 & H3 & _ & m & H4).
  destruct (H4 m (le_n m)) as (xs & rd' & H5 & H6).
  exists t, sv, l, rest, cl, m, xs, rd'. split; [reflexivity|]. split; [exact H1|].
  split; [exact H2|]. split; [exact H3|]. split; [exact H5|]. exact H6.
Defined.
