(* ===== verification/Standby.v ===== *)
(** * Warm standby sessions ([standbyManager] and [poolWorker] of [client.go])

    [standbyManager] dials sessions ahead and offers them on the channel [standbyCh], which
    holds one; a worker whose session has ended takes one instead of dialling.  The
    manager, the workers and the sessions' own ends interleave; a session is an identity,
    and the relation tracks who is responsible for closing it. *)

From stdpp Require Import gmap sets relations.
From S2P Require Import Prelude Steps.

Local Open Scope list_scope.

Abbreviation sid := positive (only parsing).

(** ** State *)

(** [standbyManager]: waiting or dialling, offering a session, returned. *)
Inductive manager := MDial | MSend (s : sid) | MDone.

(** The channel's buffer, the sessions that workers serve, the sessions made by
    [dialSession] and the closed ones, and [ctx]. *)
Record World := mkWorld {
  sb_mgr : manager;
  sb_ch : option sid;
  sb_serving : list sid;
  sb_made : gset sid;
  sb_closed : gset sid;
  sb_cancelled : bool
}.
#[export] Instance eta_World : Eta World := fun w =>
  mkWorld w.(sb_mgr) w.(sb_ch) w.(sb_serving) w.(sb_made) w.(sb_closed) w.(sb_cancelled).

Definition init : World := mkWorld MDial None [] ∅ ∅ false.

Definition close (s : sid) (w : World) : World := w <| sb_closed ::= fun c => {[s]} ∪ c |>.

(** ** Steps *)

(** [dialSession] has returned [s] to the manager; its error leaves the state alone. *)
Definition mgr_dialled (s : sid) (w : World) : World :=
  match w.(sb_mgr) with
  | MDial => w <| sb_mgr := MSend s |> <| sb_made ::= fun m => {[s]} ∪ m |>
  | _ => w
  end.

(** [c.standbyCh <- sess]: possible when the buffer is empty. *)
Definition mgr_send (w : World) : World :=
  match w.(sb_mgr), w.(sb_ch) with
  | MSend s, None => w <| sb_ch := Some s |> <| sb_mgr := MDial |>
  | _, _ => w
  end.

(** The manager sees that [ctx] is done: it closes the session it offers. *)
Definition mgr_stop (w : World) : World :=
  if w.(sb_cancelled) then
    match w.(sb_mgr) with
    | MSend s => close s w <| sb_mgr := MDone |>
    | MDial => w <| sb_mgr := MDone |>
    | MDone => w
    end
  else w.

(** [standby := <-c.standbyCh] of a worker: an open session is served, a closed one
    dropped. *)
Definition worker_take (w : World) : World :=
  match w.(sb_ch) with
  | Some s =>
      let w := w <| sb_ch := None |> in
      if decide (s ∈ w.(sb_closed)) then w else w <| sb_serving ::= cons s |>
  | None => w
  end.

(** [AcceptStream] of a served session has failed, or [ctx] is done: the worker removes
    the session from the pool and closes it. *)
Definition worker_end (p1 p2 : list sid) (s : sid) (w : World) : World :=
  close s (w <| sb_serving := p1 ++ p2 |>).

Inductive step : World -> World -> Prop :=
| step_dialled w s : s ∉ w.(sb_made) -> step w (mgr_dialled s w)
| step_send w : step w (mgr_send w)
| step_stop w : step w (mgr_stop w)
| step_take w : step w (worker_take w)
| step_end w p1 p2 s : w.(sb_serving) = p1 ++ s :: p2 -> step w (worker_end p1 p2 s w)
| step_die w s : s ∈ w.(sb_made) -> step w (close s w)
| step_cancel w : step w (w <| sb_cancelled := true |>).

Definition reachable (w : World) : Prop := rtc step init w.

(** ** The invariant *)

(** The sessions nobody serves yet, and all that someone is responsible for. *)
Definition waiting (w : World) : list sid :=
  match w.(sb_mgr) with MSend s => [s] | _ => [] end ++
  match w.(sb_ch) with Some s => [s] | None => [] end.
Definition owned (w : World) : list sid := waiting w ++ w.(sb_serving).

Definition inv (w : World) : Prop := ownership w.(sb_made) w.(sb_closed) (owned w).

(** ** Lemmas *)

Lemma standby_step_inv (w w' : World) : step w w' -> inv w -> inv w'.
Proof.
  intros Hs Hw. destruct Hs as [w s Hs|w|w|w|w p1 p2 s Hs|w s Hs|w].
  - unfold mgr_dialled. destruct w as [[]]; cbn in *; [|done..]. by apply (own_gain _ _ _ _ s Hw).
  - unfold mgr_send. destruct w as [[] []]; cbn; done.
  - unfold mgr_stop. destruct w as [[|s|] ch sv m c []]; cbn; try done.
    eapply (own_release _ _ _ _ _ s Hw); cbn; try done; set_solver.
  - unfold worker_take. destruct w as [mg [s|] sv m c cc]; cbn; [|done]. case_decide.
    + eapply (own_release _ _ _ _ _ s Hw); cbn; try done. unfold owned, waiting. cbn.
      rewrite app_nil_r, <- app_assoc. symmetry. apply Permutation_middle.
    + apply (own_permute _ _ _ _ _ Hw); cbn; try done. unfold owned, waiting. cbn.
      rewrite app_nil_r, <- app_assoc. cbn. done.
  - eapply (own_release _ _ _ _ _ s Hw); cbn; try done; [|set_solver..]. unfold owned, waiting. cbn.
    rewrite Hs, !app_assoc. symmetry. apply Permutation_middle.
  - apply (own_permute _ _ _ _ _ Hw); cbn; try done. set_solver.
  - exact Hw.
Qed.

Lemma standby_reachable_inv (w : World) : reachable w -> inv w.
Proof.
  intros Hw. assert (Hrtc : forall a b, rtc step a b -> inv a -> inv b)
    by (induction 1; eauto using standby_step_inv).
  eapply Hrtc; [exact Hw|]. split; cbn; [constructor|intros s Hs; by apply elem_of_nil in Hs|set_solver].
Qed.

(** ** Properties *)

(** No standby session is lost or used twice.  In every interleaving each session the
    manager has dialled is closed or has exactly one owner (the manager, the channel, or
    one worker that serves it), and at most two are waiting.  When the manager has
    returned and no worker serves one, all are closed but for the one in the channel. *)
Theorem standby_sessions_owned (w : World) :
  reachable w ->
  NoDup (owned w) /\ (forall s, s ∈ owned w -> s ∈ w.(sb_made)) /\
  (forall s, s ∈ w.(sb_made) -> s ∈ w.(sb_closed) \/ s ∈ owned w) /\
  (length (waiting w) <= 2)%nat /\
  (w.(sb_mgr) = MDone -> w.(sb_serving) = [] ->
   forall s, s ∈ w.(sb_made) -> s ∈ w.(sb_closed) \/ w.(sb_ch) = Some s).
Proof.
  intros [H1 H2 H3]%standby_reachable_inv. do 3 (split; [done|]). split.
  - unfold waiting. destruct (sb_mgr w), (sb_ch w); cbn; lia.
  - intros Hm Hsv s [?|Hs]%H3; [by left|right]. unfold owned, waiting in Hs.
    rewrite Hm, Hsv, app_nil_r in Hs. destruct (sb_ch w) as [x|]; [|by apply elem_of_nil in Hs].
    apply elem_of_cons in Hs as [->|[]%elem_of_nil]. done.
Qed.

(** The channel is buffered, so the manager does not wait for its session to be
    consumed: two warm sessions are kept, not one.  After a shutdown in that state the one
    in the channel stays open for good: nothing is left that would close it. *)
Theorem two_standbys_and_a_leak :
  exists w1 w2 s s',
    reachable w1 /\ waiting w1 = [s'; s] /\ s <> s' /\ s ∉ w1.(sb_closed) /\ s' ∉ w1.(sb_closed) /\
    rtc step w1 w2 /\ w2.(sb_cancelled) = true /\ w2.(sb_mgr) = MDone /\ w2.(sb_serving) = [] /\
    s' ∈ w2.(sb_closed) /\ s ∉ w2.(sb_closed).
Proof.
  set (w1 := mgr_dialled 2 (mgr_send (mgr_dialled 1 init))).
  exists w1, (mgr_stop (w1 <| sb_cancelled := true |>)), 1%positive, 2%positive.
  assert (Hno : forall x (X : gset positive), bool_decide (x ∈ X) = false -> x ∉ X)
    by (intros x X H; by apply bool_decide_eq_false in H).
  split.
  { eapply rtc_l; [by apply (step_dialled init 1), Hno|]. eapply rtc_l; [apply step_send|].
    eapply rtc_l; [by apply (step_dialled _ 2), Hno|]. done. }
  do 2 (split; [done|]). split; [by apply Hno|]. split; [by apply Hno|].
  split; [eapply rtc_l; [apply step_cancel|]; eapply rtc_l; [apply step_stop|]; done|].
  do 3 (split; [done|]). split; [vm_compute; reflexivity|by apply Hno].
Qed.

(** ** Witnesses *)

(** One session served, one in the channel, one offered. *)
Definition busy : World :=
  mgr_dialled 3 (mgr_send (mgr_dialled 2 (worker_take (mgr_send (mgr_dialled 1 init))))).

Lemma standby_sessions_owned_witness : reachable busy /\ NoDup [3; 2; 1]%positive.
Proof.
  assert (Hno : forall x (X : gset positive), bool_decide (x ∈ X) = false -> x ∉ X)
    by (intros x X H; by apply bool_decide_eq_false in H).
  assert (Hr : reachable busy).
  { eapply rtc_l; [by apply (step_dialled init 1), Hno|]. eapply rtc_l; [apply step_send|].
    eapply rtc_l; [apply step_take|]. eapply rtc_l; [by apply (step_dialled _ 2), Hno|].
    eapply rtc_l; [apply step_send|]. eapply rtc_l; [by apply (step_dialled _ 3), Hno|]. done. }
  split; [exact Hr|]. exact (proj1 (standby_sessions_owned busy Hr)).
Defined.
