(* ===== verification/Dns.v ===== *)
(** * DNS over the tunnel ([dns.go])

    The cache ([dnsCache]) and the handling of one query ([handleQuery]).  A query
    runs in a goroutine of its own, so a panic in it ends the process.  Times are
    nanoseconds; the tunnel stream is an argument. *)

From stdpp Require Import gmap strings.
From S2P Require Import Prelude GoStrings GoBytes.
From Stdlib Require Import Init.Byte.

Local Open Scope string_scope.
Local Open Scope list_scope.
Local Open Scope Z_scope.

(** ** The cache *)

(** [dnsCacheEntry], [dnsCache] *)
Record dnsCacheEntry := mkEntry { dc_response : list byte; dc_expiresAt : Z }.
Abbreviation dnsCache := (gmap string dnsCacheEntry) (only parsing).

(** [Get(key)] at time [now]; [None] is [ok = false]. *)
Definition Get (now : Z) (key : string) (c : dnsCache) : option (list byte) :=
  match c !! key with
  | None => None
  | Some entry => if entry.(dc_expiresAt) <? now then None else Some entry.(dc_response)
  end.

(** [Set(key, response, ttl)] *)
Definition Set_ (now : Z) (key : string) (response : list byte) (ttl : Z) (c : dnsCache)
    : dnsCache :=
  <[key := mkEntry response (now + ttl)]> c.

(** The loop of [Cleanup()] over the keys in the order Go picks. *)
Definition cleanup_key (now : Z) (c : dnsCache) (key : string) : dnsCache :=
  match c !! key with
  | Some v => if v.(dc_expiresAt) <? now then delete key c else c
  | None => c
  end.
Definition Cleanup (now : Z) (order : list string) (c : dnsCache) : dnsCache :=
  foldl (cleanup_key now) c order.

(** ** Queries *)

(** What a tunnel stream does with a query: the [Write], then the one [Read] into 4096
    bytes. *)
Record dns_stream := mkDnsStream {
  ds_write : option error;
  ds_read : result (list byte)
}.

(** What [handleQuery] does: the streams it opens, the reply it sends, if any. *)
Record query_result := mkQR {
  qr_opened : bool;
  qr_reply : option (list byte)
}.

Definition cache_ttl : Z := 60 * Second.

(** The size of the buffers for queries and responses. *)
Definition dns_buffer : nat := Z.to_nat 4096.

(** [handleQuery(conn, clientAddr, query)]: [now] is the time of the lookup, [later] the
    time of the [Set]. *)
Definition handleQuery (now later : Z) (open : result dns_stream) (query : list byte)
    (c : dnsCache) : outcome (query_result * dnsCache) :=
  tail ← slice query 2 (zlen query);
  let cacheKey := string_of tail in
  match Get now cacheKey c with
  | Some resp =>
      (* copy(reply[:2], query[:2]) *)
      _ ← slice resp 0 2;
      id ← slice query 0 2;
      Done (mkQR false (Some (copy_into resp id)), c)
  | None =>
      match open with
      | Err _ => Done (mkQR false None, c)
      | Ok s =>
          match s.(ds_write), s.(ds_read) with
          | Some _, _ => Done (mkQR true None, c)
          | None, Err _ => Done (mkQR true None, c)
          | None, Ok data =>
              let resp := take dns_buffer data in
              if zlen resp =? 0 then Done (mkQR true None, c)
              else Done (mkQR true (Some resp), Set_ later cacheKey resp cache_ttl c)
          end
      end
  end.

(** ** Lemmas *)

Lemma Get_insert (t : Z) (k : string) (v : dnsCacheEntry) (c : dnsCache) :
  Get t k (<[k := v]> c) = if v.(dc_expiresAt) <? t then None else Some v.(dc_response).
Proof. unfold Get. by rewrite lookup_insert_eq. Qed.

Lemma cleanup_key_Get (now t : Z) (key k : string) (c : dnsCache) :
  now <= t -> Get t k (cleanup_key now c key) = Get t k c.
Proof.
  intros Ht. unfold cleanup_key. destruct (c !! key) as [v|] eqn:Ek; [|done].
  destruct (Z.ltb_spec (dc_expiresAt v) now); [|done]. unfold Get.
  destruct (decide (k = key)) as [->|Hne]; [|by rewrite lookup_delete_ne].
  rewrite lookup_delete_eq, Ek. by destruct (Z.ltb_spec (dc_expiresAt v) t); [|lia].
Qed.

Lemma cleanup_key_lookup (now : Z) (key k : string) (c : dnsCache) :
  cleanup_key now c key !! k =
  match c !! k with
  | Some v => if bool_decide (k = key) && (v.(dc_expiresAt) <? now) then None else Some v
  | None => None
  end.
Proof.
  unfold cleanup_key. destruct (decide (k = key)) as [->|Hne].
  - rewrite bool_decide_true by done. destruct (c !! key) as [v|] eqn:Ek; [|done]. cbn.
    destruct (dc_expiresAt v <? now); [by rewrite lookup_delete_eq|done].
  - rewrite bool_decide_false by done. cbn. destruct (c !! key) as [v|]; [|by destruct (c !! k)].
    destruct (dc_expiresAt v <? now); [rewrite lookup_delete_ne by done|]; by destruct (c !! k).
Qed.

Lemma Cleanup_lookup (now : Z) (order : list string) (k : string) (c : dnsCache) :
  Cleanup now order c !! k =
  match c !! k with
  | Some v => if bool_decide (k ∈ order) && (v.(dc_expiresAt) <? now) then None else Some v
  | None => None
  end.
Proof.
  unfold Cleanup. revert c. induction order as [|key order IH]; intros c; cbn.
  - by destruct (c !! k).
  - rewrite IH, cleanup_key_lookup. destruct (c !! k) as [v|]; [|done].
    destruct (decide (k = key)) as [->|Hne].
    + rewrite (bool_decide_true (key = key)), (bool_decide_true (key ∈ key :: order)) by set_solver.
      cbn. destruct (dc_expiresAt v <? now) eqn:E; cbn; [done|by rewrite E, andb_false_r].
    + rewrite (bool_decide_false (k = key)) by done. cbn.
      by rewrite (bool_decide_ext (k ∈ order) (k ∈ key :: order)) by set_solver.
Qed.

Lemma slice_head {A} (l : list A) : (2 <= length l)%nat -> slice l 0 2 = Done (take 2 l).
Proof. intros Hl. rewrite slice_done by (unfold zlen; lia). by rewrite drop_0. Qed.

Lemma slice_tail {A} (l : list A) : (2 <= length l)%nat -> slice l 2 (zlen l) = Done (drop 2 l).
Proof.
  intros Hl. rewrite slice_done by (unfold zlen; lia). cbn [Z.to_nat].
  change (Z.to_nat 2) with 2%nat. rewrite take_ge; [done|].
  rewrite length_drop. unfold zlen. lia.
Qed.

Lemma slice_short {A} (l : list A) (hi : Z) :
  (length l < 2)%nat -> slice l 2 (zlen l) = Panic SliceOutOfRange.
Proof. intros Hl. apply slice_panic. unfold zlen. lia. Qed.

Lemma string_of_inj (a b : list byte) : string_of a = string_of b -> a = b.
Proof. intros E. by rewrite <- (bytes_of_string_of a), E, bytes_of_string_of. Qed.

(** A query of at least two bytes that misses, on a stream that answers. *)
Lemma handleQuery_miss (now later : Z) (q data : list byte) (c : dnsCache) :
  (2 <= length q)%nat -> Get now (string_of (drop 2 q)) c = None -> data <> [] ->
  handleQuery now later (Ok (mkDnsStream None (Ok data))) q c =
  Done (mkQR true (Some (take dns_buffer data)),
        Set_ later (string_of (drop 2 q)) (take dns_buffer data) cache_ttl c).
Proof.
  intros Hq Hmiss Hdata. unfold handleQuery. rewrite slice_tail by done.
  cbn [mbind outcome_bind]. rewrite Hmiss. cbn [ds_write ds_read].
  destruct (Z.eqb_spec (zlen (take dns_buffer data)) 0) as [E|]; [|done].
  unfold zlen in E. rewrite length_take in E. destruct data; [done|]. unfold dns_buffer in E. cbn [length] in E. lia.
Qed.

Lemma handleQuery_hit (now later : Z) (open : result dns_stream) (q resp : list byte)
    (c : dnsCache) :
  (2 <= length q)%nat -> Get now (string_of (drop 2 q)) c = Some resp ->
  handleQuery now later open q c =
  if (2 <=? length resp)%nat then Done (mkQR false (Some (take 2 q ++ drop 2 resp)), c)
  else Panic SliceOutOfRange.
Proof.
  intros Hq Hhit. unfold handleQuery. rewrite slice_tail by done. cbn [mbind outcome_bind].
  rewrite Hhit. destruct (Nat.leb_spec 2 (length resp)).
  - rewrite slice_head by done. cbn [mbind outcome_bind]. rewrite slice_head by done.
    cbn [mbind outcome_bind]. rewrite copy_into_fits by (rewrite length_take; lia).
    by rewrite length_take, Nat.min_l by done.
  - by rewrite (slice_panic resp) by (unfold zlen; lia).
Qed.

(** ** Properties *)

(** The cache.  A stored response is found under its key until its time to live is
    over and never after; storing leaves the other keys alone; and a cleanup, in any
    order of the map, is invisible to every later lookup and removes exactly the
    expired entries. *)
Theorem dns_cache_spec (now t ttl : Z) (key k : string) (resp : list byte) (order : list string)
    (c : dnsCache) :
  now <= t ->
  (Get t key (Set_ now key resp ttl c) = if now + ttl <? t then None else Some resp) /\
  (k <> key -> Get t k (Set_ now key resp ttl c) = Get t k c) /\
  Get t k (Cleanup now order c) = Get t k c /\
  (order ≡ₚ elements (dom c) ->
     forall v, Cleanup now order c !! k = Some v <-> c !! k = Some v /\ now <= v.(dc_expiresAt)).
Proof.
  intros Ht. split; [|split; [|split]].
  - unfold Set_. by rewrite Get_insert.
  - intros Hne. unfold Get, Set_. by rewrite lookup_insert_ne.
  - unfold Cleanup. revert c. induction order as [|x order IH]; intros c; [done|].
    cbn. by rewrite IH, cleanup_key_Get.
  - intros Ho v. rewrite Cleanup_lookup. destruct (c !! k) as [v'|] eqn:Ek; [|naive_solver].
    rewrite bool_decide_true by (rewrite Ho; apply elem_of_elements; by apply elem_of_dom_2 in Ek).
    cbn. destruct (Z.ltb_spec (dc_expiresAt v') now).
    + split; [done|]. intros [[= ->] ?]. lia.
    + split; [intros [= ->]; done|]. by intros [[= ->] _].
Qed.

(** A repeated question is answered from the cache.  After a query was answered through
    the tunnel, any query with the same bytes after its transaction id gets, within the
    60 s and without opening a stream, the same response under its own id, and the
    cache stays as it is. *)
Theorem dns_repeat_answered (now later now' later' : Z) (open : result dns_stream)
    (q q' data : list byte) (c : dnsCache) :
  (2 <= length q)%nat -> (2 <= length q')%nat -> drop 2 q' = drop 2 q ->
  Get now (string_of (drop 2 q)) c = None -> (2 <= length data)%nat ->
  now' <= later + cache_ttl ->
  exists c',
    handleQuery now later (Ok (mkDnsStream None (Ok data))) q c =
      Done (mkQR true (Some (take dns_buffer data)), c') /\
    handleQuery now' later' open q' c' =
      Done (mkQR false (Some (take 2 q' ++ drop 2 (take dns_buffer data))), c').
Proof.
  intros Hq Hq' Htail Hmiss Hdata Htime. eexists. split.
  - apply handleQuery_miss; [done|done|]. intros ->. cbn in Hdata. lia.
  - rewrite (handleQuery_hit _ _ _ q' (take dns_buffer data)); [|done|].
    + by rewrite (proj2 (Nat.leb_le 2 _)) by (rewrite length_take; unfold dns_buffer; lia).
    + rewrite Htail. unfold Set_. rewrite Get_insert. cbn [dc_expiresAt dc_response].
      by destruct (Z.ltb_spec (later + cache_ttl) now'); [lia|].
Qed.

(** [handleQuery] panics, and with it the client process, exactly on a query of fewer
    than two bytes, and on a query whose cached response has fewer than two bytes. *)
Theorem handleQuery_panics_iff (now later : Z) (open : result dns_stream) (q : list byte)
    (c : dnsCache) :
  is_done (handleQuery now later open q c) = false <->
  (length q < 2)%nat \/
  (exists resp, Get now (string_of (drop 2 q)) c = Some resp /\ (length resp < 2)%nat).
Proof.
  destruct (Nat.ltb_spec (length q) 2) as [Hs|Hl].
  { split; [by left|]. intros _. unfold handleQuery. by rewrite slice_short. }
  destruct (Get now (string_of (drop 2 q)) c) as [resp|] eqn:E.
  - rewrite (handleQuery_hit _ _ _ _ resp) by done.
    destruct (Nat.leb_spec 2 (length resp)); split; try done; try lia.
    + intros [?|(r & [= <-] & ?)]; lia.
    + intros _. right. by exists resp.
  - split; [|intros [?|(r & ? & _)]; [lia|done]].
    unfold handleQuery. rewrite slice_tail by done. cbn [mbind outcome_bind]. rewrite E.
    destruct open as [s|]; [|done].
    destruct (ds_write s), (ds_read s); try done. by destruct (_ =? 0).
Qed.

(** ** Witnesses *)

Definition sample_query (id : byte) : list byte := [id; x01; x41; x42].

Lemma dns_cache_spec_witness :
  Get 100 "k" (Set_ 0 "k" [x01] 50 ∅) = None /\ Get 100 "j" (Cleanup 0 [] ∅) = None.
Proof.
  destruct (dns_cache_spec 0 100 50 "k" "j" [x01] [] ∅ ltac:(lia)) as (H1 & _ & H3 & _).
  split; [rewrite H1; reflexivity|rewrite H3; reflexivity].
Defined.

Lemma dns_repeat_answered_witness :
  exists c',
    handleQuery Second Second (Err EOF) (sample_query x09) c' =
      Done (mkQR false (Some [x09; x01; x55]), c').
Proof.
  destruct (dns_repeat_answered 0 0 Second Second (Err EOF) (sample_query x07) (sample_query x09)
              [x07; x01; x55] ∅) as (c' & _ & H2);
    [cbn; lia|cbn; lia|reflexivity|reflexivity|cbn; lia|vm_compute; discriminate|].
  exists c'. exact H2.
Defined.
