(* ===== verification/DnsProxy.v ===== *)
(** * The DNS proxy as a whole ([DNSProxy.Start] of [dns.go])

    [Start] answers every datagram in a goroutine of its own; they share the cache, and
    the cleanup ticker runs among them.  Here [handleQuery] is cut at the calls where a
    goroutine can wait, its steps interleave with those of the others, and a ghost list
    records what upstream answered. *)

From stdpp Require Import gmap strings relations list.
From S2P Require Import Prelude GoStrings GoBytes Target ClientPool Dns.
From Stdlib Require Import Init.Byte.

Local Open Scope string_scope.
Local Open Scope list_scope.
Local Open Scope Z_scope.

(** ** One query *)

(** Where [handleQuery] is: before the lookup, [OpenStream], [Write], [Read], [Set] and
    [WriteToUDP]; returned, its stream closed. *)
Inductive dq_pc :=
| Looking
| Missed
| Opened
| Asked
| Answered (resp : list byte)
| Stored (resp : list byte)
| Finished.

(** What the call a goroutine is in returns: the error of [OpenStream] or [Write], or the
    [Read]. *)
Inductive dq_env :=
| EnvLocal
| EnvErr (e : option error)
| EnvRead (r : result (list byte)).

(** One step of [handleQuery(conn, clientAddr, query)] at time [now]: the next place, the
    cache, and the reply sent, if one is.  [None] when [env] does not fit the place. *)
Definition dq_step (now : Z) (query : list byte) (pc : dq_pc) (env : dq_env) (c : dnsCache)
    : outcome (option (dq_pc * dnsCache * option (list byte))) :=
  match pc, env with
  | Looking, EnvLocal =>
      tail ← slice query 2 (zlen query);
      match Get now (string_of tail) c with
      | Some resp =>
          _ ← slice resp 0 2;
          id ← slice query 0 2;
          Done (Some (Finished, c, Some (copy_into resp id)))
      | None => Done (Some (Missed, c, None))
      end
  | Missed, EnvErr None => Done (Some (Opened, c, None))
  | Missed, EnvErr (Some _) => Done (Some (Finished, c, None))
  | Opened, EnvErr None => Done (Some (Asked, c, None))
  | Opened, EnvErr (Some _) => Done (Some (Finished, c, None))
  | Asked, EnvRead (Err _) => Done (Some (Finished, c, None))
  | Asked, EnvRead (Ok data) =>
      let resp := take dns_buffer data in
      if zlen resp =? 0 then Done (Some (Finished, c, None))
      else Done (Some (Answered resp, c, None))
  | Answered resp, EnvLocal =>
      Done (Some (Stored resp, Set_ now (string_of (drop 2 query)) resp cache_ttl c, None))
  | Stored resp, EnvLocal => Done (Some (Finished, c, Some resp))
  | _, _ => Done None
  end.

(** ** The proxy *)

Record flight := mkFlight { fl_addr : string; fl_query : list byte; fl_pc : dq_pc }.
#[export] Instance eta_flight : Eta flight := fun f =>
  mkFlight f.(fl_addr) f.(fl_query) f.(fl_pc).

(** The clock, the cache, the goroutines in the order they were started, the replies with
    the goroutine that sent each, and what upstream has answered to which query. *)
Record World := mkWorld {
  dp_now : Z;
  dp_cache : dnsCache;
  dp_flights : list flight;
  dp_replies : list (nat * list byte);
  dp_upstream : list (list byte * list byte);
  dp_crashed : bool
}.
#[export] Instance eta_World : Eta World := fun w =>
  mkWorld w.(dp_now) w.(dp_cache) w.(dp_flights) w.(dp_replies) w.(dp_upstream) w.(dp_crashed).

Definition init (now : Z) : World := mkWorld now ∅ [] [] [] false.

(** The beginning of [Start], up to the read loop, from which nothing returns.  The cache
    is [globalDNSCache], empty when the process begins; addresses are printed. *)
Definition Start (ResolveUDPAddr : string -> result string) (ListenUDP : string -> result unit)
    (listen : string) (now : Z) : result World :=
  addr ← ResolveUDPAddr listen;
  _ ← ListenUDP addr;
  Ok (init now).

(** [ReadFromUDP] into the buffer of 4096 bytes, and [go d.handleQuery]. *)
Definition receive (addr : string) (datagram : list byte) (w : World) : World :=
  w <| dp_flights ::= fun fs => fs ++ [mkFlight addr (take dns_buffer datagram) Looking] |>.

(** What upstream has just answered to [query]. *)
Definition observed (query : list byte) (env : dq_env) : list (list byte * list byte) :=
  match env with EnvRead (Ok data) => [(query, take dns_buffer data)] | _ => [] end.

(** A step of goroutine [i]. *)
Definition fly (i : nat) (env : dq_env) (w : World) : World :=
  match w.(dp_flights) !! i with
  | None => w
  | Some f =>
      match dq_step w.(dp_now) f.(fl_query) f.(fl_pc) env w.(dp_cache) with
      | Panic _ => w <| dp_crashed := true |>
      | Done None => w
      | Done (Some (pc, c, reply)) =>
          w <| dp_cache := c |>
            <| dp_flights ::= <[i := f <| fl_pc := pc |>]> |>
            <| dp_replies ::= fun rs => rs ++ match reply with Some r => [(i, r)] | None => [] end |>
            <| dp_upstream ::= app (observed f.(fl_query) env) |>
      end
  end.

(** A panic in a goroutine ends the process. *)
Inductive step : World -> World -> Prop :=
| step_time w d : w.(dp_crashed) = false -> 0 <= d -> step w (w <| dp_now ::= Z.add d |>)
| step_receive w addr datagram : w.(dp_crashed) = false -> step w (receive addr datagram w)
| step_fly w i env : w.(dp_crashed) = false -> step w (fly i env w)
| step_cleanup w order : w.(dp_crashed) = false ->
    order ≡ₚ elements (dom w.(dp_cache)) ->
    step w (w <| dp_cache ::= Cleanup w.(dp_now) order |>).

Definition reachable (w : World) : Prop :=
  exists ResolveUDPAddr ListenUDP listen t w0,
    Start ResolveUDPAddr ListenUDP listen t = Ok w0 /\ rtc step w0 w.

(** What a query that misses does with the tunnel: [OpenStream] for the upstream, the
    [Write] of the query, the [Read] that gives [answer].  With the stream as [handleQuery]
    sees it, what has been written to it when there is one, and the pool. *)
Definition ask (rounds : nat -> round) (Upstream : string) (query : list byte)
    (answer : result (list byte)) (c : Pool)
    : outcome (result dns_stream * option sink * Pool) :=
  '(r, _, c') ← OpenStream rounds (String.append "udp://" Upstream) c;
  match r with
  | Err e => Done (Err e, None, c')
  | Ok k =>
      let '(_, err, k') := sink_write query k in
      Done (Ok (mkDnsStream err answer), Some k', c')
  end.

(** A goroutine alone: its steps, at the given times and with the given calls. *)
Fixpoint dq_run (pc : dq_pc) (q : list byte) (calls : list (Z * dq_env)) (c : dnsCache)
    : outcome (dq_pc * dnsCache * option (list byte)) :=
  match calls with
  | [] => Done (pc, c, None)
  | (now, env) :: calls =>
      r ← dq_step now q pc env c;
      match r with
      | None => dq_run pc q calls c
      | Some (Finished, c, reply) => Done (Finished, c, reply)
      | Some (pc, c, _) => dq_run pc q calls c
      end
  end.

(** The calls of one query on a given stream. *)
Definition calls_of (now later : Z) (open : result dns_stream) : list (Z * dq_env) :=
  [(now, EnvLocal)] ++
  match open with
  | Err e => [(now, EnvErr (Some e))]
  | Ok s => [(now, EnvErr None); (now, EnvErr s.(ds_write)); (now, EnvRead s.(ds_read));
             (later, EnvLocal); (later, EnvLocal)]
  end.

(** ** Lemmas: one query *)

(** A query run alone is [handleQuery]. *)
Lemma handleQuery_run (now later : Z) (open : result dns_stream) (q : list byte) (c : dnsCache) :
  match dq_run Looking q (calls_of now later open) c with
  | Panic p => handleQuery now later open q c = Panic p
  | Done (pc, c', reply) =>
      pc = Finished /\ exists o, handleQuery now later open q c = Done (mkQR o reply, c')
  end.
Proof.
  unfold handleQuery, calls_of. cbn [app dq_run dq_step].
  destruct (Nat.ltb_spec (length q) 2) as [Hs|Hl]; [rewrite slice_short by assumption; reflexivity|].
  rewrite slice_tail by done. cbn [mbind outcome_bind].
  destruct (Get now (string_of (drop 2 q)) c) as [resp|].
  { destruct (slice resp 0 2); [|reflexivity]. cbn [mbind outcome_bind].
    destruct (slice q 0 2); [|reflexivity]. split; [reflexivity|eexists; reflexivity]. }
  destruct open as [[wr rd]|e]; [|split; [reflexivity|eexists; reflexivity]]. cbn [ds_write ds_read].
  cbn [dq_run dq_step mbind outcome_bind]. destruct wr as [e|]; [split; [reflexivity|eexists; reflexivity]|].
  cbn [dq_run dq_step mbind outcome_bind]. destruct rd as [data|e]; [|split; [reflexivity|eexists; reflexivity]].
  cbn [dq_run dq_step mbind outcome_bind]. destruct (zlen (take dns_buffer data) =? 0); (split; [reflexivity|eexists; reflexivity]).
Qed.

(** What a step does, place by place. *)
Lemma dq_step_cases (now : Z) (q : list byte) (pc pc' : dq_pc) (env : dq_env) (c c' : dnsCache)
    (reply : option (list byte)) :
  dq_step now q pc env c = Done (Some (pc', c', reply)) ->
  pc <> Finished /\ (pc = Looking -> (2 <= length q)%nat) /\ pc' <> Looking /\
  (c' = c \/ exists r, pc = Answered r /\ c' = Set_ now (string_of (drop 2 q)) r cache_ttl c) /\
  match pc' with
  | Answered r => (q, r) ∈ observed q env /\ r <> []
  | Stored r => pc = Answered r
  | _ => True
  end /\
  match reply with
  | Some r => pc' = Finished /\
      (pc = Stored r \/ exists resp, Get now (string_of (drop 2 q)) c = Some resp /\
         (2 <= length resp)%nat /\ r = take 2 q ++ drop 2 resp)
  | None => True
  end.
Proof.
  unfold dq_step. destruct pc, env as [|[e|]|[data|e]]; try done.
  - destruct (Nat.ltb_spec (length q) 2) as [Hs|Hl]; [by rewrite slice_short|].
    rewrite slice_tail by done. cbn [mbind outcome_bind].
    destruct (Get now _ c) as [resp|] eqn:Eg.
    + destruct (Nat.ltb_spec (length resp) 2).
      { by rewrite (slice_panic resp) by (unfold zlen; lia). }
      rewrite !slice_head by done. cbn [mbind outcome_bind]. intros [= <- <- <-].
      rewrite copy_into_fits by (rewrite length_take; lia).
      rewrite length_take, Nat.min_l by done. do 3 (split; [done|]). split; [by left|]. split; [done|]. split; [done|].
      right. by exists resp.
    + intros [= <- <- <-]. do 3 (split; [done|]). by split; [left|].
  - intros [= <- <- <-]. do 3 (split; [done|]). by split; [left|].
  - intros [= <- <- <-]. do 3 (split; [done|]). by split; [left|].
  - intros [= <- <- <-]. do 3 (split; [done|]). by split; [left|].
  - intros [= <- <- <-]. do 3 (split; [done|]). by split; [left|].
  - destruct (Z.eqb_spec (zlen (take dns_buffer data)) 0) as [Ez|Ez]; intros [= <- <- <-];
      (do 3 (split; [done|])); (split; [by left|]); [done|]. split; [|done].
    split; [cbn; set_solver|]. intros E. by rewrite E in Ez.
  - intros [= <- <- <-]. do 3 (split; [done|]). by split; [left|].
  - intros [= <- <- <-]. do 3 (split; [done|]). split; [by right; eexists|]. done.
  - intros [= <- <- <-]. do 3 (split; [done|]). split; [by left|]. split; [done|]. split; [done|by left].
Qed.

(** A panic of a step. *)
Lemma dq_step_panics (now : Z) (q : list byte) (pc : dq_pc) (env : dq_env) (c : dnsCache) (p : panic) :
  dq_step now q pc env c = Panic p ->
  pc = Looking /\ ((length q < 2)%nat \/
    exists resp, Get now (string_of (drop 2 q)) c = Some resp /\ (length resp < 2)%nat).
Proof.
  unfold dq_step. destruct pc, env as [|[e|]|[data|e]]; try done; [|by destruct (_ =? 0)].
  destruct (Nat.ltb_spec (length q) 2) as [Hs|Hl]; [by auto|].
  rewrite slice_tail by done. cbn [mbind outcome_bind].
  destruct (Get now _ c) as [resp|] eqn:Eg; [|done].
  destruct (Nat.ltb_spec (length resp) 2); [intros _; split; [done|]; right; by exists resp|].
  by rewrite !slice_head by done.
Qed.

(** How many steps a goroutine still has to take. *)
Definition rank (pc : dq_pc) : nat :=
  match pc with
  | Looking => 6 | Missed => 5 | Opened => 4 | Asked => 3
  | Answered _ => 2 | Stored _ => 1 | Finished => 0
  end.

Lemma dq_step_rank (now : Z) (q : list byte) (pc pc' : dq_pc) (env : dq_env) (c c' : dnsCache)
    (reply : option (list byte)) :
  dq_step now q pc env c = Done (Some (pc', c', reply)) -> (rank pc' < rank pc)%nat.
Proof.
  unfold dq_step. destruct pc, env as [|[e|]|[data|e]]; try done;
    try (intros [= <- _ _]; cbn; lia).
  - destruct (slice q 2 _); [|done]. cbn. destruct (Get _ _ _) as [resp|]; [|intros [= <- _ _]; cbn; lia].
    destruct (slice resp 0 2); [|done]. cbn. destruct (slice q 0 2); [|done].
    intros [= <- _ _]; cbn; lia.
  - destruct (_ =? 0); intros [= <- _ _]; cbn; lia.
Qed.

(** ** The invariant *)

(** [r] is a right reply to [q]: upstream gave it to [q], or gave it, but for the
    transaction id, to a query with the same question. *)
Definition answers (up : list (list byte * list byte)) (q r : list byte) : Prop :=
  (q, r) ∈ up \/
  exists q' resp, (q', resp) ∈ up /\ drop 2 q' = drop 2 q /\
    (2 <= length resp)%nat /\ r = take 2 q ++ drop 2 resp.

Record inv (w : World) : Prop := mkInv {
  inv_cache : forall k v, w.(dp_cache) !! k = Some v ->
    exists q, (q, v.(dc_response)) ∈ w.(dp_upstream) /\ string_of (drop 2 q) = k /\
      v.(dc_response) <> [] /\ v.(dc_expiresAt) <= w.(dp_now) + cache_ttl;
  inv_begun : forall i f, w.(dp_flights) !! i = Some f -> f.(fl_pc) <> Looking ->
    (2 <= length f.(fl_query))%nat;
  inv_flight : forall i f, w.(dp_flights) !! i = Some f ->
    match f.(fl_pc) with
    | Answered r | Stored r => (f.(fl_query), r) ∈ w.(dp_upstream) /\ r <> []
    | _ => True
    end;
  inv_reply : forall i r, (i, r) ∈ w.(dp_replies) ->
    exists f, w.(dp_flights) !! i = Some f /\ f.(fl_pc) = Finished /\
      answers w.(dp_upstream) f.(fl_query) r;
  inv_once : NoDup w.(dp_replies).*1;
  inv_crash : w.(dp_crashed) = true ->
    (exists f, f ∈ w.(dp_flights) /\ (length f.(fl_query) < 2)%nat) \/
    (exists q r, (q, r) ∈ w.(dp_upstream) /\ (length r < 2)%nat)
}.

Lemma answers_mono (up up' : list (list byte * list byte)) (q r : list byte) :
  up ⊆ up' -> answers up q r -> answers up' q r.
Proof. intros Hs [?|(q' & resp & ? & ?)]; [left|right; exists q', resp]; auto. Qed.

Lemma Get_entry (t : Z) (k : string) (c : dnsCache) (r : list byte) :
  Get t k c = Some r -> exists v, c !! k = Some v /\ v.(dc_response) = r.
Proof.
  unfold Get. destruct (c !! k) as [v|]; [|done]. destruct (_ <? t); [done|].
  intros [= <-]. by exists v.
Qed.

Lemma string_tail_inj (q q' : list byte) :
  string_of (drop 2 q') = string_of (drop 2 q) -> drop 2 q' = drop 2 q.
Proof. apply string_of_inj. Qed.

(** A step of a goroutine that does not end the process, from a state with the invariant. *)
Section Flown.
Context (w : World) (i : nat) (f : flight) (env : dq_env) (pc : dq_pc) (c : dnsCache).
Context (reply : option (list byte)).
Context (Hw : inv w) (Hi : w.(dp_flights) !! i = Some f).
Context (Hs : dq_step w.(dp_now) f.(fl_query) f.(fl_pc) env w.(dp_cache) = Done (Some (pc, c, reply))).

Let up : list (list byte * list byte) := observed f.(fl_query) env ++ w.(dp_upstream).
Let flights : list flight := <[i := f <| fl_pc := pc |>]> w.(dp_flights).
Let replies : list (nat * list byte) :=
  w.(dp_replies) ++ match reply with Some r => [(i, r)] | None => [] end.

Lemma flown_upstream : w.(dp_upstream) ⊆ up.
Proof. intros x Hx. apply elem_of_app. by right. Qed.

Lemma flown_lookup (j : nat) (g : flight) :
  flights !! j = Some g ->
  (j = i /\ g = f <| fl_pc := pc |>) \/ (j <> i /\ w.(dp_flights) !! j = Some g).
Proof. unfold flights. rewrite list_lookup_insert_Some. intros [(<- & <- & _)|[? ?]]; auto. Qed.

Lemma flown_self : flights !! i = Some (f <| fl_pc := pc |>).
Proof. apply list_lookup_insert_eq. by eapply lookup_lt_Some. Qed.

Lemma flown_cache (k : string) (v : dnsCacheEntry) :
  c !! k = Some v ->
  exists q, (q, v.(dc_response)) ∈ up /\ string_of (drop 2 q) = k /\ v.(dc_response) <> [] /\
    v.(dc_expiresAt) <= w.(dp_now) + cache_ttl.
Proof.
  destruct (dq_step_cases _ _ _ _ _ _ _ _ Hs) as (_ & _ & _ & Hcache & _).
  pose proof (inv_flight w Hw i f Hi) as Hfi.
  assert (Hold : forall v, dp_cache w !! k = Some v ->
    exists q, (q, v.(dc_response)) ∈ up /\ string_of (drop 2 q) = k /\ v.(dc_response) <> [] /\
      v.(dc_expiresAt) <= w.(dp_now) + cache_ttl).
  { intros v' (q & ? & ?)%(inv_cache w Hw). exists q. split; [by apply flown_upstream|done]. }
  destruct Hcache as [->|(r & Er & ->)]; [apply Hold|]. unfold Set_.
  rewrite lookup_insert_Some. intros [[<- <-]|[_ ?]]; [|by apply Hold].
  rewrite Er in Hfi. exists (fl_query f). cbn. split; [apply flown_upstream, Hfi|].
  split; [done|]. split; [apply Hfi|lia].
Qed.

Lemma flown_begun (j : nat) (g : flight) :
  flights !! j = Some g -> g.(fl_pc) <> Looking -> (2 <= length g.(fl_query))%nat.
Proof.
  destruct (dq_step_cases _ _ _ _ _ _ _ _ Hs) as (_ & Hlook & _).
  intros [[-> ->]|[_ Hj]]%flown_lookup; [|by apply (inv_begun w Hw j)]. intros _. cbn.
  destruct (fl_pc f) eqn:E; try (apply (inv_begun w Hw i f Hi); by rewrite E). by apply Hlook.
Qed.

Lemma flown_flight (j : nat) (g : flight) :
  flights !! j = Some g ->
  match g.(fl_pc) with
  | Answered r | Stored r => (g.(fl_query), r) ∈ up /\ r <> []
  | _ => True
  end.
Proof.
  destruct (dq_step_cases _ _ _ _ _ _ _ _ Hs) as (_ & _ & _ & _ & Hpc & _).
  pose proof (inv_flight w Hw i f Hi) as Hfi.
  intros [[-> ->]|[_ Hj]]%flown_lookup; cbn.
  - destruct pc; try done; [split; [|by apply Hpc]; apply elem_of_app; left; apply Hpc|].
    rewrite Hpc in Hfi. split; [apply flown_upstream, Hfi|apply Hfi].
  - pose proof (inv_flight w Hw j g Hj) as Hg.
    destruct (fl_pc g); try done; split; try apply Hg; apply flown_upstream, Hg.
Qed.

Lemma flown_not_replied (r : list byte) : (i, r) ∈ w.(dp_replies) -> False.
Proof.
  destruct (dq_step_cases _ _ _ _ _ _ _ _ Hs) as (Hnf & _).
  intros (g & Hg & Hfin & _)%(inv_reply w Hw). congruence.
Qed.

Lemma flown_reply (j : nat) (r : list byte) :
  (j, r) ∈ replies ->
  exists g, flights !! j = Some g /\ g.(fl_pc) = Finished /\ answers up g.(fl_query) r.
Proof.
  destruct (dq_step_cases _ _ _ _ _ _ _ _ Hs) as (_ & _ & _ & _ & _ & Hreply).
  pose proof (inv_flight w Hw i f Hi) as Hfi. unfold replies. rewrite elem_of_app. intros [Hj|Hj].
  - assert (j <> i) by (intros ->; by eapply flown_not_replied).
    apply (inv_reply w Hw) in Hj as (g & Hg & Hfin & Ha). exists g. unfold flights.
    rewrite list_lookup_insert_ne by done. split; [done|]. split; [done|].
    by eapply answers_mono, Ha; apply flown_upstream.
  - destruct reply as [r'|]; [|by apply elem_of_nil in Hj].
    apply list_elem_of_singleton in Hj as [= -> ->].
    exists (f <| fl_pc := pc |>). split; [apply flown_self|].
    destruct Hreply as [-> [Es|(resp & Hg & Hl & ->)]]; (split; [done|]); cbn.
    + rewrite Es in Hfi. left. apply flown_upstream, Hfi.
    + apply Get_entry in Hg as (v & Hv & <-). apply (inv_cache w Hw) in Hv as (q & Hq & Ek & _).
      right. exists q, (dc_response v). split; [by apply flown_upstream|].
      split; [by apply string_tail_inj|]. by split.
Qed.

Lemma flown_once : NoDup replies.*1.
Proof.
  unfold replies. rewrite fmap_app. pose proof (inv_once w Hw). pose proof flown_not_replied as Hne.
  destruct reply as [r|]; [|by rewrite app_nil_r].
  apply NoDup_app. split; [done|]. split; [|apply NoDup_singleton].
  intros j Hj Hji. cbn in Hji. apply list_elem_of_singleton in Hji; subst j.
  apply list_elem_of_fmap in Hj as ([j r'] & -> & Hj). by eapply Hne.
Qed.

Lemma flown_crash :
  w.(dp_crashed) = true ->
  (exists g, g ∈ flights /\ (length g.(fl_query) < 2)%nat) \/
  (exists q r, (q, r) ∈ up /\ (length r < 2)%nat).
Proof.
  intros [(g & Hg & Hl)|(q & r & Hq & Hl)]%(inv_crash w Hw).
  - left. apply list_elem_of_lookup in Hg as [j Hj]. destruct (decide (j = i)) as [->|Hne].
    + exists (f <| fl_pc := pc |>). split; [|by simplify_eq].
      apply list_elem_of_lookup. exists i. apply flown_self.
    + exists g. split; [|done]. apply list_elem_of_lookup. exists j. unfold flights.
      by rewrite list_lookup_insert_ne.
  - right. exists q, r. split; [by apply flown_upstream|done].
Qed.

Lemma flown_inv : inv (mkWorld w.(dp_now) c flights replies up w.(dp_crashed)).
Proof.
  split; cbn.
  - apply flown_cache.
  - apply flown_begun.
  - apply flown_flight.
  - apply flown_reply.
  - apply flown_once.
  - apply flown_crash.
Qed.
End Flown.

Lemma fly_inv (w : World) (i : nat) (env : dq_env) :
  w.(dp_crashed) = false -> inv w -> inv (fly i env w).
Proof.
  intros Hcr Hw. unfold fly. destruct (dp_flights w !! i) as [f|] eqn:Hi; [|done].
  destruct (dq_step _ _ _ _ _) as [[[[pc c] reply]|]|p] eqn:Hs; [|done|].
  - apply (flown_inv w i f env pc c reply Hw Hi Hs).
  - destruct Hw as [Hc Hb Hf Hr Ho Hx]. split; try done. intros _.
    apply dq_step_panics in Hs as [_ [Hs|(resp & Hg & Hl)]].
    + left. exists f. split; [by eapply list_elem_of_lookup_2|done].
    + right. apply Get_entry in Hg as (v & Hv & <-). apply Hc in Hv as (q & Hq & _). eauto.
Qed.

Lemma dp_step_inv (w w' : World) : step w w' -> inv w -> inv w'.
Proof.
  intros Hs Hw. destruct Hs as [w d Hc Hd|w addr dg Hc|w i env Hc|w order Hc Ho]; [| |by apply fly_inv|].
  - destruct Hw as [H1 H0 H2 H3 H4 H5]. split; try done. cbn.
    intros k v (q & ? & ? & ? & ?)%H1. exists q. split; [done|]. split; [done|]. split; [done|lia].
  - destruct Hw as [H1 H0 H2 H3 H4 H5]. split; try done; cbn.
    + intros i f Hi. apply lookup_app_Some in Hi as [Hi|[_ Hi]]; [by eapply H0|].
      by apply list_lookup_singleton_Some in Hi as [_ <-].
    + intros i f Hi. apply lookup_app_Some in Hi as [Hi|[_ Hi]]; [by eapply H2|].
      by apply list_lookup_singleton_Some in Hi as [_ <-].
    + intros i r (f & Hf & ?)%H3. exists f. split; [by apply lookup_app_l_Some|done].
    + intros [(f & ? & ?)|?]%H5; [|by right]. left. exists f. split; [|done].
      apply elem_of_app. by left.
  - destruct Hw as [H1 H0 H2 H3 H4 H5]. split; try done. cbn. intros k v.
    rewrite Cleanup_lookup. destruct (dp_cache w !! k) as [v'|] eqn:Ek; [|done].
    case_match; [done|]. intros [= <-]. by apply H1.
Qed.

Lemma Start_init (resolve : string -> result string) (bind : string -> result unit)
    (listen : string) (t : Z) (w : World) :
  Start resolve bind listen t = Ok w -> exists t0, w = init t0.
Proof.
  unfold Start. destruct (resolve listen) as [addr|]; cbn; [|done].
  destruct (bind addr); [|done]. intros [= <-]. by exists t.
Qed.

Lemma dp_reachable_inv (w : World) : reachable w -> inv w.
Proof.
  intros (resolve & bind & listen & t & w0 & (t0 & ->)%Start_init & Hr). assert (Hi : inv (init t0)).
  { split; cbn; try done; [intros i r Hi; by apply elem_of_nil in Hi|constructor]. }
  revert Hi. induction Hr; eauto using dp_step_inv.
Qed.

(** ** Lemmas: the stream *)

(** The stream [OpenStream] returns took the target on some session of the pool. *)
Lemma OpenStream_attempt (rounds : nat -> round) (target : string) (c c' : Pool) (k : sink)
    (dropped : list sink) :
  OpenStream rounds target c = Done (Ok k, dropped, c') ->
  exists i s k0, (rounds i).(rd_OpenStream) s = Ok k0 /\ sendTarget target k0 = (None, k).
Proof.
  unfold OpenStream. destruct (_ =? 0); [done|].
  assert (Hl : forall n i pool idx d r d' idx',
    OpenStream_loop rounds n i pool target idx d = Done (r, d', idx') ->
    forall k, r = Ok k ->
    exists i s k0, (rounds i).(rd_OpenStream) s = Ok k0 /\ sendTarget target k0 = (None, k)).
  { clear. induction n as [|n IH]; intros i pool idx d r d' idx'; cbn [OpenStream_loop].
    - intros [= <- _ _]. done.
    - destruct (if _ <? 0 then None else _) as [ps|]; [|done].
      destruct (rd_IsClosed _ _); [eauto|].
      destruct (rd_OpenStream _ (ps_session ps)) as [k0|] eqn:Eo; [|eauto].
      destruct (sendTarget target k0) as [[e|] k1] eqn:Et; [eauto|].
      intros [= <- _ _] k [= <-]. eauto. }
  destruct (OpenStream_loop _ _ _ _ _ _ _) as [[[r d] idx]|] eqn:E; [|done].
  cbn. intros [= -> _ _]. by eapply Hl.
Qed.

(** On fresh streams: the query follows the header that announces the upstream. *)
Lemma ask_inv (rounds : nat -> round) (upstream : string) (query : list byte)
    (answer : result (list byte)) (c c' : Pool) (open : result dns_stream) (k' : sink) :
  (forall i s k0, (rounds i).(rd_OpenStream) s = Ok k0 -> k0 = mkSink [] None) ->
  ask rounds upstream query answer c = Done (open, Some k', c') ->
  exists k, k' = mkSink (k.(k_writes) ++ [query]) None /\
    sendTarget (String.append "udp://" upstream) (mkSink [] None) = (None, k) /\
    open = Ok (mkDnsStream None answer).
Proof.
  intros Hfresh. unfold ask.
  destruct (OpenStream _ _ _) as [[[[k|e] d] c1]|p] eqn:E; cbn; [|done|done].
  apply OpenStream_attempt in E as (i & s & k0 & ->%Hfresh & Ht).
  assert (Hk : k.(k_fail) = None) by (rewrite sendTarget_ok in Ht; by injection Ht as <-).
  rewrite (sink_write_ok query k Hk). intros [= <- <- _]. by exists k.
Qed.

(** ** Properties *)

(** C12: However the queries, the cleanups and the clock interleave: every reply
    answers a query that is over, at most one per query; it is what upstream gave to that
    query, or gave to a query with the same question, under the transaction id of this
    one; if upstream repeats the ids, so does every reply.  Nothing else gets into the
    cache, and nothing stays valid for more than 60 s.  The process only dies of a query
    or of a response of fewer than two bytes. *)
Theorem dns_replies_genuine (w : World) :
  reachable w ->
  NoDup w.(dp_replies).*1 /\
  (forall i r, (i, r) ∈ w.(dp_replies) ->
     exists f, w.(dp_flights) !! i = Some f /\ f.(fl_pc) = Finished /\
       answers w.(dp_upstream) f.(fl_query) r /\
       ((forall q' r', (q', r') ∈ w.(dp_upstream) -> take 2 r' = take 2 q') ->
        take 2 r = take 2 f.(fl_query))) /\
  (forall k v, w.(dp_cache) !! k = Some v ->
     exists q, (q, v.(dc_response)) ∈ w.(dp_upstream) /\ string_of (drop 2 q) = k /\
       v.(dc_expiresAt) <= w.(dp_now) + 60 * Second) /\
  (w.(dp_crashed) = true ->
     (exists f, f ∈ w.(dp_flights) /\ (length f.(fl_query) < 2)%nat) \/
     (exists q r, (q, r) ∈ w.(dp_upstream) /\ (length r < 2)%nat)).
Proof.
  intros [Hc Hb _ Hr Ho Hx]%dp_reachable_inv. split; [done|]. split; [|split; [|done]].
  - intros i r (f & Hf & Hfin & Ha)%Hr. exists f. do 3 (split; [done|]). intros Hid.
    assert (Hl : (2 <= length (fl_query f))%nat) by (apply (Hb i); [done|by rewrite Hfin]).
    destruct Ha as [Hq|(q' & resp & _ & _ & _ & ->)]; [by eapply Hid|].
    by rewrite take_app_le, take_take by (rewrite ?length_take; lia).
  - intros k v (q & ? & ? & _ & ?)%Hc. exists q. done.
Qed.

(** No query is stuck.  The steps of a goroutine, with whatever results of
    its calls and whatever happens to the cache between them, end after at most six; until
    then there is always one it can take or a call it waits for, and run without
    interruption they are [handleQuery]. *)
Theorem dns_query_finishes (q : list byte) (pc : dq_pc) :
  (forall now env c pc' c' reply,
     dq_step now q pc env c = Done (Some (pc', c', reply)) -> (rank pc' < rank pc <= 6)%nat) /\
  (pc <> Finished -> exists env, forall now c, dq_step now q pc env c <> Done None) /\
  (forall now later open c,
     match dq_run Looking q (calls_of now later open) c with
     | Panic p => handleQuery now later open q c = Panic p
     | Done (pc', c', reply) =>
         pc' = Finished /\ exists o, handleQuery now later open q c = Done (mkQR o reply, c')
     end).
Proof.
  split; [|split; [|intros; apply handleQuery_run]].
  - intros now env c pc' c' reply Hs. apply dq_step_rank in Hs. split; [done|]. by destruct pc; cbn; lia.
  - intros Hpc. destruct pc; [exists EnvLocal|exists (EnvErr None)|exists (EnvErr None)|
      exists (EnvRead (Err EOF))|exists EnvLocal|exists EnvLocal|done]; intros now c; try done.
    cbn. destruct (slice q 2 _); [|done]. cbn. destruct (Get _ _ _) as [resp|]; [|done].
    destruct (slice resp 0 2); [|done]. cbn. by destruct (slice q 0 2).
Qed.

(** C26: A query that misses is answered by the upstream.  When [OpenStream] gives
    it a stream and the write succeeds, on whatever session of the pool and whatever other
    calls do meanwhile, the other end of
    that stream dials the configured upstream over UDP and finds the query, byte for byte,
    behind the header; what is read back, up to the buffer, is the reply, and is cached
    under the question. *)
Theorem dns_query_arrives (rounds : nat -> round)
    (dial : string -> string -> option error) (upstream : string) (c c' : Pool) (k' : sink)
    (open : result dns_stream) (query data : list byte) (now later : Z)
    (cache : gmap string dnsCacheEntry) (e : error) :
  (forall i s k0, (rounds i).(rd_OpenStream) s = Ok k0 -> k0 = mkSink [] None) ->
  (2 <= length query)%nat -> Get now (string_of (drop 2 query)) cache = None ->
  ask rounds upstream query (Ok data) c = Done (open, Some k', c') ->
  1 <= slen upstream <= 4090 -> data <> [] ->
  handleForwardStream dial (mkStream (k_bytes k') e) =
    ([SetReadDeadline (10 * Second); ClearReadDeadline; Dial "udp" upstream (10 * Second)] ++
     match dial "udp" upstream with
     | Some _ => [CloseStream]
     | None => [Relay; CloseRemote; CloseStream]
     end, mkStream query e) /\
  handleQuery now later open query cache =
    Done (mkQR true (Some (take dns_buffer data)),
          Set_ later (string_of (drop 2 query)) (take dns_buffer data) cache_ttl cache).
Proof.
  intros Hfresh Hq Hmiss (k & -> & Ht & ->)%(ask_inv _ _ _ _ _ _ _ _ Hfresh) Hl Hdata.
  split; [|by apply handleQuery_miss]. set (t := String.append "udp://" upstream) in *.
  assert (Hlt : 1 <= slen t <= 4096).
  { unfold t. rewrite slen_app. change (slen "udp://") with 6. lia. }
  destruct (sent_target_handled dial t query e) as (k1 & Hk1 & Hh); [lia|].
  assert (k1 = k) as -> by congruence.
  unfold k_bytes at 1. cbn [k_writes]. rewrite concat_app. cbn [concat]. rewrite app_nil_r.
  fold (k_bytes k). unfold handleForwardStream. rewrite Hh.
  rewrite (proj2 (Z.ltb_lt _ _)), (proj2 (Z.leb_le _ _)) by lia. cbn [andb].
  unfold accepted, t. by rewrite splitTarget_udp.
Qed.

(** ** Witnesses *)

(** Two clients ask the same question; the second is answered from the cache. *)
Definition asked_twice : World :=
  let q1 := [x07; x01; x41; x42] in
  let q2 := [x09; x01; x41; x42] in
  let w := receive "a" q1 (init 0) in
  let w := foldl (fun w env => fly 0 env w) w
             [EnvLocal; EnvErr None; EnvErr None; EnvRead (Ok [x07; x01; x55]); EnvLocal; EnvLocal] in
  fly 1 EnvLocal (receive "b" q2 w).

Lemma asked_twice_reachable : reachable asked_twice.
Proof.
  exists Ok, (fun _ => Ok tt), "127.0.0.1:53", 0, (init 0). split; [done|]. unfold asked_twice. cbn [foldl].
  do 1 (eapply rtc_r; [|by apply step_fly]). eapply rtc_r; [|by apply step_receive].
  do 6 (eapply rtc_r; [|by apply step_fly]). eapply rtc_r; [constructor|by apply step_receive].
Qed.

Lemma dns_replies_genuine_witness :
  asked_twice.(dp_replies) = [(0%nat, [x07; x01; x55]); (1%nat, [x09; x01; x55])] /\
  exists f, asked_twice.(dp_flights) !! 1%nat = Some f /\ f.(fl_pc) = Finished /\
    answers asked_twice.(dp_upstream) f.(fl_query) [x09; x01; x55].
Proof.
  assert (E : asked_twice.(dp_replies) = [(0%nat, [x07; x01; x55]); (1%nat, [x09; x01; x55])])
    by (vm_compute; reflexivity).
  split; [exact E|].
  destruct (dns_replies_genuine asked_twice asked_twice_reachable) as (_ & H & _ & _).
  destruct (H 1%nat [x09; x01; x55]) as (f & H1 & H2 & H3 & _).
  - rewrite E. right. left.
  - exists f. split; [exact H1|]. split; [exact H2|exact H3].
Defined.

Definition one_session : Pool := mkPool [mkPS 1 0] 0.
Definition fresh_rounds (_ : nat) : round :=
  mkRound 3 (fun _ => false) (fun _ => Ok (mkSink [] None)).

Lemma dns_query_arrives_witness :
  exists k' cache,
    (handleForwardStream (fun _ _ => None) (mkStream (k_bytes k') EOF)).2 =
      mkStream [x07; x01; x41; x42] EOF /\
    handleQuery 0 1 (Ok (mkDnsStream None (Ok [x07; x01; x55]))) [x07; x01; x41; x42] ∅ =
      Done (mkQR true (Some [x07; x01; x55]), cache).
Proof.
  destruct (ask fresh_rounds "8.8.8.8:53"
    [x07; x01; x41; x42] (Ok [x07; x01; x55]) one_session) as [[[open [k'|]] c']|] eqn:E;
    [|vm_compute in E; discriminate..].
  assert (Ho : open = Ok (mkDnsStream None (Ok [x07; x01; x55])))
    by (vm_compute in E; injection E as <- _ _; reflexivity).
  assert (Hf : forall i (s : positive) k0, (fresh_rounds i).(rd_OpenStream) s = Ok k0 ->
                 k0 = mkSink [] None) by (intros i s k0 [= <-]; reflexivity).
  destruct (dns_query_arrives fresh_rounds (fun _ _ => None)
    "8.8.8.8:53" one_session c' k' open [x07; x01; x41; x42] [x07; x01; x55] 0 1 ∅ EOF Hf)
    as [H1 H2]; [cbn; lia|reflexivity|exact E|vm_compute; split; discriminate|discriminate|].
  rewrite Ho in H2. eexists k', _. split; [rewrite H1; reflexivity|exact H2].
Defined.
