(* ===== verification/Relay.v ===== *)
(** * Relaying and statistics ([relay] of [server.go], [stats.go])

    A relay runs two copies, one per direction, between two connections; each counts
    the bytes it reads while they pass ([MeasuredReader]) and closes the connection it
    writes to when it ends, which ends the other copy.  The connections are smux
    streams and sockets, so the relay is modelled against the interface it uses,
    [io.ReadWriteCloser]; the two goroutines are interleaved by a step relation. *)

From stdpp Require Import relations.
From S2P Require Import Prelude GoStrings GoBytes.
From Stdlib Require Import Init.Byte.

Local Open Scope list_scope.
Local Open Scope Z_scope.

(** ** Stats *)

(** [Stats]: [int64] counters, each moved by atomic additions. *)
Record Stats := mkStats {
  ActiveConns : Z;
  TotalConns : Z;
  BytesSent : Z;
  BytesRecv : Z;
  Reconnects : Z;
  FailedDials : Z;
  ActiveSessions : Z;
  StartedAt : Z
}.
#[export] Instance eta_Stats : Eta Stats := fun r =>
  mkStats r.(ActiveConns) r.(TotalConns) r.(BytesSent) r.(BytesRecv) r.(Reconnects)
    r.(FailedDials) r.(ActiveSessions) r.(StartedAt).

(** [atomic.AddInt64(&c, d)] *)
Definition AddInt64 (d n : Z) : Z := wrap64 (n + d).

(** ** [io.ReadWriteCloser] *)

(** How a [Write] goes on: it has passed on some more bytes and is not done, or it returns. *)
Inductive progress := Passed (n : nat) | Wrote (nw : Z) (ew : option error).

(** [rwc_Read n c] is a [Read] into [n] bytes, [rwc_Write b c] what a [Write] does next that
    has [b] still to pass on (a call is made of as many of these as it takes); each is
    [None] while it blocks. *)
Class ReadWriteCloser (C : Type) := {
  rwc_Read : nat -> C -> option (list byte * option error * C);
  rwc_Write : list byte -> C -> option (progress * C);
  rwc_Close : C -> C
}.

(** The bytes that pass. *)
Definition passed (pr : progress) : nat :=
  match pr with Passed n => n | Wrote nw _ => Z.to_nat nw end.

(** What [net.Conn] and [smux.Stream] document.  [incoming] is what the peer will have
    delivered when it closes or the connection breaks, and [ends] whether one of them
    ever happens; [sent] is what was written; no write fails on a [reliable] connection
    while it is open; the peer of one that [drains] goes on reading, so that no write to it
    waits for ever; [budget] bounds the reads that return data. *)
Class RWCLaws (C : Type) {RW : ReadWriteCloser C} := {
  incoming : C -> list byte;
  sent : C -> list byte;
  is_open : C -> bool;
  ends : C -> bool;
  reliable : C -> bool;
  drains : C -> bool;
  budget : C -> nat;
  (* a read takes the next bytes, and an error comes after the last of them *)
  Read_open : forall n c b er c', (0 < n)%nat -> is_open c = true ->
    rwc_Read n c = Some (b, er, c') ->
    incoming c = b ++ incoming c' /\ (er <> None -> incoming c' = [] /\ ends c = true) /\
    (er = None -> budget c' < budget c)%nat /\
    sent c' = sent c /\ is_open c' = true /\ ends c' = ends c /\ reliable c' = reliable c /\
    drains c' = drains c;
  Read_blocks : forall n c, rwc_Read n c = None -> is_open c = true /\ ends c = false;
  (* a close unblocks the readers, which get an error *)
  Read_closed : forall n c, is_open c = false -> exists e, rwc_Read n c = Some ([], Some e, c);
  (* the contract of [io.Writer] *)
  Write_some : forall b c pr c', rwc_Write b c = Some (pr, c') ->
    match pr with
    | Passed n => (0 < n < length b)%nat
    | Wrote nw ew => 0 <= nw <= zlen b /\ (ew = None -> nw = zlen b) /\
        (is_open c = true -> reliable c = true -> ew = None)
    end /\
    sent c' = sent c ++ take (passed pr) b /\
    incoming c' = incoming c /\ is_open c' = is_open c /\ ends c' = ends c /\
    reliable c' = reliable c /\ drains c' = drains c /\ budget c' = budget c;
  (* it waits for the peer, while the connection is open *)
  Write_blocks : forall b c, rwc_Write b c = None -> is_open c = true /\ drains c = false;
  Close_some : forall c, is_open (rwc_Close c) = false /\ sent (rwc_Close c) = sent c /\
    incoming (rwc_Close c) = incoming c /\ ends (rwc_Close c) = ends c /\
    reliable (rwc_Close c) = reliable c /\ drains (rwc_Close c) = drains c /\
    budget (rwc_Close c) = budget c
}.

(** ** One copy *)

(** The buffers of [relayBufPool] hold 128 KiB; a [*net.TCPConn] as destination copies
    through a buffer of its own, so the size is a parameter below. *)
Definition relayBufSize : nat := Z.to_nat (128 * 1024).

(** [io.ErrShortWrite] *)
Definition ErrShortWrite : error := Errorf "short write" [].

(** Where a copy is: before a read, or in it; before a write, or in it, with what is still
    to be written and what the read before it returned; before the [dst.Close()]; or past
    it with what [io.CopyBuffer] returned. *)
Inductive cp_pc :=
| CpRead
| CpWrite (b : list byte) (er : option error)
| CpClose (res : option error)
| CpDone (res : option error).

(** A write of a copy: it goes on with the [rest], or has returned. *)
Inductive written := Going (rest : list byte) | Gone (we : option error).

(** What [io.CopyBuffer] does after it. *)
Definition after_write (wr : written) (er : option error) : cp_pc :=
  match wr with
  | Going rest => CpWrite rest er
  | Gone (Some e) => CpClose (Some e)
  | Gone None =>
      match er with
      | Some EOF => CpClose None
      | Some e => CpClose (Some e)
      | None => CpRead
      end
  end.

Section Copy.
Context {D S : Type} `{ReadWriteCloser D, ReadWriteCloser S} (size : nat).

(** [MeasuredReader.Read(p)] *)
Definition measured_read (src : S) (counter : Z)
    : option (list byte * option error * S * Z) :=
  match rwc_Read size src with
  | None => None
  | Some (b, err, src) =>
      Some (b, err, src, if 0 <? zlen b then AddInt64 (zlen b) counter else counter)
  end.

(** The write of one round of [io.CopyBuffer]: what is left of it, or its error. *)
Definition copy_write (b : list byte) (dst : D) : option (written * D) :=
  if 0 <? zlen b then
    match rwc_Write b dst with
    | None => None
    | Some (Passed n, dst) => Some (Going (drop n b), dst)
    | Some (Wrote nw (Some e), dst) => Some (Gone (Some e), dst)
    | Some (Wrote nw None, dst) =>
        Some (Gone (if nw =? zlen b then None else Some ErrShortWrite), dst)
    end
  else Some (Gone None, dst).

(** The next operation of [cp(dst, src, counter)] on its connections; [None] when it
    blocks or has ended. *)
Definition cp_step (pc : cp_pc) (dst : D) (src : S) (counter : Z)
    : option (cp_pc * D * S * Z) :=
  match pc with
  | CpRead =>
      match measured_read src counter with
      | None => None
      | Some (b, er, src, counter) => Some (CpWrite b er, dst, src, counter)
      end
  | CpWrite b er =>
      match copy_write b dst with
      | None => None
      | Some (wr, dst) => Some (after_write wr er, dst, src, counter)
      end
  | CpClose res => Some (CpDone res, rwc_Close dst, src, counter)
  | CpDone _ => None
  end.
End Copy.

(** ** The relay *)

Record relay_state (A B : Type) := mkRelay {
  rl_a : A;
  rl_b : B;
  rl_into_a : cp_pc;
  rl_into_b : cp_pc;
  rl_stats : Stats
}.
Arguments mkRelay {A B} _ _ _ _ _.
Arguments rl_a {A B} _.
Arguments rl_b {A B} _.
Arguments rl_into_a {A B} _.
Arguments rl_into_b {A B} _.
Arguments rl_stats {A B} _.

Definition is_cp_done (pc : cp_pc) : bool := match pc with CpDone _ => true | _ => false end.

Section Relay.
Context {A B : Type} `{ReadWriteCloser A, ReadWriteCloser B} (size : nat).

(** [relay(a, b)] up to the two [go] statements. *)
Definition relay_start (a : A) (b : B) (st : Stats) : relay_state A B :=
  mkRelay a b CpRead CpRead
    (st <| ActiveConns ::= AddInt64 1 |> <| TotalConns ::= AddInt64 1 |>).

(** One of the two copies moves. *)
Definition step_into_a (r : relay_state A B) : option (relay_state A B) :=
  match cp_step size r.(rl_into_a) r.(rl_a) r.(rl_b) r.(rl_stats).(BytesSent) with
  | None => None
  | Some (pc, a, b, n) =>
      Some (mkRelay a b pc r.(rl_into_b) (r.(rl_stats) <| BytesSent := n |>))
  end.
Definition step_into_b (r : relay_state A B) : option (relay_state A B) :=
  match cp_step size r.(rl_into_b) r.(rl_b) r.(rl_a) r.(rl_stats).(BytesRecv) with
  | None => None
  | Some (pc, b, a, n) =>
      Some (mkRelay a b r.(rl_into_a) pc (r.(rl_stats) <| BytesRecv := n |>))
  end.
Definition relay_step (r r' : relay_state A B) : Prop :=
  step_into_a r = Some r' \/ step_into_b r = Some r'.

(** [relay] returns once both copies have signalled [done]; the deferred decrement runs. *)
Definition relay_return (r : relay_state A B) : option Stats :=
  if is_cp_done r.(rl_into_a) && is_cp_done r.(rl_into_b)
  then Some (r.(rl_stats) <| ActiveConns ::= AddInt64 (-1) |>)
  else None.

(** A run under a schedule: which copy is tried next. *)
Fixpoint relay_run (schedule : list bool) (r : relay_state A B) : relay_state A B :=
  match schedule with
  | [] => r
  | s :: schedule =>
      relay_run schedule (default r (if s then step_into_a r else step_into_b r))
  end.
End Relay.

(** ** Lemmas *)

Lemma AddInt64_wrap (a d n : Z) : AddInt64 d (wrap64 (n + a)) = wrap64 (n + (a + d)).
Proof.
  unfold AddInt64, wrap64. f_equal.
  replace ((n + a + 2 ^ 63) mod 2 ^ 64 - 2 ^ 63 + d + 2 ^ 63)
    with ((n + a + 2 ^ 63) mod 2 ^ 64 + d) by lia.
  rewrite Zplus_mod_idemp_l. f_equal. lia.
Qed.

(** What a write leaves, and whether it has failed. *)
Definition rest_of (wr : written) : list byte := match wr with Going l => l | Gone _ => [] end.
Definition failed (wr : written) : bool := match wr with Gone (Some _) => true | _ => false end.

Lemma copy_write_spec {D} `{RWCLaws D} (b : list byte) (d d' : D) (wr : written) :
  copy_write b d = Some (wr, d') ->
  exists out lost, b = out ++ rest_of wr ++ lost /\ sent d' = sent d ++ out /\
    (failed wr = false -> lost = []) /\ (is_open d = true -> reliable d = true -> failed wr = false) /\
    (forall l, wr = Going l -> out <> []) /\
    incoming d' = incoming d /\ is_open d' = is_open d /\ ends d' = ends d /\
    reliable d' = reliable d /\ drains d' = drains d /\ budget d' = budget d.
Proof.
  unfold copy_write. destruct (Z.ltb_spec 0 (zlen b)) as [Hb|Hb].
  - destruct (rwc_Write b d) as [[[n|nw ew] d1]|] eqn:E; [| |done];
      destruct (Write_some _ _ _ _ E) as (Hn & Hs & Hrest); cbn in Hs.
    + intros [= <- <-]. exists (take n b), []. cbn. rewrite app_nil_r, take_drop.
      do 4 (split; [done|]). split; [|exact Hrest].
      intros l _ Hnil. apply (f_equal length) in Hnil. rewrite length_take in Hnil. cbn in Hnil. lia.
    + destruct Hn as (Hn & Hnone & Hrel).
      intros Hw. exists (take (Z.to_nat nw) b), (drop (Z.to_nat nw) b).
      destruct ew as [e|]; injection Hw as <- <-; cbn.
      * rewrite take_drop. split; [done|]. split; [done|]. split; [done|]. split; [|split; [done|exact Hrest]].
        intros Ho Hr. specialize (Hrel Ho Hr). done.
      * specialize (Hnone eq_refl). subst nw. rewrite Z.eqb_refl. cbn. rewrite take_drop.
        split; [done|]. split; [done|]. split; [|split; [done|split; [done|exact Hrest]]].
        intros _. apply drop_ge. unfold zlen. lia.
  - assert (b = []) as -> by (apply zlen_0_nil; lia). intros [= <- <-].
    exists [], []. rewrite !app_nil_r. do 5 (split; [done|]). done.
Qed.

Lemma copy_write_blocks {D} `{RWCLaws D} (b : list byte) (d : D) :
  copy_write b d = None -> is_open d = true /\ drains d = false.
Proof.
  unfold copy_write. destruct (0 <? zlen b); [|done].
  destruct (rwc_Write b d) as [[[n|nw [e|]] d1]|] eqn:E; [done..|]. intros _. by apply Write_blocks in E.
Qed.

(** *** One direction *)

(** What is in flight, and whether the copy is past its last read. *)
Definition in_flight (pc : cp_pc) : list byte :=
  match pc with CpWrite b _ => b | _ => [] end.
Definition at_end (pc : cp_pc) : bool :=
  match pc with CpRead | CpWrite _ None => false | _ => true end.

Definition copying (pc : cp_pc) : bool :=
  match pc with CpRead | CpWrite _ _ => true | _ => false end.

Definition writing (pc : cp_pc) : bool := match pc with CpWrite _ _ => true | _ => false end.

(** An upper bound on the operations a copy still has to do, before a source with so many
    reads and bytes. *)
Definition cp_weight (pc : cp_pc) (budget bytes : nat) : nat :=
  match pc with
  | CpRead => 3 * budget + bytes + 3
  | CpWrite b None => 3 * budget + bytes + length b + 4
  | CpWrite b (Some _) => length b + 2
  | CpClose _ => 1
  | CpDone _ => 0
  end.

(** What a write of a copy leaves in flight, where it goes, and that it goes forward. *)
Lemma in_flight_after (wr : written) (er : option error) : in_flight (after_write wr er) = rest_of wr.
Proof. by destruct wr as [|[]], er as [[]|]. Qed.

Lemma after_write_running (wr : written) (er : option error) :
  is_cp_done (after_write wr er) = false.
Proof. by destruct wr as [|[]], er as [[]|]. Qed.

Lemma after_write_at_end (wr : written) (er : option error) (b : list byte) :
  failed wr = false -> at_end (after_write wr er) = at_end (CpWrite b er).
Proof. by destruct wr as [|[]], er as [[]|]. Qed.

Lemma after_write_copying (wr : written) (er : option error) :
  copying (after_write wr er) = true -> failed wr = false.
Proof. by destruct wr as [|[]], er as [[]|]. Qed.

Lemma after_write_weight (wr : written) (er : option error) (out lost : list byte) (m n : nat) :
  (forall l, wr = Going l -> out <> []) ->
  (cp_weight (after_write wr er) m n < cp_weight (CpWrite (out ++ rest_of wr ++ lost) er) m n)%nat.
Proof.
  intros Hout. destruct wr as [l|[e|]], er as [[]|]; cbn; rewrite ?length_app; cbn; try lia;
    specialize (Hout l eq_refl); destruct out; cbn; try done; lia.
Qed.

(** The copy from [s0] into [d0] so far: what was read ([got]) is a prefix of what the
    source delivers, what was written ([out]) is a prefix of that, all of it but for
    what is in flight unless a write failed, and the counter moved by what was read. *)
Record copied {D S} `{RWCLaws D, RWCLaws S} (d0 : D) (s0 : S) (n0 : Z)
    (pc : cp_pc) (d : D) (s : S) (n : Z) (got out : list byte) : Prop := mkCopied {
  cd_in : incoming s0 = got ++ incoming s;
  cd_out : sent d = sent d0 ++ out;
  cd_flight : exists lost, got = out ++ in_flight pc ++ lost /\
      (copying pc = true \/ reliable d0 = true -> lost = []);
  cd_count : n = wrap64 (n0 + zlen got);
  cd_reliable : reliable d = reliable d0
}.

(** What a step of a copy leaves alone, and what it does to its program counter. *)
Record cp_frame {D S} `{RWCLaws D, RWCLaws S} (pc pc' : cp_pc) (d d' : D) (s s' : S)
    : Prop := mkFrame {
  fr_running : is_cp_done pc = false;
  fr_src : sent s' = sent s /\ is_open s' = is_open s /\ ends s' = ends s /\
           reliable s' = reliable s /\ drains s' = drains s;
  fr_dst : incoming d' = incoming d /\ ends d' = ends d /\ reliable d' = reliable d /\
           drains d' = drains d /\ budget d' = budget d;
  fr_open : is_open d = true -> is_open d' = negb (is_cp_done pc');
  fr_weight : (cp_weight pc' (budget s') (length (incoming s')) <
               cp_weight pc (budget s) (length (incoming s)))%nat;
  fr_end : is_open d = true -> reliable d = true -> at_end pc' = true ->
      (at_end pc = true /\ incoming s' = incoming s) \/ incoming s' = [] \/
      (pc = CpRead /\ is_open s = false)
}.

Section Direction.
Context {D S : Type} `{RWCLaws D, RWCLaws S} (size : nat) (Hsize : (0 < size)%nat).

Lemma cp_step_frame (pc pc' : cp_pc) (d d' : D) (s s' : S) (n n' : Z) :
  cp_step size pc d s n = Some (pc', d', s', n') -> cp_frame pc pc' d d' s s'.
Proof.
  destruct pc as [|b er|res|res]; cbn; [| | |done].
  - unfold measured_read. destruct (rwc_Read size s) as [[[b er] s1]|] eqn:E; [|done].
    intros [= <- <- <- <-]. destruct (is_open s) eqn:Eo.
    + destruct (Read_open _ _ _ _ _ Hsize Eo E) as (Hin & Hend & Hb & Hs & Ho & He & Hr).
      split; cbn; [done|by rewrite Ho, Eo|done|done| |].
      * rewrite Hin, length_app. destruct er; [lia|]. specialize (Hb eq_refl). lia.
      * intros _ _ Her. right; left. by apply Hend; destruct er.
    + destruct (Read_closed size s Eo) as [e Hc]. rewrite Hc in E. injection E as <- <- <-.
      split; cbn; [done|done|done|done|lia|]. intros _ _ _. right; right. done.
  - destruct (copy_write b d) as [[wr d1]|] eqn:E; [|done]. intros [= <- <- <- <-].
    destruct (copy_write_spec _ _ _ _ E) as (out & lost & -> & _ & _ & Hrel & Hout & Hi & Ho & Hrest).
    split; [done|done|by split|by rewrite after_write_running, Ho|by apply after_write_weight|].
    intros Hd Hr Hat. left. split; [|done]. erewrite <- after_write_at_end; [exact Hat|auto].
  - intros [= <- <- <- <-]. destruct (Close_some d) as (Ho & _ & Hi & Hrest).
    split; cbn; [done|done|done|done|lia|]. intros _ _ _. by left.
Qed.

Lemma cp_step_copied (d0 : D) (s0 : S) (n0 : Z) (pc pc' : cp_pc) (d d' : D) (s s' : S)
    (n n' : Z) (got out : list byte) :
  copied d0 s0 n0 pc d s n got out -> is_open d = true -> int64_range n ->
  cp_step size pc d s n = Some (pc', d', s', n') ->
  int64_range n' /\ exists got' out', copied d0 s0 n0 pc' d' s' n' got' out'.
Proof.
  intros [Hin Hout (lost & Hfl & Hlost) Hn Hrel] Hd Hrange.
  destruct pc as [|b er|res|res]; cbn; [| | |done].
  - unfold measured_read. destruct (rwc_Read size s) as [[[b er] s1]|] eqn:E; [|done].
    intros [= <- <- <- <-]. rewrite (Hlost (or_introl eq_refl)) in Hfl. cbn in Hfl.
    rewrite app_nil_r in Hfl. subst got.
    assert (Hb : incoming s = b ++ incoming s1).
    { destruct (is_open s) eqn:Eo; [by apply (Read_open _ _ _ _ _ Hsize Eo E)|].
      destruct (Read_closed size s Eo) as [e Hc]. rewrite Hc in E. by injection E as <- <- <-. }
    assert (Hcount : (if 0 <? zlen b then AddInt64 (zlen b) n else n) = wrap64 (n0 + zlen (out ++ b))).
    { rewrite Hn, zlen_app. pose proof (zlen_nonneg b). case_bool; [apply AddInt64_wrap|].
      replace (zlen b) with 0 by lia. by rewrite Z.add_0_r. }
    rewrite Hcount. split; [apply wrap64_range|]. exists (out ++ b), out. split; [|done| |done|done].
    + by rewrite Hin, Hb, app_assoc.
    + exists []. cbn. by rewrite app_nil_r.
  - destruct (copy_write b d) as [[wr d1]|] eqn:E; [|done]. intros [= <- <- <- <-].
    destruct (copy_write_spec _ _ _ _ E) as (o & l & Eb & Es & Hl & Hok & _ & _ & _ & _ & Hr & _).
    rewrite (Hlost (or_introl eq_refl)), app_nil_r in Hfl. cbn in Hfl.
    split; [done|]. exists got, (out ++ o).
    split; [done|by rewrite Es, Hout, app_assoc| |done|congruence].
    exists l. rewrite in_flight_after, Hfl, Eb, !app_assoc. split; [done|].
    intros [Hp|Hr0]; apply Hl; [by eapply after_write_copying|]. apply Hok; congruence.
  - intros [= <- <- <- <-]. destruct (Close_some d) as (_ & Hs & _ & _ & Hr & _).
    split; [done|]. exists got, out. split; [done|congruence| |done|congruence].
    exists lost. split; [done|]. intros [?|?]; [done|]. apply Hlost. by right.
Qed.

(** A copy that cannot move has ended, or reads from a connection that never ends, or
    writes to one whose peer does not read. *)
Lemma cp_step_stuck (pc : cp_pc) (d : D) (s : S) (n : Z) :
  cp_step size pc d s n = None ->
  is_cp_done pc = true \/ (pc = CpRead /\ is_open s = true /\ ends s = false) \/
  (writing pc = true /\ is_open d = true /\ drains d = false).
Proof.
  destruct pc as [|b er|res|res]; cbn; [| |done|by left].
  - unfold measured_read. destruct (rwc_Read size s) as [[[b er] s1]|] eqn:E; [done|].
    intros _. right. left. split; [done|]. by apply (Read_blocks size).
  - destruct (copy_write b d) as [[wr d1]|] eqn:E; [done|]. intros _. right. right.
    split; [done|]. by eapply copy_write_blocks.
Qed.
End Direction.

(** *** Both directions *)

Section Both.
Context {A B : Type} `{RWCLaws A, RWCLaws B} (size : nat) (Hsize : (0 < size)%nat).
Context (a0 : A) (b0 : B) (st0 : Stats).

(** The invariant of a run: both copies are on their way, each side is open until the
    copy into it has closed it, and the gauge counts the relay once. *)
Record relay_inv (r : relay_state A B) : Prop := mkRelayInv {
  ri_a : exists got out, copied a0 b0 st0.(BytesSent) r.(rl_into_a) r.(rl_a) r.(rl_b)
           r.(rl_stats).(BytesSent) got out;
  ri_b : exists got out, copied b0 a0 st0.(BytesRecv) r.(rl_into_b) r.(rl_b) r.(rl_a)
           r.(rl_stats).(BytesRecv) got out;
  ri_open : is_open r.(rl_a) = negb (is_cp_done r.(rl_into_a)) /\
            is_open r.(rl_b) = negb (is_cp_done r.(rl_into_b));
  ri_ends : ends r.(rl_a) = ends a0 /\ ends r.(rl_b) = ends b0;
  ri_drains : drains r.(rl_a) = drains a0 /\ drains r.(rl_b) = drains b0;
  ri_range : int64_range r.(rl_stats).(BytesSent) /\ int64_range r.(rl_stats).(BytesRecv);
  ri_stats : r.(rl_stats) = st0 <| ActiveConns ::= AddInt64 1 |> <| TotalConns ::= AddInt64 1 |>
      <| BytesSent := r.(rl_stats).(BytesSent) |> <| BytesRecv := r.(rl_stats).(BytesRecv) |>
}.

(** When writes do not fail, a copy ends because its source did, or because the other
    copy, whose source had ended, has closed it. *)
Definition ends_honestly (r : relay_state A B) : Prop :=
  (at_end r.(rl_into_a) = true -> incoming r.(rl_b) = [] \/
     (is_cp_done r.(rl_into_b) = true /\ incoming r.(rl_a) = [])) /\
  (at_end r.(rl_into_b) = true -> incoming r.(rl_a) = [] \/
     (is_cp_done r.(rl_into_a) = true /\ incoming r.(rl_b) = [])).

Definition relay_weight (r : relay_state A B) : nat :=
  cp_weight r.(rl_into_a) (budget r.(rl_b)) (length (incoming r.(rl_b))) +
  cp_weight r.(rl_into_b) (budget r.(rl_a)) (length (incoming r.(rl_a))).

Lemma copied_ext {D S} `{RWCLaws D, RWCLaws S} (d0 : D) (s0 : S) (n0 : Z) (pc : cp_pc)
    (d d' : D) (s s' : S) (n : Z) (got out : list byte) :
  copied d0 s0 n0 pc d s n got out ->
  sent d' = sent d -> reliable d' = reliable d -> incoming s' = incoming s ->
  copied d0 s0 n0 pc d' s' n got out.
Proof. intros [] ? ? ?. split; congruence. Qed.

Lemma step_into_a_inv (r r' : relay_state A B) :
  relay_inv r -> step_into_a size r = Some r' ->
  relay_inv r' /\ (relay_weight r' < relay_weight r)%nat /\
  (reliable a0 = true -> ends_honestly r -> ends_honestly r').
Proof.
  intros [(g1 & o1 & Ha) (g2 & o2 & Hb) [Oa Ob] [Ea Eb] [Da Db'] [Ra Rb] Hst]. unfold step_into_a.
  destruct (cp_step _ _ _ _ _) as [[[[pc a] b] n]|] eqn:E; [|done]. intros [= <-].
  destruct (cp_step_frame size Hsize _ _ _ _ _ _ _ _ E)
    as [Hrun (Fs & Fo & Fe & Fr & Fd) (Di & De & Dr & Dd & Db) Hopen Hw Hend].
  rewrite Hrun in Oa. specialize (Hopen Oa).
  destruct (cp_step_copied size Hsize _ _ _ _ _ _ _ _ _ _ _ _ _ Ha Oa Ra E) as [Rn Hc].
  split; [|split].
  - split; cbn; [exact Hc| |split; [done|by rewrite Fo]|split; congruence|split; congruence|done|].
    + exists g2, o2. by eapply copied_ext.
    + rewrite Hst at 1. by destruct (rl_stats r).
  - unfold relay_weight. cbn. rewrite Db, Di. lia.
  - intros Hrel [Ha1 Hb1]. unfold ends_honestly. cbn. rewrite Di.
    assert (Hra : reliable (rl_a r) = true) by (by rewrite (cd_reliable _ _ _ _ _ _ _ _ _ Ha)).
    split.
    + intros Hat. destruct (Hend Oa Hra Hat) as [[Hat0 Hi]|[Hi|[Hpc Hclosed]]];
        [rewrite Hi; by apply Ha1|by left|right].
      rewrite Ob in Hclosed. apply negb_false_iff in Hclosed. split; [done|].
      destruct (Hb1 ltac:(by destruct (rl_into_b r))) as [?|[Hd _]]; [done|].
      by rewrite Hpc in Hd.
    + intros [?|[Hd _]]%Hb1; [by left|congruence].
Qed.

Lemma step_into_b_inv (r r' : relay_state A B) :
  relay_inv r -> step_into_b size r = Some r' ->
  relay_inv r' /\ (relay_weight r' < relay_weight r)%nat /\
  (reliable b0 = true -> ends_honestly r -> ends_honestly r').
Proof.
  intros [(g1 & o1 & Ha) (g2 & o2 & Hb) [Oa Ob] [Ea Eb] [Da Db'] [Ra Rb] Hst]. unfold step_into_b.
  destruct (cp_step _ _ _ _ _) as [[[[pc b] a] n]|] eqn:E; [|done]. intros [= <-].
  destruct (cp_step_frame size Hsize _ _ _ _ _ _ _ _ E)
    as [Hrun (Fs & Fo & Fe & Fr & Fd) (Di & De & Dr & Dd & Db) Hopen Hw Hend].
  rewrite Hrun in Ob. specialize (Hopen Ob).
  destruct (cp_step_copied size Hsize _ _ _ _ _ _ _ _ _ _ _ _ _ Hb Ob Rb E) as [Rn Hc].
  split; [|split].
  - split; cbn; [|exact Hc|split; [by rewrite Fo|done]|split; congruence|split; congruence|done|].
    + exists g1, o1. by eapply copied_ext.
    + rewrite Hst at 1. by destruct (rl_stats r).
  - unfold relay_weight. cbn. rewrite Db, Di. lia.
  - intros Hrel [Ha1 Hb1]. unfold ends_honestly. cbn. rewrite Di.
    assert (Hrb : reliable (rl_b r) = true) by (by rewrite (cd_reliable _ _ _ _ _ _ _ _ _ Hb)).
    split.
    + intros [?|[Hd _]]%Ha1; [by left|congruence].
    + intros Hat. destruct (Hend Ob Hrb Hat) as [[Hat0 Hi]|[Hi|[Hpc Hclosed]]];
        [rewrite Hi; by apply Hb1|by left|right].
      rewrite Oa in Hclosed. apply negb_false_iff in Hclosed. split; [done|].
      destruct (Ha1 ltac:(by destruct (rl_into_a r))) as [?|[Hd _]]; [done|].
      by rewrite Hpc in Hd.
Qed.

Lemma relay_step_inv (r r' : relay_state A B) :
  relay_inv r -> relay_step size r r' ->
  relay_inv r' /\ (relay_weight r' < relay_weight r)%nat /\
  (reliable a0 = true -> reliable b0 = true -> ends_honestly r -> ends_honestly r').
Proof.
  intros Hr [Hs|Hs]; [destruct (step_into_a_inv r r' Hr Hs) as (? & ? & ?)
                     |destruct (step_into_b_inv r r' Hr Hs) as (? & ? & ?)]; auto.
Qed.

Lemma relay_run_inv (n : nat) (r r' : relay_state A B) :
  relay_inv r -> nsteps (relay_step size) n r r' ->
  relay_inv r' /\ (n + relay_weight r' <= relay_weight r)%nat /\
  (reliable a0 = true -> reliable b0 = true -> ends_honestly r -> ends_honestly r').
Proof.
  intros Hr Hn. induction Hn as [r|n r r1 r2 Hs _ IH]; [split; [done|split; [lia|done]]|].
  destruct (relay_step_inv r r1 Hr Hs) as (H1 & H2 & H3). destruct (IH H1) as (H4 & H5 & H6).
  split; [done|]. split; [lia|]. auto.
Qed.

Context (Ha0 : is_open a0 = true) (Hb0 : is_open b0 = true).
Context (Hs0 : int64_range st0.(BytesSent)) (Hr0 : int64_range st0.(BytesRecv)).

Lemma copied_start {D S} `{RWCLaws D, RWCLaws S} (d : D) (s : S) (n : Z) :
  int64_range n -> copied d s n CpRead d s n [] [].
Proof.
  intros Hn. split; [done|by rewrite app_nil_r|by exists []| |done].
  by rewrite Z.add_0_r, wrap64_id.
Qed.

Lemma relay_start_inv : relay_inv (relay_start a0 b0 st0).
Proof.
  split; cbn.
  - exists [], []. by apply copied_start.
  - exists [], []. by apply copied_start.
  - by rewrite Ha0, Hb0.
  - done.
  - done.
  - done.
  - by destruct st0.
Qed.

(** Where a relay waits in a [Write] to one of its sides. *)
Definition stalled_into_a (r : relay_state A B) : Prop :=
  writing r.(rl_into_a) = true /\ is_open r.(rl_a) = true /\ drains a0 = false.
Definition stalled_into_b (r : relay_state A B) : Prop :=
  writing r.(rl_into_b) = true /\ is_open r.(rl_b) = true /\ drains b0 = false.

Lemma relay_stuck (r : relay_state A B) :
  relay_inv r -> ends a0 || ends b0 = true -> relay_return r = None ->
  (exists r', relay_step size r r') \/ stalled_into_a r \/ stalled_into_b r.
Proof.
  intros Hr Hends Hret. destruct Hr as [_ _ [Oa Ob] [Ea Eb] [Da Db] _ _].
  destruct (step_into_a size r) as [r1|] eqn:E1; [left; exists r1; by left|].
  destruct (step_into_b size r) as [r2|] eqn:E2; [left; exists r2; by right|]. right.
  unfold step_into_a in E1. destruct (cp_step _ _ _ _ _) as [[[[]]]|] eqn:S1 in E1; [done|].
  unfold step_into_b in E2. destruct (cp_step _ _ _ _ _) as [[[[]]]|] eqn:S2 in E2; [done|].
  unfold stalled_into_a, stalled_into_b. apply cp_step_stuck in S1, S2.
  destruct S1 as [D1|[(P1 & O1 & N1)|(P1 & O1 & N1)]]; [| |left; split; [done|split; congruence]].
  - destruct S2 as [D2|[(P2 & O2 & N2)|(P2 & O2 & N2)]]; [| |right; split; [done|split; congruence]].
    + unfold relay_return in Hret. by rewrite D1, D2 in Hret.
    + by rewrite Oa, D1 in O2.
  - destruct S2 as [D2|[(P2 & O2 & N2)|(P2 & O2 & N2)]]; [| |right; split; [done|split; congruence]].
    + by rewrite Ob, D2 in O1.
    + rewrite Ea in N2. rewrite Eb in N1. by rewrite N1, N2 in Hends.
Qed.
End Both.

Lemma relay_run_nsteps {A B} `{ReadWriteCloser A, ReadWriteCloser B} (size : nat)
    (schedule : list bool) (r : relay_state A B) :
  exists n, nsteps (relay_step size) n r (relay_run size schedule r).
Proof.
  revert r. induction schedule as [|s schedule IH]; intros r; cbn; [exists 0%nat; constructor|].
  destruct (if s then step_into_a size r else step_into_b size r) as [r1|] eqn:E; cbn.
  - destruct (IH r1) as [n Hn]. exists (S n). econstructor; [|exact Hn].
    unfold relay_step. destruct s; auto.
  - apply IH.
Qed.

(** ** A scripted connection

    An instance of the interface: what arrives, in which pieces, whether the peer ends
    it, and how much the peer still reads ([None] if it does not stop). *)
Record duplex := mkDuplex {
  dx_reads : list (list byte);
  dx_end : option error;
  dx_out : sink;
  dx_room : option nat;
  dx_open : bool
}.
#[export] Instance eta_duplex : Eta duplex := fun c =>
  mkDuplex c.(dx_reads) c.(dx_end) c.(dx_out) c.(dx_room) c.(dx_open).

Definition ErrClosed : error := Errorf "use of closed network connection" [].

Definition duplex_read (n : nat) (c : duplex) : option (list byte * option error * duplex) :=
  if negb c.(dx_open) then Some ([], Some ErrClosed, c)
  else
    match c.(dx_reads) with
    | [] => match c.(dx_end) with Some e => Some ([], Some e, c) | None => None end
    | b :: rest =>
        Some (take n b, None,
              c <| dx_reads := match drop n b with [] => rest | l => l :: rest end |>)
    end.
Definition duplex_write (b : list byte) (c : duplex) : option (progress * duplex) :=
  if negb c.(dx_open) then Some (Wrote 0 (Some ErrClosed), c)
  else
    match c.(dx_room) with
    | Some O => None
    | Some n =>
        let '(nw, ew, k) := sink_write (take n b) c.(dx_out) in
        let c := c <| dx_out := k |> <| dx_room := Some (n - length b)%nat |> in
        match ew with
        | Some e => Some (Wrote nw (Some e), c)
        | None => Some (if (n <? length b)%nat then Passed n else Wrote nw None, c)
        end
    | None => let '(nw, ew, k) := sink_write b c.(dx_out) in Some (Wrote nw ew, c <| dx_out := k |>)
    end.

#[export] Instance duplex_rwc : ReadWriteCloser duplex := {|
  rwc_Read := duplex_read;
  rwc_Write := duplex_write;
  rwc_Close c := c <| dx_open := false |>
|}.

Definition reads_budget (l : list (list byte)) : nat := foldr (fun b n => S (length b) + n)%nat O l.

Lemma sink_write_keeps (b : list byte) (out k : sink) (n : Z) (e : option error) :
  sink_write b out = (n, e, k) -> k_fail k = None <-> k_fail out = None.
Proof.
  unfold sink_write. destruct (k_fail out) as [[m f]|] eqn:F;
    [destruct (Nat.leb _ _)|]; intros [= <- <- <-]; cbn; split; congruence.
Qed.

#[export] Program Instance duplex_laws : RWCLaws duplex := {|
  incoming c := concat c.(dx_reads);
  sent c := k_bytes c.(dx_out);
  is_open := dx_open;
  ends c := bool_decide (is_Some c.(dx_end));
  reliable c := bool_decide (c.(dx_out).(k_fail) = None);
  drains c := bool_decide (c.(dx_room) = None);
  budget c := reads_budget c.(dx_reads)
|}.
Next Obligation.
  intros n [[|b rest] fin out room op] r er c' Hn Ho; cbn in *; subst op; unfold duplex_read; cbn.
  - destruct fin; [|done]. by intros [= <- <- <-].
  - intros [= <- <- <-]. cbn. destruct (drop n b) as [|x l] eqn:E; cbn.
    + assert (take n b = b) as ->; [|by repeat split; try done; lia].
      apply take_ge. apply (f_equal length) in E. rewrite length_drop in E. cbn in E. lia.
    + assert (Hb : b = take n b ++ x :: l) by (by rewrite <- E, take_drop).
      split; [by rewrite Hb at 1; rewrite <- app_assoc|]. split; [done|]. split; [|done].
      intros _. apply (f_equal length) in E. rewrite length_drop in E. cbn in E. lia.
Qed.
Next Obligation.
  intros n [[|b rest] [e|] out room []]; unfold duplex_read; cbn; try done.
Qed.
Next Obligation.
  intros n [rd fin out room op]; cbn. intros ->. by exists ErrClosed.
Qed.
Next Obligation.
  intros b [rd fin out room op] pr c'; cbn; unfold duplex_write; cbn -[Nat.ltb take].
  destruct op; cbn -[Nat.ltb take].
  2: { intros [= <- <-]. cbn. rewrite app_nil_r. pose proof (zlen_nonneg b). by repeat split. }
  destruct room as [[|n]|]; [done| |].
  - set (t := take (S n) b). destruct (sink_write t out) as [[nw ew] k] eqn:E.
    destruct (sink_write_spec _ _ _ _ _ E) as (Hn & Hk & He). apply sink_write_keeps in E as Hf.
    destruct ew as [e|]; [|destruct (Nat.ltb_spec (S n) (length b))];
      intros [= <- <-]; cbn -[take]; (split; [|split; [|by rewrite (bool_decide_ext _ _ Hf)]]).
    + unfold t, zlen in Hn. rewrite length_take in Hn. unfold zlen. split; [lia|]. split; [done|].
      intros _ Hr. apply bool_decide_eq_true in Hr. by rewrite sink_write_ok in E.
    + rewrite Hk. unfold t. rewrite take_take. do 2 f_equal. unfold t, zlen in Hn.
      rewrite length_take in Hn. lia.
    + lia.
    + rewrite Hk, (proj1 He eq_refl). unfold t, zlen.
      rewrite Nat2Z.id, length_take, take_take. do 2 f_equal. lia.
    + assert (t = b) as Et by (apply take_ge; lia). rewrite Et in *. split; [done|].
      split; [by intros ->%He|done].
    + assert (t = b) as Et by (apply take_ge; lia). by rewrite Et in *.
  - destruct (sink_write b out) as [[nw ew] k] eqn:E. intros [= <- <-]. cbn.
    destruct (sink_write_spec _ _ _ _ _ E) as (Hn & Hk & He). apply sink_write_keeps in E as Hf.
    split; [|split; [done|by rewrite (bool_decide_ext _ _ Hf)]].
    split; [done|]. split; [by intros ->%He|]. intros _ Hr. apply bool_decide_eq_true in Hr. rewrite sink_write_ok in E by done.
    by injection E as _ <- _.
Qed.
Next Obligation.
  intros b [rd fin out room op]; cbn; unfold duplex_write; cbn. destruct op; [|done]. cbn.
  destruct room as [[|n]|]; [done| |].
  - destruct (sink_write _ _) as [[nw [e|]] k]; done.
  - by destruct (sink_write _ _) as [[nw ew] k].
Qed.
Next Obligation. done. Qed.

(** ** Properties *)

(** C6: A relay ends, unless it waits in a [Write].  Whatever its two copies' interleaving, it
    makes a bounded number of operations.  If one of the two connections ends, it comes to
    rest only by returning, or with a copy that is in a [Write], into a connection that
    is open and that its peer has stopped reading; so it returns if both peers go on
    reading, and the other connection may be silent for ever, because the copy that ends
    closes it. *)
Theorem relay_ends {A B} `{RWCLaws A, RWCLaws B} (size : nat) (a : A) (b : B) (st : Stats) :
  (0 < size)%nat -> is_open a = true -> is_open b = true ->
  int64_range st.(BytesSent) -> int64_range st.(BytesRecv) ->
  (forall n r, nsteps (relay_step size) n (relay_start a b st) r ->
     n <= 3 * (budget a + budget b) + length (incoming a) + length (incoming b) + 6)%nat /\
  (ends a || ends b = true ->
   forall n r, nsteps (relay_step size) n (relay_start a b st) r -> relay_return r = None ->
     (exists r', relay_step size r r') \/
     (writing r.(rl_into_a) = true /\ is_open r.(rl_a) = true /\ drains a = false) \/
     (writing r.(rl_into_b) = true /\ is_open r.(rl_b) = true /\ drains b = false)).
Proof.
  intros Hsize Ha Hb Hs Hr. pose proof (relay_start_inv a b st Ha Hb Hs Hr) as Hst0. split.
  - intros n r Hn. destruct (relay_run_inv size Hsize a b st n _ r Hst0 Hn) as (_ & Hw & _).
    unfold relay_weight in Hw. cbn in Hw. lia.
  - intros He n r Hn. destruct (relay_run_inv size Hsize a b st n _ r Hst0 Hn) as (Hi & _ & _).
    by apply (relay_stuck size a b st).
Qed.

(** C7: What a relay has done when it returns, in every interleaving: both connections are
    closed; it is counted among the connections handled and no longer among the active
    ones; each side got a prefix of what came from the other, and each counter moved by
    the bytes read, which are no fewer.  If no write failed on an open connection, one
    of the directions is complete; the other may have been cut short by its end. *)
Theorem relay_delivers {A B} `{RWCLaws A, RWCLaws B} (size : nat) (a : A) (b : B) (st st' : Stats)
    (n : nat) (r : relay_state A B) :
  (0 < size)%nat -> is_open a = true -> is_open b = true ->
  int64_range st.(ActiveConns) -> int64_range st.(BytesSent) -> int64_range st.(BytesRecv) ->
  nsteps (relay_step size) n (relay_start a b st) r -> relay_return r = Some st' ->
  is_open r.(rl_a) = false /\ is_open r.(rl_b) = false /\
  exists got_b out_a got_a out_b,
    got_b `prefix_of` incoming b /\ out_a `prefix_of` got_b /\
    sent r.(rl_a) = sent a ++ out_a /\
    got_a `prefix_of` incoming a /\ out_b `prefix_of` got_a /\
    sent r.(rl_b) = sent b ++ out_b /\
    st' = st <| TotalConns ::= AddInt64 1 |> <| BytesSent ::= AddInt64 (zlen got_b) |>
             <| BytesRecv ::= AddInt64 (zlen got_a) |> /\
    (reliable a = true -> reliable b = true -> out_a = incoming b \/ out_b = incoming a).
Proof.
  intros Hsize Ha Hb Hc Hs Hr Hn Hret. pose proof (relay_start_inv a b st Ha Hb Hs Hr) as Hst0.
  destruct (relay_run_inv size Hsize a b st n _ r Hst0 Hn) as (Hi & _ & Hend).
  destruct Hi as [(gb & oa & Ca) (ga & ob & Cb) [Oa Ob] _ _ _ Hst]. unfold relay_return in Hret.
  destruct (rl_into_a r) as [| | |ra] eqn:Pa; try done.
  destruct (rl_into_b r) as [| | |rb] eqn:Pb; try done. injection Hret as <-.
  split; [done|]. split; [done|]. exists gb, oa, ga, ob.
  destruct (cd_flight _ _ _ _ _ _ _ _ _ Ca) as (la & Ea & La).
  destruct (cd_flight _ _ _ _ _ _ _ _ _ Cb) as (lb & Eb & Lb). cbn in Ea, Eb.
  split; [exists (incoming (rl_b r)); by destruct Ca|]. split; [by exists la|].
  split; [by destruct Ca|]. split; [exists (incoming (rl_a r)); by destruct Cb|].
  split; [by exists lb|]. split; [by destruct Cb|]. split.
  - rewrite Hst, (cd_count _ _ _ _ _ _ _ _ _ Ca), (cd_count _ _ _ _ _ _ _ _ _ Cb).
    unfold upd. cbn -[AddInt64]. do 2 f_equal. rewrite <- (wrap64_id (ActiveConns st)) at 2 by done.
    unfold AddInt64 at 2. rewrite AddInt64_wrap. f_equal. lia.
  - intros Hra Hrb. destruct Hend as [Hea Heb]; [done|done|by cbn| ].
    rewrite Pa, Pb in Hea, Heb.
    rewrite (La (or_intror Hra)), app_nil_r in Ea. rewrite (Lb (or_intror Hrb)), app_nil_r in Eb.
    destruct Ca as [Ia _ _ _ _], Cb as [Ib _ _ _ _]. subst ga gb.
    destruct (Hea eq_refl) as [Hi|[_ Hi]]; rewrite Hi, app_nil_r in *; [by left|by right].
Qed.

(** ** Witnesses *)

Definition zero_Stats : Stats := mkStats 0 0 0 0 0 0 0 0.
(** A client that sends a request and then half-closes its connection ... *)
Definition client_conn : duplex := mkDuplex [[x01; x02]; [x03]] (Some EOF) (mkSink [] None) None true.
(** ... and a server that answers, and keeps its own open. *)
Definition server_conn : duplex := mkDuplex [[x0a; x0b; x0c]] None (mkSink [] None) None true.

(** A schedule that runs one copy as far as it goes before the other. *)
Definition eager (into_a : bool) : list bool :=
  replicate 12 into_a ++ replicate 12 (negb into_a) ++ replicate 12 into_a.

(** The client's half-close ends the relay: the answer arrives if the copy of it was
    faster, and is lost if it was not. *)
Example half_close_races :
  let r1 := relay_run 2 (eager true) (relay_start client_conn server_conn zero_Stats) in
  let r2 := relay_run 2 (eager false) (relay_start client_conn server_conn zero_Stats) in
  (k_bytes r1.(rl_a).(dx_out), k_bytes r1.(rl_b).(dx_out)) = ([x0a; x0b; x0c], [x01; x02; x03]) /\
  relay_return r1 = Some (zero_Stats <| TotalConns := 1 |> <| BytesSent := 3 |> <| BytesRecv := 3 |>) /\
  (k_bytes r2.(rl_a).(dx_out), k_bytes r2.(rl_b).(dx_out)) = ([], [x01; x02; x03]) /\
  relay_return r2 = Some (zero_Stats <| TotalConns := 1 |> <| BytesRecv := 3 |>).
Proof. repeat split; vm_compute; reflexivity. Qed.

(** A client that half-closes and stops reading after one byte of the answer: the relay does
    not return, and the client's connection stays open, although that direction has ended
    and has closed the other side. *)
Definition deaf_client : duplex :=
  mkDuplex [[x01; x02]; [x03]] (Some EOF) (mkSink [] None) (Some 1%nat) true.
Example relay_write_blocks :
  let r := relay_run 2 (eager false) (relay_start deaf_client server_conn zero_Stats) in
  let r' := relay_run 2 (eager true) (relay_start deaf_client server_conn zero_Stats) in
  relay_return r = Some (zero_Stats <| TotalConns := 1 |> <| BytesRecv := 3 |>) /\
  relay_return r' = None /\ step_into_a 2 r' = None /\ step_into_b 2 r' = None /\
  is_open r'.(rl_a) = true /\ is_open r'.(rl_b) = false /\ k_bytes r'.(rl_a).(dx_out) = [x0a].
Proof. repeat split; vm_compute; reflexivity. Qed.

Lemma relay_ends_witness :
  (forall n r, nsteps (relay_step 2) n (relay_start client_conn server_conn zero_Stats) r ->
     n <= 3 * (5 + 4) + 3 + 3 + 6)%nat /\
  (forall n r, nsteps (relay_step 2) n (relay_start client_conn server_conn zero_Stats) r ->
     relay_return r = None -> exists r', relay_step 2 r r').
Proof.
  destruct (relay_ends 2 client_conn server_conn zero_Stats) as [Hn Hs];
    [lia|reflexivity|reflexivity|vm_compute; split; [discriminate|reflexivity]..|].
  split; [exact Hn|]. intros n r Hr Hret.
  destruct (Hs eq_refl n r Hr Hret) as [Hx|[(_ & _ & Hd)|(_ & _ & Hd)]];
    [exact Hx|discriminate Hd|discriminate Hd].
Defined.

Lemma relay_delivers_witness :
  exists n st', let r := relay_run 2 (eager true) (relay_start client_conn server_conn zero_Stats) in
    nsteps (relay_step 2) n (relay_start client_conn server_conn zero_Stats) r /\
    relay_return r = Some st' /\ is_open r.(rl_b) = false.
Proof.
  destruct (relay_run_nsteps 2 (eager true) (relay_start client_conn server_conn zero_Stats))
    as [n Hn].
  destruct (relay_return (relay_run 2 (eager true) (relay_start client_conn server_conn zero_Stats)))
    as [st'|] eqn:E; [|vm_compute in E; discriminate].
  exists n, st'. split; [exact Hn|]. split; [exact E|].
  assert (Hz : int64_range 0) by (vm_compute; split; [discriminate|reflexivity]).
  pose proof (relay_delivers 2 client_conn server_conn zero_Stats st' n _
    (Nat.lt_0_succ 1) eq_refl eq_refl Hz Hz Hz Hn E) as (_ & Hopen & _).
  exact Hopen.
Defined.
