(* ===== verification/Duplex.v ===== *)
(** * The tunnel in both directions ([EncryptedConn] over an upgraded connection)

    [EncryptedConn] relates what one end writes to what the other reads, one after the
    other.  Under smux both ends write and read at the same time; here the calls of the two
    ends interleave as they like, over one connection that carries both directions.  A
    call is taken when it completes: a [Read] that finds no packet waits, so it is a call
    that comes later, and the connection delivers a packet when all of it has arrived. *)

From S2P Require Import Prelude GoStrings GoBytes IoReader NetConn NetAddr ConfigTypes Config.
From S2P Require Import EncryptedConn Target ClientPool PoolWorker Sessions Mimic Upgrade.
From Stdlib Require Import Init.Byte.

Local Open Scope string_scope.
Local Open Scope list_scope.
Local Open Scope Z_scope.

(** ** The two ends *)

Inductive peer := Server | Client.
Definition opposite (s : peer) : peer := match s with Server => Client | Client => Server end.

Record tunnel := mkTunnel { tn_server : EncryptedConn; tn_client : EncryptedConn }.

Definition end_of (s : peer) (w : tunnel) : EncryptedConn :=
  match s with Server => w.(tn_server) | Client => w.(tn_client) end.
Definition set_end (s : peer) (c : EncryptedConn) (w : tunnel) : tunnel :=
  match s with Server => mkTunnel c w.(tn_client) | Client => mkTunnel w.(tn_server) c end.

(** What arrives at an end. *)
Definition feed (bytes : list byte) (c : EncryptedConn) : EncryptedConn :=
  let 'mkStream data e := c.(ec_in) in c <| ec_in := mkStream (data ++ bytes) e |>.

(** The bytes that a call has put on the wire. *)
Definition on_wire (c c' : EncryptedConn) : list byte :=
  drop (length (k_bytes c.(ec_out))) (k_bytes c'.(ec_out)).

(** A call at one of the ends, and how it ends. *)
Inductive call :=
| CallWrite (s : peer) (data : list byte) (w : write_entropy)
| CallRead (s : peer) (n : nat).
Inductive outcome_of :=
| Wrote (n : Z) (err : option error)
| Got (b : list byte)
| ReadFailed (err : error)
| Waits.

Section Tunnel.
Context `{Crypto}.

Definition tunnel_call (o : call) (w : tunnel) : outcome (outcome_of * tunnel) :=
  match o with
  | CallWrite s data e =>
      '(r, c) ← Write (end_of s w) data e;
      let w := set_end (opposite s) (feed (on_wire (end_of s w) c) (end_of (opposite s) w)) w in
      Done (Wrote r.(wr_n) r.(wr_err), set_end s c w)
  | CallRead s n =>
      '(r, c) ← Read (end_of s w) n;
      Done match r with
           | Ok b => (Got b, set_end s c w)
           | Err EOF => (Waits, w)
           | Err e => (ReadFailed e, set_end s c w)
           end
  end.

Fixpoint tunnel_run (os : list call) (w : tunnel) : outcome (list outcome_of * tunnel) :=
  match os with
  | [] => Done ([], w)
  | o :: os =>
      '(r, w) ← tunnel_call o w;
      '(rs, w) ← tunnel_run os w;
      Done (r :: rs, w)
  end.
End Tunnel.

(** ** Specification: two queues of messages *)

(** The messages that the server, and the client, can still read. *)
Record queues := mkQueues { q_server : list (list byte); q_client : list (list byte) }.
Definition queue_of (s : peer) (q : queues) : list (list byte) :=
  match s with Server => q.(q_server) | Client => q.(q_client) end.
Definition set_queue (s : peer) (l : list (list byte)) (q : queues) : queues :=
  match s with Server => mkQueues l q.(q_client) | Client => mkQueues q.(q_server) l end.

Definition spec_call (o : call) (q : queues) : outcome_of * queues :=
  match o with
  | CallWrite s data _ =>
      (Wrote (zlen data) None, set_queue (opposite s) (queue_of (opposite s) q ++ [data]) q)
  | CallRead s n =>
      match spec_read (queue_of s q) n with
      | (Ok b, l) => (Got b, set_queue s l q)
      | (Err _, _) => (Waits, q)
      end
  end.

Fixpoint spec_run (os : list call) (q : queues) : list outcome_of :=
  match os with
  | [] => []
  | o :: os => let '(r, q) := spec_call o q in r :: spec_run os q
  end.

(** ** Lemmas *)

Section Laws.
Context `{CL : CryptoLaws}.

Lemma wire_of_app (c : EncryptedConn) (x y : list byte) (p q : list (list byte)) :
  wire_of c x p -> wire_of c y q -> wire_of c (x ++ y) (p ++ q).
Proof.
  induction 1 as [|body m bytes p Hb Hd _ IH]; intros Hy; [done|].
  rewrite <- !app_assoc. constructor; auto.
Qed.

(** A packet that arrives is a message at the end of the queue. *)
Lemma holds_feed (c : EncryptedConn) (q : list (list byte)) (bytes : list byte) (m : list byte) :
  holds c q -> wire_of c bytes [m] -> holds (feed bytes c) (q ++ [m]).
Proof.
  intros (data & q' & Hin & Hw & ->) Hm. unfold feed. rewrite Hin.
  exists (data ++ bytes), (q' ++ [m]). cbn. split; [done|]. split.
  - eapply wire_of_ext; [|by apply wire_of_app]. by destruct c.
  - by destruct (ec_readBuf c).
Qed.

Lemma feed_frame (bytes : list byte) (c : EncryptedConn) :
  (feed bytes c).(ec_gcm) = c.(ec_gcm) /\ (feed bytes c).(ec_obfs) = c.(ec_obfs) /\
  (feed bytes c).(ec_out) = c.(ec_out).
Proof. unfold feed. by destruct (ec_in c). Qed.

(** [Read] changes only what there is to read. *)
Lemma Read_frame (c c' : EncryptedConn) (n : nat) (r : result (list byte)) :
  Read c n = Done (r, c') ->
  c'.(ec_gcm) = c.(ec_gcm) /\ c'.(ec_obfs) = c.(ec_obfs) /\ c'.(ec_out) = c.(ec_out).
Proof.
  unfold Read. destruct (ec_readBuf c); [|by intros [= _ <-]].
  destruct (ReadFull 4 (ec_in c)) as [[header|e] s]; [|by intros [= _ <-]].
  destruct (_ || _); [by intros [= _ <-]|]. destruct (bufferSize <? _); [done|].
  destruct (ReadFull _ s) as [[pkt|e] s']; [|by intros [= _ <-]].
  destruct (decode c pkt) as [[m|e]|]; [| |done]; cbn; by intros [= _ <-].
Qed.

(** ** The simulation *)

(** An end as the run finds it: its settings, a connection that takes what is written, and
    the messages it holds. *)
Record end_ok (c0 c : EncryptedConn) (q : list (list byte)) : Prop := mkEndOk {
  eo_gcm : c.(ec_gcm) = c0.(ec_gcm);
  eo_obfs : c.(ec_obfs) = c0.(ec_obfs);
  eo_out : c.(ec_out).(k_fail) = None;
  eo_holds : holds c q
}.

Definition tunnel_ok (w0 w : tunnel) (q : queues) : Prop :=
  forall s, end_ok (end_of s w0) (end_of s w) (queue_of s q).

Lemma end_ok_settings (c0 c : EncryptedConn) (q : list (list byte)) :
  end_ok c0 c q -> obfs_on c = obfs_on c0 /\ (wf_conn c0 -> wf_conn c) /\
  (forall m, sendable c0 m -> sendable c m).
Proof.
  intros [Hg Ho _ _]. assert (He : obfs_on c = obfs_on c0) by (unfold obfs_on; by rewrite Ho).
  split; [done|]. unfold wf_conn, sendable, max_padding, overhead. rewrite He, Hg. by split.
Qed.

Lemma end_ok_feed (c0 c : EncryptedConn) (q : list (list byte)) (bytes m : list byte) :
  end_ok c0 c q -> wire_of c bytes [m] -> end_ok c0 (feed bytes c) (q ++ [m]).
Proof.
  intros [Hg Ho Hk Hh] Hm. destruct (feed_frame bytes c) as (F1 & F2 & F3).
  split; [congruence|congruence|by rewrite F3|by apply holds_feed].
Qed.

(** One call is one step of the specification. *)
Lemma tunnel_call_refines (w0 w : tunnel) (q : queues) (o : call) :
  tunnel_ok w0 w q -> peers w0.(tn_server) w0.(tn_client) ->
  (forall s, wf_conn (end_of s w0)) ->
  (forall s data e, o = CallWrite s data e -> sendable (end_of s w0) (data, e)) ->
  exists w', tunnel_call o w = Done ((spec_call o q).1, w') /\ tunnel_ok w0 w' (spec_call o q).2.
Proof.
  intros Hok Hp Hwf Hs. destruct o as [s data e|s n]; cbn.
  - pose proof (Hok s) as Hme. pose proof (Hok (opposite s)) as Hother.
    destruct (end_ok_settings _ _ _ Hme) as (Eo & Ewf & Es).
    destruct (Write_sendable (end_of s w) data e (Ewf (Hwf s)) (eo_out _ _ _ Hme) (Es _ (Hs s data e eq_refl)))
      as (body & Hw & Hpos & Hfit & Hd).
    rewrite Hw, send_packet_ok by (done || apply Hme). cbn.
    set (pkt := be32 (u32 (zlen body)) ++ body).
    assert (Hnew : on_wire (end_of s w) ((end_of s w) <| ec_out := mkSink (k_writes (ec_out (end_of s w)) ++ [pkt]) None |>) = pkt).
    { unfold on_wire, k_bytes. cbn. rewrite concat_app, drop_app_length. cbn. by rewrite app_nil_r. }
    unfold pkt in Hnew at 1. cbn in Hnew. rewrite Hnew.
    eexists. split; [reflexivity|].
    assert (Hwire : wire_of (end_of (opposite s) w) pkt [data]).
    { rewrite <- (app_nil_r pkt). unfold pkt. rewrite <- app_assoc. constructor; [lia| |constructor].
      rewrite <- (decode_ext (end_of s w)); [done|].
      destruct (end_ok_settings _ _ _ Hother) as (Eo' & _). destruct Hme as [Eg _ _ _], Hother as [Eg' _ _ _].
      destruct Hp as [Pg Po].
      split; [rewrite Eg, Eg'; destruct s; cbn; congruence|]. rewrite Eo, Eo'.
      destruct s; cbn; [done|by symmetry]. }
    intros t. pose proof (end_ok_feed _ _ _ _ _ Hother Hwire) as Hfed.
    destruct Hme as [G1 G2 _ G4].
    assert (Hme' : end_ok (end_of s w0)
      ((end_of s w) <| ec_out := mkSink (k_writes (ec_out (end_of s w)) ++ [pkt]) None |>) (queue_of s q)).
    { split; [done|done|done|]. eapply holds_ext, G4; by destruct (end_of s w). }
    destruct s, t; cbn in *; done.
  - pose proof (Hok s) as Hme. destruct Hme as [G1 G2 G3 G4].
    destruct (Read_refines (end_of s w) (queue_of s q) n G4) as (c & Hr & Hh & _).
    destruct (Read_frame _ _ _ _ Hr) as (F1 & F2 & F3). rewrite Hr. cbn.
    destruct (queue_of s q) as [|m l] eqn:Eq; cbn in *.
    + exists w. split; [done|]. exact Hok.
    + eexists. split; [reflexivity|].
      assert (Hme' : end_ok (end_of s w0) c match drop n m with [] => l | r => r :: l end)
        by (split; [congruence|congruence|by rewrite F3|done]).
      intros t. pose proof (Hok t). destruct s, t; cbn in *; done.
Qed.

Lemma tunnel_run_refines (w0 w : tunnel) (q : queues) (os : list call) :
  tunnel_ok w0 w q -> peers w0.(tn_server) w0.(tn_client) ->
  (forall s, wf_conn (end_of s w0)) ->
  Forall (fun o => forall s data e, o = CallWrite s data e -> sendable (end_of s w0) (data, e)) os ->
  exists w', tunnel_run os w = Done (spec_run os q, w').
Proof.
  intros Hok Hp Hwf Hs. revert w q Hok. induction Hs as [|o os Ho _ IH]; intros w q Hok; [by exists w|].
  destruct (tunnel_call_refines w0 w q o Hok Hp Hwf Ho) as (w1 & Hc & Hok1). cbn. rewrite Hc. cbn.
  destruct (IH w1 _ Hok1) as [w2 ->]. exists w2. cbn. by destruct (spec_call o q).
Qed.
End Laws.

(** *** What the two queues conserve *)

(** The messages written for an end, and the bytes it got. *)
Definition sent_to (s : peer) (os : list call) : list (list byte) :=
  omap (fun o => match o with
                 | CallWrite t data _ => match s, t with
                                         | Client, Server | Server, Client => Some data
                                         | _, _ => None
                                         end
                 | CallRead _ _ => None
                 end) os.
Definition got_here (s : peer) (o : call) (r : outcome_of) : list byte :=
  match o, r with
  | CallRead Server _, Got b => match s with Server => b | Client => [] end
  | CallRead Client _, Got b => match s with Client => b | Server => [] end
  | _, _ => []
  end.
Fixpoint got_by (s : peer) (os : list call) (rs : list outcome_of) : list byte :=
  match os, rs with
  | o :: os, r :: rs => got_here s o r ++ got_by s os rs
  | _, _ => []
  end.

Lemma spec_call_conserves (s : peer) (o : call) (q : queues) :
  concat (queue_of s q) ++ concat (sent_to s [o]) =
  got_here s o (spec_call o q).1 ++ concat (queue_of s (spec_call o q).2).
Proof.
  destruct o as [t data e|t n]; cbn.
  - destruct s, t; cbn; rewrite ?concat_app; cbn; by rewrite ?app_nil_r.
  - rewrite app_nil_r. pose proof (spec_read_conserves (queue_of t q) n) as Hc.
    destruct (spec_read (queue_of t q) n) as [[b|e] l] eqn:E; cbn in Hc |- *.
    + destruct s, t; cbn in *; done.
    + by destruct t.
Qed.

Lemma spec_run_conserves (s : peer) (os : list call) (q : queues) :
  exists rest, concat (queue_of s q) ++ concat (sent_to s os) = got_by s os (spec_run os q) ++ rest.
Proof.
  revert q. induction os as [|o os IH]; intros q; [by eexists|].
  pose proof (spec_call_conserves s o q) as Hc. cbn [spec_run]. destruct (spec_call o q) as [r q'].
  destruct (IH q') as [rest Hr]. exists rest. cbn [got_by fst snd] in *.
  assert (Hs : concat (sent_to s (o :: os)) = concat (sent_to s [o]) ++ concat (sent_to s os)).
  { rewrite <- concat_app. unfold sent_to. by rewrite <- omap_app. }
  by rewrite Hs, app_assoc, Hc, <- !app_assoc, Hr.
Qed.

(** ** Properties *)

(** C2: The tunnel, end to end and in both directions.  After a server has upgraded a
    request and the client has read the 101 response, the two encrypted connections
    behave like two queues of messages, one per direction: in every interleaving of
    the writes and reads of both ends, with buffers of any sizes, every write reports its
    full length, every read returns what the queue says, and waits exactly when its queue
    is empty.  So what an end has got is at every moment a prefix of what the other has
    written.  Both need the same pre-shared key, and both or neither obfuscate. *)
Theorem tunnel_duplex {C : Crypto} (CL : CryptoLaws C) (d : SmuxSettings) (cfg ccfg : Config)
    (ul : uplink) (conn : hijacked) (t : list up_event) (sv : EncryptedConn)
    (close_body : string -> string) (cout : sink) :
  ul.(ul_hijacker) = true -> ul.(ul_hijack) = Ok conn -> conn.(hj_out) = mkSink [] None ->
  conn.(hj_in) = mkStream [] EOF -> cout.(k_fail) = None ->
  upgrade d cfg ul = (t, Some sv) ->
  cfg.(cfg_PSK) = ccfg.(cfg_PSK) ->
  cfg.(cfg_Obfs).(Obfs_Enabled) = ccfg.(cfg_Obfs).(Obfs_Enabled) ->
  wf_obfs cfg.(cfg_Obfs) -> wf_obfs ccfg.(cfg_Obfs) ->
  exists cl,
    finish_handshake close_body (k_bytes sv.(ec_out)) = Ok [] /\
    NewEncryptedConn (mkStream [] EOF) cout ccfg.(cfg_PSK) (Some ccfg.(cfg_Obfs)) = Ok cl /\
    forall os,
      Forall (fun o => forall s data e, o = CallWrite s data e ->
                sendable (end_of s (mkTunnel sv cl)) (data, e)) os ->
      exists w', tunnel_run os (mkTunnel sv cl) = Done (spec_run os (mkQueues [] []), w') /\
        forall s, got_by s os (spec_run os (mkQueues [] [])) `prefix_of` concat (sent_to s os).
Proof.
  intros Hh Hc Hout Hin Hk Hup Hpsk Hobfs Hwf Hcwf.
  pose proof (upgrade_cases d cfg ul conn Hh Hc) as Hcase. rewrite Hup, Hout, Hin in Hcase.
  rewrite sink_write_ok in Hcase by done. cbn [k_writes app] in Hcase.
  destruct (ul_smux ul) as [sess|e]; [|by destruct Hcase as (? & _ & _ & ?)].
  destruct Hcase as (t1 & _ & _ & [= _ ->]).
  eexists. split; [|split; [apply NewEncryptedConn_ok|]].
  { unfold k_bytes. cbn [ec_out k_writes concat]. apply finish_switch. }
  intros os Hs. set (w0 := mkTunnel _ _) in *.
  assert (Hempty : forall s, end_ok (end_of s w0) (end_of s w0) []).
  { intros s. split; [done|done|by destruct s|]. exists [], [].
    split; [by destruct s|]. split; [constructor|by destruct s]. }
  destruct (tunnel_run_refines w0 w0 (mkQueues [] []) os) as [w' Hr]; [| | |done|].
  - intros s. by destruct s; apply Hempty.
  - split; [cbn; by rewrite Hpsk|]. unfold obfs_on. cbn. rewrite Hobfs.
    destruct (Obfs_Enabled (cfg_Obfs ccfg)); split; intros []; eauto; done.
  - intros s. unfold wf_conn, obfs_on, w0. destruct s; cbn;
      [destruct (Obfs_Enabled (cfg_Obfs cfg))|destruct (Obfs_Enabled (cfg_Obfs ccfg))];
      (exact Hwf || exact Hcwf || exact I).
  - exists w'. split; [done|]. intros s.
    destruct (spec_run_conserves s os (mkQueues [] [])) as [rest Hrest]. exists rest.
    rewrite <- Hrest. by destruct s.
Qed.

(** ** Witnesses *)

(** The client asks while the server is already sending; the server's first read waits. *)
Definition chat : list call :=
  [CallRead Server 10; CallWrite Server (bytes_of "hello") toy_entropy;
   CallWrite Client (bytes_of "ping") toy_entropy; CallRead Client 3; CallRead Server 10;
   CallWrite Server (bytes_of "pong") toy_entropy; CallRead Client 9; CallRead Client 9].

Lemma tunnel_duplex_witness :
  exists sv cl w', upgrade smux_defaults up_config up_link =
    ((upgrade smux_defaults up_config up_link).1, Some sv) /\
    tunnel_run chat (mkTunnel sv cl) =
      Done ([Waits; Wrote 5 None; Wrote 4 None; Got (bytes_of "hel"); Got (bytes_of "ping");
             Wrote 4 None; Got (bytes_of "lo"); Got (bytes_of "pong")], w').
Proof.
  destruct (upgrade smux_defaults up_config up_link) as [t [sv|]] eqn:E; [|discriminate E].
  assert (Hwf : wf_obfs (cfg_Obfs up_config)) by (unfold wf_obfs; cbn; lia).
  destruct (tunnel_duplex toy_crypto_laws smux_defaults up_config up_config up_link up_conn t sv
    (fun s => s) (mkSink [] None) eq_refl eq_refl eq_refl eq_refl eq_refl E eq_refl eq_refl Hwf Hwf)
    as (cl & _ & Hcl & Hrun).
  destruct (Hrun chat) as (w' & Hw & _).
  - assert (Esv : sv = mkEC (Some (sha256_Sum256 (bytes_of "secret"))) (Some toy_obfs) []
                         (mkStream [] EOF) (mkSink [bytes_of switchResp] None))
      by (vm_compute in E; injection E as _ <-; reflexivity).
    assert (Ecl : cl = mkEC (Some (sha256_Sum256 (bytes_of "secret"))) (Some toy_obfs) []
                         (mkStream [] EOF) (mkSink [] None))
      by (vm_compute in Hcl; injection Hcl as <-; reflexivity).
    rewrite Esv, Ecl. unfold chat.
    repeat (apply Forall_cons; split; [intros s data e Heq; try discriminate Heq;
      injection Heq as <- <- <-; cbn [end_of tn_server tn_client];
      repeat split; (discriminate || (vm_compute; (reflexivity || discriminate)))|]).
    apply Forall_nil. exact I.
  - exists sv, cl, w'. split; [reflexivity|exact Hw].
Defined.
