(* ===== verification/Forward.v ===== *)
(** * A forwarded port, end to end ([handleReverseTCP], [handleReverseStream], [relay])

    Once the target is sent, a reverse TCP connection is two relays with one smux stream
    between them: the server's, from the user's connection to the stream, and the
    client's, from the stream to the target.  This file runs the two relays of [Relay]
    together.  The stream is smux's: an interface with its documented behaviour
    ([StreamPair], [StreamLaws]) and an instance.  A [Write] passes its bytes on in pieces,
    and waits while the other end has not read enough. *)

From S2P Require Import Prelude GoStrings GoBytes Steps Relay.
From Stdlib Require Import Init.Byte.

Local Open Scope list_scope.
Local Open Scope Z_scope.

(** ** The stream *)

(** The server's end of a stream and the client's. *)
Inductive side := Near | Far.
Definition other (s : side) : side := match s with Near => Far | Far => Near end.

(** The operations of the two ends; [sp_break] is the end of the session under them. *)
Class StreamPair (P : Type) := {
  sp_Read : side -> nat -> P -> option (list byte * option error * P);
  sp_Write : side -> list byte -> P -> option (progress * P);
  sp_Close : side -> P -> P;
  sp_break : P -> P -> Prop
}.

(** [coming s p] is what [s] can still read.  What is written to an end that is closed, or
    on a dead session, is dropped; a stream is [tolerant] if such a write to a closed end
    succeeds all the same (smux has both behaviours, by protocol version).  A [Read] waits
    while there is nothing to read and more may come, a [Write] while the other end, which
    is open, has bytes to read; and both may when the session is [stalled], because
    nobody reads its other streams or the connection under it does not move. *)
Class StreamLaws (P : Type) {SP : StreamPair P} := {
  coming : side -> P -> list byte;
  side_open : side -> P -> bool;
  alive : P -> bool;
  tolerant : P -> bool;
  stalled : P -> bool;
  sp_Read_open : forall s n p b er p', (0 < n)%nat -> side_open s p = true ->
    sp_Read s n p = Some (b, er, p') ->
    coming s p = b ++ coming s p' /\ (er = None -> b <> []) /\
    (er <> None -> alive p = true -> side_open (other s) p = false /\ coming s p' = []) /\
    coming (other s) p' = coming (other s) p /\
    (forall t, side_open t p' = side_open t p) /\ alive p' = alive p /\
    tolerant p' = tolerant p /\ stalled p' = stalled p;
  sp_Read_blocks : forall s n p, sp_Read s n p = None ->
    side_open s p = true /\ alive p = true /\
    (stalled p = true \/ side_open (other s) p = true /\ coming s p = []);
  sp_Read_closed : forall s n p, side_open s p = false ->
    exists e, sp_Read s n p = Some ([], Some e, p);
  sp_Write_some : forall s b p pr p', sp_Write s b p = Some (pr, p') ->
    match pr with
    | Passed n => (0 < n < length b)%nat
    | Wrote nw ew => 0 <= nw <= zlen b /\ (ew = None -> nw = zlen b) /\
        (side_open s p = true -> alive p = true -> side_open (other s) p || tolerant p = true ->
         ew = None)
    end /\
    coming (other s) p' = coming (other s) p ++
      (if side_open (other s) p && alive p then take (passed pr) b else []) /\
    coming s p' = coming s p /\
    (forall t, side_open t p' = side_open t p) /\ alive p' = alive p /\
    tolerant p' = tolerant p /\ stalled p' = stalled p;
  sp_Write_blocks : forall s b p, sp_Write s b p = None ->
    side_open s p = true /\ alive p = true /\
    (stalled p = true \/ side_open (other s) p = true /\ coming (other s) p <> []);
  sp_Close_some : forall s p,
    side_open s (sp_Close s p) = false /\
    side_open (other s) (sp_Close s p) = side_open (other s) p /\
    (forall t, coming t (sp_Close s p) = coming t p) /\
    alive (sp_Close s p) = alive p /\ tolerant (sp_Close s p) = tolerant p /\
    stalled (sp_Close s p) = stalled p;
  sp_break_some : forall p p', sp_break p p' ->
    alive p = true /\ alive p' = false /\ tolerant p' = tolerant p /\ stalled p' = stalled p /\
    (forall t, coming t p' `prefix_of` coming t p) /\
    (forall t, side_open t p' = side_open t p)
}.

(** One end, as a connection of a relay. *)
Record stream_end (P : Type) (s : side) := End { end_pair : P }.
Arguments End {P s} _.
Arguments end_pair {P s} _.

#[export] Instance stream_end_rwc {P} `{StreamPair P} (s : side) :
    ReadWriteCloser (stream_end P s) := {
  rwc_Read n e :=
    match sp_Read s n e.(end_pair) with
    | Some (b, er, p) => Some (b, er, End p)
    | None => None
    end;
  rwc_Write b e :=
    match sp_Write s b e.(end_pair) with
    | Some (pr, p) => Some (pr, End p)
    | None => None
    end;
  rwc_Close e := End (sp_Close s e.(end_pair))
}.

(** ** The two relays *)

(** The state: the user's connection, the stream, the target's connection, and the four
    copies with the statistics of the two processes. *)
Record forward (U P T : Type) := mkForward {
  fw_user : U;
  fw_pair : P;
  fw_target : T;
  fw_srv_into_user : cp_pc;
  fw_srv_into_stream : cp_pc;
  fw_srv_stats : Stats;
  fw_cli_into_stream : cp_pc;
  fw_cli_into_target : cp_pc;
  fw_cli_stats : Stats
}.
Arguments mkForward {U P T} _ _ _ _ _ _ _ _ _.
Arguments fw_user {U P T} _.
Arguments fw_pair {U P T} _.
Arguments fw_target {U P T} _.
Arguments fw_srv_into_user {U P T} _.
Arguments fw_srv_into_stream {U P T} _.
Arguments fw_srv_stats {U P T} _.
Arguments fw_cli_into_stream {U P T} _.
Arguments fw_cli_into_target {U P T} _.
Arguments fw_cli_stats {U P T} _.

Section Forward.
Context {U P T : Type} `{ReadWriteCloser U, StreamPair P, ReadWriteCloser T} (size : nat).

(** The server's [relay(local, stream)] and the client's [relay(stream, remote)]. *)
Definition server_relay (w : forward U P T) : relay_state U (stream_end P Near) :=
  mkRelay w.(fw_user) (End w.(fw_pair)) w.(fw_srv_into_user) w.(fw_srv_into_stream)
    w.(fw_srv_stats).
Definition client_relay (w : forward U P T) : relay_state (stream_end P Far) T :=
  mkRelay (End w.(fw_pair)) w.(fw_target) w.(fw_cli_into_stream) w.(fw_cli_into_target)
    w.(fw_cli_stats).

Definition set_server (r : relay_state U (stream_end P Near)) (w : forward U P T) : forward U P T :=
  mkForward r.(rl_a) r.(rl_b).(end_pair) w.(fw_target) r.(rl_into_a) r.(rl_into_b) r.(rl_stats)
    w.(fw_cli_into_stream) w.(fw_cli_into_target) w.(fw_cli_stats).
Definition set_client (r : relay_state (stream_end P Far) T) (w : forward U P T) : forward U P T :=
  mkForward w.(fw_user) r.(rl_a).(end_pair) r.(rl_b) w.(fw_srv_into_user)
    w.(fw_srv_into_stream) w.(fw_srv_stats) r.(rl_into_a) r.(rl_into_b) r.(rl_stats).

(** One operation of one of the four copies, or the end of the session. *)
Inductive forward_step : forward U P T -> forward U P T -> Prop :=
| fw_server w r : relay_step size (server_relay w) r -> forward_step w (set_server r w)
| fw_client w r : relay_step size (client_relay w) r -> forward_step w (set_client r w)
| fw_break w p : sp_break w.(fw_pair) p ->
    forward_step w (mkForward w.(fw_user) p w.(fw_target) w.(fw_srv_into_user)
      w.(fw_srv_into_stream) w.(fw_srv_stats) w.(fw_cli_into_stream) w.(fw_cli_into_target)
      w.(fw_cli_stats)).

(** Both relays have just been called. *)
Definition forward_start (u : U) (p : P) (t : T) (st st' : Stats) : forward U P T :=
  let srv := relay_start u (End p : stream_end P Near) st in
  let cli := relay_start (End p : stream_end P Far) t st' in
  mkForward u p t srv.(rl_into_a) srv.(rl_into_b) srv.(rl_stats)
    cli.(rl_into_a) cli.(rl_into_b) cli.(rl_stats).

(** Both relays have returned. *)
Definition forward_done (w : forward U P T) : bool :=
  bool_decide (is_Some (relay_return (server_relay w))) &&
  bool_decide (is_Some (relay_return (client_relay w))).

(** A run under a schedule: which copy is tried next. *)
Inductive copy_name := IntoUser | UserIntoStream | TargetIntoStream | IntoTarget.
Definition forward_try (c : copy_name) (w : forward U P T) : forward U P T :=
  match c with
  | IntoUser => match step_into_a size (server_relay w) with Some r => set_server r w | None => w end
  | UserIntoStream => match step_into_b size (server_relay w) with Some r => set_server r w | None => w end
  | TargetIntoStream => match step_into_a size (client_relay w) with Some r => set_client r w | None => w end
  | IntoTarget => match step_into_b size (client_relay w) with Some r => set_client r w | None => w end
  end.
Definition forward_run (schedule : list copy_name) (w : forward U P T) : forward U P T :=
  foldl (fun w c => forward_try c w) w schedule.
End Forward.

(** ** Lemmas: moves of a copy *)

(** The three operations of a copy, without its counter. *)
Inductive cp_move {D S} `{ReadWriteCloser D, ReadWriteCloser S} (size : nat) :
    cp_pc -> D -> S -> cp_pc -> D -> S -> Prop :=
| mv_read d s b er s' :
    rwc_Read size s = Some (b, er, s') -> cp_move size CpRead d s (CpWrite b er) d s'
| mv_write b er d wr d' s :
    copy_write b d = Some (wr, d') -> cp_move size (CpWrite b er) d s (after_write wr er) d' s
| mv_close res d s : cp_move size (CpClose res) d s (CpDone res) (rwc_Close d) s.

Lemma cp_step_move {D S} `{ReadWriteCloser D, ReadWriteCloser S} (size : nat) (pc pc' : cp_pc)
    (d d' : D) (s s' : S) (n n' : Z) :
  cp_step size pc d s n = Some (pc', d', s', n') -> cp_move size pc d s pc' d' s'.
Proof.
  destruct pc as [|b er|res|res]; cbn; [| | |done].
  - unfold measured_read. destruct (rwc_Read size s) as [[[b er] s1]|] eqn:E; [|done].
    intros [= <- <- <- <-]. by constructor.
  - destruct (copy_write b d) as [[wr d1]|] eqn:E; [|done]. intros [= <- <- <- <-]. by constructor.
  - intros [= <- <- <- <-]. constructor.
Qed.

Lemma cp_step_rests {D S} `{ReadWriteCloser D, ReadWriteCloser S} (size : nat) (pc : cp_pc)
    (d : D) (s : S) (n : Z) :
  cp_step size pc d s n = None ->
  is_cp_done pc = true \/ (pc = CpRead /\ rwc_Read size s = None) \/
  exists b er, pc = CpWrite b er /\ copy_write b d = None.
Proof.
  destruct pc as [|b er|res|res]; cbn; [| |done|by left].
  - unfold measured_read. destruct (rwc_Read size s) as [[[b er] s1]|]; [done|by right; left].
  - destruct (copy_write b d) as [[wr d1]|] eqn:E; [done|]. intros _. right. right. by exists b, er.
Qed.

(** Bytes through a copy: [got] was read, [out] was written. *)
Definition flow (pc : cp_pc) (got out : list byte) : Prop :=
  exists lost, got = out ++ in_flight pc ++ lost /\ (copying pc = true -> lost = []).

Lemma flow_read (got out b : list byte) (er : option error) :
  flow CpRead got out -> flow (CpWrite b er) (got ++ b) out.
Proof.
  intros (lost & -> & Hl). rewrite (Hl eq_refl). exists []. cbn. by rewrite !app_nil_r.
Qed.

Lemma flow_write (got out b o l : list byte) (er : option error) (wr : written) :
  flow (CpWrite b er) got out -> b = o ++ rest_of wr ++ l -> (failed wr = false -> l = []) ->
  flow (after_write wr er) got (out ++ o).
Proof.
  intros (lost & -> & Hl) -> Hwe. rewrite (Hl eq_refl). exists l. cbn.
  rewrite in_flight_after, app_nil_r, !app_assoc. split; [done|].
  intros Hc. apply Hwe. by eapply after_write_copying.
Qed.

Lemma flow_close (got out : list byte) (res : option error) :
  flow (CpClose res) got out -> flow (CpDone res) got out.
Proof. done. Qed.

Lemma flow_prefix (pc : cp_pc) (got out : list byte) : flow pc got out -> out `prefix_of` got.
Proof. intros (lost & -> & _). by exists (in_flight pc ++ lost). Qed.

(** *** Connections at the two outer ends *)

Section Outer.
Context {C : Type} `{RWCLaws C} (size : nat) (Hsize : (0 < size)%nat).

Lemma outer_read (c c' : C) (b : list byte) (er : option error) :
  rwc_Read size c = Some (b, er, c') ->
  incoming c = b ++ incoming c' /\ sent c' = sent c /\ is_open c' = is_open c /\
  ends c' = ends c /\ reliable c' = reliable c /\ drains c' = drains c /\
  (is_open c = true -> er <> None -> incoming c' = [] /\ ends c = true) /\
  (er = None -> (budget c' < budget c)%nat).
Proof.
  intros E. destruct (is_open c) eqn:Eo.
  - destruct (Read_open _ _ _ _ _ Hsize Eo E) as (H1 & H2 & H3 & H4 & H5 & H6 & H7 & H8).
    by rewrite H5.
  - destruct (Read_closed size c Eo) as [e Hc]. rewrite Hc in E. injection E as <- <- <-.
    by rewrite Eo.
Qed.
End Outer.

(** *** The ends of the stream *)

Section Ends.
Context {P : Type} `{StreamLaws P}.

(** What every operation of one end leaves alone. *)
Definition pair_frame (p p' : P) : Prop :=
  (forall t, side_open t p' = side_open t p) /\ alive p' = alive p /\
  tolerant p' = tolerant p /\ stalled p' = stalled p.

Lemma end_read (size : nat) (Hsize : (0 < size)%nat) (s : side) (e e' : stream_end P s) (b : list byte) (er : option error) :
  rwc_Read size e = Some (b, er, e') ->
  let p := end_pair e in let p' := end_pair e' in
  coming s p = b ++ coming s p' /\ coming (other s) p' = coming (other s) p /\ pair_frame p p' /\
  (er = None -> b <> []) /\
  (er <> None -> alive p = true ->
     side_open s p = false \/ (side_open (other s) p = false /\ coming s p' = [])).
Proof.
  destruct e as [p]; cbn. destruct (sp_Read s size p) as [[[b1 er1] p1]|] eqn:E; [|done].
  intros [= <- <- <-]; cbn. unfold pair_frame. destruct (side_open s p) eqn:Eo.
  - destruct (sp_Read_open _ _ _ _ _ _ Hsize Eo E) as (H1 & H2 & H3 & H4 & H5 & H6 & H7 & H8).
    repeat split; try done. intros He Ha. right. by apply H3.
  - destruct (sp_Read_closed s size p Eo) as [e Hc]. rewrite Hc in E. injection E as <- <- <-.
    repeat split; try done. by left.
Qed.

Lemma end_write (s : side) (e e' : stream_end P s) (b : list byte) (wr : written) :
  copy_write b e = Some (wr, e') ->
  let p := end_pair e in let p' := end_pair e' in
  exists o l, b = o ++ rest_of wr ++ l /\ (failed wr = false -> l = []) /\
    (forall r, wr = Going r -> o <> []) /\
    coming (other s) p' =
      coming (other s) p ++ (if side_open (other s) p && alive p then o else []) /\
    coming s p' = coming s p /\ pair_frame p p' /\
    (side_open s p = true -> alive p = true -> side_open (other s) p || tolerant p = true ->
       failed wr = false).
Proof.
  destruct e as [p]. unfold copy_write. destruct (Z.ltb_spec 0 (zlen b)) as [Hb|Hb]; cbn.
  - destruct (sp_Write s b p) as [[[n|nw ew] p1]|] eqn:E; [| |done];
      destruct (sp_Write_some _ _ _ _ _ E) as (Hn & Hc & Hsame & Hf); cbn in Hc.
    + intros [= <- <-]. exists (take n b), []. cbn. rewrite app_nil_r, take_drop.
      split; [done|]. split; [done|]. split; [|done]. intros r _ Hnil.
      apply (f_equal length) in Hnil. rewrite length_take in Hnil. cbn in Hnil. lia.
    + destruct Hn as (Hn & Hnone & Hok). intros Hw.
      exists (take (Z.to_nat nw) b), (drop (Z.to_nat nw) b).
      destruct ew as [e1|]; injection Hw as <- <-; cbn; rewrite take_drop.
      * do 3 (split; [done|]). split; [done|]. split; [done|]. split; [done|].
        intros Ho Ha Ht. by specialize (Hok Ho Ha Ht).
      * specialize (Hnone eq_refl). subst nw. rewrite Z.eqb_refl. cbn.
        split; [done|]. split; [|done]. intros _. apply drop_ge. unfold zlen. lia.
  - assert (b = []) as -> by (apply zlen_0_nil; lia). intros [= <- <-]. exists [], []. cbn.
    repeat split; try done. destruct (_ && _); by rewrite app_nil_r.
Qed.

Lemma end_close (s : side) (e : stream_end P s) :
  let p := end_pair e in let p' := end_pair (rwc_Close e) in
  side_open s p' = false /\ side_open (other s) p' = side_open (other s) p /\
  (forall t, coming t p' = coming t p) /\ alive p' = alive p /\ tolerant p' = tolerant p /\
  stalled p' = stalled p.
Proof. destruct e as [p]. apply sp_Close_some. Qed.

Lemma end_read_rests (size : nat) (s : side) (e : stream_end P s) :
  rwc_Read size e = None ->
  side_open s (end_pair e) = true /\ alive (end_pair e) = true /\
  (stalled (end_pair e) = true \/
   side_open (other s) (end_pair e) = true /\ coming s (end_pair e) = []).
Proof.
  destruct e as [p]; cbn. destruct (sp_Read s size p) as [[[b er] p1]|] eqn:E; [done|].
  intros _. by apply (sp_Read_blocks s size).
Qed.

Lemma end_write_rests (s : side) (b : list byte) (e : stream_end P s) :
  copy_write b e = None ->
  side_open s (end_pair e) = true /\ alive (end_pair e) = true /\
  (stalled (end_pair e) = true \/
   side_open (other s) (end_pair e) = true /\ coming (other s) (end_pair e) <> []).
Proof.
  destruct e as [p]. unfold copy_write. destruct (0 <? zlen b); [|done]. cbn.
  destruct (sp_Write s b p) as [[[n|nw [ew|]] p1]|] eqn:E; [done..|]. intros _.
  by apply (sp_Write_blocks s b).
Qed.
End Ends.

(** *** One direction *)

Section Chain.
Context {S P D : Type} `{RWCLaws S, StreamLaws P, RWCLaws D} (size : nat) (Hsize : (0 < size)%nat).

(** From [s0] over the stream towards its end [to] into [d0]: what the second copy wrote is
    a prefix of what it read, that is a prefix of what the first copy wrote, and so on;
    bytes are dropped on the stream only when its end is closed or it is dead. *)
Definition chain (to : side) (s0 : S) (d0 : D) (pc1 pc2 : cp_pc) (s : S) (p : P) (d : D) : Prop :=
  exists g1 o1 g2 o2 dropped,
    incoming s0 = g1 ++ incoming s /\ flow pc1 g1 o1 /\
    o1 = g2 ++ coming to p ++ dropped /\
    (side_open to p = true -> alive p = true -> dropped = []) /\
    flow pc2 g2 o2 /\ sent d = sent d0 ++ o2.

Lemma chain_prefix (to : side) s0 d0 pc1 pc2 s p d :
  chain to s0 d0 pc1 pc2 s p d ->
  exists o, sent d = sent d0 ++ o /\ o `prefix_of` incoming s0.
Proof.
  intros (g1 & o1 & g2 & o2 & dr & E1 & F1 & E2 & _ & F2 & E3). exists o2. split; [done|].
  apply flow_prefix in F1, F2. etrans; [exact F2|]. etrans; [|exists (incoming s); exact E1].
  etrans; [|exact F1]. rewrite E2. by eexists.
Qed.

(** Nothing is missing once both copies are done and nothing was lost. *)
Lemma chain_start (to : side) (s : S) (p : P) (d : D) :
  coming to p = [] -> chain to s d CpRead CpRead s p d.
Proof.
  intros Hc. unfold chain. exists [], [], [], [], [].
  rewrite Hc, !app_nil_r. repeat split; try done; by exists [].
Qed.

(** Steps of the other direction, and the end of the session, keep the chain. *)
Lemma chain_frame (to : side) s0 d0 pc1 pc2 s s' p p' d d' :
  chain to s0 d0 pc1 pc2 s p d ->
  incoming s' = incoming s -> sent d' = sent d -> coming to p' = coming to p ->
  (side_open to p' = true -> side_open to p = true) -> (alive p' = true -> alive p = true) ->
  chain to s0 d0 pc1 pc2 s' p' d'.
Proof.
  intros (g1 & o1 & g2 & o2 & dr & E1 & F1 & E2 & L & F2 & E3) Hs Hd Hc Ho Ha.
  exists g1, o1, g2, o2, dr. rewrite Hs, Hd, Hc. repeat split; try done. auto.
Qed.

Lemma chain_break (to : side) s0 d0 pc1 pc2 s p p' d :
  chain to s0 d0 pc1 pc2 s p d -> alive p' = false -> coming to p' `prefix_of` coming to p ->
  chain to s0 d0 pc1 pc2 s p' d.
Proof.
  intros (g1 & o1 & g2 & o2 & dr & E1 & F1 & E2 & L & F2 & E3) Ha [x Hx].
  exists g1, o1, g2, o2, (x ++ dr). split; [done|]. split; [done|].
  split; [by rewrite E2, Hx, <- app_assoc|]. split; [by rewrite Ha|done].
Qed.

(** A move of the first copy. *)
Lemma chain_first (to : side) s0 d0 pc1 pc1' pc2 s s' d (e e' : stream_end P (other to)) :
  chain to s0 d0 pc1 pc2 s (end_pair e) d -> cp_move size pc1 e s pc1' e' s' ->
  chain to s0 d0 pc1' pc2 s' (end_pair e') d.
Proof.
  intros (g1 & o1 & g2 & o2 & dr & E1 & F1 & E2 & L & F2 & E3) M.
  destruct M as [e s b er s' Hr|b er e wr e' s Hw|res e s].
  - destruct (outer_read size Hsize _ _ _ _ Hr) as (Hin & _).
    exists (g1 ++ b), o1, g2, o2, dr. repeat split; try done; [by rewrite E1, Hin, app_assoc|].
    by apply flow_read.
  - destruct (end_write _ _ _ _ _ Hw) as (o & l & Eb & Hl & _ & Hc & _ & (Ho & Ha & _) & _).
    assert (Hoo : other (other to) = to) by by destruct to. rewrite Hoo in Hc.
    exists g1, (o1 ++ o), g2, o2,
      (if side_open to (end_pair e) && alive (end_pair e) then dr else dr ++ o).
    rewrite Ho, Ha, Hc. split; [done|]. split; [by eapply flow_write|].
    split; [|split; [|done]].
    + rewrite E2. destruct (side_open to _ && alive _) eqn:B.
      * apply andb_prop in B as [B1 B2]. rewrite (L B1 B2). by rewrite !app_nil_r, app_assoc.
      * by rewrite app_nil_r, !app_assoc.
    + intros B1 B2. rewrite B1, B2. by apply L.
  - destruct (end_close _ e) as (_ & Ho & Hc & Ha & _).
    assert (Hoo : other (other to) = to) by by destruct to. rewrite Hoo in Ho.
    exists g1, o1, g2, o2, dr. rewrite Hc, Ho, Ha. repeat split; try done.
Qed.

(** A move of the second copy. *)
Lemma chain_second (to : side) s0 d0 pc1 pc2 pc2' s d d' (e e' : stream_end P to) :
  chain to s0 d0 pc1 pc2 s (end_pair e) d -> cp_move size pc2 d e pc2' d' e' ->
  chain to s0 d0 pc1 pc2' s (end_pair e') d'.
Proof.
  intros (g1 & o1 & g2 & o2 & dr & E1 & F1 & E2 & L & F2 & E3) M.
  destruct M as [d e b er e' Hr|b er d wr d' e Hw|res d e].
  - destruct (end_read size Hsize _ _ _ _ _ Hr) as (Hc & _ & (Ho & Ha & _) & _).
    exists g1, o1, (g2 ++ b), o2, dr. rewrite Ho, Ha. repeat split; try done.
    + by rewrite E2, Hc, !app_assoc.
    + by apply flow_read.
  - destruct (copy_write_spec _ _ _ _ Hw) as (o & l & Eb & Es & Hl & _).
    exists g1, o1, g2, (o2 ++ o), dr. repeat split; try done; [by eapply flow_write|].
    by rewrite Es, E3, app_assoc.
  - destruct (Close_some d) as (_ & Es & _).
    exists g1, o1, g2, o2, dr. repeat split; try done. by rewrite Es.
Qed.

(** What a move does to the connection it writes to, and to the one it reads. *)
Lemma outer_src_frame (pc pc' : cp_pc) (to : side) (e e' : stream_end P to) (s s' : S) :
  cp_move size pc e s pc' e' s' ->
  sent s' = sent s /\ is_open s' = is_open s /\ ends s' = ends s /\ reliable s' = reliable s /\
  drains s' = drains s.
Proof.
  destruct 1 as [e s b er s' Hr| |]; [|done..].
  by destruct (outer_read size Hsize _ _ _ _ Hr) as (_ & ? & ? & ? & ? & ? & _).
Qed.

Lemma outer_dst_frame (pc pc' : cp_pc) (to : side) (e e' : stream_end P to) (d d' : D) :
  cp_move size pc d e pc' d' e' ->
  incoming d' = incoming d /\ ends d' = ends d /\ reliable d' = reliable d /\
  drains d' = drains d /\ budget d' = budget d /\
  (is_open d = negb (is_cp_done pc) -> is_open d' = negb (is_cp_done pc')).
Proof.
  destruct 1 as [|b er d wr d' e Hw|res d e]; [done| |].
  - destruct (copy_write_spec _ _ _ _ Hw) as (_ & _ & _ & _ & _ & _ & _ & Hi & Ho & He & Hr & Hd & Hb).
    rewrite Ho, after_write_running. by repeat split.
  - destruct (Close_some d) as (Ho & _ & Hi & He & Hr & Hd & Hb). rewrite Ho. by repeat split.
Qed.

Lemma end_src_frame (pc pc' : cp_pc) (to : side) (e e' : stream_end P to) (d d' : D) :
  cp_move size pc d e pc' d' e' ->
  coming (other to) (end_pair e') = coming (other to) (end_pair e) /\
  pair_frame (end_pair e) (end_pair e').
Proof.
  destruct 1 as [d e b er e' Hr| |]; [|done..].
  by destruct (end_read size Hsize _ _ _ _ _ Hr) as (_ & ? & ? & _).
Qed.

Lemma end_dst_frame (pc pc' : cp_pc) (to : side) (e e' : stream_end P to) (s s' : S) :
  cp_move size pc e s pc' e' s' ->
  let p := end_pair e in let p' := end_pair e' in
  coming to p' = coming to p /\ alive p' = alive p /\ tolerant p' = tolerant p /\
  stalled p' = stalled p /\ side_open (other to) p' = side_open (other to) p /\
  (side_open to p = negb (is_cp_done pc) -> side_open to p' = negb (is_cp_done pc')).
Proof.
  destruct 1 as [|b er e wr e' s Hw|res e s]; [done| |]; cbn.
  - destruct (end_write _ _ _ _ _ Hw) as (o & l & _ & _ & _ & _ & Hc & (Ho & Ha & Ht & Hst) & _).
    rewrite !Ho, after_write_running. by repeat split.
  - destruct (end_close _ e) as (Ho & Hoo & Hc & Ha & Ht & Hst). cbn in *. rewrite Ho. by repeat split.
Qed.
End Chain.

(** *** Progress *)

Lemma cp_weight_mono (pc : cp_pc) (m n : nat) :
  (m <= n)%nat -> (cp_weight pc m m <= cp_weight pc n n)%nat.
Proof. destruct pc as [|b [er|]| |]; cbn; lia. Qed.

Section Progress.
Context {S P : Type} `{RWCLaws S, StreamLaws P} (size : nat) (Hsize : (0 < size)%nat).

(** The bytes that the second copy of a direction has still before it. *)
Definition upstream (to : side) (pc1 : cp_pc) (s : S) (p : P) : nat :=
  length (incoming s) + length (in_flight pc1) + length (coming to p).

Lemma first_rank (to : side) (pc pc' : cp_pc) (e e' : stream_end P (other to)) (s s' : S) :
  cp_move size pc e s pc' e' s' ->
  (cp_weight pc' (budget s') (length (incoming s')) <
   cp_weight pc (budget s) (length (incoming s)))%nat /\
  (upstream to pc' s' (end_pair e') <= upstream to pc s (end_pair e))%nat.
Proof.
  unfold upstream. destruct 1 as [e s b er s' Hr|b er e wr e' s Hw|res e s].
  - destruct (outer_read size Hsize _ _ _ _ Hr) as (Hin & _ & _ & _ & _ & _ & _ & Hb).
    rewrite Hin, length_app. cbn. destruct er; [lia|]. specialize (Hb eq_refl). lia.
  - destruct (end_write _ _ _ _ _ Hw) as (o & l & -> & _ & Ho & Hc & _).
    assert (Hoo : other (other to) = to) by by destruct to. rewrite Hoo in Hc.
    split; [by apply after_write_weight|].
    rewrite Hc, in_flight_after. cbn [in_flight]. rewrite !length_app.
    destruct (_ && _); cbn; lia.
  - destruct (end_close _ e) as (_ & _ & Hc & _). rewrite Hc. cbn. lia.
Qed.

Lemma second_rank (to : side) (pc pc' : cp_pc) (e e' : stream_end P to) (d d' : S) (k : nat) :
  cp_move size pc d e pc' d' e' ->
  let m := (k + length (coming to (end_pair e)))%nat in
  let m' := (k + length (coming to (end_pair e')))%nat in
  (cp_weight pc' m' m' < cp_weight pc m m)%nat.
Proof.
  destruct 1 as [d e b er e' Hr|b er d wr d' e Hw|res d e]; cbn zeta.
  - destruct (end_read size Hsize _ _ _ _ _ Hr) as (Hc & _ & _ & Hb & _).
    rewrite Hc, length_app. cbn. destruct er; [lia|]. specialize (Hb eq_refl).
    destruct b; [done|]. cbn. lia.
  - destruct (copy_write_spec _ _ _ _ Hw) as (o & l & -> & _ & _ & _ & Ho & _).
    by apply after_write_weight.
  - cbn. lia.
Qed.
End Progress.

(** *** A direction and the copies of the other one

    The two directions are alike, so the invariants are about one of them: its source, the
    stream, its destination, its two copies, and the two that come back. *)
Record dir (S P D : Type) := mkDir {
  dr_src : S;
  dr_pair : P;
  dr_dst : D;
  dr_first : cp_pc;
  dr_second : cp_pc;
  dr_back_first : cp_pc;
  dr_back_second : cp_pc
}.
Arguments mkDir {S P D} _ _ _ _ _ _ _.
Arguments dr_src {S P D} _.
Arguments dr_pair {S P D} _.
Arguments dr_dst {S P D} _.
Arguments dr_first {S P D} _.
Arguments dr_second {S P D} _.
Arguments dr_back_first {S P D} _.
Arguments dr_back_second {S P D} _.

Section Direction.
Context {S P D : Type} `{RWCLaws S, StreamLaws P, RWCLaws D} (size : nat) (Hsize : (0 < size)%nat).
Context (to : side).

Inductive dir_move : dir S P D -> dir S P D -> Prop :=
| dm_first s p d pc1 pc2 b1 b2 pc1' (e : stream_end P (other to)) s' :
    cp_move size pc1 (End p : stream_end P (other to)) s pc1' e s' ->
    dir_move (mkDir s p d pc1 pc2 b1 b2) (mkDir s' (end_pair e) d pc1' pc2 b1 b2)
| dm_second s p d pc1 pc2 b1 b2 pc2' d' (e : stream_end P to) :
    cp_move size pc2 d (End p : stream_end P to) pc2' d' e ->
    dir_move (mkDir s p d pc1 pc2 b1 b2) (mkDir s (end_pair e) d' pc1 pc2' b1 b2)
| dm_back_first s p d pc1 pc2 b1 b2 b1' (e : stream_end P to) d' :
    cp_move size b1 (End p : stream_end P to) d b1' e d' ->
    dir_move (mkDir s p d pc1 pc2 b1 b2) (mkDir s (end_pair e) d' pc1 pc2 b1' b2)
| dm_back_second s p d pc1 pc2 b1 b2 b2' s' (e : stream_end P (other to)) :
    cp_move size b2 s (End p : stream_end P (other to)) b2' s' e ->
    dir_move (mkDir s p d pc1 pc2 b1 b2) (mkDir s' (end_pair e) d pc1 pc2 b1 b2')
| dm_break s p d pc1 pc2 b1 b2 p' : sp_break p p' ->
    dir_move (mkDir s p d pc1 pc2 b1 b2) (mkDir s p' d pc1 pc2 b1 b2).

Lemma other_other (t : side) : other (other t) = t.
Proof. by destruct t. Qed.

Lemma cp_move_running {A B} `{ReadWriteCloser A, ReadWriteCloser B} (pc pc' : cp_pc)
    (a a' : A) (b b' : B) :
  cp_move size pc a b pc' a' b' -> is_cp_done pc = false.
Proof. by destruct 1. Qed.

(** The frames of the four copies, in terms of the direction. *)
Definition session_same (p p' : P) : Prop :=
  alive p' = alive p /\ tolerant p' = tolerant p /\ stalled p' = stalled p.

Lemma first_frame pc pc' (p : P) (e : stream_end P (other to)) (s s' : S) :
  cp_move size pc (End p : stream_end P (other to)) s pc' e s' ->
  (sent s' = sent s /\ is_open s' = is_open s /\ ends s' = ends s /\ reliable s' = reliable s /\
   drains s' = drains s) /\
  session_same p (end_pair e) /\ side_open to (end_pair e) = side_open to p /\
  (side_open (other to) p = negb (is_cp_done pc) ->
   side_open (other to) (end_pair e) = negb (is_cp_done pc')).
Proof.
  intros M. split; [exact (outer_src_frame size Hsize _ _ _ _ _ _ _ M)|].
  destruct (end_dst_frame size _ _ _ _ _ _ _ M) as (_ & C2 & C3 & C4 & C5 & C6).
  cbn in *. by rewrite other_other in C5.
Qed.

Lemma second_frame pc pc' (p : P) (e : stream_end P to) (d d' : D) :
  cp_move size pc d (End p : stream_end P to) pc' d' e ->
  (incoming d' = incoming d /\ ends d' = ends d /\ reliable d' = reliable d /\
   drains d' = drains d /\
   (is_open d = negb (is_cp_done pc) -> is_open d' = negb (is_cp_done pc'))) /\
  session_same p (end_pair e) /\ forall t, side_open t (end_pair e) = side_open t p.
Proof.
  intros M. destruct (outer_dst_frame size _ _ _ _ _ _ _ M) as (S1 & S2 & S3 & S4 & _ & S5).
  by destruct (end_src_frame size Hsize _ _ _ _ _ _ _ M) as (_ & C2 & C3 & C4).
Qed.

Lemma back_first_frame pc pc' (p : P) (e : stream_end P to) (d d' : D) :
  cp_move size pc (End p : stream_end P to) d pc' e d' ->
  (sent d' = sent d /\ is_open d' = is_open d /\ ends d' = ends d /\ reliable d' = reliable d /\
   drains d' = drains d) /\
  coming to (end_pair e) = coming to p /\ session_same p (end_pair e) /\
  side_open (other to) (end_pair e) = side_open (other to) p /\
  (side_open to p = negb (is_cp_done pc) -> side_open to (end_pair e) = negb (is_cp_done pc')).
Proof.
  intros M. split; [exact (outer_src_frame size Hsize _ _ _ _ _ _ _ M)|].
  by destruct (end_dst_frame size _ _ _ _ _ _ _ M) as (C1 & C2 & C3 & C4 & C5 & C6).
Qed.

Lemma back_second_frame pc pc' (p : P) (e : stream_end P (other to)) (s s' : S) :
  cp_move size pc s (End p : stream_end P (other to)) pc' s' e ->
  (incoming s' = incoming s /\ ends s' = ends s /\ reliable s' = reliable s /\
   drains s' = drains s /\ budget s' = budget s /\
   (is_open s = negb (is_cp_done pc) -> is_open s' = negb (is_cp_done pc'))) /\
  coming to (end_pair e) = coming to p /\ session_same p (end_pair e) /\
  forall t, side_open t (end_pair e) = side_open t p.
Proof.
  intros M. split; [exact (outer_dst_frame size _ _ _ _ _ _ _ M)|].
  destruct (end_src_frame size Hsize _ _ _ _ _ _ _ M) as (C1 & C2 & C3 & C4).
  cbn in *. by rewrite other_other in C1.
Qed.

Context (s0 : S) (p0 : P) (d0 : D).

(** The chain holds; a connection or end is open until the copy that writes to it has
    closed it; and if no write to the destination fails, the second copy ends because the
    stream did, on one side or the other. *)
Record dir_inv (w : dir S P D) : Prop := mkDirInv {
  di_chain : chain to s0 d0 w.(dr_first) w.(dr_second) w.(dr_src) w.(dr_pair) w.(dr_dst);
  di_src : is_open w.(dr_src) = negb (is_cp_done w.(dr_back_second));
  di_this : side_open (other to) w.(dr_pair) = negb (is_cp_done w.(dr_first));
  di_that : side_open to w.(dr_pair) = negb (is_cp_done w.(dr_back_first));
  di_dst : is_open w.(dr_dst) = negb (is_cp_done w.(dr_second));
  di_ends : ends w.(dr_src) = ends s0 /\ ends w.(dr_dst) = ends d0;
  di_reliable : reliable w.(dr_src) = reliable s0 /\ reliable w.(dr_dst) = reliable d0 /\
                tolerant w.(dr_pair) = tolerant p0;
  di_drains : drains w.(dr_src) = drains s0 /\ drains w.(dr_dst) = drains d0 /\
              stalled w.(dr_pair) = stalled p0;
  di_second : reliable d0 = true -> alive w.(dr_pair) = true -> at_end w.(dr_second) = true ->
    side_open to w.(dr_pair) = false \/ side_open (other to) w.(dr_pair) = false
}.

(** The last of them, for the copy it is about and for the one that closes an end. *)
Lemma second_at_end (s : S) (p : P) (d : D) pc1 pc2 b1 b2 pc2' d' (e : stream_end P to) :
  dir_inv (mkDir s p d pc1 pc2 b1 b2) -> reliable d0 = true -> alive p = true ->
  cp_move size pc2 d (End p : stream_end P to) pc2' d' e ->
  at_end pc2' = true -> side_open to p = false \/ side_open (other to) p = false.
Proof.
  intros [_ _ _ _ Od _ (_ & Rd & _) _ I2] Hr Ha M Hat. cbn in *.
  inversion M as [d1 e1 b er e2 Hrd|b er d1 wr d2 e1 Hw|res d1 e1]; subst; cbn in *; [| |auto].
  - destruct (end_read size Hsize to (End p) _ _ _ Hrd) as (_ & _ & _ & _ & Hend). cbn in *.
    destruct er; [|done]. destruct (Hend ltac:(done) Ha) as [?|[? _]]; auto.
  - destruct (copy_write_spec _ _ _ _ Hw) as (_ & _ & _ & _ & _ & Hok & _).
    apply I2; [done|done|]. rewrite (after_write_at_end wr er b) in Hat; [exact Hat|].
    apply Hok; congruence.
Qed.

Lemma dir_move_inv (w w' : dir S P D) : dir_inv w -> dir_move w w' -> dir_inv w'.
Proof.
  intros I M. pose proof I as [Ic Os Ot Oo Od [Es Ed] (Rs & Rd & Rp) (Ns & Nd & Np) I2].
  destruct M as [s p d pc1 pc2 b1 b2 pc e s' M|s p d pc1 pc2 b1 b2 pc d' e M
    |s p d pc1 pc2 b1 b2 pc e d' M|s p d pc1 pc2 b1 b2 pc s' e M|s p d pc1 pc2 b1 b2 p' Hb];
    cbn in *.
  - destruct (first_frame _ _ _ _ _ _ M) as ((S1 & S2 & S3 & S4 & S6) & (C1 & C2 & C3) & C4 & C5).
    split; cbn; try congruence; [|by apply C5|split; congruence|repeat split; congruence..|].
    + exact (chain_first size Hsize to _ _ _ _ _ _ _ _ (End p) _ Ic M).
    + rewrite C1, C4. intros Hr Ha [?|Hcl]%(I2 Hr Ha); [by left|].
      rewrite Ot, (cp_move_running _ _ _ _ _ _ M) in Hcl. done.
  - destruct (second_frame _ _ _ _ _ _ M) as ((S1 & S2 & S3 & S4 & S5) & (C1 & C2 & C3) & C4).
    split; cbn; rewrite ?C4; try congruence; [|by apply S5|split; congruence|repeat split; congruence..|].
    + exact (chain_second size Hsize to _ _ _ _ _ _ _ _ (End p) _ Ic M).
    + rewrite C1. intros Hr Ha. by eapply second_at_end.
  - destruct (back_first_frame _ _ _ _ _ _ M)
      as ((S1 & S2 & S3 & S4 & S6) & C0 & (C1 & C2 & C3) & C4 & C5).
    split; cbn; try congruence; [|by apply C5|split; congruence|repeat split; congruence..|].
    + apply (chain_frame to _ _ _ _ _ _ _ _ _ _ Ic); try done; [|by rewrite C1].
      rewrite Oo. by rewrite (cp_move_running _ _ _ _ _ _ M).
    + rewrite C1, C4. intros Hr Ha [Hcl|?]%(I2 Hr Ha); [|by right].
      rewrite Oo, (cp_move_running _ _ _ _ _ _ M) in Hcl. done.
  - destruct (back_second_frame _ _ _ _ _ _ M)
      as ((S1 & S2 & S3 & S4 & _ & S5) & C0 & (C1 & C2 & C3) & C4).
    split; cbn; rewrite ?C4, ?C1; try congruence;
      [|by apply S5|split; congruence|repeat split; congruence..|done].
    apply (chain_frame to _ _ _ _ _ _ _ _ _ _ Ic); try done; [by rewrite C4|by rewrite C1].
  - destruct (sp_break_some _ _ Hb) as (B1 & B2 & B3 & B6 & B4 & B5).
    split; cbn; rewrite ?B5, ?B3, ?B6, ?B2; try done. by eapply chain_break.
Qed.

(** Nothing is lost: what was not delivered is still on its way; the first copy ends
    because its source did, the others because the ones before them did. *)
Record dir_full (w : dir S P D) : Prop := mkDirFull {
  df_flow : exists o, sent w.(dr_dst) = sent d0 ++ o /\
    incoming s0 = o ++ in_flight w.(dr_second) ++ coming to w.(dr_pair) ++
                  in_flight w.(dr_first) ++ incoming w.(dr_src);
  df_first : at_end w.(dr_first) = true -> incoming w.(dr_src) = [];
  df_second : at_end w.(dr_second) = true ->
    is_cp_done w.(dr_first) = true /\ coming to w.(dr_pair) = [];
  df_back_first : at_end w.(dr_back_first) = true -> is_cp_done w.(dr_second) = true;
  df_back_second : at_end w.(dr_back_second) = true -> is_cp_done w.(dr_first) = true
}.

Lemma done_at_end (pc : cp_pc) : is_cp_done pc = true -> at_end pc = true.
Proof. by destruct pc. Qed.

(** While the first copy runs, so do the others; while the second runs, the copies that
    come back do not close its end. *)
Lemma full_first_running (w : dir S P D) :
  dir_full w -> is_cp_done w.(dr_first) = false ->
  at_end w.(dr_second) = false /\ at_end w.(dr_back_first) = false /\
  at_end w.(dr_back_second) = false.
Proof.
  intros [_ _ F2 F3 F4] F1.
  assert (E2 : at_end (dr_second w) = false)
    by (destruct (at_end (dr_second w)); [destruct (F2 eq_refl); congruence|done]).
  split; [done|]. split.
  - destruct (at_end (dr_back_first w)); [|done].
    specialize (F3 eq_refl). apply done_at_end in F3. congruence.
  - destruct (at_end (dr_back_second w)); [|done]. specialize (F4 eq_refl). congruence.
Qed.

Lemma not_at_end_running (pc : cp_pc) : at_end pc = false -> is_cp_done pc = false.
Proof. by destruct pc. Qed.

Context (Hs0 : reliable s0 = true) (Hd0 : reliable d0 = true) (Hp0 : tolerant p0 = true).
Context (Hends : ends d0 = false).

Lemma full_first s p d pc1 pc2 b1 b2 pc1' (e : stream_end P (other to)) s' :
  dir_inv (mkDir s p d pc1 pc2 b1 b2) -> dir_full (mkDir s p d pc1 pc2 b1 b2) -> alive p = true ->
  cp_move size pc1 (End p : stream_end P (other to)) s pc1' e s' ->
  dir_full (mkDir s' (end_pair e) d pc1' pc2 b1 b2).
Proof.
  intros [_ Os Ot Oo _ _ (_ & _ & Rp) _ _] F Ha M.
  destruct (full_first_running _ F (cp_move_running _ _ _ _ _ _ M)) as (N2 & N3 & N4).
  destruct F as [(o & E1 & E2) F1 F2 F3 F4]; cbn in *.
  rewrite (not_at_end_running _ N4) in Os. rewrite (not_at_end_running _ N3) in Oo.
  inversion M as [e1 s1 b er s2 Hr|b er e1 wr e2 s1 Hw|res e1 s1]; subst; cbn in *.
  - destruct (outer_read size Hsize _ _ _ _ Hr) as (Hin & _ & _ & _ & _ & _ & Hend & _).
    split; cbn; [|by destruct er; [intros _; apply Hend|]|rewrite N2; done|rewrite N3; done|rewrite N4; done].
    exists o. by rewrite E2, Hin.
  - destruct (end_write _ _ _ _ _ Hw) as (out & l & -> & Hl & _ & Hc & _ & _ & Hok).
    cbn in *. rewrite other_other in *. rewrite Oo in *.
    assert (Hf : failed wr = false) by (apply Hok; [done..|by rewrite Rp, Hp0]).
    rewrite (Hl Hf), app_nil_r in *. rewrite Ha in Hc. cbn in Hc.
    split; cbn; [| |rewrite N2; done|rewrite N3; done|rewrite N4; done].
    + exists o. split; [done|]. by rewrite in_flight_after, E2, Hc, <- !app_assoc.
    + rewrite (after_write_at_end wr er []) by done. by destruct er.
  - destruct (end_close _ (End p : stream_end P (other to))) as (_ & _ & Hc & _). cbn in Hc.
    split; cbn; rewrite ?Hc; [by exists o|done|rewrite N2; done|rewrite N3; done|rewrite N4; done].
Qed.

Lemma full_second s p d pc1 pc2 b1 b2 pc2' d' (e : stream_end P to) :
  dir_inv (mkDir s p d pc1 pc2 b1 b2) -> dir_full (mkDir s p d pc1 pc2 b1 b2) -> alive p = true ->
  cp_move size pc2 d (End p : stream_end P to) pc2' d' e ->
  dir_full (mkDir s (end_pair e) d' pc1 pc2' b1 b2).
Proof.
  intros [_ _ Ot Oo Od _ (_ & Rd & _) _ _] [(o & E1 & E2) F1 F2 F3 F4] Ha M; cbn in *.
  assert (N3 : at_end b1 = false).
  { destruct (at_end b1); [|done]. specialize (F3 eq_refl).
    by rewrite (cp_move_running _ _ _ _ _ _ M) in F3. }
  rewrite (not_at_end_running _ N3) in Oo.
  inversion M as [d1 e1 b er e2 Hr|b er d1 wr d2 e1 Hw|res d1 e1]; subst; cbn in *.
  - destruct (end_read size Hsize to (End p) _ _ _ Hr) as (Hc & _ & _ & _ & Hend). cbn in *.
    split; cbn; [|done| |rewrite N3; done|done].
    + exists o. by rewrite E1, E2, Hc, <- !app_assoc.
    + destruct er as [er|]; [|done]. intros _.
      destruct (Hend ltac:(done) Ha) as [?|[Hoff Hnil]]; [congruence|].
      split; [|done]. rewrite Ot in Hoff. by apply negb_false_iff.
  - destruct (copy_write_spec _ _ _ _ Hw) as (out & l & -> & Es & Hl & Hok & _).
    assert (Hf : failed wr = false) by (apply Hok; congruence).
    rewrite (Hl Hf), app_nil_r in *.
    split; cbn; [|done| |rewrite N3; done|done].
    + exists (o ++ out). rewrite Es, E1. split; [by rewrite app_assoc|].
      by rewrite in_flight_after, E2, <- !app_assoc.
    + rewrite (after_write_at_end wr er []) by done. by destruct er.
  - destruct (Close_some d) as (_ & Es & _).
    split; cbn; [exists o; by rewrite Es|done|done|rewrite N3; done|done].
Qed.

Lemma full_back_first s p d pc1 pc2 b1 b2 b1' (e : stream_end P to) d' :
  dir_inv (mkDir s p d pc1 pc2 b1 b2) -> dir_full (mkDir s p d pc1 pc2 b1 b2) -> alive p = true ->
  cp_move size b1 (End p : stream_end P to) d b1' e d' ->
  dir_full (mkDir s (end_pair e) d' pc1 pc2 b1' b2).
Proof.
  intros [_ _ _ Oo Od [_ Ed] (_ & _ & Rp) _ _] [(o & E1 & E2) F1 F2 F3 F4] Ha M.
  destruct (back_first_frame _ _ _ _ _ _ M) as ((S1 & _) & C1 & _). cbn in *.
  split; cbn; rewrite ?C1; [exists o; by rewrite S1|done|done| |done].
  inversion M as [e1 d1 b er d2 Hr|b er e1 wr e2 d1 Hw|res e1 d1]; subst; cbn in *; [| |by auto].
  - destruct er as [er|]; [|done]. intros _.
    destruct (outer_read size Hsize _ _ _ _ Hr) as (_ & _ & _ & _ & _ & _ & Hend & _).
    destruct (is_open d) eqn:Eo; [|symmetry in Od; by apply negb_false_iff in Od].
    destruct (Hend eq_refl ltac:(done)). congruence.
  - destruct (end_write _ _ _ _ _ Hw) as (_ & _ & _ & _ & _ & _ & _ & _ & Hok). cbn in *.
    rewrite (after_write_at_end wr er []); [by destruct er; [auto|]|].
    apply Hok; [done..|by rewrite Rp, Hp0, orb_true_r].
Qed.

Lemma full_back_second s p d pc1 pc2 b1 b2 b2' s' (e : stream_end P (other to)) :
  dir_inv (mkDir s p d pc1 pc2 b1 b2) -> dir_full (mkDir s p d pc1 pc2 b1 b2) -> alive p = true ->
  cp_move size b2 s (End p : stream_end P (other to)) b2' s' e ->
  dir_full (mkDir s' (end_pair e) d pc1 pc2 b1 b2').
Proof.
  intros [_ Os Ot Oo _ _ (Rs & _ & _) _ _] [(o & E1 & E2) F1 F2 F3 F4] Ha M.
  destruct (back_second_frame _ _ _ _ _ _ M) as ((S1 & _) & C1 & _). cbn in *.
  split; cbn; rewrite ?C1, ?S1; [by exists o|done|done|done|].
  inversion M as [s1 e1 b er e2 Hr|b er s1 wr s2 e1 Hw|res s1 e1]; subst; cbn in *; [| |by auto].
  - destruct er as [er|]; [|done]. intros _.
    destruct (end_read size Hsize (other to) (End p) _ _ _ Hr) as (_ & _ & _ & _ & Hend). cbn in *.
    rewrite other_other in Hend.
    destruct (Hend ltac:(done) Ha) as [Hoff|[Hoff _]].
    + rewrite Ot in Hoff. by apply negb_false_iff.
    + rewrite Oo in Hoff. apply negb_false_iff, done_at_end, F3, done_at_end, F2 in Hoff.
      by destruct Hoff.
  - destruct (copy_write_spec _ _ _ _ Hw) as (_ & _ & _ & _ & _ & Hok & _).
    rewrite (after_write_at_end wr er []); [by destruct er; [auto|]|]. apply Hok; congruence.
Qed.

Lemma dir_move_full (w w' : dir S P D) :
  dir_inv w -> dir_full w -> dir_move w w' -> alive w'.(dr_pair) = true -> dir_full w'.
Proof.
  intros I F M Ha. destruct M as [s p d pc1 pc2 b1 b2 pc e s' M|s p d pc1 pc2 b1 b2 pc d' e M
    |s p d pc1 pc2 b1 b2 pc e d' M|s p d pc1 pc2 b1 b2 pc s' e M|s p d pc1 pc2 b1 b2 p' Hb];
    cbn in Ha.
  - destruct (first_frame _ _ _ _ _ _ M) as (_ & (Ea & _) & _). rewrite Ea in Ha. by eapply full_first.
  - destruct (second_frame _ _ _ _ _ _ M) as (_ & (Ea & _) & _). rewrite Ea in Ha. by eapply full_second.
  - destruct (back_first_frame _ _ _ _ _ _ M) as (_ & _ & (Ea & _) & _). rewrite Ea in Ha.
    by eapply full_back_first.
  - destruct (back_second_frame _ _ _ _ _ _ M) as (_ & _ & (Ea & _) & _). rewrite Ea in Ha.
    by eapply full_back_second.
  - destruct (sp_break_some _ _ Hb) as (_ & B2 & _). congruence.
Qed.
End Direction.

(** *** The rank of a direction *)

Section Rank.
Context {S P D : Type} `{RWCLaws S, StreamLaws P, RWCLaws D} (size : nat) (Hsize : (0 < size)%nat).
Context (to : side).

(** An upper bound on the operations that the two copies of a direction have left. *)
Definition dir_rank (w : dir S P D) : nat :=
  cp_weight w.(dr_first) (budget w.(dr_src)) (length (incoming w.(dr_src))) +
  let m := upstream to w.(dr_first) w.(dr_src) w.(dr_pair) in cp_weight w.(dr_second) m m.

Lemma dir_rank_first s p (d : D) pc1 pc2 b1 b2 pc1' (e : stream_end P (other to)) (s' : S) :
  cp_move size pc1 (End p : stream_end P (other to)) s pc1' e s' ->
  (dir_rank (mkDir s' (end_pair e) d pc1' pc2 b1 b2) < dir_rank (mkDir s p d pc1 pc2 b1 b2))%nat.
Proof.
  intros M. destruct (first_rank size Hsize _ _ _ _ _ _ _ M) as [Hw Hu].
  apply (cp_weight_mono pc2) in Hu. unfold dir_rank. cbn in *. lia.
Qed.

Lemma dir_rank_second (s : S) p (d : D) pc1 pc2 b1 b2 pc2' d' (e : stream_end P to) :
  cp_move size pc2 d (End p : stream_end P to) pc2' d' e ->
  (dir_rank (mkDir s (end_pair e) d' pc1 pc2' b1 b2) < dir_rank (mkDir s p d pc1 pc2 b1 b2))%nat.
Proof.
  intros M. pose proof (second_rank size Hsize _ _ _ _ _ _ _
    (length (incoming s) + length (in_flight pc1)) M) as Hw.
  unfold dir_rank, upstream. cbn in *. lia.
Qed.

Lemma dir_move_rank (w w' : dir S P D) :
  dir_move size to w w' -> (dir_rank w' <= dir_rank w)%nat.
Proof.
  intros M. destruct M as [s p d pc1 pc2 b1 b2 pc e s' M|s p d pc1 pc2 b1 b2 pc d' e M
    |s p d pc1 pc2 b1 b2 pc e d' M|s p d pc1 pc2 b1 b2 pc s' e M|s p d pc1 pc2 b1 b2 p' Hb].
  - apply Nat.lt_le_incl. by apply dir_rank_first.
  - apply Nat.lt_le_incl. by apply dir_rank_second.
  - destruct (back_first_frame size Hsize _ _ _ _ _ _ _ M) as (_ & C & _).
    unfold dir_rank, upstream. cbn. by rewrite C.
  - destruct (back_second_frame size Hsize _ _ _ _ _ _ _ M) as ((I & _ & _ & _ & B & _) & C & _).
    unfold dir_rank, upstream. cbn. by rewrite C, I, B.
  - destruct (sp_break_some _ _ Hb) as (_ & _ & _ & _ & C & _).
    unfold dir_rank, upstream. cbn. specialize (C to). apply prefix_length in C.
    apply Nat.add_le_mono_l, cp_weight_mono. lia.
Qed.
End Rank.

(** *** The two directions of a forwarded port *)

Section Views.
Context {U P T : Type} `{RWCLaws U, StreamLaws P, RWCLaws T} (size : nat) (Hsize : (0 < size)%nat).

Definition view_up (w : forward U P T) : dir U P T :=
  mkDir w.(fw_user) w.(fw_pair) w.(fw_target) w.(fw_srv_into_stream) w.(fw_cli_into_target)
    w.(fw_cli_into_stream) w.(fw_srv_into_user).
Definition view_down (w : forward U P T) : dir T P U :=
  mkDir w.(fw_target) w.(fw_pair) w.(fw_user) w.(fw_cli_into_stream) w.(fw_srv_into_user)
    w.(fw_srv_into_stream) w.(fw_cli_into_target).

Definition forward_rank (w : forward U P T) : nat :=
  dir_rank Far (view_up w) + dir_rank Near (view_down w) +
  if alive w.(fw_pair) then 1 else 0.

(** A step is a move of both directions, and some rank goes down. *)
Definition step_views (w w' : forward U P T) : Prop :=
  dir_move size Far (view_up w) (view_up w') /\ dir_move size Near (view_down w) (view_down w') /\
  (alive w'.(fw_pair) = true -> alive w.(fw_pair) = true) /\
  (forward_rank w' < forward_rank w)%nat.

Lemma step_views_intro (w w' : forward U P T) :
  dir_move size Far (view_up w) (view_up w') -> dir_move size Near (view_down w) (view_down w') ->
  alive w'.(fw_pair) = alive w.(fw_pair) ->
  (dir_rank Far (view_up w') < dir_rank Far (view_up w))%nat \/
  (dir_rank Near (view_down w') < dir_rank Near (view_down w))%nat ->
  step_views w w'.
Proof.
  intros M1 M2 Ea Hlt. split; [done|]. split; [done|]. split; [by rewrite Ea|].
  apply (dir_move_rank size Hsize) in M1, M2. unfold forward_rank. rewrite Ea. lia.
Qed.

Lemma forward_step_views (w w' : forward U P T) : forward_step size w w' -> step_views w w'.
Proof.
  destruct 1 as [w r [Hs|Hs]|w r [Hs|Hs]|w p Hb];
    [unfold step_into_a in Hs|unfold step_into_b in Hs
    |unfold step_into_a in Hs|unfold step_into_b in Hs|].
  1-4: destruct (cp_step _ _ _ _ _) as [[[[pc x] y] n]|] eqn:E in Hs; [|done];
    injection Hs as <-; apply cp_step_move in E; destruct w; cbn in E; apply step_views_intro.
  - by apply dm_back_second.
  - by apply dm_second.
  - by destruct (second_frame size Hsize Near _ _ _ _ _ _ E) as (_ & (Ea & _) & _).
  - right. by apply (dir_rank_second size Hsize Near).
  - by apply dm_first.
  - by apply dm_back_first.
  - by destruct (first_frame size Hsize Far _ _ _ _ _ _ E) as (_ & (Ea & _) & _).
  - left. by apply (dir_rank_first size Hsize Far).
  - by apply dm_back_first.
  - by apply dm_first.
  - by destruct (first_frame size Hsize Near _ _ _ _ _ _ E) as (_ & (Ea & _) & _).
  - right. by apply (dir_rank_first size Hsize Near).
  - by apply dm_second.
  - by apply dm_back_second.
  - by destruct (second_frame size Hsize Far _ _ _ _ _ _ E) as (_ & (Ea & _) & _).
  - left. by apply (dir_rank_second size Hsize Far).
  - assert (M1 : dir_move size Far (view_up w) (mkDir w.(fw_user) p w.(fw_target)
      w.(fw_srv_into_stream) w.(fw_cli_into_target) w.(fw_cli_into_stream) w.(fw_srv_into_user)))
      by by apply dm_break.
    assert (M2 : dir_move size Near (view_down w) (mkDir w.(fw_target) p w.(fw_user)
      w.(fw_cli_into_stream) w.(fw_srv_into_user) w.(fw_srv_into_stream) w.(fw_cli_into_target)))
      by by apply dm_break.
    split; [done|]. split; [done|]. apply (dir_move_rank size Hsize) in M1, M2.
    destruct (sp_break_some _ _ Hb) as (B1 & B2 & _). split; [by cbn; rewrite B2|].
    unfold forward_rank. cbn -[dir_rank]. rewrite B1, B2.
    unfold view_up, view_down in *. cbn -[dir_rank]. lia.
Qed.

Context (u0 : U) (p0 : P) (t0 : T).

(** Both directions are as they should be. *)
Definition forward_inv (w : forward U P T) : Prop :=
  dir_inv Far u0 p0 t0 (view_up w) /\ dir_inv Near t0 p0 u0 (view_down w).

Lemma forward_steps_inv (n : nat) (w w' : forward U P T) :
  nsteps (forward_step size) n w w' -> forward_inv w ->
  forward_inv w' /\ (n + forward_rank w' <= forward_rank w)%nat /\
  (alive w'.(fw_pair) = true -> alive w.(fw_pair) = true) /\
  (alive w'.(fw_pair) = true -> tolerant p0 = true -> reliable u0 = true -> reliable t0 = true ->
   (ends t0 = false -> dir_full Far u0 t0 (view_up w) -> dir_full Far u0 t0 (view_up w')) /\
   (ends u0 = false -> dir_full Near t0 u0 (view_down w) -> dir_full Near t0 u0 (view_down w'))).
Proof.
  induction 1 as [w|n w w1 w2 Hs _ IH]; intros [I1 I2].
  { split; [done|]. split; [lia|]. by split. }
  destruct (forward_step_views w w1 Hs) as (M1 & M2 & Ha & Hr).
  assert (I1' := dir_move_inv size Hsize Far u0 p0 t0 _ _ I1 M1).
  assert (I2' := dir_move_inv size Hsize Near t0 p0 u0 _ _ I2 M2).
  destruct (IH (conj I1' I2')) as (K1 & K2 & K3 & K4).
  split; [done|]. split; [lia|]. split; [auto|]. intros Ea Ht Hu0 Ht0.
  destruct (K4 Ea Ht Hu0 Ht0) as [F1 F2]. split; intros He F; [apply F1|apply F2]; try done.
  - exact (dir_move_full size Hsize Far u0 p0 t0 Hu0 Ht0 Ht He _ _ I1 F M1 (K3 Ea)).
  - exact (dir_move_full size Hsize Near t0 p0 u0 Ht0 Hu0 Ht He _ _ I2 F M2 (K3 Ea)).
Qed.

(** A direction in which both copies are done and nothing was lost is complete. *)
Lemma full_done {S' D'} `{RWCLaws S', RWCLaws D'} (to : side) (s0 : S') (d0 : D')
    (w : dir S' P D') :
  dir_full to s0 d0 w -> is_cp_done w.(dr_first) = true -> is_cp_done w.(dr_second) = true ->
  sent w.(dr_dst) = sent d0 ++ incoming s0.
Proof.
  intros [(o & E1 & E2) F1 F2 _ _] D1 D2. rewrite E1, E2, (F1 (done_at_end _ D1)).
  destruct (F2 (done_at_end _ D2)) as [_ ->].
  destruct (dr_first w), (dr_second w); try done. cbn. by rewrite app_nil_r.
Qed.

Context (Hu : is_open u0 = true) (Ht : is_open t0 = true).
Context (Hp : forall s, side_open s p0 = true /\ coming s p0 = []).

Lemma forward_start_inv (st st' : Stats) :
  forward_inv (forward_start u0 p0 t0 st st') /\
  dir_full Far u0 t0 (view_up (forward_start u0 p0 t0 st st')) /\
  dir_full Near t0 u0 (view_down (forward_start u0 p0 t0 st st')).
Proof.
  destruct (Hp Near) as [On Cn], (Hp Far) as [Of Cf].
  split; [split; split; cbn; try done; by apply chain_start|].
  split; (split; cbn; try done; exists []; rewrite app_nil_r; split; [done|]; by rewrite ?Cn, ?Cf).
Qed.

(** The copies out of the stream have ended, and those into it are in a [Write] each. *)
Definition deadlocked (w : forward U P T) : bool :=
  is_cp_done w.(fw_srv_into_user) && is_cp_done w.(fw_cli_into_target) &&
  writing w.(fw_srv_into_stream) && writing w.(fw_cli_into_stream).

(** A copy out of the stream that cannot move, and one into it. *)
Lemma out_of_rests {C} `{RWCLaws C} (s : side) (pc : cp_pc) (c : C) (e : stream_end P s) (n : Z) :
  drains c = true -> stalled (end_pair e) = false -> cp_step size pc c e n = None ->
  is_cp_done pc = true \/
  (side_open s (end_pair e) = true /\ side_open (other s) (end_pair e) = true /\
   alive (end_pair e) = true /\ coming s (end_pair e) = []).
Proof.
  intros Hd Hst [?|[[_ Hr]|(b & er & _ & Hw)]]%cp_step_rests; [by left| |].
  - apply end_read_rests in Hr as (? & ? & [?|[? ?]]); [congruence|by right].
  - apply copy_write_blocks in Hw as [_ ?]. congruence.
Qed.

Lemma into_rests {C} `{RWCLaws C} (s : side) (pc : cp_pc) (e : stream_end P s) (c : C) (n : Z) :
  stalled (end_pair e) = false -> cp_step size pc e c n = None ->
  is_cp_done pc = true \/ (is_open c = true /\ ends c = false) \/
  (writing pc = true /\ side_open s (end_pair e) = true /\
   side_open (other s) (end_pair e) = true /\ alive (end_pair e) = true /\
   coming (other s) (end_pair e) <> []).
Proof.
  intros Hst [?|[[_ Hr]|(b & er & -> & Hw)]]%cp_step_rests; [by left| |].
  - right. left. by apply (Read_blocks size).
  - apply end_write_rests in Hw as (? & ? & [?|[? ?]]); [congruence|]. right. by right.
Qed.

(** Four copies that cannot move, in terms of who has ended: the user's [ui] and the
    target's [it] out of the stream, [us] and [ts] into it. *)
Lemma rests_cases (ui us ts it eu et al w2 w3 : bool) (near far : list byte) :
  eu || et || negb al = true ->
  ui = true \/ negb us = true /\ negb ts = true /\ al = true /\ near = [] ->
  us = true \/ negb ui = true /\ eu = false \/
    w2 = true /\ negb us = true /\ negb ts = true /\ al = true /\ far <> [] ->
  ts = true \/ negb it = true /\ et = false \/
    w3 = true /\ negb ts = true /\ negb us = true /\ al = true /\ near <> [] ->
  it = true \/ negb ts = true /\ negb us = true /\ al = true /\ far = [] ->
  ui && us && (ts && it) = false ->
  us = false /\ ts = false /\ ui = true /\ it = true /\ w2 = true /\ w3 = true /\ al = true.
Proof.
  intros He R1 R2 R3 R4 Hd.
  assert (us = false) as -> by (destruct us, ui, ts, it; cbn in *; naive_solver).
  assert (ts = false) as -> by (destruct ui, ts, it; cbn in *; naive_solver).
  destruct R2 as [|[[K1 K2]|(-> & _ & _ & Ha & Hf)]]; [done| |];
    destruct R3 as [|[[K3 K4]|(-> & _ & _ & Hb & Hn)]]; try done.
  - destruct ui; [done|]. subst. destruct R1 as [|(_ & _ & -> & _)]; discriminate.
  - destruct ui; [done|]. destruct R1 as [|(_ & _ & _ & ?)]; done.
  - destruct it; [done|]. destruct R4 as [|(_ & _ & _ & ?)]; done.
  - destruct R1 as [->|(_ & _ & _ & ?)]; [|done]. by destruct R4 as [->|(_ & _ & _ & ?)].
Qed.

Lemma forward_done_copies (w : forward U P T) :
  forward_done w = is_cp_done w.(fw_srv_into_user) && is_cp_done w.(fw_srv_into_stream) &&
                   (is_cp_done w.(fw_cli_into_stream) && is_cp_done w.(fw_cli_into_target)).
Proof.
  unfold forward_done, relay_return. cbn.
  destruct (is_cp_done (fw_srv_into_user w)), (is_cp_done (fw_srv_into_stream w)),
    (is_cp_done (fw_cli_into_stream w)), (is_cp_done (fw_cli_into_target w)); reflexivity.
Qed.

Lemma forward_rests (w : forward U P T) :
  forward_inv w -> ends u0 || ends t0 || negb (alive w.(fw_pair)) = true ->
  drains u0 = true -> drains t0 = true -> stalled p0 = false -> forward_done w = false ->
  (exists w', forward_step size w w') \/
  (deadlocked w = true /\ reliable u0 = false /\ reliable t0 = false).
Proof.
  intros [[_ Ou On Of Ot [Eu Et] _ (Du & Dt & Ds) I1] [_ _ _ _ _ _ _ _ I2]] He Hu0 Ht0 Hs0 Hd.
  cbn in *.
  destruct (step_into_a size (server_relay w)) as [r|] eqn:E1;
    [left; exists (set_server r w); apply fw_server; by left|].
  destruct (step_into_b size (server_relay w)) as [r|] eqn:E2;
    [left; exists (set_server r w); apply fw_server; by right|].
  destruct (step_into_a size (client_relay w)) as [r|] eqn:E3;
    [left; exists (set_client r w); apply fw_client; by left|].
  destruct (step_into_b size (client_relay w)) as [r|] eqn:E4;
    [left; exists (set_client r w); apply fw_client; by right|].
  right. unfold step_into_a in E1, E3. unfold step_into_b in E2, E4.
  destruct (cp_step _ _ _ _ _) as [[[[]]]|] eqn:S1 in E1; [done|].
  destruct (cp_step _ _ _ _ _) as [[[[]]]|] eqn:S2 in E2; [done|].
  destruct (cp_step _ _ _ _ _) as [[[[]]]|] eqn:S3 in E3; [done|].
  destruct (cp_step _ _ _ _ _) as [[[[]]]|] eqn:S4 in E4; [done|].
  apply out_of_rests in S1, S4; [|cbn; congruence..]. apply into_rests in S2, S3; [|cbn; congruence..].
  cbn in *. rewrite Eu, Ou, On, Of in *. rewrite Et, Ot in *.
  rewrite forward_done_copies in Hd. unfold deadlocked.
  eapply rests_cases in Hd as (N2 & N3 & D1 & D4 & W2 & W3 & Ha); [|done..].
  rewrite D1, D4, W2, W3. rewrite N2, N3 in *. split; [done|].
  split; apply not_true_is_false; intros Hr.
  - by destruct (I2 Hr Ha (done_at_end _ D1)).
  - by destruct (I1 Hr Ha (done_at_end _ D4)).
Qed.
End Views.

(** ** A stream

    An instance of the interface: two queues, of at most so many bytes that the end has
    not read (of none when the session is stalled), and whether a write to a closed end
    is dropped or refused. *)
Record pipe := mkPipe {
  pp_queue : side -> list byte;
  pp_open : side -> bool;
  pp_alive : bool;
  pp_tolerant : bool;
  pp_window : nat
}.

Definition set_side {A} (s : side) (x : A) (f : side -> A) : side -> A :=
  fun t => match s, t with Near, Near | Far, Far => x | _, _ => f t end.

Lemma set_side_same {A} (s : side) (x : A) f : set_side s x f s = x.
Proof. by destruct s. Qed.
Lemma set_side_other {A} (s : side) (x : A) f : set_side s x f (other s) = f (other s).
Proof. by destruct s. Qed.
Lemma set_side_from {A} (s : side) (x : A) f : set_side (other s) x f s = f s.
Proof. by destruct s. Qed.

Definition set_queue (s : side) (q : list byte) (p : pipe) : pipe :=
  mkPipe (set_side s q p.(pp_queue)) p.(pp_open) p.(pp_alive) p.(pp_tolerant) p.(pp_window).

Definition pipe_read (s : side) (n : nat) (p : pipe) : option (list byte * option error * pipe) :=
  if negb (p.(pp_open) s) then Some ([], Some ErrClosed, p)
  else if negb p.(pp_alive) then Some ([], Some ErrClosed, p)
  else
    match p.(pp_queue) s with
    | [] => if p.(pp_open) (other s) then None else Some ([], Some EOF, p)
    | (_ :: _) as q => Some (take n q, None, set_queue s (drop n q) p)
    end.
Definition pipe_write (s : side) (b : list byte) (p : pipe) : option (progress * pipe) :=
  if negb (p.(pp_open) s) || negb p.(pp_alive) then Some (Wrote 0 (Some ErrClosed), p)
  else if p.(pp_open) (other s) then
    let q := p.(pp_queue) (other s) in
    let room := (p.(pp_window) - length q)%nat in
    if (length b <=? room)%nat then Some (Wrote (zlen b) None, set_queue (other s) (q ++ b) p)
    else if (room =? 0)%nat then None
    else Some (Passed room, set_queue (other s) (q ++ take room b) p)
  else if p.(pp_tolerant) then Some (Wrote (zlen b) None, p)
  else Some (Wrote 0 (Some ErrClosed), p).

#[export] Instance pipe_pair : StreamPair pipe := {|
  sp_Read := pipe_read;
  sp_Write := pipe_write;
  sp_Close s p := mkPipe p.(pp_queue) (set_side s false p.(pp_open)) p.(pp_alive)
                    p.(pp_tolerant) p.(pp_window);
  sp_break p p' := p.(pp_alive) = true /\
    p' = mkPipe p.(pp_queue) p.(pp_open) false p.(pp_tolerant) p.(pp_window)
|}.

#[export] Program Instance pipe_laws : StreamLaws pipe := {|
  coming s p := p.(pp_queue) s;
  side_open s p := p.(pp_open) s;
  alive := pp_alive;
  tolerant := pp_tolerant;
  stalled p := (p.(pp_window) =? 0)%nat
|}.
Next Obligation.
  intros s n [q op al tol win] b er p' Hn Ho; cbn in *; unfold pipe_read; cbn; rewrite Ho. cbn.
  destruct al; cbn; [|by intros [= <- <- <-]].
  destruct (q s) as [|x l] eqn:E.
  - destruct (op (other s)) eqn:Eo; [done|]. intros [= <- <- <-]. by cbn; rewrite E.
  - intros [= <- <- <-]. cbn. rewrite set_side_same, set_side_other, take_drop.
    repeat split; try done. by destruct n; [lia|].
Qed.
Next Obligation.
  intros s n [q op al tol win]; cbn; unfold pipe_read; cbn.
  destruct (op s), al, (q s), (op (other s)); cbn; auto; done.
Qed.
Next Obligation. intros s n [q op al tol win]; cbn; unfold pipe_read; cbn. intros ->. by eexists. Qed.
Next Obligation.
  intros s b [q op al tol win] pr p'; cbn -[Nat.leb Nat.eqb]; unfold pipe_write;
    cbn -[Nat.leb Nat.eqb]. pose proof (zlen_nonneg b).
  assert (Hall : take (Z.to_nat (zlen b)) b = b) by (apply take_ge; unfold zlen; lia).
  destruct (op s), al, (op (other s)) eqn:Eo; cbn -[Nat.leb Nat.eqb]; try destruct tol;
    [| |intros [= <- <-]; cbn; rewrite ?Eo; cbn; rewrite ?app_nil_r; repeat split; try lia; done..].
  all: destruct (Nat.leb_spec (length b) (win - length (q (other s))));
    [|destruct (Nat.eqb_spec (win - length (q (other s))) 0); [done|]]; intros [= <- <-]; cbn;
    rewrite set_side_same, set_side_from, ?Hall; repeat split; try lia; done.
Qed.
Next Obligation.
  intros s b [q op al tol win]; cbn -[Nat.leb Nat.eqb]; unfold pipe_write;
    cbn -[Nat.leb Nat.eqb].
  destruct (op s), al, (op (other s)) eqn:Eo, tol; cbn -[Nat.leb Nat.eqb]; try done.
  all: destruct (Nat.leb_spec (length b) (win - length (q (other s)))); [done|];
    destruct (Nat.eqb_spec (win - length (q (other s))) 0); [|done]; intros _;
    do 2 (split; [done|]); destruct (Nat.eqb_spec win 0); [by left|right];
    split; [done|]; intros E; rewrite E in *; cbn in *; lia.
Qed.
Next Obligation.
  intros s [q op al tol win]; cbn. rewrite set_side_same, set_side_other. done.
Qed.
Next Obligation.
  intros p p' [Ha ->]. cbn. repeat split; done.
Qed.

(** ** Properties *)

(** C9: A forwarded connection ends.  However the four copies of its two relays and the
    failure of the session under them are interleaved, they make a bounded number of
    operations.  When the user or the target ends its connection, or the session is dead,
    and as long as both go on reading what is written to them and the session is not
    stalled, they come to rest only when both relays have returned, or in one deadlock:
    writes to the user and to the target have failed, so that nobody reads the stream at
    either end, and at both ends a copy waits to write to it. *)
Theorem forward_ends {U P T} `{RWCLaws U, StreamLaws P, RWCLaws T} (size : nat)
    (u : U) (p : P) (t : T) (st st' : Stats) :
  (0 < size)%nat -> is_open u = true -> is_open t = true ->
  (forall s, side_open s p = true /\ coming s p = []) ->
  forall n w, nsteps (forward_step size) n (forward_start u p t st st') w ->
    (n <= 3 * (budget u + budget t) + 5 * (length (incoming u) + length (incoming t)) + 13)%nat /\
    (ends u || ends t || negb (alive w.(fw_pair)) = true ->
     drains u = true -> drains t = true -> stalled p = false -> forward_done w = false ->
     (exists w', forward_step size w w') \/
     (deadlocked w = true /\ reliable u = false /\ reliable t = false)).
Proof.
  intros Hsize Hu Ht Hp n w Hn.
  destruct (forward_start_inv u p t Hu Ht Hp st st') as [Hi _].
  destruct (forward_steps_inv size Hsize u p t n _ w Hn Hi) as (Hw & Hr & _ & _).
  split; [|by apply (forward_rests size u p t)].
  unfold forward_rank, dir_rank, upstream in Hr. cbn in Hr.
  destruct (Hp Near) as [_ C1], (Hp Far) as [_ C2]. rewrite C1, C2 in Hr. cbn in Hr.
  destruct (alive p); lia.
Qed.

(** C8: What a forwarded connection delivers.  In every interleaving, at every moment, the
    target has got a prefix of what the user sent and the user one of what the target
    sent.  Once both relays have returned, the two connections and both ends of the stream
    are closed; and if the session lived, no write failed, and the stream takes writes
    to a closed end, then a direction whose destination did not end by itself has
    delivered everything: the user's half-close loses no byte of the request, and the
    target's no byte of the answer. *)
Theorem forward_delivers {U P T} `{RWCLaws U, StreamLaws P, RWCLaws T} (size : nat)
    (u : U) (p : P) (t : T) (st st' : Stats) :
  (0 < size)%nat -> is_open u = true -> is_open t = true ->
  (forall s, side_open s p = true /\ coming s p = []) ->
  forall n w, nsteps (forward_step size) n (forward_start u p t st st') w ->
    (exists o, sent w.(fw_target) = sent t ++ o /\ o `prefix_of` incoming u) /\
    (exists o, sent w.(fw_user) = sent u ++ o /\ o `prefix_of` incoming t) /\
    (forward_done w = true ->
     is_open w.(fw_user) = false /\ is_open w.(fw_target) = false /\
     (forall s, side_open s w.(fw_pair) = false) /\
     (alive w.(fw_pair) = true -> tolerant p = true -> reliable u = true -> reliable t = true ->
      (ends t = false -> sent w.(fw_target) = sent t ++ incoming u) /\
      (ends u = false -> sent w.(fw_user) = sent u ++ incoming t))).
Proof.
  intros Hsize Hu Ht Hp n w Hn.
  destruct (forward_start_inv u p t Hu Ht Hp st st') as (Hi & F1 & F2).
  destruct (forward_steps_inv size Hsize u p t n _ w Hn Hi) as ([I1 I2] & _ & _ & Hf).
  split; [exact (chain_prefix _ _ _ _ _ _ _ _ (di_chain _ _ _ _ _ I1))|].
  split; [exact (chain_prefix _ _ _ _ _ _ _ _ (di_chain _ _ _ _ _ I2))|].
  destruct I1 as [_ Ou On Of Ot _ _ _ _]; cbn in *. unfold forward_done, relay_return. cbn.
  destruct (is_cp_done (fw_srv_into_user w)) eqn:D1; [|done].
  destruct (is_cp_done (fw_srv_into_stream w)) eqn:D2; [|done].
  destruct (is_cp_done (fw_cli_into_stream w)) eqn:D3; [|by intros [_ ?]%andb_prop].
  destruct (is_cp_done (fw_cli_into_target w)) eqn:D4; [|by intros [_ ?]%andb_prop].
  intros _. split; [done|]. split; [done|]. split; [by intros []|].
  intros Ha Hp0 Hu0 Ht0. destruct (Hf Ha Hp0 Hu0 Ht0) as [G1 G2].
  split; intros He.
  - exact (full_done Far u t (view_up w) (G1 He F1) D2 D4).
  - exact (full_done Near t u (view_down w) (G2 He F2) D3 D1).
Qed.

(** ** Witnesses *)

Lemma forward_run_nsteps {U P T} `{ReadWriteCloser U, StreamPair P, ReadWriteCloser T} (size : nat)
    (schedule : list copy_name) (w : forward U P T) :
  exists n, nsteps (forward_step size) n w (forward_run size schedule w).
Proof.
  revert w. induction schedule as [|c schedule IH]; intros w; cbn; [exists 0%nat; constructor|].
  assert (Hc : forward_try size c w = w \/ forward_step size w (forward_try size c w)).
  { destruct c; cbn; [destruct (step_into_a size (server_relay w)) eqn:E
      |destruct (step_into_b size (server_relay w)) eqn:E
      |destruct (step_into_a size (client_relay w)) eqn:E
      |destruct (step_into_b size (client_relay w)) eqn:E]; (by left) || right;
      constructor; (by left) || by right. }
  destruct (IH (forward_try size c w)) as [n Hn].
  destruct Hc as [Hc|Hc]; [exists n; by rewrite Hc in Hn |- *|exists (S n); by econstructor].
Qed.

Definition new_pipe (tol : bool) (window : nat) : pipe :=
  mkPipe (fun _ => []) (fun _ => true) true tol window.

(** A user that sends a request and half-closes, and a target that answers and waits. *)
Definition user_half_closes : forward duplex pipe duplex :=
  forward_start client_conn (new_pipe true 64) server_conn zero_Stats zero_Stats.
(** Each copy as far as it goes, in an order. *)
Definition as_far (order : list copy_name) : list copy_name :=
  order ≫= fun c => replicate 12 c.

Lemma forward_ends_witness :
  ~ (exists n w', nsteps (forward_step 2) n user_half_closes w' /\ (100 < n)%nat) /\
  exists w', forward_step 2 user_half_closes w'.
Proof.
  assert (Hp : forall s, side_open s (new_pipe true 64) = true /\ coming s (new_pipe true 64) = [])
    by done.
  assert (Hu : is_open client_conn = true) by done.
  assert (Ht : is_open server_conn = true) by done.
  split.
  - intros (n & w' & Hn & Hlt).
    destruct (forward_ends 2 client_conn (new_pipe true 64) server_conn zero_Stats zero_Stats
      (Nat.lt_0_succ 1) Hu Ht Hp n w' Hn) as [Hb _]. cbn in Hb. lia.
  - destruct (forward_ends 2 client_conn (new_pipe true 64) server_conn zero_Stats zero_Stats
      (Nat.lt_0_succ 1) Hu Ht Hp 0%nat _ (nsteps_O _ _)) as [_ Hrest].
    destruct Hrest as [Hx|[Hx _]]; try reflexivity; [exact Hx|discriminate Hx].
Defined.

(** The deadlock: both sides have more to send than the stream holds, and the first write to
    each of them fails.  The copies that read the stream end and close the two connections;
    the copies that write to it wait for ever, on a session that is alive. *)
Example forward_deadlock :
  let broken := mkSink [] (Some (0%nat, ErrClosed)) in
  let u := mkDuplex [[x01; x02; x03; x04; x05; x06]] (Some EOF) broken None true in
  let t := mkDuplex [[x0a; x0b; x0c; x0d; x0e; x0f]] None broken None true in
  let fill (into out : copy_name) := [into; into; out; into; into; into] in
  let w := forward_run 2 (fill UserIntoStream IntoTarget ++ fill TargetIntoStream IntoUser ++
                          [IntoTarget; IntoTarget; IntoUser; IntoUser])
             (forward_start u (new_pipe true 2) t zero_Stats zero_Stats) in
  deadlocked w = true /\ forward_done w = false /\ alive w.(fw_pair) = true /\
  is_open w.(fw_user) = false /\ is_open w.(fw_target) = false /\
  step_into_a 2 (server_relay w) = None /\ step_into_b 2 (server_relay w) = None /\
  step_into_a 2 (client_relay w) = None /\ step_into_b 2 (client_relay w) = None.
Proof. repeat split; vm_compute; reflexivity. Qed.

Lemma forward_delivers_witness :
  exists n w, nsteps (forward_step 2) n user_half_closes w /\ forward_done w = true /\
    sent w.(fw_target) = [x01; x02; x03].
Proof.
  destruct (forward_run_nsteps 2
    (as_far [TargetIntoStream; UserIntoStream; IntoUser; IntoTarget; TargetIntoStream])
    user_half_closes) as [n Hn].
  assert (Hp : forall s, side_open s (new_pipe true 64) = true /\ coming s (new_pipe true 64) = [])
    by done.
  assert (Hu : is_open client_conn = true) by done.
  assert (Ht : is_open server_conn = true) by done.
  match type of Hn with nsteps _ _ _ ?w => exists n, w;
    assert (Hd : forward_done w = true) by (vm_compute; reflexivity);
    split; [exact Hn|]; split; [exact Hd|];
    destruct (forward_delivers 2 client_conn (new_pipe true 64) server_conn zero_Stats zero_Stats
      (Nat.lt_0_succ 1) Hu Ht Hp n w Hn) as (_ & _ & Hall)
  end.
  destruct (Hall Hd) as (_ & _ & _ & Hfull). apply Hfull; vm_compute; reflexivity.
Defined.

(** When both ends half-close, the two closes race through the stream, and neither
    direction need be complete: here each side sent and ended, and neither got a byte. *)
Example forward_cut_short :
  let u := mkDuplex [[x01; x02]] (Some EOF) (mkSink [] None) None true in
  let t := mkDuplex [[x0a; x0b]] (Some EOF) (mkSink [] None) None true in
  let w := forward_run 8 (as_far [UserIntoStream; TargetIntoStream; IntoUser; IntoTarget])
             (forward_start u (new_pipe true 64) t zero_Stats zero_Stats) in
  forward_done w = true /\ alive w.(fw_pair) = true /\
  sent w.(fw_target) = [] /\ sent w.(fw_user) = [].
Proof. vm_compute. done. Qed.
