(* ===== verification/PoolLife.v ===== *)
(** * The client's pool over time ([poolWorker], [connectAndServe], [standbyManager],
      [sessionHealthCheck] and the pool they share)

    Workers add the sessions they have dialled or taken over to the pool, serve them, and
    take them out; meanwhile the health check throws out dead sessions and closes old ones,
    the standby manager dials ahead, and sessions die.  [ClientPool] has the operations of
    the pool one at a time, [Standby] the hand-over of standby sessions; here all of it
    interleaves, and the sessions are followed from the dial to the close. *)

From stdpp Require Import gmap sets relations sorting.
From S2P Require Import Prelude GoStrings GoBytes Target Steps ClientPool.

Local Open Scope list_scope.
Local Open Scope Z_scope.

(** ** State *)

(** A worker: it has no session (it waits, dials, or looks at the channel); it has one and
    is about to [addSession]; it is in the [AcceptStream] loop; it has done
    [removeSession] and is about to [Close]; it has returned. *)
Inductive wk := WIdle | WAdd (s : sid) | WServe (s : sid) | WDrop (s : sid) | WGone.

(** The standby manager: waiting or dialling, offering a session, returned. *)
Inductive mgr := MDial | MSend (s : sid) | MGone.

(** The health check: between ticks; in a recycle tick, with the time it has read; with
    the session it has picked and is about to close. *)
Inductive health := HWait | HRecycle (now : Z) | HClose (ps : pooledSession).

Record World := mkWorld {
  pl_pool : Pool;
  pl_workers : list wk;
  pl_mgr : mgr;
  pl_ch : option sid;
  pl_health : health;
  pl_made : gset sid;
  pl_closed : gset sid;
  pl_now : Z;
  pl_cancelled : bool
}.
#[export] Instance eta_World : Eta World := fun w =>
  mkWorld w.(pl_pool) w.(pl_workers) w.(pl_mgr) w.(pl_ch) w.(pl_health) w.(pl_made)
    w.(pl_closed) w.(pl_now) w.(pl_cancelled).

Definition init (poolSize : nat) : World :=
  mkWorld (mkPool [] 0) (replicate poolSize WIdle) MDial None HWait ∅ ∅ 0 false.

Definition close (s : sid) (w : World) : World := w <| pl_closed ::= fun c => {[s]} ∪ c |>.

(** [session.IsClosed()] *)
Definition IsClosed (w : World) (s : sid) : bool := bool_decide (s ∈ w.(pl_closed)).

(** ** Steps *)

(** The worker between [p1] and [p2] goes to [k]. *)
Definition goto (p1 p2 : list wk) (k : wk) (w : World) : World :=
  w <| pl_workers := p1 ++ k :: p2 |>.

(** [smux.Client] has returned a session to a worker, or to the standby manager. *)
Definition worker_dialled (p1 p2 : list wk) (s : sid) (w : World) : World :=
  goto p1 p2 (WAdd s) w <| pl_made ::= fun m => {[s]} ∪ m |>.
Definition mgr_dialled (s : sid) (w : World) : World :=
  w <| pl_mgr := MSend s |> <| pl_made ::= fun m => {[s]} ∪ m |>.

(** [c.standbyCh <- sess], and [standby := <-c.standbyCh] with its [IsClosed] check. *)
Definition mgr_send (s : sid) (w : World) : World :=
  w <| pl_ch := Some s |> <| pl_mgr := MDial |>.
Definition worker_take (p1 p2 : list wk) (s : sid) (w : World) : World :=
  let w := w <| pl_ch := None |> in
  if IsClosed w s then w else goto p1 p2 (WAdd s) w.

(** [c.addSession(sess)] *)
Definition worker_add (p1 p2 : list wk) (s : sid) (w : World) : World :=
  goto p1 p2 (WServe s) w <| pl_pool ::= addSession w.(pl_now) s |>.
(** [AcceptStream] has failed, or the worker has seen the end of [ctx]:
    [c.removeSession(sess)], then [sess.Close()]. *)
Definition worker_remove (p1 p2 : list wk) (s : sid) (w : World) : World :=
  goto p1 p2 (WDrop s) w <| pl_pool ::= removeSession s |>.
Definition worker_close (p1 p2 : list wk) (s : sid) (w : World) : World :=
  close s (goto p1 p2 WIdle w).
Definition worker_return (p1 p2 : list wk) (w : World) : World := goto p1 p2 WGone w.

(** The manager sees that [ctx] is done. *)
Definition mgr_stop (w : World) : World :=
  match w.(pl_mgr) with
  | MSend s => close s w <| pl_mgr := MGone |>
  | _ => w <| pl_mgr := MGone |>
  end.

(** The ticks of [sessionHealthCheck]. *)
Definition health_clean (w : World) : World := w <| pl_pool := (clean_tick (IsClosed w) w.(pl_pool)).1 |>.
Definition health_pick (now : Z) (w : World) : World :=
  w <| pl_health := match recycle_tick (IsClosed w) now w.(pl_pool) with
                    | Some ps => HClose ps
                    | None => HWait
                    end |>.
Definition health_close (ps : pooledSession) (w : World) : World :=
  close ps.(ps_session) w <| pl_health := HWait |>.

(** The [AddUint64] of a round of [OpenStream], all it changes of the pool. *)
Definition open_round (w : World) : World :=
  w <| pl_pool ::= fun c => c <| cl_sessIdx ::= fun i => u64 (i + 1) |> |>.

Inductive step : World -> World -> Prop :=
| step_worker_dialled w p1 p2 s : w.(pl_workers) = p1 ++ WIdle :: p2 -> s ∉ w.(pl_made) ->
    step w (worker_dialled p1 p2 s w)
| step_mgr_dialled w s : w.(pl_mgr) = MDial -> s ∉ w.(pl_made) -> step w (mgr_dialled s w)
| step_mgr_send w s : w.(pl_mgr) = MSend s -> w.(pl_ch) = None -> step w (mgr_send s w)
| step_worker_take w p1 p2 s : w.(pl_workers) = p1 ++ WIdle :: p2 -> w.(pl_ch) = Some s ->
    step w (worker_take p1 p2 s w)
| step_worker_add w p1 p2 s : w.(pl_workers) = p1 ++ WAdd s :: p2 -> step w (worker_add p1 p2 s w)
| step_worker_remove w p1 p2 s : w.(pl_workers) = p1 ++ WServe s :: p2 ->
    step w (worker_remove p1 p2 s w)
| step_worker_close w p1 p2 s : w.(pl_workers) = p1 ++ WDrop s :: p2 ->
    step w (worker_close p1 p2 s w)
| step_worker_return w p1 p2 : w.(pl_workers) = p1 ++ WIdle :: p2 -> w.(pl_cancelled) = true ->
    step w (worker_return p1 p2 w)
| step_mgr_stop w : w.(pl_cancelled) = true -> step w (mgr_stop w)
| step_clean w : w.(pl_health) = HWait -> step w (health_clean w)
| step_recycle w : w.(pl_health) = HWait -> step w (w <| pl_health := HRecycle w.(pl_now) |>)
| step_pick w now : w.(pl_health) = HRecycle now -> step w (health_pick now w)
| step_health_close w ps : w.(pl_health) = HClose ps -> step w (health_close ps w)
| step_open_round w : step w (open_round w)
| step_die w s : (* the peer, the network, or the goroutine that waits for [ctx] *)
    s ∈ w.(pl_made) -> step w (close s w)
| step_time w t : w.(pl_now) <= t -> step w (w <| pl_now := t |>)
| step_cancel w : step w (w <| pl_cancelled := true |>).

Definition reachable (poolSize : nat) (w : World) : Prop := rtc step (init poolSize) w.

(** ** The invariant *)

(** Who is responsible for a session. *)
Definition wk_owns (k : wk) : list sid :=
  match k with WAdd s | WServe s | WDrop s => [s] | _ => [] end.
Definition wk_serves (k : wk) : list sid := match k with WServe s => [s] | _ => [] end.
Definition mgr_owns (m : mgr) : list sid := match m with MSend s => [s] | _ => [] end.

Definition serving (w : World) : list sid := w.(pl_workers) ≫= wk_serves.
Definition owned (w : World) : list sid :=
  mgr_owns w.(pl_mgr) ++ option_list w.(pl_ch) ++ (w.(pl_workers) ≫= wk_owns).
Definition pooled (w : World) : list sid := map ps_session w.(pl_pool).(cl_sessions).

Definition by_age : relation pooledSession := fun p q => p.(ps_createdAt) <= q.(ps_createdAt).

(** The pool holds served sessions, each once, and all the open ones of them, in the order
    in which they were added. *)
Record pool_ok (closed : gset sid) (serving : list sid) (l : list pooledSession) (now : Z)
    : Prop := mkPoolOk {
  po_nodup : NoDup (map ps_session l);
  po_served : forall s, s ∈ map ps_session l -> s ∈ serving;
  po_live : forall s, s ∈ serving -> s ∈ closed \/ s ∈ map ps_session l;
  po_sorted : StronglySorted by_age l;
  po_past : Forall (fun ps => ps.(ps_createdAt) <= now) l
}.

Definition inv (w : World) : Prop :=
  ownership w.(pl_made) w.(pl_closed) (owned w) /\
  pool_ok w.(pl_closed) (serving w) w.(pl_pool).(cl_sessions) w.(pl_now).

(** ** Lemmas *)

Lemma StronglySorted_sublist {A} (R : relation A) (l k : list A) :
  l `sublist_of` k -> StronglySorted R k -> StronglySorted R l.
Proof.
  induction 1 as [|x l k Hl IH|x l k Hl IH]; [done| |]; intros [Hs Hf]%StronglySorted_inv;
    [|by apply IH]. constructor; [by apply IH|]. rewrite Forall_forall in Hf |- *.
  intros y Hy. apply Hf. by eapply elem_of_sublist.
Qed.

Lemma map_sublist {A B} (f : A -> B) (l k : list A) :
  l `sublist_of` k -> map f l `sublist_of` map f k.
Proof. induction 1; cbn; by constructor. Qed.

Lemma list_filter_sublist {A} (f : A -> bool) (l : list A) : List.filter f l `sublist_of` l.
Proof. induction l as [|x l IH]; cbn; [done|]. destruct (f x); by constructor. Qed.

(** *** The pool's slice *)

Lemma remove_first_sublist (s : sid) (l : list pooledSession) : remove_first s l `sublist_of` l.
Proof.
  induction l as [|ps l IH]; cbn; [done|]. case_decide; [by constructor|by apply sublist_skip].
Qed.

Lemma remove_first_sessions (s x : sid) (l : list pooledSession) :
  NoDup (map ps_session l) ->
  x ∈ map ps_session (remove_first s l) <-> x ∈ map ps_session l /\ x <> s.
Proof.
  induction l as [|ps l IH]; cbn; [set_solver|]. intros [Hn Hl]%NoDup_cons. case_decide as D; cbn.
  - set_solver.
  - rewrite !elem_of_cons, IH by done. naive_solver.
Qed.

Section PoolOk.
Context (closed : gset sid) (serving : list sid) (l : list pooledSession) (now : Z).
Context (Hok : pool_ok closed serving l now).

Lemma pool_ok_mono (closed' : gset sid) (now' : Z) :
  closed ⊆ closed' -> now <= now' -> pool_ok closed' serving l now'.
Proof.
  destruct Hok as [H1 H2 H3 H4 H5]. intros Hc Ht. split; try done.
  - intros s [?|?]%H3; [left; by apply Hc|by right].
  - eapply Forall_impl; [exact H5|]. cbn. intros ps ?. lia.
Qed.

Lemma pool_ok_add (s : sid) (serving' : list sid) :
  s ∉ serving -> serving' ≡ₚ s :: serving -> pool_ok closed serving' (l ++ [mkPS s now]) now.
Proof.
  destruct Hok as [H1 H2 H3 H4 H5]. intros Hs Hp. split.
  - rewrite map_app. apply NoDup_app. split; [done|]. split; [|by apply NoDup_singleton].
    intros x Hx ->%list_elem_of_singleton. by apply Hs, H2.
  - intros x. rewrite map_app, Hp. cbn. set_solver.
  - intros x. rewrite map_app, Hp. cbn. set_solver.
  - apply StronglySorted_app_2; [|done|by repeat constructor].
    intros p q Hp1 ->%list_elem_of_singleton. rewrite Forall_forall in H5. by apply H5.
  - apply Forall_app. split; [done|]. apply Forall_singleton. done.
Qed.

Lemma pool_ok_sub (l' : list pooledSession) :
  l' `sublist_of` l ->
  (forall s, s ∈ serving -> s ∈ closed \/ s ∈ map ps_session l') -> pool_ok closed serving l' now.
Proof.
  destruct Hok as [H1 H2 H3 H4 H5]. intros Hl Hlive.
  assert (Hm : map ps_session l' `sublist_of` map ps_session l) by by apply map_sublist.
  split; [by eapply sublist_NoDup| |done|by eapply StronglySorted_sublist|].
  - intros x Hx. apply H2. by eapply elem_of_sublist.
  - rewrite Forall_forall in H5 |- *. intros x Hx. apply H5. by eapply elem_of_sublist.
Qed.

Lemma pool_ok_remove (s : sid) (serving' : list sid) :
  s ∉ serving' -> serving ≡ₚ s :: serving' -> pool_ok closed serving' (remove_first s l) now.
Proof.
  intros Hs Hp. destruct Hok as [H1 H2 H3 H4 H5].
  assert (Hr : forall x, x ∈ map ps_session (remove_first s l) <-> x ∈ map ps_session l /\ x <> s)
    by (intros; by apply remove_first_sessions).
  assert (Hl := remove_first_sublist s l).
  split; [by eapply sublist_NoDup, map_sublist| | | |].
  - intros x [Hx Hne]%Hr. apply H2 in Hx. rewrite Hp in Hx. set_solver.
  - intros x Hx. rewrite Hr. destruct (H3 x) as [?|?]; [rewrite Hp; by right|by left|].
    right. split; [done|]. intros ->. done.
  - by eapply StronglySorted_sublist.
  - rewrite Forall_forall in H5 |- *. intros x Hx. apply H5. by eapply elem_of_sublist.
Qed.

Lemma pool_ok_clean :
  pool_ok closed serving
    (List.filter (fun ps => negb (bool_decide (ps.(ps_session) ∈ closed))) l) now.
Proof.
  apply pool_ok_sub.
  - apply list_filter_sublist.
  - intros s Hs. destruct (decide (s ∈ closed)) as [|Hc]; [by left|].
    destruct (po_live _ _ _ _ Hok s Hs) as [?|Hin]; [by left|right].
    apply list_elem_of_fmap in Hin as (ps & -> & Hin). apply list_elem_of_fmap. exists ps.
    split; [done|]. apply list_elem_of_In, filter_In. split; [by apply list_elem_of_In|].
    by rewrite bool_decide_false.
Qed.
End PoolOk.

(** *** Steps *)

(** What the others own, and serve. *)
Definition owned_else (p1 p2 : list wk) (w : World) : list sid :=
  mgr_owns w.(pl_mgr) ++ option_list w.(pl_ch) ++ (p1 ≫= wk_owns) ++ (p2 ≫= wk_owns).
Definition serving_else (p1 p2 : list wk) : list sid := (p1 ≫= wk_serves) ++ (p2 ≫= wk_serves).

Lemma owned_worker (p1 p2 : list wk) (k : wk) (w : World) :
  w.(pl_workers) = p1 ++ k :: p2 -> owned w ≡ₚ wk_owns k ++ owned_else p1 p2 w.
Proof.
  unfold owned, owned_else. intros ->. rewrite bind_app, bind_cons. solve_Permutation.
Qed.

Lemma serving_worker (p1 p2 : list wk) (k : wk) (w : World) :
  w.(pl_workers) = p1 ++ k :: p2 -> serving w ≡ₚ wk_serves k ++ serving_else p1 p2.
Proof.
  unfold serving, serving_else. intros ->. rewrite bind_app, bind_cons. solve_Permutation.
Qed.

Lemma serves_owns (ws : list wk) (s : sid) : s ∈ ws ≫= wk_serves -> s ∈ ws ≫= wk_owns.
Proof.
  rewrite !list_elem_of_bind. intros (k & Hs & Hk). exists k. split; [|done].
  destruct k; set_solver.
Qed.

(** A session that a worker owns is served by no other one. *)
Lemma owned_not_served (p1 p2 : list wk) (w : World) (s : sid) :
  s ∉ owned_else p1 p2 w -> s ∉ serving_else p1 p2.
Proof.
  unfold owned_else, serving_else. rewrite !elem_of_app. intros Hn Hs. apply Hn.
  destruct Hs as [Hs%serves_owns|Hs%serves_owns]; auto.
Qed.

Lemma owned_alone_not_served (p1 p2 : list wk) (k : wk) (w : World) (s : sid) :
  ownership w.(pl_made) w.(pl_closed) (owned w) -> w.(pl_workers) = p1 ++ k :: p2 ->
  wk_owns k = [s] -> s ∉ serving_else p1 p2.
Proof.
  intros [Hn _ _] Hw Hk. rewrite (owned_worker p1 p2 k w Hw), Hk in Hn.
  apply NoDup_cons in Hn as [Hn _]. by eapply owned_not_served.
Qed.

Lemma pool_ok_perm (closed : gset sid) (sv sv' : list sid) (l : list pooledSession) (now : Z) :
  sv' ≡ₚ sv -> pool_ok closed sv l now -> pool_ok closed sv' l now.
Proof. intros Hp [H1 H2 H3 H4 H5]. split; try done; intros s; rewrite Hp; auto. Qed.

Lemma clean_tick_sessions (closed : gset sid) (c : Pool) :
  (clean_tick (fun s => bool_decide (s ∈ closed)) c).1.(cl_sessions) =
  List.filter (fun ps => negb (bool_decide (ps.(ps_session) ∈ closed))) c.(cl_sessions).
Proof. unfold clean_tick. by rewrite alive_loop_filter. Qed.

(** A step of the worker between [p1] and [p2] that leaves the pool alone, and what it and
    the others serve. *)
Lemma worker_pool_ok (p1 p2 : list wk) (k k' : wk) (w w' : World) :
  pool_ok w.(pl_closed) (serving w) w.(pl_pool).(cl_sessions) w.(pl_now) ->
  w.(pl_workers) = p1 ++ k :: p2 -> w'.(pl_workers) = p1 ++ k' :: p2 ->
  wk_serves k' = wk_serves k -> w'.(pl_pool) = w.(pl_pool) -> w'.(pl_now) = w.(pl_now) ->
  w.(pl_closed) ⊆ w'.(pl_closed) ->
  pool_ok w'.(pl_closed) (serving w') w'.(pl_pool).(cl_sessions) w'.(pl_now).
Proof.
  intros Hok Hw Hw' Hk -> -> Hc. apply pool_ok_mono with (closed := w.(pl_closed)) (now := w.(pl_now));
    [|done|lia].
  apply (pool_ok_perm _ (serving w)); [|done].
  by rewrite (serving_worker p1 p2 k' w'), (serving_worker p1 p2 k w), Hk.
Qed.

(** The steps of a worker that are more than a change of hands, and what closes sessions. *)
Lemma worker_take_inv (p1 p2 : list wk) (s : sid) (w : World) :
  inv w -> w.(pl_workers) = p1 ++ WIdle :: p2 -> w.(pl_ch) = Some s -> inv (worker_take p1 p2 s w).
Proof.
  intros [Ho Hp] Hw Hc. unfold worker_take, IsClosed. cbn. case_bool_decide as B.
  - split; [|done]. apply (own_release _ _ _ _ _ s Ho); try done. unfold owned. cbn. rewrite Hc.
    cbn. symmetry. apply Permutation_middle.
  - split; [|by eapply (worker_pool_ok p1 p2 _ (WAdd s) w)].
    apply (own_permute _ _ _ _ _ Ho); [|done].
    rewrite (owned_worker p1 p2 (WAdd s)), (owned_worker p1 p2 WIdle w) by done.
    unfold owned_else. cbn. rewrite Hc. cbn. apply Permutation_middle.
Qed.

Lemma worker_add_inv (p1 p2 : list wk) (s : sid) (w : World) :
  inv w -> w.(pl_workers) = p1 ++ WAdd s :: p2 -> inv (worker_add p1 p2 s w).
Proof.
  intros [Ho Hp] Hw. split.
  - apply (own_permute _ _ _ _ _ Ho); [|done].
    by rewrite (owned_worker p1 p2 (WServe s)), (owned_worker p1 p2 (WAdd s) w).
  - eapply (pool_ok_add _ _ _ _ Hp s).
    + rewrite (serving_worker p1 p2 _ w Hw). by eapply owned_alone_not_served.
    + by rewrite (serving_worker p1 p2 (WServe s) (worker_add p1 p2 s w)),
        (serving_worker p1 p2 (WAdd s) w).
Qed.

Lemma worker_remove_inv (p1 p2 : list wk) (s : sid) (w : World) :
  inv w -> w.(pl_workers) = p1 ++ WServe s :: p2 -> inv (worker_remove p1 p2 s w).
Proof.
  intros [Ho Hp] Hw. split.
  - apply (own_permute _ _ _ _ _ Ho); [|done].
    by rewrite (owned_worker p1 p2 (WDrop s)), (owned_worker p1 p2 (WServe s) w).
  - eapply (pool_ok_remove _ _ _ _ Hp s);
      rewrite (serving_worker p1 p2 (WDrop s) (worker_remove p1 p2 s w)) by done.
    + by eapply owned_alone_not_served.
    + by rewrite (serving_worker p1 p2 (WServe s) w).
Qed.

Lemma mgr_stop_inv (w : World) : inv w -> inv (mgr_stop w).
Proof.
  intros [Ho Hp]. unfold mgr_stop. destruct (pl_mgr w) as [|s|] eqn:Em.
  2: { split; [|eapply pool_ok_mono; [exact Hp|cbn; set_solver|cbn; lia]].
       eapply (own_release _ _ _ _ _ s Ho); cbn; [|set_solver..]. unfold owned. by rewrite Em. }
  all: split; [|done]; apply (own_permute _ _ _ _ _ Ho); [|done]; unfold owned; by rewrite Em.
Qed.

(** A change that only closes sessions. *)
Lemma closing_inv (w w' : World) :
  inv w -> w'.(pl_made) = w.(pl_made) -> w.(pl_closed) ⊆ w'.(pl_closed) ->
  owned w' = owned w -> serving w' = serving w -> w'.(pl_pool) = w.(pl_pool) ->
  w'.(pl_now) = w.(pl_now) -> inv w'.
Proof.
  intros [Ho Hp] Hm Hc Ho' Hs Hl Hn. split.
  - rewrite Hm, Ho'. by apply (own_permute _ _ _ _ _ Ho).
  - rewrite Hs, Hl, Hn. eapply pool_ok_mono; [exact Hp|done|lia].
Qed.

Lemma life_step_inv (w w' : World) : step w w' -> inv w -> inv w'.
Proof.
  intros Hs Hi. pose proof Hi as [Ho Hp].
  destruct Hs as [w p1 p2 s Hw Hn|w s Hm Hn|w s Hm Hc|w p1 p2 s Hw Hc|w p1 p2 s Hw|w p1 p2 s Hw
    |w p1 p2 s Hw|w p1 p2 Hw Hd|w Hd|w Hh|w Hh|w now Hh|w ps Hh|w|w s Hm|w t Ht|w];
    try done; try (by apply (closing_inv w); cbn; try done; set_solver).
  - split; [|by eapply (worker_pool_ok p1 p2 _ (WAdd s) w)].
    apply (own_gain _ _ _ _ s Ho Hn). cbn.
    by rewrite (owned_worker p1 p2 (WAdd s)), (owned_worker p1 p2 WIdle w).
  - split; [|done]. apply (own_gain _ _ _ _ s Ho Hn). unfold owned. by rewrite Hm.
  - split; [|done]. apply (own_permute _ _ _ _ _ Ho); [|done]. unfold owned. cbn. by rewrite Hm, Hc.
  - by apply worker_take_inv.
  - by apply worker_add_inv.
  - by apply worker_remove_inv.
  - split; [|eapply (worker_pool_ok p1 p2 _ WIdle w); try done; cbn; set_solver].
    eapply (own_release _ _ _ _ _ s Ho); cbn; [|set_solver..].
    by rewrite (owned_worker p1 p2 (WDrop s) w), (owned_worker p1 p2 WIdle).
  - split; [|by eapply (worker_pool_ok p1 p2 _ WGone w)].
    apply (own_permute _ _ _ _ _ Ho); [|done].
    by rewrite (owned_worker p1 p2 WGone), (owned_worker p1 p2 WIdle w).
  - by apply mgr_stop_inv.
  - split; [done|]. unfold health_clean, IsClosed. cbn. rewrite clean_tick_sessions.
    by apply pool_ok_clean.
  - split; [done|]. by eapply pool_ok_mono.
Qed.

Lemma pool_step_workers (w w' : World) :
  step w w' -> length w'.(pl_workers) = length w.(pl_workers).
Proof.
  destruct 1 as [w p1 p2 s Hw Hn|w s Hm Hn|w s Hm Hc|w p1 p2 s Hw Hc|w p1 p2 s Hw|w p1 p2 s Hw
    |w p1 p2 s Hw|w p1 p2 Hw Hd|w Hd|w Hh|w Hh|w now Hh|w ps Hh|w|w s Hm|w t Ht|w]; try done;
    try (rewrite Hw; cbn; by rewrite !length_app).
  - unfold worker_take. cbn. case_match; [done|]. rewrite Hw. cbn. by rewrite !length_app.
  - unfold mgr_stop. by destruct (pl_mgr w).
Qed.

Lemma bind_all_nil (f : wk -> list sid) (k : wk) (ws : list wk) :
  Forall (eq k) ws -> f k = [] -> ws ≫= f = [].
Proof. induction 1 as [|x ws Hx _ IH]; intros Hf; [done|]. by rewrite bind_cons, <- Hx, Hf, IH. Qed.

Lemma life_init_inv (poolSize : nat) : inv (init poolSize).
Proof.
  assert (Hidle : forall f : wk -> list sid, f WIdle = [] -> replicate poolSize WIdle ≫= f = []).
  { intros f Hf. apply (bind_all_nil f WIdle); [|done]. by apply Forall_replicate. }
  assert (Ho : owned (init poolSize) = []) by by apply Hidle.
  assert (Hs : serving (init poolSize) = []) by by apply Hidle.
  split; [rewrite Ho|rewrite Hs]; split; cbn; try constructor; set_solver.
Qed.

Lemma life_reachable_inv (poolSize : nat) (w : World) :
  reachable poolSize w -> inv w /\ length w.(pl_workers) = poolSize.
Proof.
  intros Hr.
  apply (rtc_preserved step (fun w => inv w /\ length w.(pl_workers) = poolSize) _ _) in Hr; [done| |].
  - intros x y [Hi <-] Hs. split; [by eapply life_step_inv|by apply pool_step_workers].
  - split; [apply life_init_inv|]. apply length_replicate.
Qed.

Lemma serving_length (w : World) : (length (serving w) <= length w.(pl_workers))%nat.
Proof.
  unfold serving. induction (pl_workers w) as [|k ws IH]; [done|]. rewrite bind_cons, length_app.
  destruct k; cbn; lia.
Qed.

(** *** Recycling *)

(** An open session of the pool that is older than [sessionMaxAge]. *)
Definition old_and_open (closed : gset sid) (now : Z) (ps : pooledSession) : bool :=
  negb (bool_decide (ps.(ps_session) ∈ closed)) && (sessionMaxAge <? now - ps.(ps_createdAt)).

(** A recycle tick at [now], with nothing in between. *)
Definition recycle_round (now : Z) (w : World) : World :=
  let w := health_pick now (w <| pl_health := HRecycle now |>) in
  match w.(pl_health) with HClose ps => health_close ps w | _ => w end.

Lemma older_keeps (closed : gset sid) (now : Z) (o : pooledSession) (l : list pooledSession) :
  Forall (by_age o) l ->
  foldl (older (fun s => bool_decide (s ∈ closed)) now) (Some o) l = Some o.
Proof.
  unfold by_age. induction 1 as [|ps l Hp _ IH]; cbn; [done|]. unfold older at 2.
  destruct (bool_decide _); [done|]. repeat case_bool; lia || done.
Qed.

Lemma recycle_tick_sorted (closed : gset sid) (now : Z) (c : Pool) :
  StronglySorted by_age c.(cl_sessions) ->
  recycle_tick (fun s => bool_decide (s ∈ closed)) now c =
  head (List.filter (old_and_open closed now) c.(cl_sessions)).
Proof.
  unfold recycle_tick. induction (cl_sessions c) as [|ps l IH]; [done|].
  intros [Hl Hf]%StronglySorted_inv. cbn. unfold older at 2, old_and_open at 1.
  destruct (bool_decide _); cbn; [by apply IH|].
  destruct (sessionMaxAge <? _); [by apply older_keeps|by apply IH].
Qed.

(** Closing a session takes its entry, and no other, out of those to recycle. *)
Lemma old_and_open_close (closed : gset sid) (now : Z) (s : sid) (l : list pooledSession) :
  List.filter (old_and_open ({[s]} ∪ closed) now) l =
  List.filter (fun ps => negb (bool_decide (ps.(ps_session) = s)))
    (List.filter (old_and_open closed now) l).
Proof.
  assert (Hc : forall ps, old_and_open ({[s]} ∪ closed) now ps =
    negb (bool_decide (ps.(ps_session) = s)) && old_and_open closed now ps).
  { intros ps. unfold old_and_open. rewrite andb_assoc, <- negb_orb. do 2 f_equal.
    rewrite <- bool_decide_or. apply bool_decide_ext. set_solver. }
  induction l as [|ps l IH]; [done|]. cbn. rewrite Hc, IH.
  destruct (old_and_open closed now ps); cbn; [|by rewrite andb_false_r].
  by rewrite andb_true_r.
Qed.

Lemma filter_other_sessions (s : sid) (l : list pooledSession) :
  s ∉ map ps_session l -> List.filter (fun ps => negb (bool_decide (ps.(ps_session) = s))) l = l.
Proof.
  induction l as [|ps l IH]; [done|]. cbn. intros Hs. rewrite bool_decide_false by set_solver. cbn.
  rewrite IH; [done|]. set_solver.
Qed.

Lemma recycle_round_spec (now : Z) (w : World) :
  NoDup (pooled w) -> StronglySorted by_age w.(pl_pool).(cl_sessions) ->
  let old := List.filter (old_and_open w.(pl_closed) now) w.(pl_pool).(cl_sessions) in
  let w' := recycle_round now w in
  w'.(pl_pool) = w.(pl_pool) /\
  w'.(pl_closed) = list_to_set (take 1 (map ps_session old)) ∪ w.(pl_closed) /\
  List.filter (old_and_open w'.(pl_closed) now) w'.(pl_pool).(cl_sessions) = tail old.
Proof.
  intros Hn Hs old w'. pose proof (recycle_tick_sorted w.(pl_closed) now _ Hs) as Ht.
  fold old in Ht. unfold w', recycle_round, health_pick, IsClosed. cbn. rewrite Ht.
  destruct old as [|ps old'] eqn:Eo; subst old; cbn.
  - split; [done|]. split; [set_solver|done].
  - split; [done|]. split; [set_solver|]. rewrite old_and_open_close, Eo. cbn.
    rewrite bool_decide_true by done. cbn. apply filter_other_sessions.
    assert (Hold : NoDup (map ps_session (ps :: old')))
      by (rewrite <- Eo; eapply sublist_NoDup; [exact Hn|]; apply map_sublist, list_filter_sublist).
    by apply NoDup_cons in Hold as [? _].
Qed.

Lemma map_drop {A B} (f : A -> B) (n : nat) (l : list A) : map f (drop n l) = drop n (map f l).
Proof. revert l. by induction n; intros []; cbn. Qed.

Lemma tail_drop {A} (n : nat) (l : list A) : tail (drop n l) = drop (S n) l.
Proof. revert l. by induction n; intros []; cbn. Qed.

Lemma recycle_rounds (now : Z) (n : nat) (w : World) :
  NoDup (pooled w) -> StronglySorted by_age w.(pl_pool).(cl_sessions) ->
  let old := List.filter (old_and_open w.(pl_closed) now) w.(pl_pool).(cl_sessions) in
  let w' := Nat.iter n (recycle_round now) w in
  w'.(pl_pool) = w.(pl_pool) /\
  w'.(pl_closed) = list_to_set (take n (map ps_session old)) ∪ w.(pl_closed) /\
  List.filter (old_and_open w'.(pl_closed) now) w'.(pl_pool).(cl_sessions) = drop n old.
Proof.
  intros Hn Hs old. induction n as [|n (H1 & H2 & H3)]; [split; [done|split; [set_solver|done]]|].
  rewrite Nat.iter_succ.
  set (v := Nat.iter n (recycle_round now) w) in *.
  destruct (recycle_round_spec now v) as (G1 & G2 & G3);
    [unfold pooled; by rewrite H1|by rewrite H1|].
  rewrite H3 in G2, G3. split; [congruence|]. split.
  - rewrite G2, H2, <- (Nat.add_1_r n), <- (take_take_drop _ n 1), <- map_drop,
      list_to_set_app_L.
    rewrite union_assoc_L. f_equal. apply union_comm_L.
  - rewrite G3. by rewrite tail_drop.
Qed.

(** ** Properties *)

(** C10: The pool is what the workers serve.  In every interleaving of the workers, the
    standby manager, the health check, the streams that are opened and the sessions' ends,
    the pool holds no session twice, only sessions that a worker serves, and so at most
    one per worker; an open session that is served is in it; every session that was
    dialled is closed or has exactly one owner.  When the workers and the manager have
    returned, the pool is empty and nothing is open but what the channel holds. *)
Theorem pool_consistent (poolSize : nat) (w : World) :
  reachable poolSize w ->
  NoDup (pooled w) /\ (forall s, s ∈ pooled w -> s ∈ serving w) /\
  sessionCount w.(pl_pool) <= Z.of_nat poolSize /\
  (forall s, s ∈ serving w -> s ∈ pooled w \/ s ∈ w.(pl_closed)) /\
  NoDup (owned w) /\ (forall s, s ∈ w.(pl_made) -> s ∈ owned w \/ s ∈ w.(pl_closed)) /\
  (Forall (eq WGone) w.(pl_workers) -> w.(pl_mgr) = MGone ->
   w.(pl_pool).(cl_sessions) = [] /\
   forall s, s ∈ w.(pl_made) -> w.(pl_ch) = Some s \/ s ∈ w.(pl_closed)).
Proof.
  intros [[[Hn _ Hc] [Pn Ps Pl _ _]] Hlen]%life_reachable_inv.
  split; [done|]. split; [done|]. split.
  { assert (Hsub : pooled w ⊆+ serving w) by by apply NoDup_submseteq.
    apply submseteq_length in Hsub. pose proof (serving_length w) as Hsv.
    unfold sessionCount, zlen. unfold pooled in Hsub. rewrite length_map in Hsub. lia. }
  split; [intros s [?|?]%Pl; auto|]. split; [done|]. split; [intros s [?|?]%Hc; auto|].
  intros Hg Hm.
  pose proof (fun f => bind_all_nil f WGone _ Hg) as Hidle.
  split.
  - destruct (cl_sessions (pl_pool w)) as [|ps l] eqn:E; [done|]. exfalso.
    specialize (Ps (ps_session ps)). unfold serving in Ps. rewrite Hidle in Ps by done.
    specialize (Ps ltac:(cbn; left)). by apply not_elem_of_nil in Ps.
  - intros s [?|Hs]%Hc; [by right|left]. unfold owned in Hs. rewrite Hm, Hidle in Hs by done.
    destruct (pl_ch w); cbn in Hs; set_solver.
Qed.

(** C32: Recycling takes the oldest first, one at a time.  At every moment, [n] recycle
    ticks in a row close the first [n] of the pool's open sessions that are older than
    twenty minutes, which are in the order of their age, and no other; the entries stay in
    the pool until their workers remove them. *)
Theorem recycling_oldest_first (poolSize : nat) (w : World) (now : Z) (n : nat) :
  reachable poolSize w ->
  let old := List.filter (old_and_open w.(pl_closed) now) w.(pl_pool).(cl_sessions) in
  let w' := Nat.iter n (recycle_round now) w in
  w'.(pl_closed) = list_to_set (take n (map ps_session old)) ∪ w.(pl_closed) /\
  w'.(pl_pool) = w.(pl_pool) /\ StronglySorted by_age old.
Proof.
  intros [[_ [Pn _ _ Po _]] _]%life_reachable_inv old w'.
  destruct (recycle_rounds now n w Pn Po) as (H1 & H2 & _). split; [exact H2|]. split; [exact H1|].
  by eapply StronglySorted_sublist, Po; apply list_filter_sublist.
Qed.

(** ** Witnesses *)

(** Two workers: the first dials, the second takes a standby session a minute later. *)
Definition pool_story : World :=
  let w := worker_add [] [WIdle] 1 (worker_dialled [] [WIdle] 1 (init 2)) in
  let w := mgr_send 2 (mgr_dialled 2 w) <| pl_now := Minute |> in
  worker_add [WServe 1] [] 2 (worker_take [WServe 1] [] 2 w).

Lemma pool_story_reachable : reachable 2 pool_story.
Proof.
  assert (Hno : forall x (X : gset positive), bool_decide (x ∈ X) = false -> x ∉ X)
    by (intros x X H; by apply bool_decide_eq_false in H).
  eapply rtc_l; [apply (step_worker_dialled _ [] [WIdle] 1); [done|by apply Hno]|].
  eapply rtc_l; [by apply (step_worker_add _ [] [WIdle] 1)|].
  eapply rtc_l; [apply (step_mgr_dialled _ 2); [done|by apply Hno]|].
  eapply rtc_l; [by apply (step_mgr_send _ 2)|].
  eapply rtc_l; [by apply (step_time _ Minute)|].
  eapply rtc_l; [by apply (step_worker_take _ [WServe 1] [] 2)|].
  eapply rtc_l; [by apply (step_worker_add _ [WServe 1] [] 2)|]. done.
Qed.

Lemma pool_consistent_witness :
  pooled pool_story = [1; 2]%positive /\ NoDup (pooled pool_story) /\
  sessionCount pool_story.(pl_pool) <= 2.
Proof.
  destruct (pool_consistent 2 pool_story pool_story_reachable) as (H1 & _ & H2 & _).
  split; [reflexivity|]. split; [exact H1|exact H2].
Defined.

(** After twenty and a half minutes only the first session is old enough; after an hour
    both are, and one tick closes the first. *)
Lemma recycling_oldest_first_witness :
  (Nat.iter 2 (recycle_round (20 * Minute + 30 * Second)) pool_story).(pl_closed) = {[1%positive]} /\
  (Nat.iter 1 (recycle_round (60 * Minute)) pool_story).(pl_closed) = {[1%positive]} /\
  (Nat.iter 2 (recycle_round (60 * Minute)) pool_story).(pl_closed) = {[1%positive; 2%positive]}.
Proof.
  pose proof (fun t n => proj1 (recycling_oldest_first 2 pool_story t n pool_story_reachable)) as H.
  split; [|split].
  - rewrite (H (20 * Minute + 30 * Second) 2%nat). vm_compute. reflexivity.
  - rewrite (H (60 * Minute) 1%nat). vm_compute. reflexivity.
  - rewrite (H (60 * Minute) 2%nat). vm_compute. reflexivity.
Defined.
