(* ===== verification/UdpPeers.v ===== *)
(** * Reverse UDP ([startReverseUDP] of [server.go])

    A UDP listener keeps a table of peers; each peer has a stream of its own, opened on
    its first datagram, on which all its datagrams go.  A ticker closes the streams of
    the peers that were silent for two minutes.  The table is only touched under [mu],
    so each datagram and each tick is one step.  Times are Unix seconds. *)

From stdpp Require Import gmap strings sets.
From S2P Require Import Prelude GoStrings.
From Stdlib Require Import Init.Byte.

Local Open Scope string_scope.
Local Open Scope list_scope.
Local Open Scope Z_scope.

Abbreviation sid := positive (only parsing).

(** [udpPeer], less the fields that are the same for all peers. *)
Record udpPeer := mkPeer { up_lastSeen : Z; up_stream : sid }.
#[export] Instance eta_udpPeer : Eta udpPeer := fun p => mkPeer p.(up_lastSeen) p.(up_stream).
Abbreviation Peers := (gmap string udpPeer) (only parsing).

(** What a step does to the streams: the ones it opens are arguments. *)
Inductive udp_event :=
| UTarget (s : sid)
| UReader (s : sid)
| UWrite (key : string) (s : sid) (pkt : list byte)
| UClose (s : sid).

(** One datagram of the read loop: [pkt] from the address [key] at time [now]; [open] is
    what [openStream] returns, [send] what [sendTarget] returns. *)
Definition on_packet (now : Z) (key : string) (pkt : list byte) (open : result sid)
    (send : option error) (peers : Peers) : Peers * list udp_event :=
  if zlen pkt =? 0 then (peers, [])
  else
    match peers !! key with
    | Some p => (<[key := p <| up_lastSeen := now |>]> peers, [UWrite key p.(up_stream) pkt])
    | None =>
        match open with
        | Err _ => (peers, [])
        | Ok s =>
            match send with
            | Some _ => (peers, [UTarget s; UClose s])
            | None => (<[key := mkPeer now s]> peers, [UTarget s; UReader s; UWrite key s pkt])
            end
        end
    end.

(** The stale peer cleanup: one key, and a tick over the map in the order Go picks. *)
Definition clean_peer (now : Z) (r : Peers * list udp_event) (key : string)
    : Peers * list udp_event :=
  match r.1 !! key with
  | Some p => if 120 <? now - p.(up_lastSeen) then (delete key r.1, r.2 ++ [UClose p.(up_stream)])
              else r
  | None => r
  end.
Definition on_tick (now : Z) (order : list string) (peers : Peers) : Peers * list udp_event :=
  foldl (clean_peer now) (peers, []) order.

(** A run of the listener. *)
Inductive udp_input :=
| Packet (now : Z) (key : string) (pkt : list byte) (open : result sid) (send : option error)
| Tick (now : Z) (order : list string).
Definition udp_step (i : udp_input) (peers : Peers) : Peers * list udp_event :=
  match i with
  | Packet now key pkt open send => on_packet now key pkt open send peers
  | Tick now order => on_tick now order peers
  end.
Fixpoint udp_run (ins : list udp_input) (peers : Peers) : Peers * list udp_event :=
  match ins with
  | [] => (peers, [])
  | i :: ins =>
      let '(peers, t) := udp_step i peers in
      let '(peers, t') := udp_run ins peers in
      (peers, t ++ t')
  end.

(** ** Lemmas *)

Definition stale (now : Z) (p : udpPeer) : bool := 120 <? now - p.(up_lastSeen).

Lemma clean_peer_lookup (now : Z) (r : Peers * list udp_event) (key k : string) :
  (clean_peer now r key).1 !! k =
  match r.1 !! k with
  | Some p => if bool_decide (k = key) && stale now p then None else Some p
  | None => None
  end.
Proof.
  unfold clean_peer. destruct (decide (k = key)) as [->|Hne].
  - rewrite bool_decide_true by done. destruct (r.1 !! key) as [p|] eqn:E; [|by rewrite E].
    cbn. unfold stale. destruct (120 <? _); cbn; [by rewrite lookup_delete_eq|done].
  - rewrite bool_decide_false by done. cbn.
    destruct (r.1 !! key) as [p|]; [destruct (120 <? _)|]; cbn; rewrite ?lookup_delete_ne by done;
      by destruct (r.1 !! k).
Qed.

Lemma foldl_clean_lookup (now : Z) (order : list string) (r : Peers * list udp_event) (k : string) :
  (foldl (clean_peer now) r order).1 !! k =
  match r.1 !! k with
  | Some p => if bool_decide (k ∈ order) && stale now p then None else Some p
  | None => None
  end.
Proof.
  revert r. induction order as [|key order IH]; intros r; cbn; [by destruct (r.1 !! k)|].
  rewrite IH, clean_peer_lookup. destruct (r.1 !! k) as [p|]; [|done].
  destruct (decide (k = key)) as [->|Hne].
  - rewrite bool_decide_true by done. rewrite (bool_decide_true (key ∈ key :: order)) by set_solver.
    cbn. destruct (stale now p) eqn:E; [done|]. by rewrite E, andb_false_r.
  - rewrite bool_decide_false by done. cbn.
    by rewrite (bool_decide_ext (k ∈ order) (k ∈ key :: order)) by set_solver.
Qed.

(** The closes of a tick are those of the stale peers, once each. *)
Lemma foldl_clean_events (now : Z) (order : list string) (r : Peers * list udp_event) :
  NoDup order ->
  (foldl (clean_peer now) r order).2 =
  r.2 ++ omap (fun k => p ← r.1 !! k; if stale now p then Some (UClose p.(up_stream)) else None) order.
Proof.
  revert r. induction order as [|key order IH]; intros r Hnd; cbn; [by rewrite app_nil_r|].
  apply NoDup_cons in Hnd as [Hkey Hnd]. rewrite IH by done.
  assert (Hsame : omap (fun k => p ← (clean_peer now r key).1 !! k;
                     if stale now p then Some (UClose p.(up_stream)) else None) order =
                  omap (fun k => p ← r.1 !! k;
                     if stale now p then Some (UClose p.(up_stream)) else None) order).
  { clear IH Hnd. induction order as [|k order IH]; [done|]. cbn.
    rewrite clean_peer_lookup, bool_decide_false by set_solver. cbn.
    rewrite IH by set_solver. by destruct (r.1 !! k). }
  rewrite Hsame. unfold clean_peer, stale. destruct (r.1 !! key) as [p|]; cbn; [|done].
  destruct (120 <? _); cbn; [by rewrite <- app_assoc|done].
Qed.

(** Times at which a peer last seen at [last] is still fresh throughout [ins]. *)
Fixpoint stays_fresh (key : string) (last : Z) (ins : list udp_input) : Prop :=
  match ins with
  | [] => True
  | Packet now k pkt _ _ :: ins =>
      stays_fresh key (if decide (k = key) then if zlen pkt =? 0 then last else now else last) ins
  | Tick now _ :: ins => now - last <= 120 /\ stays_fresh key last ins
  end.

(** The payloads that arrived from a peer, and those written for it. *)
Definition arrived (key : string) (ins : list udp_input) : list (list byte) :=
  omap (fun i => match i with
                 | Packet _ k pkt _ _ => if decide (k = key) then
                     if zlen pkt =? 0 then None else Some pkt else None
                 | Tick _ _ => None end) ins.
Definition written (key : string) (t : list udp_event) : list (sid * list byte) :=
  omap (fun e => match e with UWrite k s pkt => if decide (k = key) then Some (s, pkt) else None
                            | _ => None end) t.

Lemma written_app (key : string) (t u : list udp_event) :
  written key (t ++ u) = written key t ++ written key u.
Proof. apply omap_app. Qed.

Lemma written_closes (key : string) (now : Z) (r : Peers * list udp_event) (order : list string) :
  written key (foldl (clean_peer now) r order).2 = written key r.2.
Proof.
  revert r. induction order as [|k order IH]; intros r; cbn [foldl]; [done|]. rewrite IH.
  unfold clean_peer. destruct (r.1 !! k); [|done]. destruct (120 <? _); [|done].
  cbn [snd]. by rewrite written_app, app_nil_r.
Qed.

(** A datagram of another address does not touch the peer. *)
Lemma on_packet_other (now : Z) (k key : string) (pkt : list byte) open send (peers : Peers) :
  k <> key ->
  (on_packet now k pkt open send peers).1 !! key = peers !! key /\
  written key (on_packet now k pkt open send peers).2 = [].
Proof.
  intros Hk. unfold on_packet. destruct (zlen pkt =? 0); [done|].
  destruct (peers !! k) as [p|]; [|destruct open; [|done]; destruct send; [done|]];
    cbn; rewrite lookup_insert_ne by done; by rewrite decide_False.
Qed.

Lemma udp_run_fresh (ins : list udp_input) (peers : Peers) (key : string) (last : Z) (s : sid) :
  peers !! key = Some (mkPeer last s) -> stays_fresh key last ins ->
  (exists last', (udp_run ins peers).1 !! key = Some (mkPeer last' s)) /\
  written key (udp_run ins peers).2 = map (pair s) (arrived key ins).
Proof.
  revert peers last. induction ins as [|i ins IH]; intros peers last Hp Hf; [by split; [exists last|]|].
  cbn [udp_run]. destruct (udp_step i peers) as [peers1 t1] eqn:Estep.
  destruct (udp_run ins peers1) as [peers2 t2] eqn:Erun. cbn [fst snd]. rewrite written_app.
  assert (Hrest : forall last1, peers1 !! key = Some (mkPeer last1 s) -> stays_fresh key last1 ins ->
    (exists last', peers2 !! key = Some (mkPeer last' s)) /\ written key t2 = map (pair s) (arrived key ins)).
  { intros last1 H1 H2. specialize (IH peers1 last1 H1 H2). by rewrite Erun in IH. }
  destruct i as [now k pkt open send|now order]; cbn [udp_step stays_fresh] in *.
  - unfold arrived. cbn [omap list_omap]. destruct (decide (k = key)) as [->|Hne].
    + unfold on_packet in Estep. destruct (zlen pkt =? 0) eqn:Ez.
      * injection Estep as <- <-. by apply (Hrest last).
      * rewrite Hp in Estep. cbn in Estep. injection Estep as <- <-.
        destruct (Hrest now) as [Hex Hw]; [apply lookup_insert_eq|done|].
        split; [done|]. rewrite Hw. cbn. by rewrite decide_True.
    + destruct (on_packet_other now k key pkt open send peers Hne) as [H1 H2].
      rewrite Estep in H1, H2. cbn [fst snd] in H1, H2. rewrite H2.
      apply (Hrest last); [congruence|done].
  - destruct Hf as [Hfresh Hf]. unfold on_tick in Estep.
    pose proof (foldl_clean_lookup now order (peers, []) key) as Hl.
    pose proof (written_closes key now (peers, []) order) as Hw.
    rewrite Estep in Hl, Hw. cbn [fst snd] in Hl, Hw. rewrite Hw. rewrite Hp in Hl.
    assert (stale now (mkPeer last s) = false) as Hst by (apply Z.ltb_ge; cbn; lia).
    rewrite Hst, andb_false_r in Hl. by apply (Hrest last).
Qed.

(** ** Properties *)

(** One cleanup tick, in any order of the map, forgets exactly the peers that have been
    silent for more than 120 s, and closes the stream of each of them once. *)
Theorem stale_peers_spec (now : Z) (order : list string) (peers : Peers) :
  order ≡ₚ elements (dom peers) ->
  (forall key, (on_tick now order peers).1 !! key =
     match peers !! key with
     | Some p => if stale now p then None else Some p
     | None => None
     end) /\
  (on_tick now order peers).2 =
    omap (fun key => p ← peers !! key; if stale now p then Some (UClose p.(up_stream)) else None)
      order.
Proof.
  intros Ho. assert (NoDup order) by (rewrite Ho; apply NoDup_elements). split.
  - intros key. unfold on_tick. rewrite foldl_clean_lookup. cbn [fst].
    destruct (peers !! key) as [p|] eqn:E; [|done].
    rewrite bool_decide_true; [done|]. rewrite Ho, elem_of_elements. by apply elem_of_dom_2 in E.
  - unfold on_tick. by rewrite foldl_clean_events.
Qed.

(** C39: Flow affinity, and its price.  As long as a peer never stays silent for more than
    two minutes before a tick, it keeps its entry and every one of its datagrams is
    written, in order, to the one stream it started with.  Nothing here asks whether
    that stream still works: when its session dies, the datagrams of a peer that keeps
    sending go on being written to it, and no new stream is ever opened for the peer. *)
Theorem udp_peer_keeps_stream (ins : list udp_input) (peers : Peers) (key : string) (last : Z)
    (s : sid) :
  peers !! key = Some (mkPeer last s) -> stays_fresh key last ins ->
  (exists last', (udp_run ins peers).1 !! key = Some (mkPeer last' s)) /\
  written key (udp_run ins peers).2 = map (pair s) (arrived key ins).
Proof. apply udp_run_fresh. Qed.

(** ** Witnesses *)

Definition one_peer : Peers := {[ "1.2.3.4:53" := mkPeer 0 1 ]}.
Definition chatter : list udp_input :=
  [Packet 100 "1.2.3.4:53" [x01] (Err EOF) None; Tick 200 ["1.2.3.4:53"];
   Packet 210 "1.2.3.4:53" [x02] (Ok 2%positive) None].

Lemma stale_peers_spec_witness :
  (on_tick 121 ["1.2.3.4:53"] one_peer).2 = [UClose 1].
Proof.
  rewrite (proj2 (stale_peers_spec 121 ["1.2.3.4:53"] one_peer ltac:(vm_compute; reflexivity))).
  vm_compute. reflexivity.
Defined.

Lemma udp_peer_keeps_stream_witness :
  written "1.2.3.4:53" (udp_run chatter one_peer).2 = [(1%positive, [x01]); (1%positive, [x02])].
Proof.
  assert (Hf : stays_fresh "1.2.3.4:53" 0 chatter) by (vm_compute; repeat split; discriminate).
  rewrite (proj2 (udp_peer_keeps_stream chatter one_peer "1.2.3.4:53" 0 1 eq_refl Hf)).
  vm_compute. reflexivity.
Defined.
