(* ===== verification/UdpFlow.v ===== *)
(** * Reverse UDP with its goroutines ([startReverseUDP] of [server.go])

    [UdpPeers] has the table of peers, one critical section at a time.  Around it run the
    read loop, whose write to a stream is outside the lock, one goroutine per stream that
    sends the replies back, and the cleanup ticker; sessions die under them, and the
    context ends.  Here they interleave, and the datagrams are followed in both
    directions.  The streams are smux's: what is written to one that is closed is lost, and
    a read takes some of the bytes the client has sent, without their boundaries. *)

From stdpp Require Import gmap strings sets.
From S2P Require Import Prelude GoStrings Steps UdpPeers.
From Stdlib Require Import Init.Byte.

Local Open Scope string_scope.
Local Open Scope list_scope.
Local Open Scope Z_scope.

(** ** State *)

(** The read loop: in [ReadFromUDP]; with a datagram, before [mu.Lock]; after [mu.Unlock],
    before [p.stream.Write]; returned. *)
Inductive loop_pc :=
| LRead
| LGot (key : string) (pkt : list byte)
| LWrite (key : string) (s : sid) (pkt : list byte)
| LReturned.

(** The goroutine of a stream: in [p.stream.Read]; before [WriteToUDP]; ended. *)
Inductive reply_pc := PRead | PSend (b : list byte) | PEnded.

(** A stream: the peer it was opened for, its goroutine if that has started, what the
    server has written to it and the client has still to read or has read, the bytes the
    client has sent, those of them that were read; closed, or its session dead. *)
Record stream := mkStream {
  st_key : string;
  st_reader : option reply_pc;
  st_written : list (list byte);
  st_sent : list byte;
  st_read : nat;
  st_closed : bool
}.
#[export] Instance eta_stream : Eta stream := fun s =>
  mkStream s.(st_key) s.(st_reader) s.(st_written) s.(st_sent) s.(st_read) s.(st_closed).

(** [uf_arrived] and [uf_replies] are the datagrams from and to the peers so far. *)
Record World := mkWorld {
  uf_loop : loop_pc;
  uf_peers : Peers;
  uf_streams : gmap sid stream;
  uf_cancelled : bool;
  uf_arrived : list (string * list byte);
  uf_replies : list (string * sid * list byte)
}.
#[export] Instance eta_World : Eta World := fun w =>
  mkWorld w.(uf_loop) w.(uf_peers) w.(uf_streams) w.(uf_cancelled) w.(uf_arrived) w.(uf_replies).

Definition init : World := mkWorld LRead ∅ ∅ false [] [].

(** ** Steps *)

Definition change (s : sid) (f : stream -> stream) (w : World) : World :=
  w <| uf_streams ::= alter f s |>.

(** What the events of a critical section do to the streams.  A stream that [openStream]
    returned is new; the write comes after the lock. *)
Definition apply_event (key : string) (w : World) (e : udp_event) : World :=
  match e with
  | UTarget s => w <| uf_streams ::= <[s := mkStream key None [] [] 0 false]> |>
  | UReader s => change s (fun st => st <| st_reader := Some PRead |>) w
  | UWrite k s pkt => w <| uf_loop := LWrite k s pkt |>
  | UClose s => change s (fun st => st <| st_closed := true |>) w
  end.
Definition apply_events (key : string) (es : list udp_event) (w : World) : World :=
  foldl (apply_event key) w es.

(** [ReadFromUDP] has returned a datagram; an empty one is skipped. *)
Definition loop_receive (key : string) (pkt : list byte) (w : World) : World :=
  if zlen pkt =? 0 then w
  else w <| uf_loop := LGot key pkt |> <| uf_arrived ::= fun l => l ++ [(key, pkt)] |>.

(** The critical section of the read loop. *)
Definition loop_locked (now : Z) (key : string) (pkt : list byte) (open : result sid)
    (send : option error) (w : World) : World :=
  let '(peers, es) := on_packet now key pkt open send w.(uf_peers) in
  apply_events key es (w <| uf_peers := peers |> <| uf_loop := LRead |>).

(** [p.stream.Write(pkt)] *)
Definition loop_write (s : sid) (pkt : list byte) (w : World) : World :=
  change s (fun st => if st.(st_closed) then st else st <| st_written ::= fun l => l ++ [pkt] |>) w
    <| uf_loop := LRead |>.

(** The critical section of the ticker. *)
Definition ticker_locked (now : Z) (order : list string) (w : World) : World :=
  let '(peers, es) := on_tick now order w.(uf_peers) in
  apply_events EmptyString es (w <| uf_peers := peers |>).

(** [p.stream.Read(rb)] returns [n] bytes of what the client has sent, or an error. *)
Definition reply_read (s : sid) (n : nat) (w : World) : World :=
  change s (fun st => st <| st_reader := Some (PSend (take n (drop st.(st_read) st.(st_sent)))) |>
                         <| st_read := (st.(st_read) + n)%nat |>) w.
Definition reply_error (s : sid) (w : World) : World :=
  change s (fun st => st <| st_reader := Some PEnded |>) w.

(** [p.conn.WriteToUDP(rb[:rn], p.addr)] *)
Definition reply_send (s : sid) (key : string) (b : list byte) (w : World) : World :=
  change s (fun st => st <| st_reader := Some PRead |>) w
    <| uf_replies ::= fun l => l ++ [(key, s, b)] |>.

(** The client sends bytes on a stream. *)
Definition client_sends (s : sid) (b : list byte) (w : World) : World :=
  change s (fun st => st <| st_sent ::= fun l => l ++ b |>) w.

(** The stream is not one of those of the listener yet. *)
Definition fresh (open : result sid) (w : World) : Prop :=
  match open with Ok s => w.(uf_streams) !! s = None | Err _ => True end.

Inductive step : World -> World -> Prop :=
| step_receive w key pkt : w.(uf_loop) = LRead -> step w (loop_receive key pkt w)
| step_locked w now key pkt open send : w.(uf_loop) = LGot key pkt -> fresh open w ->
    step w (loop_locked now key pkt open send w)
| step_write w key s pkt : w.(uf_loop) = LWrite key s pkt -> step w (loop_write s pkt w)
| step_return w : w.(uf_loop) = LRead -> w.(uf_cancelled) = true ->
    step w (w <| uf_loop := LReturned |>)
| step_tick w now order : order ≡ₚ elements (dom w.(uf_peers)) -> step w (ticker_locked now order w)
| step_reply_read w s st n : (* a dead session still delivers what it had received *)
    w.(uf_streams) !! s = Some st -> st.(st_reader) = Some PRead ->
    (0 < n)%nat -> Z.of_nat n <= 65535 ->
    (st.(st_read) + n <= length st.(st_sent))%nat -> step w (reply_read s n w)
| step_reply_error w s st : w.(uf_streams) !! s = Some st -> st.(st_reader) = Some PRead ->
    step w (reply_error s w)
| step_reply_send w s st b : w.(uf_streams) !! s = Some st -> st.(st_reader) = Some (PSend b) ->
    step w (reply_send s st.(st_key) b w)
| step_client w s b : step w (client_sends s b w)
| step_die w s : step w (change s (fun st => st <| st_closed := true |>) w)
| step_cancel w : step w (w <| uf_cancelled := true |>).

Definition reachable (w : World) : Prop := rtc step init w.

(** ** The invariant *)

Definition from_peer (key : string) (l : list (string * list byte)) : list (list byte) :=
  omap (fun '(k, pkt) => if decide (k = key) then Some pkt else None) l.
Definition replies_of (s : sid) (l : list (string * sid * list byte)) : list (list byte) :=
  omap (fun '(_, t, b) => if decide (t = s) then Some b else None) l.
(** What the goroutine of a stream has read and not sent yet. *)
Definition held (r : option reply_pc) : list byte := match r with Some (PSend b) => b | _ => [] end.
(** The datagram the read loop has in hand for a peer. *)
Definition in_hand (key : string) (l : loop_pc) : list (list byte) :=
  match l with
  | LGot k pkt | LWrite k _ pkt => if decide (k = key) then [pkt] else []
  | _ => []
  end.

Arguments from_peer : simpl never.
Arguments replies_of : simpl never.

Record stream_inv (w : World) (s : sid) (st : stream) : Prop := mkStreamInv {
  (* what was read of the client's bytes was sent to the peer, but for what is in hand *)
  si_replies : concat (replies_of s w.(uf_replies)) ++ held st.(st_reader) =
               take st.(st_read) st.(st_sent);
  si_read : (st.(st_read) <= length st.(st_sent))%nat;
  (* what was written is some of what came from its peer, in order *)
  si_written : exists past,
    from_peer st.(st_key) w.(uf_arrived) = past ++ in_hand st.(st_key) w.(uf_loop) /\
    st.(st_written) `sublist_of` past
}.

Record inv (w : World) : Prop := mkInv {
  inv_streams : forall s st, w.(uf_streams) !! s = Some st -> stream_inv w s st;
  inv_table : forall key p, w.(uf_peers) !! key = Some p ->
    exists st, w.(uf_streams) !! p.(up_stream) = Some st /\ st.(st_key) = key;
  inv_live : forall s st, w.(uf_streams) !! s = Some st -> st.(st_closed) = true \/
    exists p, w.(uf_peers) !! st.(st_key) = Some p /\ p.(up_stream) = s;
  inv_replies : forall k s b, (k, s, b) ∈ w.(uf_replies) ->
    exists st, w.(uf_streams) !! s = Some st /\ st.(st_key) = k;
  inv_loop : forall k s pkt, w.(uf_loop) = LWrite k s pkt ->
    exists st, w.(uf_streams) !! s = Some st /\ st.(st_key) = k;
  (* every datagram but the one in hand is past *)
  inv_hand : forall key, exists past,
    from_peer key w.(uf_arrived) = past ++ in_hand key w.(uf_loop)
}.

(** ** Lemmas *)

Lemma alter_cases (m : gmap sid stream) (f : stream -> stream) (s t : sid) (st' : stream) :
  alter f s m !! t = Some st' ->
  exists st, m !! t = Some st /\ st' = if decide (t = s) then f st else st.
Proof.
  destruct (decide (t = s)) as [->|Hne].
  - rewrite lookup_alter_eq. destruct (m !! s) as [st|]; [|done]. intros [= <-]. by exists st.
  - rewrite lookup_alter_ne by done. intros Hm. by exists st'.
Qed.

Lemma alter_keeps_key (m : gmap sid stream) (f : stream -> stream) (s t : sid) (k : string) :
  (forall st, (f st).(st_key) = st.(st_key)) ->
  (exists st, m !! t = Some st /\ st.(st_key) = k) ->
  exists st, alter f s m !! t = Some st /\ st.(st_key) = k.
Proof.
  intros Hf (st & Hm & Hk). destruct (decide (t = s)) as [->|Hne].
  - exists (f st). rewrite lookup_alter_eq, Hm. by rewrite Hf.
  - exists st. by rewrite lookup_alter_ne.
Qed.

(** A step on one stream. *)
Lemma inv_change (w w' : World) (s : sid) (f : stream -> stream) :
  inv w -> w'.(uf_streams) = alter f s w.(uf_streams) -> w'.(uf_peers) = w.(uf_peers) ->
  (forall st, (f st).(st_key) = st.(st_key)) ->
  (forall st, st.(st_closed) = true -> (f st).(st_closed) = true) ->
  (forall t st, t <> s -> stream_inv w t st -> stream_inv w' t st) ->
  (forall st, w.(uf_streams) !! s = Some st -> stream_inv w s st -> stream_inv w' s (f st)) ->
  (forall k t b, (k, t, b) ∈ w'.(uf_replies) -> (k, t, b) ∈ w.(uf_replies) \/
     exists st, w.(uf_streams) !! t = Some st /\ st.(st_key) = k) ->
  (forall k t pkt, w'.(uf_loop) = LWrite k t pkt -> w.(uf_loop) = LWrite k t pkt) ->
  (forall key, exists past, from_peer key w'.(uf_arrived) = past ++ in_hand key w'.(uf_loop)) ->
  inv w'.
Proof.
  intros [I1 I2 I3 I4 I5 _] Es Ep Hk Hc Ho Hs Hr Hl Hh. split; rewrite ?Es, ?Ep; [| | | | |done].
  - intros t st' (st & Hm & ->)%alter_cases. case_decide as D; [subst; auto|auto].
  - intros key p Hp. apply alter_keeps_key; auto.
  - intros t st' (st & Hm & ->)%alter_cases.
    assert (Ht := I3 t st Hm). case_decide; [rewrite Hk; naive_solver|done].
  - intros k t b Hin. apply alter_keeps_key; [done|]. destruct (Hr k t b Hin); eauto.
  - intros k t pkt El. apply alter_keeps_key; [done|]. eauto.
Qed.

(** Steps of the goroutines, the client and the session: the read loop, and what has
    arrived, are as they were. *)
Lemma inv_change_stream (w : World) (s : sid) (f : stream -> stream) :
  inv w ->
  (forall st, (f st).(st_key) = st.(st_key)) ->
  (forall st, st.(st_closed) = true -> (f st).(st_closed) = true) ->
  (forall st, (f st).(st_written) = st.(st_written)) ->
  (forall st, w.(uf_streams) !! s = Some st -> stream_inv w s st ->
     concat (replies_of s w.(uf_replies)) ++ held (f st).(st_reader) =
       take (f st).(st_read) (f st).(st_sent) /\
     ((f st).(st_read) <= length (f st).(st_sent))%nat) ->
  inv (change s f w).
Proof.
  intros Hi Hk Hc Hw Hs. apply (inv_change w _ s f Hi); cbn; try done; [| |auto|apply Hi].
  - by intros t st _ [].
  - intros st Hst Hv. destruct (Hs st Hst Hv) as [G1 G2]. destruct Hv as [_ _ H3].
    split; cbn; by rewrite ?Hk, ?Hw.
Qed.

(** Closing a stream. *)
Lemma inv_close (w : World) (s : sid) :
  inv w -> inv (change s (fun st => st <| st_closed := true |>) w).
Proof. intros Hi. apply inv_change_stream; try done. by intros st _ []. Qed.

(** Steps of the read loop that touch no stream. *)
Lemma inv_set_loop (w : World) (l : loop_pc) :
  inv w -> (forall key, exists x, in_hand key w.(uf_loop) = x ++ in_hand key l) ->
  (forall k s pkt, l = LWrite k s pkt -> exists st, w.(uf_streams) !! s = Some st /\ st.(st_key) = k) ->
  inv (w <| uf_loop := l |>).
Proof.
  intros [I1 I2 I3 I4 I5 I6] Hl Hw. split; cbn; try done.
  - intros s st Hst. destruct (I1 s st Hst) as [H1 H2 (past & H3 & H4)]. split; cbn; [done..|].
    destruct (Hl (st_key st)) as [x Hx]. exists (past ++ x). rewrite H3, Hx, app_assoc.
    split; [done|]. by apply sublist_inserts_r.
  - intros key. destruct (I6 key) as [past Hp], (Hl key) as [x Hx]. exists (past ++ x).
    by rewrite Hp, Hx, app_assoc.
Qed.

(** The table changes, but not its streams. *)
Lemma inv_set_peers (w : World) (peers : Peers) :
  inv w -> (forall key, up_stream <$> peers !! key = up_stream <$> w.(uf_peers) !! key) ->
  inv (w <| uf_peers := peers |>).
Proof.
  intros [I1 I2 I3 I4 I5 I6] Hp. split; cbn; try done.
  - intros s st Hst. by destruct (I1 s st Hst).
  - intros key p Hkey. specialize (Hp key). rewrite Hkey in Hp. cbn in Hp.
    destruct (uf_peers w !! key) as [q|] eqn:E; [|done]. injection Hp as ->. by apply I2.
  - intros s st Hst. destruct (I3 s st Hst) as [?|(p & Hkey & <-)]; [by left|right].
    specialize (Hp (st_key st)). rewrite Hkey in Hp.
    destruct (peers !! st_key st) as [q|]; [|done]. exists q. by injection Hp.
Qed.

Lemma replies_of_none (s : sid) (l : list (string * sid * list byte)) :
  (forall k b, (k, s, b) ∉ l) -> replies_of s l = [].
Proof.
  unfold replies_of. induction l as [|[[k t] b] l IH]; intros Hno; cbn; [done|].
  rewrite decide_False; [apply IH; intros k' b' Hin; apply (Hno k' b'); by right|].
  intros ->. apply (Hno k b). by left.
Qed.

(** A new stream, that is closed or in the table. *)
Lemma inv_new_stream (w : World) (s : sid) (key : string) (r : option reply_pc) (closed : bool)
    (peers : Peers) :
  inv w -> w.(uf_streams) !! s = None -> held r = [] ->
  (closed = true /\ peers = w.(uf_peers) \/
   exists now, w.(uf_peers) !! key = None /\ peers = <[key := mkPeer now s]> w.(uf_peers)) ->
  inv (w <| uf_peers := peers |> <| uf_streams ::= <[s := mkStream key r [] [] 0 closed]> |>).
Proof.
  intros [I1 I2 I3 I4 I5 I6] Hs Hr Hp.
  assert (Hold : forall t st, w.(uf_streams) !! t = Some st -> t <> s) by (intros t st Ht ->; congruence).
  assert (Hkeep : forall t k, (exists st, w.(uf_streams) !! t = Some st /\ st.(st_key) = k) ->
    exists st, <[s := mkStream key r [] [] 0 closed]> w.(uf_streams) !! t = Some st /\ st.(st_key) = k).
  { intros t k (st & Ht & Hk). exists st. rewrite lookup_insert_ne; [done|].
    intros <-. by apply (Hold s st). }
  split; cbn; eauto.
  - intros t st. destruct (decide (t = s)) as [->|Hne].
    + rewrite lookup_insert_eq. intros [= <-]. split; cbn; [|lia|].
      * rewrite Hr, replies_of_none; [done|]. intros k b (st & Hst & _)%I4. congruence.
      * destruct (I6 key) as [past Hpast]. exists past. split; [done|]. apply sublist_nil_l.
    + rewrite lookup_insert_ne by done. intros Ht. by destruct (I1 t st Ht).
  - intros k p Hkp. destruct Hp as [[_ ->]|(now & Hnone & ->)]; [eauto|].
    destruct (decide (k = key)) as [->|Hne].
    + rewrite lookup_insert_eq in Hkp. injection Hkp as <-. eexists. by rewrite lookup_insert_eq.
    + rewrite lookup_insert_ne in Hkp by done. eauto.
  - intros t st. destruct (decide (t = s)) as [->|Hne].
    + rewrite lookup_insert_eq. intros [= <-]. cbn. destruct Hp as [[-> _]|(now & _ & ->)]; [by left|].
      right. exists (mkPeer now s). by rewrite lookup_insert_eq.
    + rewrite lookup_insert_ne by done. intros Ht.
      destruct (I3 t st Ht) as [?|(p & Hkp & Hps)]; [by left|right]. exists p. split; [|done].
      destruct Hp as [[_ ->]|(now & Hnone & ->)]; [done|].
      rewrite lookup_insert_ne; [done|]. intros Hk. congruence.
Qed.

(** A stale peer is forgotten and its stream closed. *)
Lemma inv_expire (w : World) (key : string) (p : udpPeer) :
  inv w -> w.(uf_peers) !! key = Some p ->
  inv (change p.(up_stream) (fun st => st <| st_closed := true |>)
         (w <| uf_peers := delete key w.(uf_peers) |>)).
Proof.
  intros Hi Hp. destruct (inv_close w (up_stream p) Hi) as [I1 I2 I3 I4 I5 I6]. split; cbn in *; try done.
  - intros s st Hst. by destruct (I1 s st Hst).
  - intros k q [Hne Hq]%lookup_delete_Some. by apply I2.
  - intros s st Hst. destruct (I3 s st Hst) as [?|(q & Hq & Hqs)]; [by left|].
    destruct (decide (st_key st = key)) as [Hk|Hne]; [left|right; exists q; by rewrite lookup_delete_ne].
    rewrite Hk, Hp in Hq. injection Hq as ->.
    apply alter_cases in Hst as (st0 & _ & ->). by rewrite decide_True.
Qed.

Lemma apply_events_app (key : string) (es es' : list udp_event) (w : World) :
  apply_events key (es ++ es') w = apply_events key es' (apply_events key es w).
Proof. apply foldl_app. Qed.

(** The events leave the table alone. *)
Lemma apply_events_peers (key : string) (es : list udp_event) (w : World) (peers : Peers) :
  (apply_events key es w).(uf_peers) = w.(uf_peers) /\
  apply_events key es (w <| uf_peers := peers |>) =
    (apply_events key es w) <| uf_peers := peers |>.
Proof.
  unfold apply_events. revert w. induction es as [|e es IH]; intros w; [done|]. cbn [foldl].
  destruct (IH (apply_event key w e)) as [H1 H2]. rewrite H1. split; [by destruct e|].
  rewrite <- H2. by destruct e.
Qed.

(** The ticker, one peer at a time. *)
Lemma ticker_inv (w : World) (now : Z) (order : list string) :
  inv w -> inv (ticker_locked now order w).
Proof.
  intros Hi. unfold ticker_locked, on_tick.
  assert (Hr : forall order r,
    inv (apply_events EmptyString r.2 (w <| uf_peers := r.1 |>)) ->
    let r' := foldl (clean_peer now) r order in
    inv (apply_events EmptyString r'.2 (w <| uf_peers := r'.1 |>))).
  { clear order Hi. intros order. induction order as [|key order IH]; intros r Hr; [done|].
    apply IH. unfold clean_peer. destruct (r.1 !! key) as [p|] eqn:E; [|done].
    destruct (120 <? _); [|done]. cbn [fst snd]. rewrite apply_events_app. cbn.
    set (v := apply_events EmptyString r.2 (w <| uf_peers := r.1 |>)) in *.
    replace (apply_events EmptyString r.2 (w <| uf_peers := delete key r.1 |>))
      with (v <| uf_peers := delete key v.(uf_peers) |>).
    - apply inv_expire; [done|]. unfold v. by rewrite (proj1 (apply_events_peers _ _ _ ∅)).
    - unfold v. rewrite (proj1 (apply_events_peers _ _ _ ∅)). cbn.
      by rewrite <- (proj2 (apply_events_peers _ _ _ _)). }
  specialize (Hr order (w.(uf_peers), [])). destruct (foldl _ _ order) as [peers es].
  apply Hr. cbn. by destruct w.
Qed.

Lemma change_new (s : sid) (f : stream -> stream) (st : stream) (w : World) :
  change s f (w <| uf_streams ::= <[s := st]> |>) = w <| uf_streams ::= <[s := f st]> |>.
Proof. unfold change. destruct w. unfold upd. cbn. by rewrite alter_insert_eq. Qed.

(** The critical section of the read loop. *)
Lemma locked_inv (w : World) (now : Z) (key : string) (pkt : list byte) (open : result sid)
    (send : option error) :
  inv w -> w.(uf_loop) = LGot key pkt -> fresh open w -> inv (loop_locked now key pkt open send w).
Proof.
  intros Hi Hl Hf. unfold loop_locked, on_packet.
  assert (Hread : inv (w <| uf_loop := LRead |>)).
  { apply inv_set_loop; [done| |done]. intros k. eexists. by rewrite app_nil_r. }
  assert (Hwrite : forall s, (exists st, w.(uf_streams) !! s = Some st /\ st.(st_key) = key) ->
    inv (w <| uf_loop := LWrite key s pkt |>)).
  { intros s Hs. apply inv_set_loop; [done| |].
    - intros k. exists []. by rewrite Hl.
    - by intros k t b [= <- <- _]. }
  destruct (zlen pkt =? 0); [by destruct w|].
  destruct (uf_peers w !! key) as [p|] eqn:Ep.
  - set (peers := <[key := p <| up_lastSeen := now |>]> w.(uf_peers)).
    change (inv (w <| uf_loop := LWrite key p.(up_stream) pkt |> <| uf_peers := peers |>)).
    apply inv_set_peers.
    + apply Hwrite. by apply Hi.
    + intros k. unfold peers. cbn. destruct (decide (k = key)) as [->|Hne];
        [by rewrite lookup_insert_eq, Ep|by rewrite lookup_insert_ne].
  - destruct open as [s|e]; [|by destruct w]. cbn in Hf. destruct send as [e|];
      unfold apply_events; cbn [foldl apply_event]; rewrite change_new; cbn [st_reader st_closed].
    + apply (inv_new_stream (w <| uf_loop := LRead |>) s key None true w.(uf_peers) Hread Hf);
        [done|by left].
    + assert (Hnew : inv (w <| uf_peers := <[key := mkPeer now s]> w.(uf_peers) |>
        <| uf_streams ::= <[s := mkStream key (Some PRead) [] [] 0 false]> |>))
        by (apply inv_new_stream; try done; right; by exists now).
      apply (inv_set_loop _ (LWrite key s pkt)) in Hnew; [exact Hnew| |].
      * intros k. exists []. cbn. by rewrite Hl.
      * intros k t b [= <- <- _]. cbn. eexists. by rewrite lookup_insert_eq.
Qed.

Lemma from_peer_snoc (key k : string) (l : list (string * list byte)) (pkt : list byte) :
  from_peer key (l ++ [(k, pkt)]) = from_peer key l ++ if decide (k = key) then [pkt] else [].
Proof. unfold from_peer. rewrite omap_app. cbn. by case_decide. Qed.

Lemma replies_of_snoc (s t : sid) (k : string) (l : list (string * sid * list byte)) (b : list byte) :
  replies_of s (l ++ [(k, t, b)]) = replies_of s l ++ if decide (t = s) then [b] else [].
Proof. unfold replies_of. rewrite omap_app. cbn. by case_decide. Qed.

Lemma receive_inv (w : World) (key : string) (pkt : list byte) :
  inv w -> w.(uf_loop) = LRead -> inv (loop_receive key pkt w).
Proof.
  intros [I1 I2 I3 I4 I5 I6] Hl. unfold loop_receive. destruct (zlen pkt =? 0); [done|].
  split; cbn; try done.
  - intros s st Hst. destruct (I1 s st Hst) as [H1 H2 (past & H3 & H4)]. split; cbn; [done..|].
    exists past. rewrite from_peer_snoc, H3, Hl. cbn. by rewrite app_nil_r.
  - intros k. destruct (I6 k) as [past Hp]. exists past. rewrite from_peer_snoc, Hp, Hl. cbn.
    by rewrite app_nil_r.
Qed.

Lemma write_inv (w : World) (key : string) (s : sid) (pkt : list byte) :
  inv w -> w.(uf_loop) = LWrite key s pkt -> inv (loop_write s pkt w).
Proof.
  intros Hi Hl. destruct (inv_loop w Hi key s pkt Hl) as (st0 & Hst0 & Hkey).
  apply (inv_change w _ s (fun st => if st.(st_closed) then st
    else st <| st_written ::= fun l => l ++ [pkt] |>) Hi); cbn; try done.
  - intros st. by destruct (st_closed st).
  - intros st Hc. by rewrite Hc.
  - intros t st Ht [H1 H2 (past & H3 & H4)]. split; [done..|]. cbn. rewrite H3.
    eexists. rewrite app_nil_r. split; [reflexivity|]. by apply sublist_inserts_r.
  - intros st Hst [H1 H2 (past & H3 & H4)]. assert (st = st0) as -> by congruence.
    rewrite Hl in H3. cbn in H3. rewrite decide_True in H3 by done.
    split; [by destruct (st_closed st0)..|]. cbn. exists (past ++ [pkt]). rewrite app_nil_r.
    destruct (st_closed st0); cbn; [split; [done|]; by apply sublist_inserts_r|].
    split; [done|]. by apply sublist_app.
  - auto.
  - intros k. destruct (inv_hand w Hi k) as [past Hp]. eexists. by rewrite Hp, app_nil_r.
Qed.

Lemma udp_step_inv (w w' : World) : step w w' -> inv w -> inv w'.
Proof.
  intros Hs Hi. destruct Hs as [w key pkt Hl|w now key pkt op sd Hl Hf|w key s pkt Hl|w Hl Hc
    |w now order Ho|w s st n Hst Hr Hn Hmax Hlen|w s st Hst Hr|w s st b Hst Hr|w s b|w s|w].
  - by apply receive_inv.
  - by apply locked_inv.
  - by eapply write_inv.
  - apply inv_set_loop; [done| |done]. intros k. exists []. by rewrite Hl.
  - by apply ticker_inv.
  - apply inv_change_stream; try done. intros st' Hst' [H1 H2 _].
    assert (st' = st) as -> by congruence. rewrite Hr, app_nil_r in H1. cbn.
    split; [|lia]. by rewrite H1, take_take_drop.
  - apply inv_change_stream; try done. intros st' Hst' [H1 H2 _].
    assert (st' = st) as -> by congruence. rewrite Hr in H1. by split.
  - apply (inv_change w _ s (fun st => st <| st_reader := Some PRead |>) Hi); cbn; try done.
    + intros t st' Ht [H1 H2 H3]. split; cbn; [|done..].
      by rewrite replies_of_snoc, decide_False, app_nil_r.
    + intros st' Hst' [H1 H2 H3]. assert (st' = st) as -> by congruence. split; cbn; [|done..].
      rewrite replies_of_snoc, decide_True, concat_app by done. rewrite Hr in H1. cbn in *.
      by rewrite !app_nil_r.
    + intros k t b' [Hin|[= -> -> ->]%list_elem_of_singleton]%elem_of_app; [by left|right].
      by exists st.
    + apply Hi.
  - apply inv_change_stream; try done. intros st Hst [H1 H2 _]. cbn. rewrite length_app.
    split; [|lia]. by rewrite take_app_le.
  - by apply inv_close.
  - destruct Hi as [I1 I2 I3 I4 I5 I6]. split; cbn; try done. intros s st Hst.
    by destruct (I1 s st Hst).
Qed.

Lemma udp_reachable_inv (w : World) : reachable w -> inv w.
Proof.
  intros Hr. apply (rtc_preserved step inv _ _) in Hr; [done|intros x y Hx Hs; by eapply udp_step_inv|].
  split; cbn; try (intros; by rewrite lookup_empty in *); try done.
  - intros k s b Hin. by apply not_elem_of_nil in Hin.
  - intros key. by exists [].
Qed.

(** ** Properties *)

(** C11: UDP peers do not meet.  In every interleaving of the read loop, the reply
    goroutines, the ticker and the sessions' ends: each stream belongs to one peer, and no
    two peers of the table share one; what the server wrote to a stream are datagrams of
    its peer, in the order in which they came, whole; the replies that were read from a
    stream went to its peer and to nobody else, and put together they are what the client
    sent on it, in order and without a gap; a stream that is not closed is in the
    table. *)
Theorem udp_peers_isolated (w : World) :
  reachable w ->
  (forall s st, w.(uf_streams) !! s = Some st ->
     st.(st_written) `sublist_of` from_peer st.(st_key) w.(uf_arrived) /\
     concat (replies_of s w.(uf_replies)) `prefix_of` st.(st_sent) /\
     (forall key b, (key, s, b) ∈ w.(uf_replies) -> key = st.(st_key)) /\
     (st.(st_closed) = true \/ up_stream <$> w.(uf_peers) !! st.(st_key) = Some s)) /\
  (forall key key' p p', w.(uf_peers) !! key = Some p -> w.(uf_peers) !! key' = Some p' ->
     p.(up_stream) = p'.(up_stream) -> key = key').
Proof.
  intros [I1 I2 I3 I4 _ _]%udp_reachable_inv. split.
  - intros s st Hst. destruct (I1 s st Hst) as [H1 H2 (past & H3 & H4)].
    split; [rewrite H3; by apply sublist_inserts_r|]. split; [|split].
    + etrans; [by eexists; symmetry; exact H1|]. eexists. symmetry. apply take_drop.
    + intros key b (st' & Hst' & Hk)%I4. congruence.
    + destruct (I3 s st Hst) as [?|(p & -> & <-)]; auto.
  - intros key key' p p' Hp Hp' Heq. destruct (I2 _ _ Hp) as (st & Hst & <-), (I2 _ _ Hp') as (st' & Hst' & <-).
    congruence.
Qed.

(** ** Witnesses *)

(** A peer sends a datagram; the client answers with two, which one read takes together. *)
Definition peer_addr : string := "1.2.3.4:5000".
Definition udp_story : World :=
  let w := loop_receive peer_addr [x01; x02] init in
  let w := loop_write 1 [x01; x02] (loop_locked 7 peer_addr [x01; x02] (Ok 1%positive) None w) in
  let w := client_sends 1 [x0c] (client_sends 1 [x0a; x0b] w) in
  reply_send 1 peer_addr [x0a; x0b; x0c] (reply_read 1 3 w).

Lemma udp_story_reachable : reachable udp_story.
Proof.
  eapply rtc_l; [by apply (step_receive _ peer_addr [x01; x02])|].
  eapply rtc_l; [by apply (step_locked _ 7 peer_addr [x01; x02] (Ok 1%positive) None)|].
  eapply rtc_l; [by apply (step_write _ peer_addr 1 [x01; x02])|].
  eapply rtc_l; [apply (step_client _ 1 [x0a; x0b])|].
  eapply rtc_l; [apply (step_client _ 1 [x0c])|].
  eapply rtc_l; [eapply (step_reply_read _ 1 _ 3); [vm_compute; reflexivity|done|lia|lia|cbn; lia]|].
  eapply rtc_l; [|done]. unfold udp_story.
  apply (step_reply_send _ 1 (mkStream peer_addr (Some (PSend [x0a; x0b; x0c])) [[x01; x02]]
    [x0a; x0b; x0c] 3 false)); vm_compute; reflexivity.
Qed.

(** The stream keeps the bytes, not the datagrams: what the client sent as two arrives as
    one. *)
Example udp_boundaries_lost :
  reachable udp_story /\ udp_story.(uf_replies) = [(peer_addr, 1%positive, [x0a; x0b; x0c])].
Proof. split; [apply udp_story_reachable|vm_compute; reflexivity]. Qed.

Lemma udp_peers_isolated_witness :
  from_peer peer_addr udp_story.(uf_arrived) = [[x01; x02]] /\
  concat (replies_of 1 udp_story.(uf_replies)) `prefix_of` [x0a; x0b; x0c].
Proof.
  split; [vm_compute; reflexivity|].
  destruct (udp_peers_isolated udp_story udp_story_reachable) as [H _].
  destruct (H 1%positive (mkStream peer_addr (Some PRead) [[x01; x02]] [x0a; x0b; x0c] 3 false)
    ltac:(vm_compute; reflexivity)) as (_ & Hp & _). exact Hp.
Defined.
