(* ===== verification/Dashboard.v ===== *)
(** * The web dashboard ([dashboard.go])

    Who gets in ([authMiddleware], [handleLoginPage]), the configuration editor
    ([handleConfigAPI]), and what the monitors compute: byte counts for humans, traffic
    rates and the CPU load.  HTTP, the file system and YAML are arguments; a formatted
    floating-point quotient is represented by its two integers. *)

From stdpp Require Import gmap strings.
From S2P Require Import Prelude GoStrings GoBytes ConfigTypes.
From Stdlib Require Import Ascii Init.Byte.

Local Open Scope string_scope.
Local Open Scope list_scope.
Local Open Scope Z_scope.

(** ** Access *)

(** The credentials and address [StartDashboard] settles on. *)
Definition dashboard_defaults (cfg : DashboardConfig) : DashboardConfig :=
  cfg <| Dash_Listen ::= str_or "0.0.0.0:8585" |>
      <| Dash_User ::= str_or "admin" |>
      <| Dash_Pass ::= str_or "admin" |>.

(** The handlers, and the ones that [StartDashboard] wraps in [authMiddleware]. *)
Inductive page := PageDashboard | PageLogin | PageStats | PageLogs | PageConfig | PageRestart.
Definition dashboard_routes : list (string * (page * bool)) :=
  [("/", (PageDashboard, true)); ("/login", (PageLogin, false)); ("/api/stats", (PageStats, true));
   ("/api/logs/stream", (PageLogs, true)); ("/api/config", (PageConfig, true));
   ("/api/restart", (PageRestart, true))].

Inductive reply :=
| Next
| HttpError (status : Z)
| RedirectTo (location : string).

(** [authMiddleware(next)]: [cookie] is the value of [session_token], if it was sent. *)
Definition authMiddleware (cookie : option string) (accept : string) : reply :=
  match cookie with
  | Some v => if decide (v = EmptyString)
              then if decide (accept = "application/json") then HttpError 401 else RedirectTo "/login"
              else Next
  | None => if decide (accept = "application/json") then HttpError 401 else RedirectTo "/login"
  end.

(** What a request for a route meets before its handler. *)
Definition guard (protected : bool) (cookie : option string) (accept : string) : reply :=
  if protected then authMiddleware cookie accept else Next.

(** [handleLoginPage]: the cookie it sets, or the form, with or without the complaint. *)
Inductive login_reply :=
| LoginCookie (value location : string)
| LoginForm (failed : bool).
Definition handleLoginPage (cfg : DashboardConfig) (method username password : string) : login_reply :=
  if decide (method = "POST") then
    if decide (username = cfg.(Dash_User) /\ password = cfg.(Dash_Pass))
    then LoginCookie "valid_session" "/" else LoginForm true
  else LoginForm false.

(** ** The configuration editor *)

Abbreviation files := (gmap string (list byte)) (only parsing).

Definition config_path (mode : string) (fs : files) : string :=
  let p := String.append "/etc/picotun/" (String.append mode ".yaml") in
  match fs !! p with
  | Some _ => p
  | None => if decide (mode = "server") then "/etc/picotun/server.yaml" else "/etc/picotun/config.yaml"
  end.

Inductive config_reply := ConfigText (b : list byte) | ConfigSaved | ConfigError (status : Z).

(** How an [os.WriteFile] goes: all of it; an error before the file is open; or one after it
    has been truncated, with so many bytes written. *)
Inductive write_result :=
| Written
| NotOpened (e : error)
| CutShort (n : nat) (e : error).
Definition WriteFile (write : write_result) (p : string) (b : list byte) (fs : files)
    : option error * files :=
  match write with
  | Written => (None, <[p := b]> fs)
  | NotOpened e => (Some e, fs)
  | CutShort n e => (Some e, <[p := take n b]> fs)
  end.

(** [handleConfigAPI]; [yaml_ok] says whether [yaml.Unmarshal] takes a text. *)
Definition handleConfigAPI (yaml_ok : list byte -> bool) (write : write_result)
    (mode method : string) (body : result (list byte)) (fs : files) : config_reply * files :=
  let p := config_path mode fs in
  if decide (method = "POST") then
    match body with
    | Err _ => (ConfigError 400, fs)
    | Ok b =>
        if zlen b =? 0 then (ConfigError 400, fs)
        else if negb (yaml_ok b) then (ConfigError 400, fs)
        else match WriteFile write p b fs with
             | (Some _, fs) => (ConfigError 500, fs)
             | (None, fs) => (ConfigSaved, fs)
             end
    end
  else
    match fs !! p with
    | Some data => (ConfigText data, fs)
    | None => (ConfigText [], fs)
    end.

(** ** [humanBytes] *)

(** Plain bytes, or [b / div] with a unit. *)
Inductive human := HumanPlain (b : Z) | HumanScaled (b div : Z) (unit : ascii).

Fixpoint human_loop (fuel : nat) (n div exp : Z) : option (Z * Z) :=
  if 1024 <=? n then
    match fuel with
    | O => None
    | S fuel => human_loop fuel (Z.quot n 1024) (wrap64 (div * 1024)) (exp + 1)
    end
  else Some (div, exp).

(** The loop of [humanBytes] runs at most five times on an [int64]. *)
Definition humanBytes (b : Z) : outcome (option human) :=
  if b <? 1024 then Done (Some (HumanPlain b))
  else
    match human_loop 6 (Z.quot b 1024) 1024 0 with
    | None => Done None
    | Some (div, exp) =>
        match String.get (Z.to_nat exp) "KMGTPE" with
        | Some c => Done (Some (HumanScaled b div c))
        | None => Panic IndexOutOfRange
        end
    end.

(** ** Traffic rates *)

Record traffic := mkTraffic { lastBytesSent : Z; lastBytesRecv : Z; speedUp : Z; speedDown : Z }.

(** One tick of [startTrafficMonitor] on the counters of a snapshot. *)
Definition traffic_tick (t : traffic) (snap : Z * Z) : traffic :=
  let '(sent, recv) := snap in
  let diffSent := wrap64 (sent - t.(lastBytesSent)) in
  let diffRecv := wrap64 (recv - t.(lastBytesRecv)) in
  mkTraffic sent recv
    (if 0 <=? diffRecv then diffRecv else t.(speedUp))
    (if 0 <=? diffSent then diffSent else t.(speedDown)).

(** The states after each of a run of ticks. *)
Fixpoint traffic_run (t : traffic) (snaps : list (Z * Z)) : list traffic :=
  match snaps with
  | [] => []
  | s :: snaps => let t := traffic_tick t s in t :: traffic_run t snaps
  end.

(** ** CPU load *)

(** [strings.Fields(s)] *)
Definition flush (cur : string) (l : list string) : list string :=
  if decide (cur = EmptyString) then l else cur :: l.
Fixpoint fields_fuel (fuel : nat) (cur s : string) : list string :=
  match fuel with
  | O => flush cur []
  | S fuel =>
      match strip_one space_encodings s with
      | Some rest => flush cur (fields_fuel fuel EmptyString rest)
      | None =>
          match s with
          | EmptyString => flush cur []
          | String c rest => fields_fuel fuel (String.append cur (String c EmptyString)) rest
          end
      end
  end.
Definition Fields (s : string) : list string := fields_fuel (S (String.length s)) EmptyString s.

(** The value of [strconv.ParseInt(s, 10, 64)], which is 0 on a syntax error and the
    nearest bound on a range error. *)
Fixpoint digits (s : string) (acc : Z) : option Z :=
  match s with
  | EmptyString => Some acc
  | String c s =>
      let d := Z.of_nat (nat_of_ascii c) - 48 in
      if (0 <=? d) && (d <=? 9) then digits s (acc * 10 + d) else None
  end.
Definition ParseInt_value (s : string) : Z :=
  let '(neg, ds) := match s with
                    | String "-" r => (true, r)
                    | String "+" r => (false, r)
                    | r => (false, r)
                    end in
  if decide (ds = EmptyString) then 0
  else match digits ds 0 with
       | None => 0
       | Some n => let v := if (neg : bool) then - n else n in
                   Z.max (- 2 ^ 63) (Z.min (2 ^ 63 - 1) v)
       end.

(** [lastTotTime] and [lastCPUTime]. *)
Record cpu_state := mkCPU { lastTotTime : Z; lastCPUTime : Z }.

(** The sum and the fourth of the values of a line. *)
Definition cpu_total (vals : list Z) : Z := foldl (fun t v => wrap64 (t + v)) 0 vals.
Definition cpu_idle (vals : list Z) : Z := nth 3 vals 0.

(** The loop of [calculateCPU] over the lines: the usage as numerator and denominator of
    its quotient, [None] for the final 0. *)
Fixpoint cpu_lines (lines : list string) (st : cpu_state) : option (Z * Z) * cpu_state :=
  match lines with
  | [] => (None, st)
  | line :: lines =>
      match Fields line with
      | f :: vals =>
          if decide (4 < length (f :: vals) /\ f = "cpu")%nat then
            let vs := map ParseInt_value vals in
            let total := cpu_total vs in
            let idle := cpu_idle vs in
            let diffTotal := wrap64 (total - st.(lastTotTime)) in
            let diffIdle := wrap64 (idle - st.(lastCPUTime)) in
            let st := mkCPU total idle in
            if 0 <? diffTotal then (Some (wrap64 (diffTotal - diffIdle), diffTotal), st)
            else cpu_lines lines st
          else cpu_lines lines st
      | [] => cpu_lines lines st
      end
  end.

(** [calculateCPU()]; [data] is what [os.ReadFile] returns. *)
Definition calculateCPU (data : result string) (st : cpu_state) : option (Z * Z) * cpu_state :=
  match data with
  | Err _ => (None, st)
  | Ok text => cpu_lines (Split text (String "010" EmptyString)) st
  end.

Example dashboard_runs :
  (humanBytes 1536, humanBytes (2 ^ 63 - 1), Fields "cpu  10 20	30 ", ParseInt_value "-42",
   calculateCPU (Ok (String.append "cpu 10 0 10 80 0" (String "010" "cpu0 1 1 1 1"))) (mkCPU 0 0))
  = (Done (Some (HumanScaled 1536 1024 "K")), Done (Some (HumanScaled (2 ^ 63 - 1) (2 ^ 60) "E")),
     ["cpu"; "10"; "20"; "30"], -42, (Some (20, 100), mkCPU 100 80)).
Proof. vm_compute. reflexivity. Qed.

(** ** Lemmas *)

Lemma authMiddleware_next (cookie : option string) (accept : string) :
  authMiddleware cookie accept = Next <-> exists v, cookie = Some v /\ v <> EmptyString.
Proof.
  unfold authMiddleware. destruct cookie as [v|].
  - destruct (decide (v = EmptyString)) as [->|Hv].
    + destruct (decide (accept = _)); (split; [done|]); by intros (v & [= <-] & Hv).
    + split; [by exists v|done].
  - destruct (decide (accept = _)); (split; [done|]); by intros (v & ? & _).
Qed.

(** *** [humanBytes] *)

(** The loop divides until below 1024, keeping [n = b / div]. *)
Lemma human_loop_spec (fuel : nat) (b n e : Z) :
  0 <= e -> 0 < n -> b < 2 ^ 63 -> n = b / 1024 ^ (e + 1) ->
  b < 1024 ^ (e + 1) * 1024 ^ (Z.of_nat fuel + 1) -> e + Z.of_nat fuel <= 6 ->
  exists e', e <= e' <= e + Z.of_nat fuel /\
    human_loop fuel n (1024 ^ (e + 1)) e = Some (1024 ^ (e' + 1), e') /\
    1024 ^ (e' + 1) <= b < 1024 * 1024 ^ (e' + 1).
Proof.
  revert n e. induction fuel as [|fuel IH]; intros n e He Hn Hb Hdiv Hmax Hf.
  all: assert (Hpow : 0 < 1024 ^ (e + 1)) by (apply Z.pow_pos_nonneg; lia).
  all: pose proof (Z.mul_div_le b (1024 ^ (e + 1)) Hpow) as Hlow.
  all: pose proof (Z.mul_succ_div_gt b (1024 ^ (e + 1)) Hpow) as Hhigh.
  all: rewrite <- Hdiv in Hlow, Hhigh; cbn [human_loop].
  all: destruct (Z.leb_spec 1024 n) as [Hge|Hlt];
    [|exists e; split; [lia|]; split; [done|]; nia].
  - exfalso. change (1024 ^ (Z.of_nat 0 + 1)) with 1024 in Hmax.
    pose proof (Z.mul_le_mono_nonneg_l 1024 n (1024 ^ (e + 1))). lia.
  - assert (Hstep : 1024 ^ (e + 1 + 1) = 1024 ^ (e + 1) * 1024) by (rewrite (Z.pow_add_r _ (e + 1) 1) by lia; done).
    assert (Hfit : 1024 ^ (e + 1) * 1024 < 2 ^ 63)
      by (pose proof (Z.mul_le_mono_nonneg_l 1024 n (1024 ^ (e + 1))); lia).
    rewrite wrap64_id by (unfold int64_range; lia). rewrite <- Hstep.
    rewrite Z.quot_div_nonneg by lia.
    destruct (IH (n / 1024) (e + 1)) as (e' & Hr & Hrun & Hb').
    + lia.
    + apply Z.div_str_pos. lia.
    + done.
    + rewrite Hstep, <- Z.div_div by lia. by rewrite Hdiv.
    + rewrite Hstep, <- Z.mul_assoc, <- (Z.pow_add_r 1024 1) by lia.
      rewrite Nat2Z.inj_succ in Hmax. by replace (1 + (Z.of_nat fuel + 1)) with (Z.succ (Z.of_nat fuel) + 1) by lia.
    + lia.
    + exists e'. split; [lia|]. done.
Qed.

(** *** Sums *)

Definition sum (l : list Z) : Z := foldr Z.add 0 l.

Lemma sum_cons (x : Z) (l : list Z) : sum (x :: l) = x + sum l.
Proof. done. Qed.

Lemma sum_nonneg (l : list Z) : Forall (fun v => 0 <= v) l -> 0 <= sum l.
Proof. induction 1; [done|]. rewrite sum_cons. lia. Qed.

Lemma cpu_total_acc (vals : list Z) (acc : Z) :
  Forall (fun v => 0 <= v) vals -> 0 <= acc -> acc + sum vals < 2 ^ 63 ->
  foldl (fun t v => wrap64 (t + v)) acc vals = acc + sum vals.
Proof.
  intros Hv. revert acc. induction Hv as [|v vals Hv0 Hv IH]; intros acc Hacc Hlt.
  - cbn. lia.
  - rewrite sum_cons in *. pose proof (sum_nonneg vals Hv). cbn [foldl].
    rewrite wrap64_id by (unfold int64_range; lia). rewrite IH by lia. lia.
Qed.

Lemma cpu_total_sum (vals : list Z) :
  Forall (fun v => 0 <= v) vals -> sum vals < 2 ^ 63 -> cpu_total vals = sum vals.
Proof. intros Hv Hs. unfold cpu_total. rewrite cpu_total_acc by (done || lia). lia. Qed.

(** The values of a later reading of counters that only grow. *)
Lemma grown_sum (old new : list Z) :
  Forall2 Z.le old new -> Forall (fun v => 0 <= v) old ->
  Forall (fun v => 0 <= v) new /\ sum old <= sum new /\
  0 <= nth 3 new 0 - nth 3 old 0 <= sum new - sum old.
Proof.
  intros Hle. assert (Hsum : Forall2 Z.le old new -> sum old <= sum new).
  { clear. induction 1; [done|]. rewrite !sum_cons. lia. }
  intros Hold. split; [|split; [by apply Hsum|]].
  - clear Hsum. induction Hle; [done|]. apply Forall_cons in Hold as [??]. constructor; [lia|auto].
  - clear Hold. destruct Hle as [|a a' l l' Ha Hle]; [cbn; lia|].
    destruct Hle as [|b b' l l' Hb Hle]; [rewrite !sum_cons; cbn; lia|].
    destruct Hle as [|c c' l l' Hc Hle]; [rewrite !sum_cons; cbn; lia|].
    destruct Hle as [|d d' l l' Hd Hle]; [rewrite !sum_cons; cbn; lia|].
    assert (sum l <= sum l') by (clear -Hle; induction Hle; [done|]; rewrite !sum_cons; lia).
    rewrite !sum_cons. cbn [nth]. lia.
Qed.

Lemma nth_nonneg (k : nat) (l : list Z) : Forall (fun v => 0 <= v) l -> 0 <= nth k l 0.
Proof. intros Hl. revert k. induction Hl; intros [|k]; cbn; auto with lia. Qed.

Lemma nth_le_sum (k : nat) (l : list Z) : Forall (fun v => 0 <= v) l -> nth k l 0 <= sum l.
Proof.
  intros Hl. revert k. induction Hl as [|x l Hx Hl IH]; intros [|k]; try (cbn; lia);
    rewrite sum_cons; cbn [nth]; pose proof (sum_nonneg l Hl); [lia|].
  specialize (IH k). lia.
Qed.

(** *** CPU *)

Definition cpu_line (line : string) : bool :=
  match Fields line with f :: _ => bool_decide (f = "cpu") | [] => false end.

Lemma cpu_lines_other (lines : list string) (st : cpu_state) :
  Forall (fun l => cpu_line l = false) lines -> cpu_lines lines st = (None, st).
Proof.
  induction 1 as [|l lines Hl _ IH]; [done|]. cbn [cpu_lines]. unfold cpu_line in Hl.
  destruct (Fields l) as [|f vals]; [done|]. apply bool_decide_eq_false in Hl.
  rewrite decide_False; [done|]. by intros [_ ?].
Qed.

(** *** Traffic *)

(** Counters that never go back, from the given values on. *)
Fixpoint ascending (sent recv : Z) (snaps : list (Z * Z)) : Prop :=
  match snaps with
  | [] => True
  | (s, r) :: snaps => sent <= s < 2 ^ 63 /\ recv <= r < 2 ^ 63 /\ ascending s r snaps
  end.

(** ** Properties *)

(** Who gets in.  A login succeeds with exactly the configured credentials, which are
    [admin]/[admin] by default, and its cookie opens every page; without a cookie, only
    the login page is served.  But the cookie is not checked: any non-empty
    [session_token] opens every page, whatever the credentials. *)
Theorem dashboard_auth_spec (cfg0 : DashboardConfig) (u p accept : string) :
  let cfg := dashboard_defaults cfg0 in
  cfg.(Dash_User) <> EmptyString /\ cfg.(Dash_Pass) <> EmptyString /\
  ((exists v l, handleLoginPage cfg "POST" u p = LoginCookie v l) <->
     u = cfg.(Dash_User) /\ p = cfg.(Dash_Pass)) /\
  (forall v l, handleLoginPage cfg "POST" u p = LoginCookie v l ->
     forall path pg protected, (path, (pg, protected)) ∈ dashboard_routes ->
       guard protected (Some v) accept = Next) /\
  (forall path pg protected, (path, (pg, protected)) ∈ dashboard_routes ->
     guard protected None accept = Next <-> path = "/login") /\
  (forall v path pg protected, v <> EmptyString -> (path, (pg, protected)) ∈ dashboard_routes ->
     guard protected (Some v) accept = Next).
Proof.
  intros cfg.
  assert (Hany : forall v path pg protected, v <> EmptyString ->
    (path, (pg, protected)) ∈ dashboard_routes -> guard protected (Some v) accept = Next).
  { intros v path pg [] Hv _; [|done]. apply authMiddleware_next. by exists v. }
  split; [by apply str_or_ne|]. split; [by apply str_or_ne|].
  split; [|split; [|split; [|exact Hany]]].
  - unfold handleLoginPage. rewrite decide_True by done. case_decide as Hc.
    + split; [done|]. intros _. by eexists _, _.
    + split; [by intros (v & l & ?)|done].
  - unfold handleLoginPage. rewrite decide_True by done. case_decide; [|done].
    intros v l [= <- <-] path pg protected. by apply Hany.
  - intros path pg protected Hin. unfold dashboard_routes in Hin. unfold guard, authMiddleware.
    repeat (apply elem_of_cons in Hin as [[= -> -> ->]|Hin];
      [try (split; [by case_decide|done]); done|]).
    by apply elem_of_nil in Hin.
Qed.

(** The editor gives back what it saved.  A [POST] of a non-empty text that YAML accepts
    replaces exactly the file a [GET] shows, byte for byte, and a [GET] after it returns
    that text; any other [POST], and any [GET], changes no file, except that a write that
    fails half-way leaves a piece of the text in that file.  Nothing but the YAML syntax
    is checked before the file is replaced. *)
Theorem config_api_roundtrip (yaml_ok : list byte -> bool) (mode : string) (body : list byte)
    (fs : files) (write : write_result) (b2 : result (list byte)) :
  let '(r, fs') := handleConfigAPI yaml_ok write mode "POST" (Ok body) fs in
  (r = ConfigSaved <-> body <> [] /\ yaml_ok body = true /\ write = Written) /\
  (r = ConfigSaved ->
     handleConfigAPI yaml_ok write mode "GET" b2 fs' = (ConfigText body, fs') /\
     forall p, p <> config_path mode fs -> fs' !! p = fs !! p) /\
  (r <> ConfigSaved -> fs' = fs \/
     exists n e, write = CutShort n e /\ fs' = <[config_path mode fs := take n body]> fs) /\
  (handleConfigAPI yaml_ok write mode "GET" b2 fs).2 = fs.
Proof.
  assert (Hget : forall f, (handleConfigAPI yaml_ok write mode "GET" b2 f).2 = f).
  { intros f. unfold handleConfigAPI. rewrite decide_False by done. by destruct (f !! _). }
  assert (Hsame : forall b, config_path mode (<[config_path mode fs := b]> fs) = config_path mode fs).
  { intros b. unfold config_path at 1 3.
    set (q := String.append "/etc/picotun/" (String.append mode ".yaml")).
    destruct (decide (config_path mode fs = q)) as [E|E].
    - rewrite E, lookup_insert_eq. rewrite <- E at 1. unfold config_path. fold q.
      by destruct (fs !! q).
    - rewrite lookup_insert_ne by done. done. }
  unfold handleConfigAPI at 1. rewrite decide_True by done.
  destruct (Z.eqb_spec (zlen body) 0) as [Hz|Hz].
  { split; [split; [done|intros [Hne _]; destruct Hne; apply zlen_0_nil; lia]|].
    split; [done|]. split; [by left|apply Hget]. }
  destruct (yaml_ok body) eqn:Ey; cbn [negb];
    [|split; [split; [done|by intros (_ & ? & _)]|]; split; [done|]; split; [by left|apply Hget]].
  destruct write as [|e|n e]; cbn [WriteFile];
    [|split; [split; [done|by intros (_ & _ & ?)]|]; split; [done|]; split; [|apply Hget]..];
    [|by left|right; by exists n, e].
  split; [split; [intros _; split; [by intros ->|done]|done]|]. split; [|split; [done|apply Hget]].
  intros _. split.
  - unfold handleConfigAPI. rewrite decide_False by done. by rewrite Hsame, lookup_insert_eq.
  - intros p Hp. by rewrite lookup_insert_ne.
Qed.

(** [humanBytes] never panics on an [int64], and its scale is right: below 1024 the
    plain count, otherwise a divisor [1024^(e+1)], computed without overflow, with a
    quotient in [1, 1024) and the [e]th of the six units. *)
Theorem humanBytes_spec (b : Z) :
  int64_range b ->
  exists h, humanBytes b = Done (Some h) /\
    match h with
    | HumanPlain x => x = b /\ b < 1024
    | HumanScaled x div c => x = b /\ exists e, 0 <= e <= 5 /\ div = 1024 ^ (e + 1) /\
        div <= b < 1024 * div /\ String.get (Z.to_nat e) "KMGTPE" = Some c
    end.
Proof.
  intros Hb. unfold int64_range in Hb. unfold humanBytes. destruct (Z.ltb_spec b 1024) as [Hs|Hs].
  { by exists (HumanPlain b). }
  destruct (human_loop_spec 6 b (b / 1024) 0) as (e & He & Hrun & Hdiv); try done; try lia.
  { apply Z.div_str_pos. lia. }
  change (1024 ^ (0 + 1)) with 1024 in Hrun. rewrite Z.quot_div_nonneg, Hrun by lia.
  assert (He5 : e <= 5).
  { destruct (Z.eq_dec e 6) as [->|]; [|lia]. change (1024 ^ (6 + 1)) with (2 ^ 70) in Hdiv. lia. }
  assert (Hget : exists c, String.get (Z.to_nat e) "KMGTPE" = Some c).
  { assert (e = 0 \/ e = 1 \/ e = 2 \/ e = 3 \/ e = 4 \/ e = 5) as Hc by lia.
    destruct Hc as [->|[->|[->|[->|[->| ->]]]]]; by eexists. }
  destruct Hget as [c Hc]. rewrite Hc. exists (HumanScaled b (1024 ^ (e + 1)) c).
  split; [done|]. split; [done|]. exists e. split; [lia|]. done.
Qed.

(** The default of [List.last] only matters for the empty list. *)
Lemma last_cons_default (l : list Z) (x d : Z) : List.last (x :: l) d = List.last l x.
Proof.
  revert x d. induction l as [|y l IH]; intros x d; [done|].
  change (List.last (y :: l) d = List.last (y :: l) x). by rewrite !IH.
Qed.

(** The published rates add up.  While the byte counters do not go back, the upload and
    download speeds of a run of ticks sum to the bytes received and sent since before it;
    and no tick publishes a negative speed. *)
Lemma traffic_conserved (t : traffic) (snaps : list (Z * Z)) :
  0 <= t.(lastBytesSent) -> 0 <= t.(lastBytesRecv) ->
  ascending t.(lastBytesSent) t.(lastBytesRecv) snaps ->
  let ts := traffic_run t snaps in
  sum (map speedDown ts) = (List.last (map fst snaps) t.(lastBytesSent)) - t.(lastBytesSent) /\
  sum (map speedUp ts) = (List.last (map snd snaps) t.(lastBytesRecv)) - t.(lastBytesRecv) /\
  Forall (fun x => 0 <= x.(speedUp) /\ 0 <= x.(speedDown)) ts.
Proof.
  revert t. induction snaps as [|[s r] snaps IH]; intros t Hs Hr Hasc; [cbn; split; [lia|split; [lia|done]]|].
  destruct Hasc as (Hs' & Hr' & Hasc). cbn [traffic_run]. cbv zeta.
  set (t' := traffic_tick t (s, r)).
  assert (Et : t' = mkTraffic s r (r - t.(lastBytesRecv)) (s - t.(lastBytesSent))).
  { subst t'. unfold traffic_tick. rewrite !wrap64_id by (unfold int64_range; lia).
    by rewrite !(proj2 (Z.leb_le 0 _)) by lia. }
  destruct (IH t') as (H1 & H2 & H3); [rewrite Et; cbn; lia..|by rewrite Et|].
  cbn [map]. rewrite !sum_cons, H1, H2, Et. cbn [lastBytesSent lastBytesRecv speedUp speedDown].
  cbn [fst snd]. rewrite !last_cons_default. split; [lia|]. split; [lia|].
  constructor; [cbn; lia|by rewrite <- Et].
Qed.

(** The CPU load is a percentage.  On the kernel's counters, which only grow, the load
    that [calculateCPU] computes from its previous reading is a quotient between 0 and 1,
    and the reading is remembered for the next call. *)
Theorem cpu_load_bounded (text line : string) (rest vals : list string) (old : list Z) :
  Split text (String "010" EmptyString) = line :: rest ->
  Fields line = "cpu" :: vals -> (4 <= length vals)%nat ->
  Forall (fun l => cpu_line l = false) rest ->
  Forall (fun v => 0 <= v) old -> Forall2 Z.le old (map ParseInt_value vals) ->
  sum (map ParseInt_value vals) < 2 ^ 63 ->
  let '(load, st) := calculateCPU (Ok text) (mkCPU (sum old) (cpu_idle old)) in
  st = mkCPU (sum (map ParseInt_value vals)) (cpu_idle (map ParseInt_value vals)) /\
  match load with
  | Some (num, den) => 0 <= num <= den /\ 0 < den
  | None => sum (map ParseInt_value vals) = sum old
  end.
Proof.
  intros Ht Hf Hl Hrest Hold Hle Hmax. set (new := map ParseInt_value vals) in *.
  destruct (grown_sum old new Hle Hold) as (Hnew & Hsum & Hidle).
  pose proof (sum_nonneg old Hold) as Hs0. unfold cpu_idle.
  assert (Hi0 : 0 <= nth 3 old 0 /\ nth 3 new 0 <= sum new)
    by (split; [apply nth_nonneg; done|apply nth_le_sum; done]).
  unfold calculateCPU. rewrite Ht. cbn [cpu_lines]. rewrite Hf, decide_True by (cbn; split; [lia|done]).
  fold new. rewrite cpu_total_sum by done. unfold cpu_idle. cbn [lastTotTime lastCPUTime].
  rewrite !wrap64_id by (rewrite ?wrap64_id; unfold int64_range; lia).
  destruct (Z.ltb_spec 0 (sum new - sum old)).
  - split; [done|]. lia.
  - rewrite cpu_lines_other by done. split; [done|]. lia.
Qed.

(** ** Witnesses *)

Lemma humanBytes_spec_witness : humanBytes 1536 = Done (Some (HumanScaled 1536 1024 "K")).
Proof.
  destruct (humanBytes_spec 1536) as (h & Hh & _); [by vm_compute|].
  rewrite Hh. symmetry. rewrite <- Hh. reflexivity.
Defined.

Definition proc_stat : string :=
  String.append "cpu  20 0 15 95 5" (String "010" "cpu0 20 0 15 95 5").

Lemma cpu_load_bounded_witness :
  (calculateCPU (Ok proc_stat) (mkCPU (sum [10; 0; 10; 80; 0]) 80)).1 = Some (20, 35) /\ 0 <= 20 <= 35.
Proof.
  pose proof (cpu_load_bounded proc_stat "cpu  20 0 15 95 5" ["cpu0 20 0 15 95 5"]
    ["20"; "0"; "15"; "95"; "5"] [10; 0; 10; 80; 0]) as H.
  destruct (calculateCPU (Ok proc_stat) (mkCPU (sum [10; 0; 10; 80; 0]) (cpu_idle [10; 0; 10; 80; 0])))
    as [load st] eqn:E.
  assert (El : load = Some (20, 35)) by (vm_compute in E; by injection E as <- _).
  subst load. destruct H as (_ & Hb & _); try (vm_compute; reflexivity).
  - cbn. lia.
  - repeat constructor.
  - repeat constructor; lia.
  - repeat constructor; vm_compute; discriminate.
  - split; [exact (f_equal fst E)|exact Hb].
Defined.
