(* ===== verification/Uptime.v ===== *)
(** * The host's uptime ([getSystemUptime] of [dashboard.go])

    [/proc/uptime] gives seconds with two decimals; the program parses them as a [float64]
    and truncates.  A double is a quotient of integers here: the nearest one to a decimal
    is computed exactly, with its 53 bits and ties to even.  Of [strconv.ParseFloat] the
    plain decimals are modelled; for the other texts it takes (signs, exponents,
    hexadecimal, infinities) it is a parameter. *)

From S2P Require Import Prelude GoStrings GoBytes Dashboard.
From Stdlib Require Import Ascii.

Local Open Scope string_scope.
Local Open Scope list_scope.
Local Open Scope Z_scope.

(** ** Doubles *)

(** The integer nearest to [p / q], to even when there are two. *)
Definition round_half_even (p q : Z) : Z :=
  let m := p / q in
  let r := p mod q in
  if 2 * r <? q then m
  else if q <? 2 * r then m + 1
  else if Z.even m then m else m + 1.

(** [floor(log2(p / q))], for positive [p] and [q]. *)
Definition log2_quotient (p q : Z) : Z :=
  if q <=? p then Z.log2 (p / q) else - Z.log2_up ((q + p - 1) / p).

(** The double nearest to [p / q >= 0]: [m * 2^e] with [m] of 53 bits.  (Below [2^-1022] a
    double has fewer bits; all of that truncates to 0.) *)
Definition nearest_double (p q : Z) : Z * Z :=
  if p =? 0 then (0, 0)
  else
    let e := log2_quotient p q - 52 in
    if 0 <=? e then (round_half_even p (q * 2 ^ e), e)
    else (round_half_even (p * 2 ^ (- e)) q, e).

(** [int64(val)] of a non-negative double; from [2^63] on, the language leaves the result
    to the implementation. *)
Definition double_to_int64 (d : Z * Z) : option Z :=
  let '(m, e) := d in
  let n := if 0 <=? e then m * 2 ^ e else m / 2 ^ (- e) in
  if n <? 2 ^ 63 then Some n else None.

(** ** Decimals *)

(** [digits] or [digits.digits], as numerator and denominator. *)
Definition plain_decimal (s : string) : option (Z * Z) :=
  match Split s "." with
  | [whole] =>
      if decide (whole = EmptyString) then None
      else match digits whole 0 with Some n => Some (n, 1) | None => None end
  | [whole; frac] =>
      if decide (whole = EmptyString /\ frac = EmptyString) then None
      else
        match digits whole 0 with
        | Some n =>
            match digits frac n with
            | Some p => Some (p, 10 ^ slen frac)
            | None => None
            end
        | None => None
        end
  | _ => None
  end.

Section Uptime.
(** [int64] of the value [ParseFloat] returns for a text that is not a plain decimal. *)
Context (ParseFloat_other : string -> option Z).

Definition parsed_int64 (s : string) : option Z :=
  match plain_decimal s with
  | Some (p, q) => double_to_int64 (nearest_double p q)
  | None => ParseFloat_other s
  end.

(** [getSystemUptime()] on the text of [/proc/uptime]. *)
Definition getSystemUptime (data : result string) : option Z :=
  match data with
  | Err _ => Some 0
  | Ok text => match Fields text with part :: _ => parsed_int64 part | [] => Some 0 end
  end.
End Uptime.

(** ** Lemmas *)

Lemma round_half_even_bounds (p q : Z) :
  0 < q -> p / q <= round_half_even p q /\ 2 * q * round_half_even p q <= 2 * p + q.
Proof.
  intros Hq. unfold round_half_even. pose proof (Z.div_mod p q ltac:(lia)) as Hd.
  pose proof (Z.mod_pos_bound p q Hq). repeat case_bool; try destruct (Z.even _); split; nia.
Qed.

(** A quotient whose distance to the next integer is more than half a unit in the last
    place truncates to its integer part. *)
Lemma truncated_double (n f q k : Z) :
  0 < q -> 0 <= n -> 0 <= f < q -> 0 <= k -> q < 2 * (q - f) * 2 ^ k ->
  round_half_even ((q * n + f) * 2 ^ k) q / 2 ^ k = n.
Proof.
  intros Hq Hn Hf Hk Hgap. pose proof (Z.pow_pos_nonneg 2 k ltac:(lia) Hk) as Hpow.
  destruct (round_half_even_bounds ((q * n + f) * 2 ^ k) q Hq) as [Hlo Hhi].
  assert (n * 2 ^ k <= (q * n + f) * 2 ^ k / q) by (apply Z.div_le_lower_bound; nia).
  symmetry. apply (Z.div_unique_pos _ _ _ (round_half_even ((q * n + f) * 2 ^ k) q - 2 ^ k * n));
    [|lia]. split; nia.
Qed.

Lemma log2_quotient_small (n f q b : Z) :
  0 < q -> 0 <= f < q -> 0 <= n < 2 ^ b -> 0 < b -> log2_quotient (q * n + f) q < b.
Proof.
  intros Hq Hf Hn Hb. unfold log2_quotient. case_bool.
  - assert ((q * n + f) / q = n) as ->
      by (symmetry; apply (Z.div_unique_pos _ _ _ f); lia).
    destruct (Z.eq_dec n 0) as [->|]; [by cbn|]. apply Z.log2_lt_pow2; lia.
  - pose proof (Z.log2_up_nonneg ((q + (q * n + f) - 1) / (q * n + f))). lia.
Qed.

Lemma nearest_double_truncates (n f q : Z) :
  0 < q -> 0 <= f < q -> 0 <= n < 2 ^ 45 -> q <= 128 ->
  double_to_int64 (nearest_double (q * n + f) q) = Some n.
Proof.
  intros Hq Hf Hn Hq'. unfold nearest_double. destruct (Z.eqb_spec (q * n + f) 0).
  - assert (n = 0) as -> by nia. done.
  - pose proof (log2_quotient_small n f q 45 Hq Hf Hn ltac:(lia)) as Hlog.
    set (e := log2_quotient (q * n + f) q - 52) in *.
    rewrite (proj2 (Z.leb_gt 0 e)) by lia. unfold double_to_int64.
    rewrite (proj2 (Z.leb_gt 0 e)) by lia.
    rewrite truncated_double; [|lia..|].
    + rewrite (proj2 (Z.ltb_lt _ _)); [done|]. etrans; [apply Hn|]. done.
    + assert (2 ^ 8 <= 2 ^ (- e)) by (apply Z.pow_le_mono_r; lia). change (2 ^ 8) with 256 in *. nia.
Qed.

Lemma digits_shift (s : string) (a b x : Z) :
  digits s a = Some x ->
  digits s b = Some (x + (b - a) * 10 ^ slen s) /\
  (0 <= a -> a * 10 ^ slen s <= x < (a + 1) * 10 ^ slen s).
Proof.
  revert a b x. induction s as [|c s IH]; intros a b x; cbn [digits].
  - intros [= <-]. change (slen EmptyString) with 0. rewrite Z.pow_0_r. split; [f_equal; lia|lia].
  - set (d := Z.of_nat (nat_of_ascii c) - 48). destruct ((0 <=? d) && (d <=? 9)) eqn:E; [|done].
    apply andb_prop in E as [E1 E2]. intros Hd.
    destruct (IH _ (b * 10 + d) _ Hd) as [-> Hr].
    assert (Hs : slen (String c s) = slen s + 1) by (unfold slen; cbn [String.length]; lia).
    assert (0 <= slen s) by (unfold slen; lia).
    rewrite Hs, Z.pow_add_r, Z.pow_1_r by lia. split; [f_equal; ring|].
    intros Ha. specialize (Hr ltac:(lia)). nia.
Qed.

(** ** Properties *)

(** C38: The uptime the dashboard shows.  On the kernel's format, seconds with at most two
    decimals, [getSystemUptime] is the whole seconds: neither the decimal nor its nearest
    double, which is almost never the decimal itself, carries over into the next second,
    for any uptime below [2^45] seconds.  An unreadable or empty file counts as zero. *)
Theorem uptime_whole_seconds (ParseFloat_other : string -> option Z) (text whole frac : string)
    (rest : list string) (n f : Z) :
  Fields text = String.append whole (String "." frac) :: rest ->
  Split (String.append whole (String "." frac)) "." = [whole; frac] ->
  whole <> EmptyString -> digits whole 0 = Some n -> digits frac 0 = Some f ->
  n < 2 ^ 45 -> slen frac <= 2 ->
  getSystemUptime ParseFloat_other (Ok text) = Some n /\
  (forall e, getSystemUptime ParseFloat_other (Err e) = Some 0) /\
  (forall blank, Fields blank = [] -> getSystemUptime ParseFloat_other (Ok blank) = Some 0).
Proof.
  intros Hf Hs Hne Hn Hfrac Hmax Hlen. split; [|split; [done|by unfold getSystemUptime; intros blank ->]].
  unfold getSystemUptime. rewrite Hf. unfold parsed_int64, plain_decimal. rewrite Hs.
  rewrite decide_False by (intros [? _]; done). rewrite Hn.
  destruct (digits_shift whole 0 0 n Hn) as [_ Hn0]. specialize (Hn0 ltac:(lia)).
  destruct (digits_shift frac 0 n f Hfrac) as [-> Hf0]. specialize (Hf0 ltac:(lia)).
  assert (0 <= slen frac) by (unfold slen; lia).
  assert (0 < 10 ^ slen frac) by (apply Z.pow_pos_nonneg; lia).
  assert (10 ^ slen frac <= 10 ^ 2) by (apply Z.pow_le_mono_r; lia). change (10 ^ 2) with 100 in *.
  replace (f + (n - 0) * 10 ^ slen frac) with (10 ^ slen frac * n + f) by ring.
  apply nearest_double_truncates; nia.
Qed.

(** ** Witnesses *)

(** Nine days.  The bound is needed: next to [2^52] seconds the doubles are a second
    apart. *)
Lemma uptime_whole_seconds_witness :
  getSystemUptime (fun _ => None) (Ok "777600.99 3110400.17
") = Some 777600 /\
  parsed_int64 (fun _ => None) "9007199254740991.99" = Some 9007199254740992.
Proof.
  split; [|vm_compute; reflexivity].
  exact (proj1 (uptime_whole_seconds (fun _ => None) "777600.99 3110400.17
" "777600" "99" ["3110400.17"] 777600 99 eq_refl eq_refl ltac:(discriminate) eq_refl eq_refl
    ltac:(lia) ltac:(vm_compute; discriminate))).
Defined.
