(* ===== verification/StatsLog.v ===== *)
(** * Reading the counters ([stats.go], [startTrafficMonitor] of [dashboard.go])

    The counters of [GlobalStats] move by atomic additions in many goroutines; [Snapshot]
    loads them one at a time, with additions in between.  This file says what a snapshot
    is worth, what the log line and the traffic monitor make of it, and that their
    figures are right in every interleaving. *)

From stdpp Require Import strings list.
From S2P Require Import Prelude GoStrings Relay Dashboard.

Local Open Scope list_scope.
Local Open Scope Z_scope.

(** ** The additions *)

(** All additions to [GlobalStats] in the program: [poolWorker]; [setSession],
    [clearSession] and [cleanupSessions]; [relay] and [MeasuredReader].  Nothing ever adds
    to [FailedDials]. *)
Inductive stat_op :=
| OpReconnect
| OpSession (d : Z)
| OpConnActive (d : Z)
| OpConnTotal
| OpSent (n : Z)
| OpRecv (n : Z).

Definition stat_step (s : Stats) (op : stat_op) : Stats :=
  match op with
  | OpReconnect => s <| Reconnects ::= AddInt64 1 |>
  | OpSession d => s <| ActiveSessions ::= AddInt64 d |>
  | OpConnActive d => s <| ActiveConns ::= AddInt64 d |>
  | OpConnTotal => s <| TotalConns ::= AddInt64 1 |>
  | OpSent n => s <| BytesSent ::= AddInt64 n |>
  | OpRecv n => s <| BytesRecv ::= AddInt64 n |>
  end.
Definition stat_run (s : Stats) (ops : list stat_op) : Stats := foldl stat_step s ops.

(** ** Snapshots *)

(** [Snapshot()]: [gaps i] are the additions that come before the [i]th load.  The
    snapshot, and the counters after the last load. *)
Definition Snapshot (gaps : nat -> list stat_op) (s : Stats) : Stats * Stats :=
  let s := stat_run s (gaps 0%nat) in
  let a := s.(ActiveConns) in
  let s := stat_run s (gaps 1%nat) in
  let t := s.(TotalConns) in
  let s := stat_run s (gaps 2%nat) in
  let bs := s.(BytesSent) in
  let s := stat_run s (gaps 3%nat) in
  let br := s.(BytesRecv) in
  let s := stat_run s (gaps 4%nat) in
  let rc := s.(Reconnects) in
  let s := stat_run s (gaps 5%nat) in
  let fd := s.(FailedDials) in
  let s := stat_run s (gaps 6%nat) in
  let se := s.(ActiveSessions) in
  (mkStats a t bs br rc fd se s.(StartedAt), s).

(** The additions of all the gaps. *)
Definition all_gaps (gaps : nat -> list stat_op) : list stat_op :=
  concat (map gaps (seq 0 7)).

(** ** The log line *)

(** [Duration.Round(m)], half away from zero, for durations far from the bounds. *)
Definition Round (d m : Z) : Z :=
  let r := Z.rem d m in
  if d <? 0 then if - r + - r <? m then d - r else d - r - m
  else if r + r <? m then d - r else d + m - r.

(** The arguments of [LogStats]'s line at time [now] (in nanoseconds since 1970). *)
Record log_line := mkLogLine {
  ll_uptime : Z;
  ll_active : Z;
  ll_total : Z;
  ll_sessions : Z;
  ll_sentMB : Z;
  ll_recvMB : Z;
  ll_reconnects : Z;
  ll_fails : Z
}.
Definition LogStats (now : Z) (gaps : nat -> list stat_op) (s : Stats) : log_line :=
  let snap := (Snapshot gaps s).1 in
  mkLogLine (Round (wrap64 (now - snap.(StartedAt) * Second)) Second)
    snap.(ActiveConns) snap.(TotalConns) snap.(ActiveSessions)
    (Z.quot snap.(BytesSent) (1024 * 1024)) (Z.quot snap.(BytesRecv) (1024 * 1024))
    snap.(Reconnects) snap.(FailedDials).

(** The period [StartStatsLogger(interval)] settles on. *)
Definition stats_interval (interval : Z) : Z := pos_or (60 * Second) interval.

(** ** The traffic monitor *)

(** The ticks of [startTrafficMonitor]: each takes a snapshot, with its own gaps. *)
Fixpoint monitored (ticks : list (nat -> list stat_op)) (s : Stats) : list (Z * Z) * Stats :=
  match ticks with
  | [] => ([], s)
  | gaps :: ticks =>
      let '(snap, s) := Snapshot gaps s in
      let '(snaps, s) := monitored ticks s in
      ((snap.(BytesSent), snap.(BytesRecv)) :: snaps, s)
  end.

(** ** Lemmas *)

(** What a list of additions adds to each growing counter. *)
Definition sent_in (ops : list stat_op) : Z :=
  sum (map (fun op => match op with OpSent n => n | _ => 0 end) ops).
Definition recv_in (ops : list stat_op) : Z :=
  sum (map (fun op => match op with OpRecv n => n | _ => 0 end) ops).
Definition total_in (ops : list stat_op) : Z :=
  sum (map (fun op => match op with OpConnTotal => 1 | _ => 0 end) ops).
Definition reconnects_in (ops : list stat_op) : Z :=
  sum (map (fun op => match op with OpReconnect => 1 | _ => 0 end) ops).

(** Reads add a positive number of bytes ([MeasuredReader]). *)
Definition op_ok (op : stat_op) : Prop :=
  match op with OpSent n | OpRecv n => 0 < n | _ => True end.

(** A field that the additions [w] move up. *)
Class Grows (f : Stats -> Z) (w : stat_op -> Z) : Prop := {
  grows_step : forall s op, f (stat_step s op) = AddInt64 (w op) (f s) \/
                            (f (stat_step s op) = f s /\ w op = 0);
  grows_ok : forall op, op_ok op -> 0 <= w op
}.

#[export] Instance sent_Grows : Grows BytesSent (fun op => match op with OpSent n => n | _ => 0 end).
Proof. split; [intros s []; auto|intros []; cbn; lia]. Qed.
#[export] Instance recv_Grows : Grows BytesRecv (fun op => match op with OpRecv n => n | _ => 0 end).
Proof. split; [intros s []; auto|intros []; cbn; lia]. Qed.
#[export] Instance total_Grows : Grows TotalConns (fun op => match op with OpConnTotal => 1 | _ => 0 end).
Proof. split; [intros s []; auto|intros []; cbn; lia]. Qed.
#[export] Instance reconnects_Grows : Grows Reconnects (fun op => match op with OpReconnect => 1 | _ => 0 end).
Proof. split; [intros s []; auto|intros []; cbn; lia]. Qed.

Section Growing.
Context {f : Stats -> Z} {w : stat_op -> Z} `{!Grows f w}.

Definition added (ops : list stat_op) : Z := sum (map w ops).

Lemma added_app (ops ops' : list stat_op) : added (ops ++ ops') = added ops + added ops'.
Proof.
  unfold added. induction ops as [|op ops IH]; [done|]. cbn [app map].
  rewrite !sum_cons, IH. lia.
Qed.

Lemma added_nonneg (ops : list stat_op) : Forall op_ok ops -> 0 <= added ops.
Proof.
  intros Hok. apply sum_nonneg, Forall_map. eapply Forall_impl; [exact Hok|].
  intros op. apply grows_ok.
Qed.

(** Without overflow, the field counts what was added. *)
Lemma stat_run_added (s : Stats) (ops : list stat_op) :
  Forall op_ok ops -> 0 <= f s -> f s + added ops < 2 ^ 63 ->
  f (stat_run s ops) = f s + added ops.
Proof.
  intros Hok. revert s. induction Hok as [|op ops Hop Hok IH]; intros s Hs Hlt; [unfold added; cbn; lia|].
  unfold added in *. cbn [map] in *. rewrite sum_cons in *.
  assert (Hw : 0 <= w op) by by apply grows_ok. pose proof (added_nonneg ops Hok) as Hn.
  unfold added in Hn. change (stat_run s (op :: ops)) with (stat_run (stat_step s op) ops).
  assert (E : f (stat_step s op) = f s + w op).
  { destruct (grows_step s op) as [->|[-> ->]]; [|lia]. unfold AddInt64.
    apply wrap64_id. unfold int64_range. lia. }
  rewrite IH by lia. lia.
Qed.
End Growing.

Lemma stat_run_app (s : Stats) (ops ops' : list stat_op) :
  stat_run s (ops ++ ops') = stat_run (stat_run s ops) ops'.
Proof. apply foldl_app. Qed.

(** A snapshot's fields are fields of the counters at some moment of it. *)
Lemma Snapshot_fields (gaps : nat -> list stat_op) (s : Stats) :
  let upto k := concat (map gaps (seq 0 k)) in
  let '(snap, s') := Snapshot gaps s in
  s' = stat_run s (all_gaps gaps) /\
  snap.(ActiveConns) = (stat_run s (upto 1%nat)).(ActiveConns) /\
  snap.(TotalConns) = (stat_run s (upto 2%nat)).(TotalConns) /\
  snap.(BytesSent) = (stat_run s (upto 3%nat)).(BytesSent) /\
  snap.(BytesRecv) = (stat_run s (upto 4%nat)).(BytesRecv) /\
  snap.(Reconnects) = (stat_run s (upto 5%nat)).(Reconnects) /\
  snap.(FailedDials) = (stat_run s (upto 6%nat)).(FailedDials).
Proof.
  unfold Snapshot, all_gaps. cbn -[stat_run]. rewrite !stat_run_app. by rewrite ?app_nil_r.
Qed.

Lemma stat_run_fixed (s : Stats) (ops : list stat_op) :
  (stat_run s ops).(FailedDials) = s.(FailedDials) /\ (stat_run s ops).(StartedAt) = s.(StartedAt).
Proof.
  revert s. induction ops as [|op ops IH]; intros s; [done|].
  change (stat_run s (op :: ops)) with (stat_run (stat_step s op) ops).
  destruct (IH (stat_step s op)) as [-> ->]. by destruct op.
Qed.

(** *** Between the beginning and the end *)

Section Between.
Context {f : Stats -> Z} {w : stat_op -> Z} `{!Grows f w}.

Lemma between (s : Stats) (p q : list stat_op) :
  Forall op_ok (p ++ q) -> 0 <= f s -> f s + added (w := w) (p ++ q) < 2 ^ 63 ->
  f s <= f (stat_run s p) <= f (stat_run s (p ++ q)).
Proof.
  intros [Hp Hq]%Forall_app Hs Hlt. rewrite added_app in Hlt.
  pose proof (added_nonneg (f := f) (w := w) p Hp). pose proof (added_nonneg (f := f) (w := w) q Hq).
  rewrite !(stat_run_added (f := f) (w := w));
    rewrite ?added_app; try lia; by rewrite ?Forall_app.
Qed.

Lemma between_upto (s : Stats) (gaps : nat -> list stat_op) (k : nat) :
  (k <= 7)%nat -> Forall op_ok (all_gaps gaps) -> 0 <= f s ->
  f s + added (w := w) (all_gaps gaps) < 2 ^ 63 ->
  f s <= f (stat_run s (concat (map gaps (seq 0 k)))) <= f (stat_run s (all_gaps gaps)).
Proof.
  intros Hk. assert (E : all_gaps gaps = concat (map gaps (seq 0 k)) ++ concat (map gaps (seq k (7 - k)))).
  { unfold all_gaps. rewrite <- concat_app, <- map_app, <- seq_app.
    by replace (k + (7 - k))%nat with 7%nat by lia. }
  rewrite E. apply between.
Qed.
End Between.

(** The counters do not overflow during these additions. *)
Definition fits (s : Stats) (ops : list stat_op) : Prop :=
  Forall op_ok ops /\
  0 <= s.(BytesSent) /\ s.(BytesSent) + sent_in ops < 2 ^ 63 /\
  0 <= s.(BytesRecv) /\ s.(BytesRecv) + recv_in ops < 2 ^ 63 /\
  0 <= s.(TotalConns) /\ s.(TotalConns) + total_in ops < 2 ^ 63 /\
  0 <= s.(Reconnects) /\ s.(Reconnects) + reconnects_in ops < 2 ^ 63.

(** All additions of a run of ticks. *)
Definition all_ticks (ticks : list (nat -> list stat_op)) : list stat_op :=
  concat (map all_gaps ticks).

(** What is left to fit after a prefix. *)
Lemma fits_app (s : Stats) (p q : list stat_op) :
  fits s (p ++ q) -> fits s p /\ fits (stat_run s p) q.
Proof.
  intros (Hok & Hs). apply Forall_app in Hok as [Hp Hq].
  unfold sent_in, recv_in, total_in, reconnects_in in Hs.
  change (sum (map ?w ?l)) with (added (w := w) l) in Hs. rewrite !added_app in Hs.
  pose proof (added_nonneg (f := BytesSent) p Hp). pose proof (added_nonneg (f := BytesSent) q Hq).
  pose proof (added_nonneg (f := BytesRecv) p Hp). pose proof (added_nonneg (f := BytesRecv) q Hq).
  pose proof (added_nonneg (f := TotalConns) p Hp). pose proof (added_nonneg (f := TotalConns) q Hq).
  pose proof (added_nonneg (f := Reconnects) p Hp). pose proof (added_nonneg (f := Reconnects) q Hq).
  split; (split; [done|]).
  - unfold sent_in, recv_in, total_in, reconnects_in. change (sum (map ?w ?l)) with (added (w := w) l). lia.
  - rewrite (stat_run_added (f := BytesSent)), (stat_run_added (f := BytesRecv)),
      (stat_run_added (f := TotalConns)), (stat_run_added (f := Reconnects)) by (done || lia).
    unfold sent_in, recv_in, total_in, reconnects_in. change (sum (map ?w ?l)) with (added (w := w) l). lia.
Qed.

Lemma ascending_weaken (a b a' b' : Z) (snaps : list (Z * Z)) :
  a' <= a -> b' <= b -> ascending a b snaps -> ascending a' b' snaps.
Proof. destruct snaps as [|[s r] snaps]; [done|]. cbn. intros ?? (? & ? & ?). split; [lia|]. split; [lia|done]. Qed.

(** The byte counts the monitor sees do not go back, and stay within the counters. *)
Lemma monitored_ascending (ticks : list (nat -> list stat_op)) (s : Stats) :
  fits s (all_ticks ticks) ->
  let '(snaps, s') := monitored ticks s in
  s' = stat_run s (all_ticks ticks) /\ ascending s.(BytesSent) s.(BytesRecv) snaps /\
  s.(BytesSent) <= List.last (map fst snaps) s.(BytesSent) <= s'.(BytesSent) /\
  s.(BytesRecv) <= List.last (map snd snaps) s.(BytesRecv) <= s'.(BytesRecv).
Proof.
  revert s. induction ticks as [|gaps ticks IH]; intros s Hf; [cbn; split; [done|]; split; [done|]; lia|].
  unfold all_ticks in *. cbn [map concat monitored] in *.
  apply fits_app in Hf as [Hg Hf].
  pose proof (Snapshot_fields gaps s) as Hsnap. destruct (Snapshot gaps s) as [snap s1].
  destruct Hsnap as (-> & _ & _ & Es & Er & _). specialize (IH _ Hf).
  destruct (monitored ticks _) as [snaps s2]. destruct IH as (-> & Hasc & Hs & Hr).
  destruct Hg as (Hok & Hs0 & Hs1 & Hr0 & Hr1 & _).
  pose proof (between_upto (f := BytesSent) s gaps 3 ltac:(lia) Hok Hs0 Hs1) as Bs.
  pose proof (between_upto (f := BytesRecv) s gaps 4 ltac:(lia) Hok Hr0 Hr1) as Br.
  rewrite <- Es in Bs. rewrite <- Er in Br.
  assert (Hmax : (stat_run s (all_gaps gaps)).(BytesSent) < 2 ^ 63 /\
                 (stat_run s (all_gaps gaps)).(BytesRecv) < 2 ^ 63).
  { rewrite (stat_run_added (f := BytesSent)), (stat_run_added (f := BytesRecv)) by done. done. }
  split; [by rewrite stat_run_app|]. cbn [map fst snd ascending].
  rewrite !last_cons_default. split; [split; [lia|split; [lia|]]|].
  - eapply ascending_weaken; [| |exact Hasc]; lia.
  - assert (Hmono : forall x y, x <= y -> forall l, l <> [] -> List.last l x = List.last l y)
      by (intros x y _ [|z l]; [done|intros _; by rewrite !last_cons_default]).
    destruct snaps as [|[a b] snaps]; cbn [map fst snd] in *; [cbn in *; lia|].
    rewrite !last_cons_default in *. lia.
Qed.

(** The counters at the load of tick [i] that comes after its first [k] gaps. *)
Definition loaded_at (ticks : list (nat -> list stat_op)) (s : Stats) (i : nat)
    (gaps : nat -> list stat_op) (k : nat) : Stats :=
  stat_run s (all_ticks (take i ticks) ++ concat (map gaps (seq 0 k))).

Lemma monitored_length (ticks : list (nat -> list stat_op)) (s : Stats) :
  length (monitored ticks s).1 = length ticks.
Proof.
  revert s. induction ticks as [|gaps ticks IH]; intros s; [done|]. cbn [monitored length].
  destruct (Snapshot gaps s) as [snap s1]. specialize (IH s1). destruct (monitored ticks s1). by cbn in *; f_equal.
Qed.

(** The snapshot of tick [i]. *)
Lemma monitored_lookup (ticks : list (nat -> list stat_op)) (s : Stats) (i : nat)
    (gaps : nat -> list stat_op) :
  ticks !! i = Some gaps ->
  (monitored ticks s).1 !! i =
    Some ((loaded_at ticks s i gaps 3).(BytesSent), (loaded_at ticks s i gaps 4).(BytesRecv)).
Proof.
  revert s i. induction ticks as [|g ticks IH]; intros s i; [done|]. cbn [monitored].
  pose proof (Snapshot_fields g s) as Hsnap. destruct (Snapshot g s) as [snap s1].
  destruct Hsnap as (-> & _ & _ & Es & Er & _). specialize (IH (stat_run s (all_gaps g))).
  destruct (monitored ticks _) as [snaps s2]. cbn [fst] in *.
  destruct i as [|i]; cbn [lookup list_lookup].
  - intros [= ->]. unfold loaded_at. by rewrite Es, Er.
  - intros Hi. change (snaps !! i = Some ((loaded_at (g :: ticks) s (S i) gaps 3).(BytesSent),
                                          (loaded_at (g :: ticks) s (S i) gaps 4).(BytesRecv))).
    rewrite (IH i Hi). unfold loaded_at, all_ticks. cbn [take map concat].
    by rewrite <- !app_assoc, !(stat_run_app s (all_gaps g)).
Qed.

Lemma ascending_take (a b : Z) (n : nat) (snaps : list (Z * Z)) :
  ascending a b snaps -> ascending a b (take n snaps).
Proof.
  revert a b n. induction snaps as [|[x y] snaps IH]; intros a b [|n]; cbn; [done..|].
  intros (? & ? & ?). by auto.
Qed.

Lemma traffic_run_take (t : traffic) (n : nat) (snaps : list (Z * Z)) :
  take n (traffic_run t snaps) = traffic_run t (take n snaps).
Proof. revert t n. induction snaps as [|x snaps IH]; intros t [|n]; cbn; [done..|]. by rewrite IH. Qed.

Lemma traffic_run_length (t : traffic) (snaps : list (Z * Z)) :
  length (traffic_run t snaps) = length snaps.
Proof. revert t. induction snaps as [|x snaps IH]; intros t; cbn; [done|]. by rewrite IH. Qed.

Lemma Round_spec (d : Z) :
  0 <= d -> Z.rem (Round d Second) Second = 0 /\ 2 * Z.abs (Round d Second - d) <= Second.
Proof.
  intros Hd. unfold Round. rewrite (proj2 (Z.ltb_ge d 0)) by lia.
  rewrite (Z.rem_mod_nonneg d Second) by (unfold Second, Millisecond; lia).
  pose proof (Z.mod_pos_bound d Second ltac:(unfold Second, Millisecond; lia)) as Hr.
  pose proof (Z.div_mod d Second ltac:(unfold Second, Millisecond; lia)) as Hdm.
  set (r := d mod Second) in *. destruct (Z.ltb_spec (r + r) Second).
  - split; [|lia]. replace (d - r) with ((d / Second) * Second) by (rewrite Hdm at 2; ring).
    apply Z.rem_mul. unfold Second, Millisecond; lia.
  - split; [|lia]. replace (d + Second - r) with ((d / Second + 1) * Second) by (rewrite Hdm at 2; ring).
    apply Z.rem_mul. unfold Second, Millisecond; lia.
Qed.

(** ** Properties *)

(** What a snapshot is worth.  While the counters do not overflow, every
    growing counter of a snapshot lies between its values before the first load and after
    the last, whatever is added in between; so does every figure of the log line, in
    whole MiB rounded down and in seconds rounded to the nearest.  The count of failed
    dials is always the one the program started with, because nothing adds to it. *)
Theorem snapshot_between (gaps : nat -> list stat_op) (s : Stats) (now : Z) :
  fits s (all_gaps gaps) -> 0 <= now - s.(StartedAt) * Second < 2 ^ 63 ->
  let '(snap, s') := Snapshot gaps s in
  let l := LogStats now gaps s in
  s.(TotalConns) <= snap.(TotalConns) <= s'.(TotalConns) /\
  s.(BytesSent) <= snap.(BytesSent) <= s'.(BytesSent) /\
  s.(BytesRecv) <= snap.(BytesRecv) <= s'.(BytesRecv) /\
  s.(Reconnects) <= snap.(Reconnects) <= s'.(Reconnects) /\
  s.(BytesSent) / 1048576 <= l.(ll_sentMB) <= s'.(BytesSent) / 1048576 /\
  s.(BytesRecv) / 1048576 <= l.(ll_recvMB) <= s'.(BytesRecv) / 1048576 /\
  2 * Z.abs (l.(ll_uptime) - (now - s.(StartedAt) * Second)) <= Second /\
  Z.rem l.(ll_uptime) Second = 0 /\ l.(ll_fails) = s.(FailedDials).
Proof.
  intros (Hok & Hs0 & Hs1 & Hr0 & Hr1 & Ht0 & Ht1 & Hc0 & Hc1) Hnow.
  pose proof (Snapshot_fields gaps s) as Hf. unfold LogStats.
  assert (Hst : (Snapshot gaps s).1.(StartedAt) = s.(StartedAt)).
  { unfold Snapshot. cbn [fst StartedAt]. by rewrite !(proj2 (stat_run_fixed _ _)). }
  destruct (Snapshot gaps s) as [snap s']. destruct Hf as (-> & _ & Et & Es & Er & Ec & Ef).
  cbn [fst] in *. cbn [ll_sentMB ll_recvMB ll_uptime ll_fails]. rewrite Hst.
  pose proof (between_upto (f := BytesSent) s gaps 3 ltac:(lia) Hok Hs0 Hs1) as Bs.
  pose proof (between_upto (f := BytesRecv) s gaps 4 ltac:(lia) Hok Hr0 Hr1) as Br.
  pose proof (between_upto (f := TotalConns) s gaps 2 ltac:(lia) Hok Ht0 Ht1) as Bt.
  pose proof (between_upto (f := Reconnects) s gaps 5 ltac:(lia) Hok Hc0 Hc1) as Bc.
  rewrite <- Es in Bs. rewrite <- Er in Br. rewrite <- Et in Bt. rewrite <- Ec in Bc.
  do 4 (split; [done|]). rewrite !Z.quot_div_nonneg by lia. change (1024 * 1024) with 1048576.
  split; [split; apply Z.div_le_mono; lia|]. split; [split; apply Z.div_le_mono; lia|].
  rewrite wrap64_id by (unfold int64_range; lia).
  destruct (Round_spec (now - StartedAt s * Second) ltac:(lia)) as [H1 H2].
  split; [done|]. split; [done|]. rewrite Ef. apply stat_run_fixed.
Qed.

(** C29: The traffic rates are true.  However reads and ticks interleave: every tick
    publishes a figure; the speeds are never negative; and at every tick the speeds
    published so far add up to exactly the bytes counted, from the reading the monitor
    began with up to the load in that tick's snapshot.  So what is counted between two
    loads is the speed the second tick shows: no byte is shown twice, none is lost. *)
Theorem traffic_figures (ticks : list (nat -> list stat_op)) (s : Stats) (t : traffic) :
  fits s (all_ticks ticks) ->
  0 <= t.(lastBytesSent) <= s.(BytesSent) -> 0 <= t.(lastBytesRecv) <= s.(BytesRecv) ->
  let ts := traffic_run t (monitored ticks s).1 in
  length ts = length ticks /\
  Forall (fun x => 0 <= x.(speedUp) /\ 0 <= x.(speedDown)) ts /\
  (forall i gaps, ticks !! i = Some gaps ->
     t.(lastBytesSent) + sum (map speedDown (take (S i) ts)) =
       (loaded_at ticks s i gaps 3).(BytesSent) /\
     t.(lastBytesRecv) + sum (map speedUp (take (S i) ts)) =
       (loaded_at ticks s i gaps 4).(BytesRecv)).
Proof.
  intros Hf Hs Hr ts. pose proof (monitored_ascending ticks s Hf) as Hm.
  destruct (monitored ticks s) as [snaps s'] eqn:E. destruct Hm as (_ & Hasc & _).
  apply (ascending_weaken _ _ t.(lastBytesSent) t.(lastBytesRecv)) in Hasc; [|lia..].
  pose proof (monitored_length ticks s) as Hl. rewrite E in Hl. cbn [fst] in *. subst ts.
  split; [by rewrite traffic_run_length|].
  split; [apply (traffic_conserved t snaps); [lia|lia|done]|].
  intros i gaps Hi. pose proof (monitored_lookup ticks s i gaps Hi) as Hk. rewrite E in Hk.
  cbn [fst] in Hk. rewrite traffic_run_take.
  destruct (traffic_conserved t (take (S i) snaps)) as (H1 & H2 & _); [lia..|by apply ascending_take|].
  rewrite H1, H2, (take_S_r _ _ _ Hk), !map_app. cbn [map fst snd]. rewrite !List.last_last. lia.
Qed.

(** ** Witnesses *)

(** A relay starts and reads while the snapshot is taken. *)
Definition busy_gaps (k : nat) : list stat_op :=
  match k with
  | 1 => [OpConnActive 1; OpConnTotal; OpSent 1000]
  | 3 => [OpSent 24; OpRecv 2097152]
  | _ => []
  end%nat.
Definition busy_start : Stats := mkStats 0 0 1048000 0 0 0 1 1000.

Lemma busy_fits : fits busy_start (all_gaps busy_gaps).
Proof. split; [repeat constructor|]. vm_compute. repeat split; discriminate. Qed.

Lemma snapshot_between_witness :
  (LogStats (1060 * Second + 600000000) busy_gaps busy_start).(ll_uptime) = 61 * Second /\
  let l := LogStats (1060 * Second + 600000000) busy_gaps busy_start in
  l.(ll_fails) = 0 /\ Z.rem l.(ll_uptime) Second = 0.
Proof.
  pose proof (snapshot_between busy_gaps busy_start (1060 * Second + 600000000) busy_fits
                ltac:(vm_compute; split; [discriminate|reflexivity])) as H.
  split; [vm_compute; reflexivity|].
  destruct (Snapshot busy_gaps busy_start). cbv zeta in H.
  destruct H as (_ & _ & _ & _ & _ & _ & _ & H1 & H2). split; [exact H2|exact H1].
Defined.

Lemma traffic_figures_witness :
  let ts := traffic_run (mkTraffic 1000000 0 0 0) (monitored [busy_gaps; busy_gaps] busy_start).1 in
  map speedDown ts = [49000; 1024] /\ map speedUp ts = [2097152; 2097152] /\
  1000000 + sum (map speedDown (take 2 ts)) =
    (loaded_at [busy_gaps; busy_gaps] busy_start 1 busy_gaps 3).(BytesSent).
Proof.
  split; [vm_compute; reflexivity|]. split; [vm_compute; reflexivity|].
  assert (Hf : fits busy_start (all_ticks [busy_gaps; busy_gaps]))
    by (split; [repeat constructor|vm_compute; repeat split; discriminate]).
  pose proof (traffic_figures [busy_gaps; busy_gaps] busy_start (mkTraffic 1000000 0 0 0) Hf
    ltac:(vm_compute; split; discriminate) ltac:(vm_compute; split; discriminate)) as (_ & _ & H).
  apply (H 1%nat busy_gaps eq_refl).
Defined.
