(* ===== verification/StatsApi.v ===== *)
(** * The statistics of the dashboard ([handleAPIStats] and the helpers of [dashboard.go])

    What [/api/stats] answers: the counters, the host's load and memory, and the sessions
    of the server or the client, as a tree of JSON values; and the types the page
    ([dashboard/index.html]) reads them at.  Texts that are only displayed are kept as
    what they are printed from. *)

From stdpp Require Import strings list.
From S2P Require Import Prelude GoStrings ConfigTypes Relay Dashboard.
From Stdlib Require Import Ascii.

Local Open Scope string_scope.
Local Open Scope list_scope.
Local Open Scope Z_scope.

(** ** The host *)

(** [getLoadAvg()] on the text of [/proc/loadavg]. *)
Definition getLoadAvg (data : result string) : list string :=
  match data with
  | Err _ => ["0.00"; "0.00"; "0.00"]
  | Ok text =>
      let parts := Fields text in
      if (3 <=? length parts)%nat then take 3 parts else ["0.00"; "0.00"; "0.00"]
  end.

(** The lines of a [bufio.Scanner]: without the line feed and one carriage return; what
    follows the last line feed is a line unless it is empty.  The buffer has 64 KiB, and a
    line that does not fit it ends the scan. *)
Definition newline : string := String "010" EmptyString.
Fixpoint drop_cr (line : string) : string :=
  match line with
  | EmptyString => EmptyString
  | String "013" EmptyString => EmptyString
  | String c line => String c (drop_cr line)
  end.
Definition max_token : Z := 65536.
Fixpoint scan_tokens (parts : list string) : list string :=
  match parts with
  | [] => []
  | [last] =>
      if decide (last = EmptyString) then []
      else if slen last <? max_token then [drop_cr last] else []
  | line :: parts => if slen line <? max_token then drop_cr line :: scan_tokens parts else []
  end.

(** A line of [/proc/meminfo]: the new total and available, in bytes. *)
Definition second_field_kB (line : string) (old : Z) : Z :=
  match Fields line with
  | _ :: v :: _ => wrap64 (ParseInt_value v * 1024)
  | _ => old
  end.
Definition meminfo_line (st : Z * Z) (line : string) : Z * Z :=
  let '(total, available) := st in
  if HasPrefix line "MemTotal:" then (second_field_kB line total, available)
  else if HasPrefix line "MemAvailable:" then (total, second_field_kB line available)
  else st.

(** [getSystemMemory()]: total and used. *)
Definition getSystemMemory (file : result string) : Z * Z :=
  match file with
  | Err _ => (0, 0)
  | Ok text =>
      let '(total, available) := foldl meminfo_line (0, 0) (scan_tokens (Split text newline)) in
      if available =? 0 then (total, 0) else (total, wrap64 (total - available))
  end.

(** What one round of [startPingMonitor] stores in [latency]. *)
Definition ping (rtt : result Z) : Z := match rtt with Ok dur => dur | Err _ => -1 end.

(** ** JSON *)

(** A text: literal, [Duration.String()], a [time.Time] in RFC 3339, or [humanBytes]. *)
Inductive text :=
| Lit (s : string)
| DurationText (ns : Z)
| TimeText (ns : Z)
| HumanText (h : human).

(** Numbers are integers or quotients. *)
#[warnings="-register-all"]
Inductive json :=
| JInt (z : Z)
| JFloat (num den : Z)
| JBool (b : bool)
| JStr (t : text)
| JArr (l : list json)
| JObj (fields : list (string * json)).

(** [resp[key] = v] *)
Fixpoint set_field (key : string) (v : json) (fields : list (string * json)) : list (string * json) :=
  match fields with
  | [] => [(key, v)]
  | (k, x) :: fields => if decide (k = key) then (k, v) :: fields else (k, x) :: set_field key v fields
  end.

(** ** The handler *)

(** A session of the server: its address, streams, and whether it is closed; of the
    client: its age, streams, and whether it is closed.  [None] is a nil session. *)
Record server_view := mkServerView { sw_sessions : list (string * option (Z * bool)) }.
Record client_view := mkClientView {
  cw_sessions : list (option (Z * Z * bool));
  cw_paths : list (string * Z);
  cw_level : Z
}.

(** What the handler reads: [dashState], the snapshot, the memory statistics and the
    files.  [ai_uptime_sys] is [getSystemUptime()], which is in [Uptime]. *)
Record api_input := mkApiInput {
  ai_mode : string;
  ai_version : string;
  ai_start : Z;
  ai_uptime : Z;
  ai_cpu : Z * Z;
  ai_loadavg : result string;
  ai_alloc : Z;
  ai_snap : Stats;
  ai_traffic : traffic;
  ai_meminfo : result string;
  ai_uptime_sys : Z;
  ai_latency : Z;
  ai_server : option server_view;
  ai_client : option client_view
}.

(** A [humanBytes] text; [None] of the model's fuel does not occur. *)
Definition human_text (b : Z) : outcome json :=
  h ← humanBytes b;
  Done (JStr match h with Some h => HumanText h | None => Lit EmptyString end).

Definition server_json (v : server_view) : json :=
  let sessions := omap (fun '(addr, s) =>
    match s with
    | None => None
    | Some (streams, closed) =>
        Some (JObj [("addr", JStr (Lit addr)); ("streams", JInt streams); ("closed", JBool closed)])
    end) v.(sw_sessions) in
  JObj [("sessions", JArr sessions); ("count", JInt (zlen sessions))].

(** [for i, ps := range c.sessions]: the index is the place in the pool. *)
Fixpoint client_sessions (i : Z) (l : list (option (Z * Z * bool))) : list json :=
  match l with
  | [] => []
  | None :: l => client_sessions (i + 1) l
  | Some (age, streams, closed) :: l =>
      JObj [("id", JInt i); ("age", JStr (DurationText age)); ("streams", JInt streams);
            ("closed", JBool closed)] :: client_sessions (i + 1) l
  end.
Definition path_json (i : nat) (p : string * Z) : json :=
  JObj [("index", JInt (Z.of_nat i)); ("addr", JStr (Lit p.1)); ("rtt_ms", JFloat p.2 1000000)].
Definition client_json (v : client_view) : json :=
  JObj [("sessions", JArr (client_sessions 0 v.(cw_sessions)));
        ("paths", JArr (imap path_json v.(cw_paths)));
        ("adaptive", JObj [("level", JInt v.(cw_level))])].

(** [handleAPIStats]: the object it encodes. *)
Definition handleAPIStats (i : api_input) : outcome (list (string * json)) :=
  let snap := i.(ai_snap) in
  ram ← human_text (wrap64 i.(ai_alloc));
  sent ← human_text snap.(BytesSent);
  recv ← human_text snap.(BytesRecv);
  let stats := JObj
    [("active_conns", JInt snap.(ActiveConns)); ("total_conns", JInt snap.(TotalConns));
     ("bytes_sent", JInt snap.(BytesSent)); ("bytes_recv", JInt snap.(BytesRecv));
     ("sent_human", sent); ("recv_human", recv);
     ("reconnects", JInt snap.(Reconnects)); ("active_sessions", JInt snap.(ActiveSessions));
     ("speed_up", JInt i.(ai_traffic).(speedUp)); ("speed_down", JInt i.(ai_traffic).(speedDown))] in
  let resp :=
    [("mode", JStr (Lit i.(ai_mode))); ("version", JStr (Lit i.(ai_version)));
     ("uptime", JStr (DurationText i.(ai_uptime))); ("uptime_s", JFloat i.(ai_uptime) Second);
     ("start_time", JStr (TimeText i.(ai_start))); ("cpu", JFloat i.(ai_cpu).1 i.(ai_cpu).2);
     ("load_avg", JArr (map (fun s => JStr (Lit s)) (getLoadAvg i.(ai_loadavg))));
     ("ram_val", JInt i.(ai_alloc)); ("ram", ram); ("stats", stats)] in
  let '(memTotal, memUsed) := getSystemMemory i.(ai_meminfo) in
  let resp := set_field "ram_total" (JInt memTotal) resp in
  let resp := set_field "ram_used" (JInt memUsed) resp in
  let resp := set_field "uptime_sys" (JInt i.(ai_uptime_sys)) resp in
  let resp := set_field "ping_ms" (JInt (-1)) resp in
  let resp := if 0 <? i.(ai_latency)
              then set_field "ping_ms" (JFloat i.(ai_latency) 1000000) resp else resp in
  let resp := match i.(ai_server) with
              | Some v => set_field "server" (server_json v) resp | None => resp end in
  let resp := match i.(ai_client) with
              | Some v => set_field "client" (client_json v) resp | None => resp end in
  Done resp.

(** ** The page

    The types at which [updateStats] reads the answer; a field it tests for first may be
    absent. *)
#[warnings="-register-all"]
Inductive jty :=
| TNum
| TStr
| TBool
| TArr (t : jty)
| TObj (fields : list (string * (bool * jty))).

Fixpoint assoc {A} (key : string) (l : list (string * A)) : option A :=
  match l with
  | [] => None
  | (k, x) :: l => if decide (k = key) then Some x else assoc key l
  end.

Fixpoint has_type (t : jty) (j : json) : bool :=
  match t, j with
  | TNum, (JInt _ | JFloat _ _) => true
  | TStr, JStr _ => true
  | TBool, JBool _ => true
  | TArr t, JArr l => forallb (has_type t) l
  | TObj fields, JObj l =>
      (fix fields_ok (fields : list (string * (bool * jty))) : bool :=
         match fields with
         | [] => true
         | (key, (required, t)) :: fields =>
             match assoc key l with
             | Some x => has_type t x
             | None => negb required
             end && fields_ok fields
         end) fields
  | _, _ => false
  end.

Definition page_type : jty :=
  TObj [("cpu", (true, TNum)); ("ram", (true, TStr)); ("uptime", (true, TStr));
        ("ping_ms", (true, TNum));
        ("stats", (true, TObj [("bytes_sent", (true, TNum)); ("bytes_recv", (true, TNum));
                               ("active_conns", (true, TNum))]));
        ("server", (false, TObj [("sessions", (true, TArr (TObj
           [("addr", (true, TStr)); ("streams", (true, TNum)); ("closed", (true, TBool))])))]));
        ("client", (false, TObj [("sessions", (true, TArr (TObj
           [("id", (true, TNum)); ("streams", (true, TNum)); ("closed", (true, TBool));
            ("age", (true, TStr))])))]))].

(** ** Lemmas *)

Lemma assoc_set_eq (key : string) (v : json) (l : list (string * json)) :
  assoc key (set_field key v l) = Some v.
Proof.
  induction l as [|[k x] l IH]; cbn; [by rewrite decide_True|].
  destruct (decide (k = key)) as [->|Hne]; cbn; [by rewrite decide_True|by rewrite decide_False].
Qed.

Lemma assoc_set_ne (key key' : string) (v : json) (l : list (string * json)) :
  key <> key' -> assoc key' (set_field key v l) = assoc key' l.
Proof.
  intros Hne. induction l as [|[k x] l IH]; cbn; [by rewrite decide_False|].
  destruct (decide (k = key)) as [->|Hk]; cbn; [by rewrite !decide_False|].
  by destruct (decide (k = key')).
Qed.


(** The rows of the sessions table have the types of their columns. *)
Definition server_row : jty :=
  TObj [("addr", (true, TStr)); ("streams", (true, TNum)); ("closed", (true, TBool))].
Definition client_row : jty :=
  TObj [("id", (true, TNum)); ("streams", (true, TNum)); ("closed", (true, TBool)); ("age", (true, TStr))].

Lemma server_json_typed (v : server_view) :
  has_type (TObj [("sessions", (true, TArr server_row))]) (server_json v) = true.
Proof.
  destruct v as [l]. cbn. rewrite andb_true_r.
  induction l as [|[addr [[streams closed]|]] l IH]; [done|exact IH|exact IH].
Qed.

Lemma client_sessions_typed (i : Z) (l : list (option (Z * Z * bool))) :
  forallb (has_type client_row) (client_sessions i l) = true.
Proof.
  revert i. induction l as [|[[[age streams] closed]|] l IH]; intros i; [done|cbn; apply IH..].
Qed.

Lemma client_json_typed (v : client_view) :
  has_type (TObj [("sessions", (true, TArr client_row))]) (client_json v) = true.
Proof. destruct v as [l p level]. cbn. rewrite andb_true_r. apply client_sessions_typed. Qed.

Lemma human_text_done (b : Z) : int64_range b -> exists t, human_text b = Done (JStr t).
Proof.
  intros Hb. unfold human_text. destruct (humanBytes_spec b Hb) as (h & -> & _). by eexists.
Qed.

Lemma assoc_opt_ne {A} (key key' : string) (f : A -> json) (o : option A) (l : list (string * json)) :
  key <> key' ->
  assoc key' (match o with Some x => set_field key (f x) l | None => l end) = assoc key' l.
Proof. intros Hne. destruct o; [by apply assoc_set_ne|done]. Qed.

Lemma assoc_opt_eq {A} (key : string) (f : A -> json) (o : option A) (l : list (string * json)) :
  assoc key l = None ->
  assoc key (match o with Some x => set_field key (f x) l | None => l end) = f <$> o.
Proof. intros Hno. destruct o; [apply assoc_set_eq|done]. Qed.

Lemma assoc_if_ne (key key' : string) (v : json) (b : bool) (l : list (string * json)) :
  key <> key' -> assoc key' (if b then set_field key v l else l) = assoc key' l.
Proof. intros Hne. destruct b; [by apply assoc_set_ne|done]. Qed.

Lemma has_type_obj (fields : list (string * (bool * jty))) (l : list (string * json)) :
  (forall key required t, (key, (required, t)) ∈ fields ->
     match assoc key l with Some x => has_type t x = true | None => required = false end) ->
  has_type (TObj fields) (JObj l) = true.
Proof.
  intros Hf. cbn [has_type]. induction fields as [|[key [required t]] fields IH]; [done|].
  apply andb_true_iff. split.
  - specialize (Hf key required t ltac:(left)). by destruct (assoc key l); [|rewrite Hf].
  - apply IH. intros k r u Hin. apply Hf. by right.
Qed.

(** C15: The statistics page gets what it reads.  For every state of the program and the
    host, [handleAPIStats] answers, without panicking, an object in which every field
    [updateStats] uses is there at the type it uses it at, in server and in client mode,
    whether or not the host's files can be read and whatever sessions are nil. *)
Theorem api_stats_typed (i : api_input) :
  int64_range i.(ai_snap).(BytesSent) -> int64_range i.(ai_snap).(BytesRecv) ->
  exists resp, handleAPIStats i = Done resp /\ has_type page_type (JObj resp) = true.
Proof.
  intros Hs Hr. unfold handleAPIStats.
  destruct (human_text_done (wrap64 (ai_alloc i)) (wrap64_range _)) as [t1 ->].
  destruct (human_text_done _ Hs) as [t2 ->]. destruct (human_text_done _ Hr) as [t3 ->].
  cbn [mbind outcome_bind]. destruct (getSystemMemory _) as [total used].
  eexists. split; [reflexivity|]. apply has_type_obj. intros key required t Hin.
  repeat (apply elem_of_cons in Hin as [[= -> -> ->]|Hin]); [..|by apply elem_of_nil in Hin].
  1-3, 5: by rewrite assoc_opt_ne, assoc_opt_ne, assoc_if_ne, !assoc_set_ne by discriminate.
  - rewrite !assoc_opt_ne by discriminate. destruct (0 <? ai_latency i); by rewrite assoc_set_eq.
  - rewrite assoc_opt_ne by discriminate.
    rewrite assoc_opt_eq by (by rewrite assoc_if_ne, !assoc_set_ne by discriminate).
    destruct (ai_server i) as [v|]; [apply server_json_typed|done].
  - rewrite assoc_opt_eq by (by rewrite assoc_opt_ne, assoc_if_ne, !assoc_set_ne by discriminate).
    destruct (ai_client i) as [v|]; [apply client_json_typed|done].
Qed.

Lemma scan_tokens_cons (line : string) (parts : list string) :
  parts <> [] ->
  scan_tokens (line :: parts) =
  if slen line <? max_token then drop_cr line :: scan_tokens parts else [].
Proof. by destruct parts. Qed.

Definition mem_line (line : string) : bool :=
  HasPrefix line "MemTotal:" || HasPrefix line "MemAvailable:".

Lemma meminfo_others (lines : list string) (st : Z * Z) :
  Forall (fun l => mem_line l = false) lines -> foldl meminfo_line st lines = st.
Proof.
  induction 1 as [|l lines Hl _ IH]; [done|]. cbn. unfold mem_line in Hl.
  apply orb_false_iff in Hl as [H1 H2]. unfold meminfo_line at 2. destruct st as [t a].
  by rewrite H1, H2.
Qed.

(** The memory figures.  On a [/proc/meminfo] that gives the total before the available
    memory, as the kernel does, total and used are those of the kernel in bytes, with
    [0 <= used < total]; without the second, which kernels before 3.14 do not
    give, nothing counts as used. *)
Theorem memory_figures (text T A t a : string) (l1 l2 l3 Tr Ar : list string) :
  Forall (fun l => mem_line l = false) (l1 ++ l2 ++ l3) ->
  HasPrefix T "MemTotal:" = true -> Fields T = "MemTotal:" :: t :: Tr ->
  0 < ParseInt_value t -> ParseInt_value t * 1024 < 2 ^ 63 ->
  (scan_tokens (Split text newline) = l1 ++ [T] ++ l2 ->
     getSystemMemory (Ok text) = (ParseInt_value t * 1024, 0)) /\
  (HasPrefix A "MemTotal:" = false -> HasPrefix A "MemAvailable:" = true ->
   Fields A = "MemAvailable:" :: a :: Ar -> 0 < ParseInt_value a <= ParseInt_value t ->
   scan_tokens (Split text newline) = l1 ++ [T] ++ l2 ++ [A] ++ l3 ->
     let '(total, used) := getSystemMemory (Ok text) in
     total = ParseInt_value t * 1024 /\
     used = (ParseInt_value t - ParseInt_value a) * 1024 /\ 0 <= used < total).
Proof.
  intros Hl HT Ft Hpos Hmax. rewrite !Forall_app in Hl. destruct Hl as (H1 & H2 & H3).
  assert (ET : forall st, meminfo_line st T = (ParseInt_value t * 1024, st.2)).
  { intros [x y]. unfold meminfo_line. rewrite HT. unfold second_field_kB. rewrite Ft.
    rewrite wrap64_id by (unfold int64_range; lia). done. }
  split.
  - intros E. unfold getSystemMemory. rewrite E, !foldl_app, (meminfo_others l1) by done.
    cbn [foldl]. rewrite ET, meminfo_others by done. done.
  - intros HA1 HA2 Fa Ha E. unfold getSystemMemory.
    rewrite E, !foldl_app, (meminfo_others l1) by done. cbn [foldl].
    rewrite ET, (meminfo_others l2) by done. cbn [snd].
    unfold meminfo_line at 2. rewrite HA1, HA2. unfold second_field_kB. rewrite Fa.
    rewrite wrap64_id by (unfold int64_range; lia). rewrite meminfo_others by done.
    rewrite (proj2 (Z.eqb_neq _ _)) by lia. rewrite wrap64_id by (unfold int64_range; lia). lia.
Qed.

(** ** Witnesses *)

Definition sample_api (server : option server_view) (client : option client_view) : api_input :=
  mkApiInput "server" "3.6.13" 0 (90 * Second) (1, 2) (Err EOF) 1048576 zero_Stats
    (mkTraffic 0 0 0 0) (Err EOF) 0 (-1) server client.

Lemma api_stats_typed_witness :
  exists resp,
    handleAPIStats (sample_api (Some (mkServerView [("10.0.0.1:5", Some (3, false)); ("x", None)])) None)
      = Done resp /\ has_type page_type (JObj resp) = true /\
    assoc "server" resp = Some (JObj [("sessions",
      JArr [JObj [("addr", JStr (Lit "10.0.0.1:5")); ("streams", JInt 3); ("closed", JBool false)]]);
      ("count", JInt 1)]).
Proof.
  destruct (api_stats_typed
    (sample_api (Some (mkServerView [("10.0.0.1:5", Some (3, false)); ("x", None)])) None))
    as (resp & H1 & H2); [vm_compute; split; [discriminate|reflexivity]..|].
  exists resp. split; [exact H1|]. split; [exact H2|].
  vm_compute in H1. injection H1 as <-. vm_compute. reflexivity.
Defined.
