(* ===== verification/Monitors.v ===== *)
(** * The dashboard's state and its monitors ([dashboardState], [StartDashboard] and the
      [start...Monitor] loops of [dashboard.go])

    [StartDashboard] fills [dashState] and starts three loops that write to it for ever,
    each at its own pace.  [Dashboard] and [StatsApi] have what one round computes; here
    the rounds of the three interleave. *)

From S2P Require Import Prelude GoStrings ConfigTypes Dashboard StatsApi.

Local Open Scope string_scope.
Local Open Scope list_scope.
Local Open Scope Z_scope.

(** [dashboardState], less the pointers to the client and the server; [ds_cpuUsage] is a
    quotient, [None] for 0. *)
Record dashboardState := mkDashState {
  ds_mode : string;
  ds_version : string;
  ds_startTime : Z;
  ds_cfg : DashboardConfig;
  ds_latency : Z;
  ds_cpuUsage : option (Z * Z);
  ds_cpu : cpu_state;
  ds_traffic : traffic
}.
#[export] Instance eta_dashboardState : Eta dashboardState := fun d =>
  mkDashState d.(ds_mode) d.(ds_version) d.(ds_startTime) d.(ds_cfg) d.(ds_latency)
    d.(ds_cpuUsage) d.(ds_cpu) d.(ds_traffic).

(** The [dashState] that [StartDashboard] sets at time [now], if the dashboard is enabled. *)
Definition dash_started (cfg : DashboardConfig) (mode version : string) (now : Z)
    : option dashboardState :=
  if cfg.(Dash_Enabled) then
    Some (mkDashState mode version now (dashboard_defaults cfg) 0 None (mkCPU 0 0)
            (mkTraffic 0 0 0 0))
  else None.

(** A round of one of the loops: what the dial, [/proc/stat] or the counters gave it. *)
Inductive round :=
| PingRound (rtt : result Z)
| CpuRound (stat : result string)
| TrafficRound (snap : Z * Z).

Definition do_round (d : dashboardState) (r : round) : dashboardState :=
  match r with
  | PingRound rtt => d <| ds_latency := ping rtt |>
  | CpuRound stat =>
      let '(usage, st) := calculateCPU stat d.(ds_cpu) in
      d <| ds_cpuUsage := usage |> <| ds_cpu := st |>
  | TrafficRound snap => d <| ds_traffic ::= fun t => traffic_tick t snap |>
  end.

(** What the rounds of each loop read. *)
Definition pings (l : list round) : list (result Z) :=
  omap (fun r => match r with PingRound x => Some x | _ => None end) l.
Definition stats_read (l : list round) : list (result string) :=
  omap (fun r => match r with CpuRound x => Some x | _ => None end) l.
Definition snaps_taken (l : list round) : list (Z * Z) :=
  omap (fun r => match r with TrafficRound x => Some x | _ => None end) l.

(** The loops of the CPU and the traffic monitor, each alone. *)
Definition cpu_loop (l : list (result string)) (st : option (Z * Z) * cpu_state)
    : option (Z * Z) * cpu_state :=
  foldl (fun st stat => calculateCPU stat st.2) st l.
Definition traffic_loop (l : list (Z * Z)) (t : traffic) : traffic := foldl traffic_tick t l.

(** The monitors do not disturb each other: in every interleaving of their rounds, each
    part of the state is what its own loop makes of what it has read, and the rest is as
    [StartDashboard] left it. *)
Theorem monitors_independent (d : dashboardState) (l : list round) :
  let d' := foldl do_round d l in
  d'.(ds_latency) = default d.(ds_latency) (ping <$> last (pings l)) /\
  (d'.(ds_cpuUsage), d'.(ds_cpu)) = cpu_loop (stats_read l) (d.(ds_cpuUsage), d.(ds_cpu)) /\
  d'.(ds_traffic) = traffic_loop (snaps_taken l) d.(ds_traffic) /\
  d'.(ds_cfg) = d.(ds_cfg) /\ d'.(ds_mode) = d.(ds_mode) /\ d'.(ds_startTime) = d.(ds_startTime).
Proof.
  revert d. induction l as [|r l IH]; intros d; [done|]. cbn [foldl].
  destruct (IH (do_round d r)) as (H1 & H2 & H3 & H4 & H5 & H6).
  rewrite H1, H2, H3, H4, H5, H6. destruct r as [rtt|stat|snap].
  - change (pings (PingRound rtt :: l)) with (rtt :: pings l). rewrite last_cons.
    by destruct (last (pings l)).
  - change (stats_read (CpuRound stat :: l)) with (stat :: stats_read l). cbn -[calculateCPU].
    by destruct (calculateCPU stat (ds_cpu d)).
  - done.
Qed.

(** A started dashboard after two pings and a tick. *)
Example monitors_run :
  let d := default (mkDashState "" "" 0 zero_DashboardConfig 0 None (mkCPU 0 0) (mkTraffic 0 0 0 0))
    (dash_started (zero_DashboardConfig <| Dash_Enabled := true |>) "server" "3.6" 5) in
  let d' := foldl do_round d [PingRound (Ok 80); TrafficRound (1000, 20); PingRound (Err EOF)] in
  (d'.(ds_latency), d'.(ds_traffic).(speedDown), d'.(ds_traffic).(speedUp), d'.(ds_cfg).(Dash_User))
  = (-1, 1000, 20, "admin").
Proof. vm_compute. reflexivity. Qed.
