(* ===== verification/Panel.v ===== *)
(** * The other handlers of the dashboard ([dashboard.go])

    The log stream ([handleLogsStream]) with what the page's [EventSource] makes of it,
    the restart button ([handleRestartAPI]), the static page ([handleDashboardPage]), and
    the dashboard as a whole: what a request may change.  [journalctl], [systemctl] and
    the file system are arguments. *)

From stdpp Require Import gmap strings.
From S2P Require Import Prelude GoStrings GoBytes ConfigTypes Relay Dashboard StatsApi.
From Stdlib Require Import Ascii Init.Byte.

Local Open Scope string_scope.
Local Open Scope list_scope.
Local Open Scope Z_scope.

(** ** The log stream *)

Inductive log_event :=
| LogHeader (key value : string)
| LogCommand (service : string)
| LogWrite (s : string)
| LogFlush
| LogKill.

(** What [StdoutPipe] and [Start] return, and what [journalctl] prints while it lives. *)
Record journal := mkJournal {
  j_pipe : option error;
  j_start : option error;
  j_output : string
}.

(** [handleLogsStream]: the process is killed once the request's context is done, at the
    latest when the handler returns. *)
Definition frame (msg : string) : string :=
  String.append "data: " (String.append msg (String.append newline newline)).
Definition handleLogsStream (mode : string) (j : journal) : list log_event :=
  [LogHeader "Content-Type" "text/event-stream"; LogHeader "Cache-Control" "no-cache";
   LogHeader "Connection" "keep-alive"] ++
  match j.(j_pipe) with
  | Some _ => []
  | None =>
      match j.(j_start) with
      | Some _ => []
      | None =>
          [LogCommand (String.append "picotun-" mode)] ++
          concat (map (fun msg => [LogWrite (frame msg); LogFlush])
                      (scan_tokens (Split j.(j_output) newline))) ++
          [LogKill]
      end
  end.

Definition log_body (t : list log_event) : string :=
  foldr (fun e s => match e with LogWrite w => String.append w s | _ => s end) EmptyString t.

(** ** The page's [EventSource]

    The event stream format of the HTML standard, for streams of [data] fields: lines end
    with LF, CR or CRLF, an empty line dispatches the message collected so far. *)
Fixpoint event_lines (cur s : string) : list string :=
  match s with
  | EmptyString => []
  | String "013" (String "010" s) => cur :: event_lines EmptyString s
  | String "013" s => cur :: event_lines EmptyString s
  | String "010" s => cur :: event_lines EmptyString s
  | String c s => event_lines (String.append cur (String c EmptyString)) s
  end.
Definition event_data (line : string) : option string :=
  if HasPrefix line "data:" then Some (TrimPrefix (TrimPrefix line "data:") " ")
  else if decide (line = "data") then Some EmptyString else None.
Fixpoint event_messages (buf : option string) (lines : list string) : list string :=
  match lines with
  | [] => []
  | line :: lines =>
      if decide (line = EmptyString) then
        match buf with
        | Some d => d :: event_messages None lines
        | None => event_messages None lines
        end
      else
        match event_data line with
        | Some v =>
            event_messages (Some match buf with
                                 | Some d => String.append d (String.append newline v)
                                 | None => v
                                 end) lines
        | None => event_messages buf lines
        end
  end.

(** What [es.onmessage] sees. *)
Definition page_messages (body : string) : list string :=
  event_messages None (event_lines EmptyString body).

(** ** Restart and page *)

(** [handleRestartAPI]: the body, and the service [systemctl] restarts half a second
    later. *)
Definition handleRestartAPI (mode method : string) : string * list string :=
  if decide (method = "POST") then ("restarting", [String.append "picotun-" mode])
  else (EmptyString, []).

(** [handleDashboardPage]: the static files, once [setup.sh] has installed them. *)
Inductive static_page := NotInstalled | FromDir (dir path : string).
Definition handleDashboardPage (installed : bool) (path : string) : static_page :=
  if installed then FromDir "/var/lib/picotun/dashboard" path else NotInstalled.

(** ** The dashboard *)

(** [StartDashboard]: the settings it serves with, if it is enabled. *)
Definition StartDashboard (cfg : DashboardConfig) : option DashboardConfig :=
  if cfg.(Dash_Enabled) then Some (dashboard_defaults cfg) else None.

Record dash_request := mkDashReq {
  dr_method : string;
  dr_path : string;
  dr_cookie : option string;
  dr_accept : string;
  dr_body : result (list byte)
}.

(** The route of a clean path: its own pattern, or the one that matches every path. *)
Definition dash_route (path : string) : page * bool :=
  match assoc path dashboard_routes with Some r => r | None => (PageDashboard, true) end.

(** One request: whether a handler got it, the files, the services to restart. *)
Definition dash_serve (yaml_ok : list byte -> bool) (write : write_result) (mode : string)
    (r : dash_request) (fs : files) : reply * files * list string :=
  let '(pg, protected) := dash_route r.(dr_path) in
  match guard protected r.(dr_cookie) r.(dr_accept) with
  | Next =>
      match pg with
      | PageConfig =>
          let '(_, fs) := handleConfigAPI yaml_ok write mode r.(dr_method) r.(dr_body) fs in
          (Next, fs, [])
      | PageRestart => (Next, fs, (handleRestartAPI mode r.(dr_method)).2)
      | PageDashboard | PageLogin | PageStats | PageLogs => (Next, fs, [])
      end
  | refused => (refused, fs, [])
  end.

(** ** Lemmas *)

(** Text without line breaks. *)
Definition one_line (s : string) : bool := negb (has_char "010" s) && negb (has_char "013" s).

Definition lines_text (ls : list string) (rest : string) : string :=
  foldr (fun l s => String.append l (String.append newline s)) rest ls.

Lemma one_line_cons (c : ascii) (s : string) :
  one_line (String c s) = true -> c <> "010"%char /\ c <> "013"%char /\ one_line s = true.
Proof.
  unfold one_line. rewrite !has_char_cons. intros H.
  destruct (Ascii.eqb_spec c "010"), (Ascii.eqb_spec c "013"); cbn in H; try done.
  by rewrite ?andb_false_r in H.
Qed.

Lemma drop_cr_one_line (s : string) : one_line s = true -> drop_cr s = s.
Proof.
  induction s as [|c s IH]; [done|]. intros (H1 & H2 & H3)%one_line_cons. cbn.
  rewrite (IH H3). destruct c as [[] [] [] [] [] [] [] []]; try done; by destruct s.
Qed.

Lemma Split_line (l rest : string) :
  one_line l = true ->
  Split (String.append l (String.append newline rest)) newline = l :: Split rest newline.
Proof.
  intros Hl. apply andb_prop in Hl as [Hl%negb_true_iff _].
  rewrite Split_cut by done. change (String.append newline rest) with (String "010" rest).
  unfold newline at 1. by rewrite cut_char_app.
Qed.

Lemma Split_ne (s sep : string) : Split s sep <> [].
Proof. unfold Split. destruct (String.length s); cbn; [done|]. by destruct (cut sep s) as [[]|]. Qed.

Lemma scan_tokens_lines (ls : list string) (rest : string) :
  Forall (fun l => one_line l = true /\ slen l < max_token) ls ->
  scan_tokens (Split (lines_text ls rest) newline) = ls ++ scan_tokens (Split rest newline).
Proof.
  induction 1 as [|l ls [H1 H2] _ IH]; [done|]. cbn [lines_text foldr].
  rewrite Split_line by done. fold (lines_text ls rest).
  rewrite scan_tokens_cons by apply Split_ne.
  apply Z.ltb_lt in H2 as ->. by rewrite IH, drop_cr_one_line.
Qed.

(** A line of the event stream, up to its line feed. *)
Lemma event_lines_line (cur s rest : string) :
  one_line s = true ->
  event_lines cur (String.append s (String.append newline rest)) =
  String.append cur s :: event_lines EmptyString rest.
Proof.
  revert cur. induction s as [|c s IH]; intros cur; [by rewrite sapp_nil_r|].
  intros (H1 & H2 & H3)%one_line_cons.
  transitivity (event_lines (String.append cur (String c EmptyString))
                  (String.append s (String.append newline rest))).
  { cbn [String.append event_lines]. by destruct c as [[] [] [] [] [] [] [] []]. }
  rewrite IH by done. by rewrite <- sapp_assoc.
Qed.

Lemma event_data_frame (msg : string) : event_data (String.append "data: " msg) = Some msg.
Proof.
  change (String.append "data: " msg) with (String.append "data:" (String.append " " msg)).
  unfold event_data. by rewrite HasPrefix_app, !TrimPrefix_app.
Qed.

(** A frame is one message. *)
Lemma page_messages_frame (msg rest : string) :
  one_line msg = true ->
  event_messages None (event_lines EmptyString (String.append (frame msg) rest)) =
  msg :: event_messages None (event_lines EmptyString rest).
Proof.
  intros Hm. unfold frame. rewrite <- !sapp_assoc.
  rewrite (sapp_assoc "data: " msg), event_lines_line by done.
  change (event_lines EmptyString (String.append newline rest))
    with (EmptyString :: event_lines EmptyString rest).
  change (String.append EmptyString ?s) with s.
  cbn [event_messages]. by rewrite decide_False, event_data_frame.
Qed.

Lemma log_body_app (t u : list log_event) :
  log_body (t ++ u) = String.append (log_body t) (log_body u).
Proof.
  induction t as [|e t IH]; [done|]. unfold log_body in *. cbn [app foldr]. rewrite IH.
  destruct e; [done..| |done|done]. by rewrite sapp_assoc.
Qed.

Lemma page_messages_frames (msgs : list string) :
  Forall (fun m => one_line m = true) msgs ->
  page_messages (log_body (concat (map (fun msg => [LogWrite (frame msg); LogFlush]) msgs))) = msgs.
Proof.
  induction 1 as [|m msgs Hm _ IH]; [done|]. cbn [map concat]. rewrite log_body_app.
  unfold page_messages in *. change (log_body [_; _]) with (String.append (frame m) EmptyString).
  rewrite sapp_nil_r, page_messages_frame by done. by rewrite IH.
Qed.

(** The messages of a stream that was started. *)
Lemma logs_started (mode out : string) (msgs : list string) :
  scan_tokens (Split out newline) = msgs -> Forall (fun m => one_line m = true) msgs ->
  page_messages (log_body (handleLogsStream mode (mkJournal None None out))) = msgs.
Proof.
  intros <- Hm. unfold handleLogsStream. cbn [j_pipe j_start j_output].
  rewrite !log_body_app. cbn [log_body foldr]. rewrite sapp_nil_r.
  by apply page_messages_frames.
Qed.

(** A file is changed only by a save of the configuration, or by one that fails half-way. *)
Lemma handleConfigAPI_saves (yaml_ok : list byte -> bool) (write : write_result)
    (mode method : string) (body : result (list byte)) (fs : files) :
  let fs' := (handleConfigAPI yaml_ok write mode method body fs).2 in
  fs' = fs \/
  method = "POST" /\
  exists b, body = Ok b /\ yaml_ok b = true /\ b <> [] /\
    (write = Written /\ fs' = <[config_path mode fs := b]> fs \/
     exists n e, write = CutShort n e /\ fs' = <[config_path mode fs := take n b]> fs).
Proof.
  unfold handleConfigAPI. case_decide; [|by destruct (fs !! _); left].
  destruct body as [b|e]; [|by left]. destruct (Z.eqb_spec (zlen b) 0); [by left|].
  destruct (yaml_ok b) eqn:Ey; [|by left]. destruct write as [|e|k e]; [|by left|]; right;
    (split; [done|]); exists b; (split; [done|]; split; [done|]; split; [by intros ->|]).
  - by left.
  - right. by exists k, e.
Qed.

(** Which requests reach the two handlers that change something. *)
Lemma dash_route_config (path : string) (p : bool) :
  dash_route path = (PageConfig, p) -> path = "/api/config" /\ p = true.
Proof. unfold dash_route. cbn. repeat case_decide; by intros [= <-]. Qed.
Lemma dash_route_restart (path : string) (p : bool) :
  dash_route path = (PageRestart, p) -> path = "/api/restart" /\ p = true.
Proof. unfold dash_route. cbn. repeat case_decide; by intros [= <-]. Qed.
Lemma dash_route_open (path : string) (pg : page) :
  dash_route path = (pg, false) -> path = "/login" /\ pg = PageLogin.
Proof. unfold dash_route. cbn. repeat case_decide; by intros [= <-]. Qed.

(** ** Properties *)

(** C28: The log view shows the log.  Through the scanner, the frames of the event stream
    and the page's [EventSource], the lines [journalctl] prints arrive one message each,
    in order and unchanged, empty lines included, whether or not the last one is
    terminated; a line of 64 KiB or more ends the stream, and nothing after it is shown.
    The process is killed exactly when it was started. *)
Theorem logs_roundtrip (mode rest : string) (ls : list string) (j : journal) :
  Forall (fun l => one_line l = true /\ slen l < max_token) ls -> one_line rest = true ->
  (slen rest < max_token ->
     page_messages (log_body (handleLogsStream mode (mkJournal None None (lines_text ls rest)))) =
     ls ++ (if decide (rest = EmptyString) then [] else [rest])) /\
  (forall more, max_token <= slen rest ->
     page_messages (log_body (handleLogsStream mode
       (mkJournal None None (lines_text (ls ++ [rest]) more)))) = ls) /\
  (LogKill ∈ handleLogsStream mode j <->
     LogCommand (String.append "picotun-" mode) ∈ handleLogsStream mode j).
Proof.
  intros Hls Hrest.
  assert (Hms : Forall (fun m => one_line m = true) ls)
    by (eapply Forall_impl; [exact Hls|]; by intros l [? _]).
  assert (Hlast : Split rest newline = [rest]).
  { rewrite Split_cut by done. destruct (cut newline rest) as [[a b]|] eqn:E; [|done].
    exfalso. apply andb_prop in Hrest as [Hr%negb_true_iff _].
    apply cut_char_none in Hr. unfold newline in E. by rewrite Hr in E. }
  split; [|split].
  - intros Hlen. apply logs_started.
    + rewrite scan_tokens_lines, Hlast by done. cbn. apply Z.ltb_lt in Hlen as ->.
      by rewrite drop_cr_one_line.
    + apply Forall_app. split; [done|]. by case_decide; repeat constructor.
  - intros more Hlen. apply logs_started; [|done].
    replace (lines_text (ls ++ [rest]) more)
      with (lines_text ls (String.append rest (String.append newline more)))
      by (unfold lines_text; by rewrite foldr_app).
    rewrite scan_tokens_lines, Split_line by done.
    rewrite scan_tokens_cons by apply Split_ne.
    apply Z.ltb_ge in Hlen as ->. by rewrite app_nil_r.
  - destruct j as [[p|] [s|] out]; unfold handleLogsStream; cbn [j_pipe j_start];
      rewrite !elem_of_app, ?elem_of_cons, ?elem_of_nil; [naive_solver..|].
    split; intros _; [right; left; left|right; right; right; left]; done.
Qed.

Lemma logs_roundtrip_witness :
  page_messages (log_body (handleLogsStream "server"
    (mkJournal None None (lines_text ["started"; ""; "[WARN] x"] "tail")))) =
  ["started"; ""; "[WARN] x"; "tail"].
Proof.
  destruct (logs_roundtrip "server" "tail" ["started"; ""; "[WARN] x"] (mkJournal None None ""))
    as (H & _ & _); [|reflexivity|].
  - repeat constructor.
  - exact (H ltac:(reflexivity)).
Defined.

(** C27: What the dashboard lets happen.  A request changes a file or restarts the service
    only if it is a POST that carries a non-empty [session_token]; then a POST to
    [/api/config] changes at most the configuration file of the mode, only if the
    request's body is a text YAML accepts, to that body or, when the write fails half-way,
    to a beginning of it, and restarts nothing; and a POST to [/api/restart] restarts the
    service of the mode and changes no file.  Without a cookie only the login page is
    served. *)
Theorem dashboard_effects (yaml_ok : list byte -> bool) (write : write_result) (mode : string)
    (r : dash_request) (fs : files) :
  let '(rep, fs', services) := dash_serve yaml_ok write mode r fs in
  (fs' <> fs \/ services <> [] ->
     r.(dr_method) = "POST" /\ exists v, r.(dr_cookie) = Some v /\ v <> EmptyString) /\
  (fs' <> fs ->
     r.(dr_path) = "/api/config" /\ services = [] /\
     exists body, r.(dr_body) = Ok body /\ yaml_ok body = true /\ body <> [] /\
       (write = Written /\ fs' = <[config_path mode fs := body]> fs \/
        exists n e, write = CutShort n e /\ fs' = <[config_path mode fs := take n body]> fs)) /\
  (services <> [] ->
     r.(dr_path) = "/api/restart" /\ services = [String.append "picotun-" mode] /\ fs' = fs) /\
  (r.(dr_cookie) = None -> rep = Next -> r.(dr_path) = "/login").
Proof.
  unfold dash_serve. destruct (dash_route (dr_path r)) as [pg protected] eqn:Er.
  destruct (guard protected (dr_cookie r) (dr_accept r)) eqn:Eg; [|naive_solver..].
  assert (Hsess : protected = true -> exists v, r.(dr_cookie) = Some v /\ v <> EmptyString)
    by (intros ->; by apply authMiddleware_next in Eg).
  assert (Hopen : r.(dr_cookie) = None -> r.(dr_path) = "/login").
  { intros Hno. destruct protected; [by destruct (Hsess eq_refl) as (v & ? & _); simplify_eq|].
    by apply dash_route_open in Er as [-> _]. }
  destruct pg; [naive_solver..| |].
  - apply dash_route_config in Er as [Hp ->].
    pose proof (handleConfigAPI_saves yaml_ok write mode (dr_method r) (dr_body r) fs) as Hs.
    destruct (handleConfigAPI _ _ _ _ _ _) as [rep fs']. cbn in Hs. naive_solver.
  - apply dash_route_restart in Er as [Hp ->].
    unfold handleRestartAPI. case_decide; naive_solver.
Qed.

Definition restart_request : dash_request :=
  mkDashReq "POST" "/api/restart" (Some "x") "*/*" (Err EOF).
Lemma dashboard_effects_witness :
  (dash_serve (fun _ => true) Written "server" restart_request ∅).2 = ["picotun-server"] /\
  exists v, restart_request.(dr_cookie) = Some v /\ v <> EmptyString.
Proof.
  pose proof (dashboard_effects (fun _ => true) Written "server" restart_request ∅) as H.
  assert (E : (dash_serve (fun _ => true) Written "server" restart_request ∅).2 = ["picotun-server"])
    by reflexivity.
  split; [exact E|]. destruct (dash_serve _ _ _ _ _) as [[rep fs'] services]. cbn in E. subst.
  destruct H as (H & _). by destruct H as [_ H]; [right|].
Defined.
