(* ===== verification/Startup.v ===== *)
(** * From the configuration file to running parts ([main.go], [Server.Start], [Client.Start])

    What [main] starts for a configuration file: the listeners and routes of a server, the
    workers, frame level and DNS proxy of a client.  What the started goroutines do until [Start]
    returns is in [ServerLife] and [ClientLife]; the flag package is left out. *)

From stdpp Require Import strings list.
From S2P Require Import Prelude GoStrings NetAddr ConfigTypes Config PoolWorker Mimic.
From Stdlib Require Import Ascii Init.Byte.

Local Open Scope string_scope.
Local Open Scope list_scope.
Local Open Scope Z_scope.

(** ** Definitions *)

Inductive proto := ProtoTCP | ProtoUDP.

(** The reverse listeners of [Server.Start]: protocol, bind address and target. *)
Definition server_listeners (cfg : Config) : list (proto * (string * string)) :=
  map (pair ProtoTCP) (omap SplitMap cfg.(cfg_Forward).(Fwd_TCP)) ++
  map (pair ProtoUDP) (omap SplitMap cfg.(cfg_Forward).(Fwd_UDP)).

(** What [Server.Start] starts before it serves: the listeners, and the routes of the HTTP
    server, whose registration can panic. *)
Record server_plan := mkServerPlan {
  sp_listeners : list (proto * (string * string));
  sp_routes : list (string * handler)
}.
Definition server_start (cfg : Config) : outcome server_plan :=
  mux ← routes (Some cfg.(cfg_Mimic));
  Done (mkServerPlan (server_listeners cfg) mux).

(** The addresses of the DNS proxy that [Client.Start] starts, if it does. *)
Definition dns_proxy (cfg : Config) : option (string * string) :=
  if cfg.(cfg_DNS).(DNS_Enabled) then
    Some (str_or "127.0.0.1:53" cfg.(cfg_DNS).(DNS_Listen),
          str_or "8.8.8.8:53" cfg.(cfg_DNS).(DNS_Upstream))
  else None.

(** What [Client.Start] starts before it waits. *)
Record client_plan := mkClientPlan {
  cp_paths : list PathConfig;
  cp_workers : Z;
  cp_frameLevel : Z;
  cp_dns : option (string * string)
}.
Definition client_start (cfg : Config) : result client_plan :=
  let paths := client_paths cfg in
  poolSize ← pool_size paths;
  Ok (mkClientPlan paths poolSize (initial_frame_level cfg) (dns_proxy cfg)).

(** The flags of [main]. *)
Record flags := mkFlags { fl_version : bool; fl_config : string; fl_c : string }.
Definition default_flags : flags := mkFlags false "/etc/picotun/config.yaml" EmptyString.

Inductive main_plan :=
| MainVersion
| MainFatal (e : error)
| MainServer (cfg : Config) (start : outcome server_plan)
| MainClient (cfg : Config) (start : result client_plan).

Section WithUnicode.
Context `{UnicodeTables}.

(** [main()] up to its final [select]; [load] is [LoadConfig] on the named file. *)
Definition main_run (fl : flags) (load : string -> result Config) : main_plan :=
  if fl.(fl_version) then MainVersion
  else
    let cfgPath := if decide (fl.(fl_c) = EmptyString) then fl.(fl_config) else fl.(fl_c) in
    match load cfgPath with
    | Err e => MainFatal (Errorf "config: %v" [ArgErr e])
    | Ok cfg =>
        let mode := ToLower (TrimSpace cfg.(cfg_Mode)) in
        if decide (mode = "server") then MainServer cfg (server_start cfg)
        else if decide (mode = "client") then MainClient cfg (client_start cfg)
        else MainFatal (Errorf "unknown mode: %q (expected server/client)" [ArgStr cfg.(cfg_Mode)])
    end.
End WithUnicode.

(** ** Lemmas *)

Section Finalized.
Context `{UnicodeTables}.

(** The passes of [LoadConfig] fill in the forwarding rules and keep the server's URL. *)
Lemma finalize_forward (c : Config) :
  (finalize c).(cfg_Forward) = fill_forward c.(cfg_Maps) c.(cfg_Forward) /\
  (finalize c).(cfg_ServerURL) = c.(cfg_ServerURL).
Proof.
  unfold finalize, applyProfile, chosen_profile. repeat case_decide; split; reflexivity.
Qed.

Lemma finalize_paths_nil (c : Config) : (finalize c).(cfg_Paths) = [] <-> c.(cfg_Paths) = [].
Proof.
  unfold finalize, applyProfile, chosen_profile.
  repeat case_decide; cbn; (split; [apply map_eq_nil|by intros ->]).
Qed.

(** Every path of a loaded client configuration has an address to dial. *)
Lemma client_paths_addressed (c0 : Config) :
  let c := finalize (normalize_strings c0) in
  wf_config c -> c.(cfg_Mode) = "client" ->
  client_paths c <> [] /\ Forall (fun p => TrimSpace p.(Path_Addr) <> EmptyString) (client_paths c).
Proof.
  intros c ([[Hs _]|(_ & Hsome & Haddr)] & _) Hm; [by rewrite Hs in Hm|].
  assert (Hurl : TrimSpace c.(cfg_ServerURL) = c.(cfg_ServerURL)).
  { unfold c. rewrite (proj2 (finalize_forward _)). apply TrimSpace_idemp. }
  unfold client_paths. destruct (decide _) as [[Hp Hu]|Hn].
  - split; [done|]. constructor; [|done]. change (TrimSpace c.(cfg_ServerURL) <> EmptyString). by rewrite Hurl.
  - split; [|done]. intros Hp. apply Hn. split; [done|]. by destruct Hsome.
Qed.
End Finalized.

(** ** Properties *)

(** The part of the fake path that becomes the tunnel's route. *)
Definition route_prefix (c : Config) : string := before_brace (mimicPath (Some c.(cfg_Mimic))).

Lemma server_start_cases (c : Config) :
  match server_start c with
  | Done plan => good_prefix (route_prefix c) /\ plan.(sp_listeners) = server_listeners c /\
      (route_prefix c, Tunnel) ∈ plan.(sp_routes) /\ ("/", Decoy) ∈ plan.(sp_routes)
  | Panic p => p = BadRoute /\ ~ good_prefix (route_prefix c)
  end.
Proof.
  unfold server_start. destruct (decide (good_prefix (route_prefix c))) as [Hg|Hb].
  - rewrite (routes_done (Some (cfg_Mimic c)) Hg). cbn. split; [done|]. split; [done|].
    fold (route_prefix c). case_decide as E; [rewrite E|]; set_solver.
  - by rewrite (routes_panic (Some (cfg_Mimic c)) Hb).
Qed.

(** C24: What becomes of a configuration file.  [main] reports the error of [LoadConfig], or it
    goes on to a server with an address to listen on, or to a client: never with an
    unknown mode or without paths.  A server starts its listeners and its routes exactly
    if the fake path, up to its first brace, is neither [/], which is registered again for
    the decoy, nor has white space in it; on every other one that [LoadConfig] has
    accepted, [Start] panics (percent escapes left aside).  A client has at least one
    worker, an address to dial on every path, a frame level in the table, and a DNS proxy
    with both addresses if DNS is enabled. *)
Theorem main_starts `{UnicodeTables} (fl : flags)
    (unmarshal : list byte -> Config -> result Config) (read : string -> result (list byte)) :
  fl.(fl_version) = false ->
  let path := if decide (fl.(fl_c) = EmptyString) then fl.(fl_config) else fl.(fl_c) in
  match LoadConfig unmarshal (read path), main_run fl (fun p => LoadConfig unmarshal (read p)) with
  | Err e, p => p = MainFatal (Errorf "config: %v" [ArgErr e])
  | Ok c, MainServer c' start =>
      c' = c /\ c.(cfg_Mode) = "server" /\ c.(cfg_Listen) <> EmptyString /\
      (has_char "%" (route_prefix c) = false ->
       match start with
       | Done plan => good_prefix (route_prefix c) /\ plan.(sp_listeners) = server_listeners c /\
           (route_prefix c, Tunnel) ∈ plan.(sp_routes) /\ ("/", Decoy) ∈ plan.(sp_routes)
       | Panic p => p = BadRoute /\ ~ good_prefix (route_prefix c)
       end)
  | Ok c, MainClient c' (Ok plan) =>
      c' = c /\ c.(cfg_Mode) = "client" /\ 1 <= plan.(cp_workers) /\ plan.(cp_paths) <> [] /\
      Forall (fun p => TrimSpace p.(Path_Addr) <> EmptyString) plan.(cp_paths) /\
      (plan.(cp_frameLevel) = 0 \/ plan.(cp_frameLevel) = 4) /\
      match plan.(cp_dns) with
      | Some (listen, upstream) => listen <> EmptyString /\ upstream <> EmptyString
      | None => c.(cfg_DNS).(DNS_Enabled) = false
      end
  | Ok _, _ => False
  end.
Proof.
  intros Hv path. unfold main_run. rewrite Hv. fold path.
  destruct (LoadConfig unmarshal (read path)) as [c|e] eqn:El; [|done].
  apply LoadConfig_inv in El as (b & c0 & _ & _ & Hc & Hval). apply Validate_wf in Hval.
  assert (Hmode : (c.(cfg_Mode) = "server" /\ c.(cfg_Listen) <> EmptyString) \/ c.(cfg_Mode) = "client")
    by (destruct Hval as ([?|[? _]] & _); auto).
  destruct Hmode as [[Hm Hl]|Hm]; rewrite Hm.
  { change (ToLower (TrimSpace "server")) with "server". rewrite decide_True by done.
    do 3 (split; [done|]). intros _. apply server_start_cases. }
  change (ToLower (TrimSpace "client")) with "client".
  rewrite decide_False, decide_True by done.
  destruct (client_paths_addressed c0) as [Hne Haddr]; [by rewrite <- Hc|by rewrite <- Hc|].
  rewrite <- Hc in Hne, Haddr. unfold client_start.
  destruct (client_paths c) as [|p ps] eqn:Ep; [done|]. cbn [pool_size mbind result_bind].
  do 2 (split; [done|]). split; [pose proof (pos_or_pos 4 (Path_ConnectionPool p)); cbn; lia|].
  split; [done|]. split; [done|]. split.
  - cbn. unfold initial_frame_level. destruct (32768 <=? _); auto.
  - cbn. unfold dns_proxy. destruct (DNS_Enabled _); [|done]. split; by apply str_or_ne.
Qed.

(** From [maps] to listeners.  When a file has no [forward] rules, the server listens
    for exactly its map entries, in order: the TCP ones (every type but [udp]), then the
    UDP ones ([udp] and [both]), each on its trimmed bind address (on all interfaces if
    it is a bare port) for its trimmed target. *)
Theorem maps_to_listeners `{UnicodeTables} (unmarshal : list byte -> Config -> result Config)
    (text : list byte) (c0 c : Config) :
  unmarshal text preset_Config = Ok c0 -> LoadConfig unmarshal (Ok text) = Ok c ->
  c0.(cfg_Forward) = zero_ForwardConfig -> Forall map_clean c0.(cfg_Maps) ->
  server_listeners c =
    map (fun m => (ProtoTCP, map_rule m)) (List.filter (fun m => negb (udp_map m)) c0.(cfg_Maps)) ++
    map (fun m => (ProtoUDP, map_rule m)) (List.filter (fun m => udp_map m || both_map m) c0.(cfg_Maps)).
Proof.
  intros Hu (b & c1 & [= <-] & Hu' & -> & _)%LoadConfig_inv Hf Hm.
  assert (c1 = c0) as -> by congruence. unfold server_listeners.
  rewrite (proj1 (finalize_forward _)).
  change (cfg_Maps (normalize_strings c0)) with (cfg_Maps c0).
  change (cfg_Forward (normalize_strings c0)) with (cfg_Forward c0).
  rewrite Hf. change (fill_forward (cfg_Maps c0) zero_ForwardConfig)
    with (foldl add_map zero_ForwardConfig (cfg_Maps c0)).
  destruct (foldl_add_map (cfg_Maps c0) zero_ForwardConfig) as [-> ->]. cbn [app Fwd_TCP Fwd_UDP zero_ForwardConfig].
  rewrite !SplitMap_entries by done. by rewrite !map_map.
Qed.

(** ** Witnesses *)

Definition sample_plan : client_plan :=
  match client_start sample_Config with Ok p => p | Err _ => mkClientPlan [] 0 0 None end.

(** A server file with a fake path: good, and one on which [Start] panics although
    [LoadConfig] accepts it. *)
Definition server_file (fake : string) (_ : list byte) (c : Config) : result Config :=
  Ok (c <| cfg_Mode := "server" |> <| cfg_Listen := "0.0.0.0:443" |> <| cfg_PSK := "key" |>
        <| cfg_Mimic # Mimic_FakePath := fake |>).
Example root_path_panics :
  let c := loaded (@LoadConfig ascii_tables (server_file "/{rand}") (Ok [])) in
  @LoadConfig ascii_tables (server_file "/{rand}") (Ok []) = Ok c /\
  server_start c = Panic BadRoute.
Proof. split; vm_compute; reflexivity. Qed.

Lemma main_starts_witness :
  (@main_run ascii_tables default_flags (fun _ => @LoadConfig ascii_tables sample_file (Ok []))
     = MainClient sample_Config (Ok sample_plan) /\ 1 <= sample_plan.(cp_workers)) /\
  exists c plan, @main_run ascii_tables default_flags
      (fun _ => @LoadConfig ascii_tables (server_file "/s/{rand}") (Ok [])) = MainServer c (Done plan) /\
    ("/s/", Tunnel) ∈ plan.(sp_routes).
Proof.
  split.
  - pose proof (@main_starts ascii_tables default_flags sample_file (fun _ => Ok []) eq_refl) as H.
    cbv beta zeta in H.
    assert (E : @LoadConfig ascii_tables sample_file (Ok []) = Ok sample_Config)
      by (vm_compute; reflexivity).
    assert (Em : @main_run ascii_tables default_flags
                   (fun _ => @LoadConfig ascii_tables sample_file (Ok []))
                 = MainClient sample_Config (Ok sample_plan)) by (vm_compute; reflexivity).
    rewrite Em, E in H. split; [exact Em|]. destruct H as (_ & _ & Hw & _). exact Hw.
  - pose proof (@main_starts ascii_tables default_flags (server_file "/s/{rand}") (fun _ => Ok [])
      eq_refl) as H. cbv beta zeta in H.
    set (c := loaded (@LoadConfig ascii_tables (server_file "/s/{rand}") (Ok []))).
    assert (E : @LoadConfig ascii_tables (server_file "/s/{rand}") (Ok []) = Ok c)
      by (vm_compute; reflexivity).
    destruct (server_start c) as [plan|p] eqn:Es; [|vm_compute in Es; discriminate].
    assert (Em : @main_run ascii_tables default_flags
              (fun _ => @LoadConfig ascii_tables (server_file "/s/{rand}") (Ok []))
            = MainServer c (Done plan)) by (rewrite <- Es; vm_compute; reflexivity).
    rewrite Em, E in H. exists c, plan. split; [exact Em|].
    destruct H as (_ & _ & _ & H). destruct (H ltac:(vm_compute; reflexivity)) as (_ & _ & Hr & _).
    exact Hr.
Defined.

Lemma maps_to_listeners_witness :
  server_listeners sample_Config =
  [(ProtoTCP, ("0.0.0.0:80", "web:80")); (ProtoTCP, ("[::1]:9", "x:9"));
   (ProtoUDP, ("0.0.0.0:53", "1.1.1.1:53")); (ProtoUDP, ("[::1]:9", "x:9"))].
Proof.
  assert (Hc : Forall map_clean (cfg_Maps (loaded (sample_file [] preset_Config))))
    by (repeat constructor; vm_compute; first [discriminate | reflexivity]).
  rewrite (@maps_to_listeners ascii_tables sample_file [] (loaded (sample_file [] preset_Config))
             sample_Config eq_refl ltac:(vm_compute; reflexivity) eq_refl Hc).
  vm_compute. reflexivity.
Defined.
