(* ===== verification/ServerLife.v ===== *)
(** * The life of the server ([Server.Start], [startReverseTCP], [startReverseUDP] of
      [server.go], [main] of [main.go])

    [Start] starts a goroutine per reverse listener and one for the session cleanup, counts
    them in a [WaitGroup], runs the HTTP server, and waits for the end of its context or
    of the HTTP server.  All of them interleave with the environment: connections and
    datagrams that arrive, ticks, failing calls, the signal. *)

From stdpp Require Import strings list.
From S2P Require Import Prelude Steps ConfigTypes Config Startup.

Local Open Scope string_scope.
Local Open Scope list_scope.

(** ** State *)

(** Where [startReverseTCP] and [startReverseUDP] are: before [Listen]; it has failed; in
    the loop around [Accept] or [ReadFromUDP]; in the 100 ms after a failed [Accept];
    returned. *)
Inductive lpc := LBinding | LFailed | LServing | LSleeping | LReturned.

(** A reverse listener: its rule, its place, whether the socket is open, and whether the
    goroutine that closes it when the context ends is still to do so. *)
Record listener := mkListener {
  ln_proto : proto;
  ln_bind : string;
  ln_target : string;
  ln_pc : lpc;
  ln_open : bool;
  ln_closer : bool
}.
#[export] Instance eta_listener : Eta listener := fun l =>
  mkListener l.(ln_proto) l.(ln_bind) l.(ln_target) l.(ln_pc) l.(ln_open) l.(ln_closer).

(** The HTTP server's goroutine: serving; failed, its error in [errCh]; shut down, [errCh]
    closed. *)
Inductive http_state := HServing | HFailed (e : error) | HClosed.

(** Where [Start] is: in its [select]; in [srv.Shutdown]; in [wg.Wait]; returned. *)
Inductive start_pc := SSelect | SShutdown | SWait | SReturned (r : option error).

(** [sv_supply] bounds what the environment still does: connections, datagrams, failing
    [Accept]s, ticks of the cleanup.  [sv_handled] are the connections and datagrams that
    were handed on, each with its target. *)
Record World := mkWorld {
  sv_cancelled : bool;
  sv_lns : list listener;
  sv_cleaner : bool;
  sv_http : http_state;
  sv_start : start_pc;
  sv_handled : list (proto * string);
  sv_supply : nat
}.
#[export] Instance eta_World : Eta World := fun w =>
  mkWorld w.(sv_cancelled) w.(sv_lns) w.(sv_cleaner) w.(sv_http) w.(sv_start)
    w.(sv_handled) w.(sv_supply).

(** What [Start] has started when it comes to its [select]. *)
Definition init (cfg : Config) (supply : nat) : World :=
  mkWorld false
    (map (fun '(p, (b, t)) => mkListener p b t LBinding false false) (server_listeners cfg))
    true HServing SSelect [] supply.

(** ** Steps *)

(** [Listen] or [ListenUDP] succeeds. *)
Definition bound (l : listener) : listener :=
  l <| ln_pc := LServing |> <| ln_open := true |> <| ln_closer := true |>.

(** The error branch of the loop: return when the context has ended (the deferred [Close]
    runs), else go on; TCP sleeps first. *)
Definition on_error (cancelled : bool) (l : listener) : listener :=
  if cancelled then l <| ln_pc := LReturned |> <| ln_open := false |>
  else match l.(ln_proto) with
       | ProtoTCP => l <| ln_pc := LSleeping |>
       | ProtoUDP => l
       end.

(** One step of a listener: its next state, how much of the supply it takes, and whether
    it hands something on.  A call on a closed socket fails. *)
Inductive ln_step (cancelled : bool) : listener -> nat -> bool -> listener -> Prop :=
| ln_bind_ok l : l.(ln_pc) = LBinding -> ln_step cancelled l 0 false (bound l)
| ln_bind_fail l : l.(ln_pc) = LBinding -> ln_step cancelled l 0 false (l <| ln_pc := LFailed |>)
| ln_accept l : l.(ln_pc) = LServing -> l.(ln_open) = true -> ln_step cancelled l 1 true l
| ln_transient l : l.(ln_pc) = LServing -> l.(ln_open) = true ->
    ln_step cancelled l 1 false (on_error cancelled l)
| ln_closed l : l.(ln_pc) = LServing -> l.(ln_open) = false ->
    ln_step cancelled l 0 false (on_error cancelled l)
| ln_wake l : l.(ln_pc) = LSleeping -> ln_step cancelled l 0 false (l <| ln_pc := LServing |>)
| ln_close l : cancelled = true -> l.(ln_closer) = true ->
    ln_step cancelled l 0 false (l <| ln_open := false |> <| ln_closer := false |>).

(** The [WaitGroup] is at zero. *)
Definition ln_done (l : listener) : Prop := l.(ln_pc) = LReturned \/ l.(ln_pc) = LFailed.
Definition wg_zero (w : World) : Prop := Forall ln_done w.(sv_lns) /\ w.(sv_cleaner) = false.

Definition http_failed (e : error) : error := Errorf "HTTP server failed: %w" [ArgErr e].

Inductive step : World -> World -> Prop :=
| step_listener w i l cost hand l' :
    w.(sv_lns) !! i = Some l -> ln_step w.(sv_cancelled) l cost hand l' ->
    (cost <= w.(sv_supply))%nat ->
    step w (w <| sv_lns ::= <[i := l']> |>
              <| sv_supply ::= fun n => (n - cost)%nat |>
              <| sv_handled ::= fun h => h ++ if hand then [(l.(ln_proto), l.(ln_target))] else [] |>)
| step_tick w : w.(sv_cleaner) = true -> (0 < w.(sv_supply))%nat ->
    step w (w <| sv_supply ::= pred |>)
| step_cleaner_stop w : w.(sv_cleaner) = true -> w.(sv_cancelled) = true ->
    step w (w <| sv_cleaner := false |>)
| step_http_fail w e : w.(sv_http) = HServing -> step w (w <| sv_http := HFailed e |>)
| step_select_done w : w.(sv_start) = SSelect -> w.(sv_cancelled) = true ->
    step w (w <| sv_start := SShutdown |>)
| step_select_err w e : w.(sv_start) = SSelect -> w.(sv_http) = HFailed e ->
    step w (w <| sv_start := SReturned (Some (http_failed e)) |>)
| step_select_closed w : w.(sv_start) = SSelect -> w.(sv_http) = HClosed ->
    (* the receive from the closed channel gives a nil error, which is wrapped *)
    step w (w <| sv_start := SReturned (Some (Errorf "HTTP server failed: %w" [])) |>)
| step_shutdown w : w.(sv_start) = SShutdown ->
    step w (w <| sv_start := SWait |>
              <| sv_http ::= fun h => match h with HServing => HClosed | _ => h end |>)
| step_waited w : w.(sv_start) = SWait -> wg_zero w ->
    step w (w <| sv_start := SReturned None |>)
| step_cancel w : w.(sv_cancelled) = false -> step w (w <| sv_cancelled := true |>).

Definition reachable (cfg : Config) (w : World) : Prop :=
  exists supply, rtc step (init cfg supply) w.

(** ** [main]

    In its [select]; or the process has ended with this exit code. *)
Inductive main_pc := MSelect | MExit (code : nat).

(** The rest of the program only runs while the process does.  Whatever [Start] returns,
    nil included, goes through [log.Fatalf]. *)
Inductive main_step : World * main_pc -> World * main_pc -> Prop :=
| main_world w w' : step w w' -> main_step (w, MSelect) (w', MSelect)
| main_done w : w.(sv_cancelled) = true -> main_step (w, MSelect) (w, MExit 0)
| main_fatal w r : w.(sv_start) = SReturned r -> main_step (w, MSelect) (w, MExit 1).

(** ** The invariant *)

(** A listener: its socket is open from the bind to the end of its context, and there is
    a goroutine to close it. *)
Definition ln_ok (cancelled : bool) (l : listener) : Prop :=
  match l.(ln_pc) with
  | LBinding | LFailed => l.(ln_open) = false /\ l.(ln_closer) = false
  | LServing | LSleeping =>
      (l.(ln_open) = true -> l.(ln_closer) = true) /\ (cancelled = false -> l.(ln_open) = true)
  | LReturned => l.(ln_open) = false /\ cancelled = true
  end.

Record inv (w : World) : Prop := mkInv {
  inv_ln : Forall (ln_ok w.(sv_cancelled)) w.(sv_lns);
  inv_cleaner : w.(sv_cancelled) = false -> w.(sv_cleaner) = true;
  inv_start : match w.(sv_start) with
    | SSelect => w.(sv_http) <> HClosed
    | SShutdown => w.(sv_cancelled) = true /\ w.(sv_http) <> HClosed
    | SWait => w.(sv_cancelled) = true /\ w.(sv_http) <> HServing
    | SReturned None => w.(sv_cancelled) = true /\ w.(sv_http) <> HServing /\ wg_zero w
    | SReturned (Some e) => exists e', e = http_failed e' /\ w.(sv_http) = HFailed e'
    end
}.

Lemma ln_step_ok (c : bool) (l l' : listener) (cost : nat) (hand : bool) :
  ln_step c l cost hand l' -> ln_ok c l -> ln_ok c l'.
Proof.
  unfold ln_ok. destruct 1 as [l Hp|l Hp|l Hp Ho|l Hp Ho|l Hp Ho|l Hp|l Hc Hcl]; cbn; rewrite ?Hp.
  - done.
  - done.
  - done.
  - unfold on_error. destruct c; [done|]. destruct (ln_proto l); cbn; rewrite ?Hp; naive_solver.
  - unfold on_error. destruct c; [done|]. destruct (ln_proto l); cbn; rewrite ?Hp; naive_solver.
  - done.
  - subst c. destruct (ln_pc l); naive_solver.
Qed.

Lemma ln_ok_cancel (l : listener) : ln_ok false l -> ln_ok true l.
Proof. unfold ln_ok. destruct (ln_pc l); naive_solver. Qed.

(** What is done stays done. *)
Lemma ln_step_done (c : bool) (l l' : listener) (cost : nat) (hand : bool) :
  ln_step c l cost hand l' -> ln_done l -> ln_done l'.
Proof.
  unfold ln_done. destruct 1 as [l Hp|l Hp|l Hp Ho|l Hp Ho|l Hp Ho|l Hp|l Hc Hcl]; cbn; try done;
    rewrite Hp; naive_solver.
Qed.

(** The steps of the listeners and of the cleanup keep what [Start] relies on. *)
Lemma inv_start_frame (w w' : World) :
  inv w -> w'.(sv_start) = w.(sv_start) -> w'.(sv_http) = w.(sv_http) ->
  w'.(sv_cancelled) = w.(sv_cancelled) -> Forall (ln_ok w'.(sv_cancelled)) w'.(sv_lns) ->
  (w'.(sv_cancelled) = false -> w'.(sv_cleaner) = true) -> (wg_zero w -> wg_zero w') -> inv w'.
Proof.
  intros [H1 H2 H3] Hs Hh Hc Hl Hcl Hw. split; [done|done|].
  rewrite Hs, Hh, Hc. destruct (sv_start w) as [| | |[e|]]; naive_solver.
Qed.

Lemma sv_step_inv (w w' : World) : inv w -> step w w' -> inv w'.
Proof.
  intros Hw Hs. destruct Hs as [w i l cost hand l' Hi Hl Hcost|w Hc Hp|w Hc Hx|w e Hh|w Hst Hx
    |w e Hst Hh|w Hst Hh|w Hst|w Hst Hz|w Hx].
  - apply (inv_start_frame w); try done; cbn.
    + apply Forall_insert; [apply Hw|]. eapply ln_step_ok; [exact Hl|].
      apply (Forall_lookup_1 _ _ _ _ (inv_ln w Hw) Hi).
    + apply Hw.
    + intros [Hz Hcl]. split; [|done]. apply Forall_insert; [done|].
      eapply ln_step_done; [exact Hl|]. apply (Forall_lookup_1 _ _ _ _ Hz Hi).
  - apply (inv_start_frame w); try done; apply Hw.
  - apply (inv_start_frame w); try done; [apply Hw|cbn; congruence|by intros []].
  - destruct Hw as [H1 H2 H3]. split; [done|done|]. cbn. rewrite Hh in H3.
    destruct (sv_start w) as [| | |[e'|]]; naive_solver.
  - destruct Hw as [H1 H2 H3]. split; [done|done|]. cbn. rewrite Hst in H3. done.
  - destruct Hw as [H1 H2 H3]. split; [done|done|]. cbn. by exists e.
  - destruct Hw as [H1 H2 H3]. by rewrite Hst in H3.
  - destruct Hw as [H1 H2 H3]. rewrite Hst in H3. split; [done|done|]. cbn.
    split; [apply H3|]. by destruct (sv_http w).
  - destruct Hw as [H1 H2 H3]. rewrite Hst in H3. split; [done|done|]. cbn. naive_solver.
  - destruct Hw as [H1 H2 H3]. split; cbn.
    + rewrite Hx in H1. eapply Forall_impl; [exact H1|]. apply ln_ok_cancel.
    + done.
    + rewrite Hx in H3. destruct (sv_start w) as [| | |[e'|]]; naive_solver.
Qed.

Lemma sv_reachable_inv (cfg : Config) (w : World) : reachable cfg w -> inv w.
Proof.
  intros [n Hr]. eapply (rtc_preserved step inv); [apply sv_step_inv|exact Hr|].
  split; cbn; [|done|done]. apply Forall_map, Forall_forall. by intros [p [b t]].
Qed.

(** ** Termination *)






(** ** Rules *)

(** The rule a listener serves. *)
Definition rule (l : listener) : proto * (string * string) :=
  (l.(ln_proto), (l.(ln_bind), l.(ln_target))).

Lemma ln_step_rule (c : bool) (l l' : listener) (cost : nat) (hand : bool) :
  ln_step c l cost hand l' -> rule l' = rule l.
Proof.
  destruct 1; try done; unfold on_error; destruct c; try done; by destruct (ln_proto l).
Qed.

(** The listeners are always those of the configuration, and what they hand on goes to
    their targets. *)
Definition rules_inv (cfg : Config) (w : World) : Prop :=
  map rule w.(sv_lns) = server_listeners cfg /\
  forall p t, (p, t) ∈ w.(sv_handled) -> exists b, (p, (b, t)) ∈ server_listeners cfg.

Lemma sv_step_rules (cfg : Config) (w w' : World) :
  rules_inv cfg w -> step w w' -> rules_inv cfg w'.
Proof.
  intros [Hr Hh] Hs. destruct Hs as [w i l cost hand l' Hi Hl Hcost| | | | | | | | |]; try done.
  assert (Hin : rule l ∈ server_listeners cfg).
  { rewrite <- Hr. apply list_elem_of_fmap. exists l. split; [done|]. by eapply list_elem_of_lookup_2. }
  split; cbn.
  - rewrite <- Hr. rewrite list_fmap_insert, (ln_step_rule _ _ _ _ _ Hl).
    apply list_insert_id. by rewrite list_lookup_fmap, Hi.
  - intros p t [Hp|Hp]%elem_of_app; [by apply Hh|]. destruct hand; [|by apply elem_of_nil in Hp].
    apply list_elem_of_singleton in Hp as [= -> ->]. by exists (ln_bind l).
Qed.

Lemma sv_reachable_rules (cfg : Config) (w : World) : reachable cfg w -> rules_inv cfg w.
Proof.
  intros [n Hr]. eapply (rtc_preserved step (rules_inv cfg)); [apply sv_step_rules|exact Hr|].
  split; [|intros p t Hp; by apply elem_of_nil in Hp]. cbn. rewrite map_map.
  rewrite <- (map_id (server_listeners cfg)) at 2. apply map_ext. by intros [p [b t]].
Qed.



(** ** Properties *)


(** C25: What [Start] promises in every interleaving.  It returns nil only after its
    context has ended and every listener and the cleanup have returned, with every socket
    closed; it returns an error only when the HTTP server has failed, and then that
    error, never a nil one.  As long as the context has not ended, a failure of the HTTP
    server is what [Start] returns, now or in its next step (once it has ended, [Start] may
    take the shutdown instead, whichever came first).  Until the context ends, a listener that has bound its
    address keeps its socket open and goes on, whatever [Accept] returns; the listeners
    are those of the configuration, and what they accept goes to their targets. *)
Theorem server_start_contract (cfg : Config) (w : World) :
  reachable cfg w ->
  (w.(sv_start) = SReturned None -> w.(sv_cancelled) = true /\ wg_zero w /\
     Forall (fun l => l.(ln_open) = false) w.(sv_lns)) /\
  (forall e, w.(sv_start) = SReturned (Some e) ->
     exists e', e = http_failed e' /\ w.(sv_http) = HFailed e') /\
  (forall e, w.(sv_http) = HFailed e -> w.(sv_cancelled) = false ->
     let returned := SReturned (Some (http_failed e)) in
     w.(sv_start) = returned \/ step w (w <| sv_start := returned |>)) /\
  (w.(sv_cancelled) = false -> forall l, l ∈ w.(sv_lns) ->
     match l.(ln_pc) with
     | LServing | LSleeping => l.(ln_open) = true
     | LReturned => False
     | _ => True
     end) /\
  map rule w.(sv_lns) = server_listeners cfg /\
  (forall p t, (p, t) ∈ w.(sv_handled) -> exists b, (p, (b, t)) ∈ server_listeners cfg).
Proof.
  intros Hw. destruct (sv_reachable_inv cfg w Hw) as [Hl Hc Hs]. rewrite Forall_forall in Hl.
  split; [|split; [|split; [|split; [|exact (sv_reachable_rules cfg w Hw)]]]].
  - intros E. rewrite E in Hs. destruct Hs as (Hx & _ & Hz). split; [done|]. split; [done|].
    apply Forall_forall. intros l Hin. specialize (Hl l Hin). unfold ln_ok in Hl.
    destruct Hz as [Hz _]. rewrite Forall_forall in Hz.
    destruct (Hz l Hin) as [Ep|Ep]; rewrite Ep in Hl; by destruct Hl.
  - intros e E. by rewrite E in Hs.
  - intros e Hf Hx. cbn. destruct (sv_start w) as [| | |[e'|]] eqn:E;
      [right; by apply step_select_err|..]; try (destruct Hs; congruence).
    left. destruct Hs as (e1 & -> & He). congruence.
  - intros Hx l Hin. specialize (Hl l Hin). unfold ln_ok in Hl. rewrite Hx in Hl.
    destruct (ln_pc l); naive_solver.
Qed.

(** [main] does not wait.  It exits with 0 only when the signal has come, with 1 only when
    [Start] has returned; and whatever the configuration, there is a run in which it has
    exited with 0 while [Start] has not even begun the shutdown that its comments call
    graceful. *)
Theorem main_does_not_wait (cfg : Config) (supply : nat) :
  (forall w code, rtc main_step (init cfg supply, MSelect) (w, MExit code) ->
     (code = 0%nat /\ w.(sv_cancelled) = true) \/
     (code = 1%nat /\ exists r, w.(sv_start) = SReturned r)) /\
  (forall w code s, ~ main_step (w, MExit code) s) /\
  exists w, rtc main_step (init cfg supply, MSelect) (w, MExit 0) /\ w.(sv_start) = SSelect.
Proof.
  split; [|split].
  - intros w code Hr. apply rtc_inv_r in Hr as [[=]|([w1 p] & _ & Hs)].
    inversion Hs; subst; [left|right]; eauto.
  - intros w code s Hs. inversion Hs.
  - exists ((init cfg supply) <| sv_cancelled := true |>). split; [|done].
    eapply rtc_l; [apply main_world, step_cancel; done|].
    eapply rtc_l; [by apply main_done|constructor].
Qed.

(** ** Witnesses *)

Definition stopping : World := (init sample_Config 2) <| sv_cancelled := true |>.

Lemma stopping_reachable : reachable sample_Config stopping.
Proof. exists 2%nat. eapply rtc_l; [by apply step_cancel|constructor]. Qed.


Lemma server_start_contract_witness :
  map rule stopping.(sv_lns) = server_listeners sample_Config.
Proof.
  exact (proj1 (proj2 (proj2 (proj2 (proj2
    (server_start_contract sample_Config stopping stopping_reachable)))))).
Defined.
