(* ===== verification/ClientLife.v ===== *)
(** * The life of the client ([Client.Start], [poolWorker], [standbyManager] of [client.go])

    [Start] starts the health check, the standby manager, the latency prober and, half a
    second apart, the pool workers; then it waits for the end of its context and for all
    of them.  Here every goroutine is where it can wait, and the question is what it takes
    to end it.  The sessions themselves are in [ClientPool] and [Standby], the choice of
    paths in [PoolWorker].

    A dial ends by its timeout.  What only ends when the peer does something is bounded by
    the supply of things the peers still do: a TLS handshake or [ClientHandshake], on
    which no deadline is set, and [AcceptStream].  smux ends the session under an
    [AcceptStream] when nothing has come from the peer for [KeepAliveTimeout] (unless the
    receive buffer is full); so that wait only lasts while the session is kept alive, by the
    keep-alives of a peer that opens no stream. *)

From stdpp Require Import list.
From S2P Require Import Prelude Steps.

Local Open Scope list_scope.

(** ** State *)

(** [poolWorker]: at the head of its loop; in the [select] on [standbyCh]; at the head of
    the loop over a standby session, and in its [AcceptStream]; in the dial, the TLS
    handshake, [ClientHandshake], and the [AcceptStream] of [connectAndServe]; after its
    return; in one of the waits; returned.  With an [AcceptStream] goes whether the session
    is kept alive from now on. *)
Inductive wpc :=
| WHead | WSelect
| WStandbyHead | WStandbyAccept (kept : bool)
| WDial | WTls | WHandshake | WServe (kept : bool)
| WAfter | WPause | WDone.

#[export] Instance wpc_eq_dec : EqDecision wpc.
Proof. solve_decision. Defined.

(** [standbyManager]: in one of its waits; at the head of its loop; in the dial and the
    handshakes of [dialSession]; offering the session; returned. *)
Inductive mpc := MWait | MHead | MDial | MTls | MHandshake | MOffer | MDone.

(** [Start]: with so many workers still to start; before [<-ctx.Done()]; in [wg.Wait];
    returned. *)
Inductive start_pc := CStart (left : nat) | CBlocked | CWait | CReturned.

(** [cl_ch]: [standbyCh] holds a session.  [cl_crashed]: the process has ended by the nil
    dereference after a failed [ClientHandshake]. *)
Record World := mkWorld {
  cl_cancelled : bool;
  cl_start : start_pc;
  cl_workers : list wpc;
  cl_mgr : mpc;
  cl_health : bool;
  cl_prober : bool;
  cl_ch : bool;
  cl_crashed : bool;
  cl_supply : nat
}.
#[export] Instance eta_World : Eta World := fun w =>
  mkWorld w.(cl_cancelled) w.(cl_start) w.(cl_workers) w.(cl_mgr) w.(cl_health)
    w.(cl_prober) w.(cl_ch) w.(cl_crashed) w.(cl_supply).

(** [Start] with [poolSize] workers to start. *)
Definition init (poolSize supply : nat) : World :=
  mkWorld false (CStart poolSize) [] MWait true true false false supply.

(** ** Steps *)

(** What a step leaves: the next place, or a crash. *)
Inductive next (A : Type) := Goto (a : A) | Crash.
Arguments Goto {A} _.
Arguments Crash {A}.

(** [connectAndServe] after the dial: [ctx.Err() != nil] closes the connection and
    returns. *)
Definition after_dial (cancelled : bool) : wpc := if cancelled then WAfter else WHandshake.

(** A step of a worker: whether [ctx] has ended, what [standbyCh] holds before and after,
    and how much of the peers' supply it takes. *)
Inductive wstep (cancelled : bool) : wpc -> bool -> nat -> next wpc -> bool -> Prop :=
| w_head ch : wstep cancelled WHead ch 0 (Goto (if cancelled then WDone else WSelect)) ch
| w_select_done ch : cancelled = true -> wstep cancelled WSelect ch 0 (Goto WDone) ch
| w_select_standby : wstep cancelled WSelect true 0 (Goto WStandbyHead) false
| w_select_dead : (* the session in the channel is closed *)
    wstep cancelled WSelect true 0 (Goto WDial) false
| w_select_default : cancelled = false -> wstep cancelled WSelect false 0 (Goto WDial) false
| w_standby_head kept ch :
    wstep cancelled WStandbyHead ch 0 (Goto (if cancelled then WDone else WStandbyAccept kept)) ch
| w_standby_stream kept ch : wstep cancelled (WStandbyAccept kept) ch 1 (Goto WStandbyHead) ch
| w_standby_died kept ch : wstep cancelled (WStandbyAccept kept) ch 1 (Goto WHead) ch
| w_standby_silent ch : (* the keep-alive timeout *)
    wstep cancelled (WStandbyAccept false) ch 0 (Goto WHead) ch
| w_dial_fail ch : wstep cancelled WDial ch 0 (Goto WAfter) ch
| w_dial_plain ch : wstep cancelled WDial ch 0 (Goto (after_dial cancelled)) ch
| w_dial_tls ch : wstep cancelled WDial ch 0 (Goto WTls) ch
| w_tls_ok ch : wstep cancelled WTls ch 1 (Goto (after_dial cancelled)) ch
| w_tls_fail ch : wstep cancelled WTls ch 1 (Goto WAfter) ch
| w_handshake_ok kept ch : wstep cancelled WHandshake ch 1 (Goto (WServe kept)) ch
| w_handshake_fail ch : wstep cancelled WHandshake ch 1 Crash ch
| w_smux_fail ch : wstep cancelled WHandshake ch 1 (Goto WAfter) ch
| w_serve_stream kept kept' ch : wstep cancelled (WServe kept) ch 1 (Goto (WServe kept')) ch
| w_serve_died kept ch : wstep cancelled (WServe kept) ch 1 (Goto WAfter) ch
| w_serve_silent ch : (* the keep-alive timeout *)
    wstep cancelled (WServe false) ch 0 (Goto WAfter) ch
| w_serve_closed kept ch : (* by the goroutine that waits for [ctx] *)
    cancelled = true -> wstep cancelled (WServe kept) ch 0 (Goto WAfter) ch
| w_after ch : wstep cancelled WAfter ch 0 (Goto (if cancelled then WDone else WPause)) ch
| w_pause_done ch : cancelled = true -> wstep cancelled WPause ch 0 (Goto WDone) ch
| w_pause_over ch : wstep cancelled WPause ch 0 (Goto WHead) ch.

(** A step of the standby manager. *)
Inductive mstep (cancelled : bool) : mpc -> bool -> nat -> next mpc -> bool -> Prop :=
| m_wait_done ch : cancelled = true -> mstep cancelled MWait ch 0 (Goto MDone) ch
| m_wait_over ch : mstep cancelled MWait ch 0 (Goto MHead) ch
| m_head ch : mstep cancelled MHead ch 0 (Goto (if cancelled then MDone else MDial)) ch
| m_dial_fail ch : mstep cancelled MDial ch 0 (Goto MWait) ch
| m_dial_plain ch : mstep cancelled MDial ch 0 (Goto MHandshake) ch
| m_dial_tls ch : mstep cancelled MDial ch 0 (Goto MTls) ch
| m_tls_ok ch : mstep cancelled MTls ch 1 (Goto MHandshake) ch
| m_tls_fail ch : mstep cancelled MTls ch 1 (Goto MWait) ch
| m_handshake_ok ch : mstep cancelled MHandshake ch 1 (Goto MOffer) ch
| m_handshake_fail ch : mstep cancelled MHandshake ch 1 Crash ch
| m_smux_fail ch : mstep cancelled MHandshake ch 1 (Goto MWait) ch
| m_send : mstep cancelled MOffer false 0 (Goto MWait) true
| m_offer_done ch : cancelled = true -> mstep cancelled MOffer ch 0 (Goto MDone) ch.

Definition wg_zero (w : World) : Prop :=
  Forall (eq WDone) w.(cl_workers) /\ w.(cl_mgr) = MDone /\
  w.(cl_health) = false /\ w.(cl_prober) = false.

Inductive run : World -> World -> Prop :=
| run_worker w i pc cost pc' ch' :
    w.(cl_workers) !! i = Some pc -> wstep w.(cl_cancelled) pc w.(cl_ch) cost (Goto pc') ch' ->
    (cost <= w.(cl_supply))%nat ->
    run w (w <| cl_workers ::= <[i := pc']> |> <| cl_ch := ch' |>
             <| cl_supply ::= fun n => (n - cost)%nat |>)
| run_worker_crash w i pc cost ch' :
    w.(cl_workers) !! i = Some pc -> wstep w.(cl_cancelled) pc w.(cl_ch) cost Crash ch' ->
    (cost <= w.(cl_supply))%nat -> run w (w <| cl_crashed := true |>)
| run_manager w cost pc' ch' :
    mstep w.(cl_cancelled) w.(cl_mgr) w.(cl_ch) cost (Goto pc') ch' ->
    (cost <= w.(cl_supply))%nat ->
    run w (w <| cl_mgr := pc' |> <| cl_ch := ch' |> <| cl_supply ::= fun n => (n - cost)%nat |>)
| run_manager_crash w cost ch' :
    mstep w.(cl_cancelled) w.(cl_mgr) w.(cl_ch) cost Crash ch' ->
    (cost <= w.(cl_supply))%nat -> run w (w <| cl_crashed := true |>)
| run_health_stop w : w.(cl_health) = true -> w.(cl_cancelled) = true ->
    run w (w <| cl_health := false |>)
| run_prober_stop w : w.(cl_prober) = true -> w.(cl_cancelled) = true ->
    run w (w <| cl_prober := false |>)
| run_start_worker w n : w.(cl_start) = CStart (S n) ->
    run w (w <| cl_start := CStart n |> <| cl_workers ::= fun ws => ws ++ [WHead] |>)
| run_started w : w.(cl_start) = CStart 0 -> run w (w <| cl_start := CBlocked |>)
| run_done w : w.(cl_start) = CBlocked -> w.(cl_cancelled) = true ->
    run w (w <| cl_start := CWait |>)
| run_return w : w.(cl_start) = CWait -> wg_zero w -> run w (w <| cl_start := CReturned |>)
| run_cancel w : w.(cl_cancelled) = false -> run w (w <| cl_cancelled := true |>).

(** A crash is the end of everything. *)
Definition step (w w' : World) : Prop := w.(cl_crashed) = false /\ run w w'.

Definition reachable (poolSize : nat) (w : World) : Prop :=
  exists supply, rtc step (init poolSize supply) w.

(** The places that only the peer can end: a handshake, and an [AcceptStream] on a warm
    standby session that is kept alive. *)
Definition waits_for_peer (pc : wpc) : Prop :=
  pc = WStandbyAccept true \/ pc = WTls \/ pc = WHandshake.
Definition mgr_waits_for_peer (pc : mpc) : Prop := pc = MTls \/ pc = MHandshake.

(** ** Termination *)

Definition wrank (pc : wpc) : nat :=
  match pc with
  | WDone => 0
  | WAfter | WStandbyHead => 1
  | WHead | WServe _ => 2
  | WPause | WStandbyAccept _ | WTls | WHandshake => 3
  | WDial => 4
  | WSelect => 5
  end.
Definition mrank (pc : mpc) : nat :=
  match pc with
  | MDone => 0 | MHead => 1 | MWait => 2 | MOffer => 3 | MHandshake => 4 | MTls => 5 | MDial => 6
  end.
Definition srank (s : start_pc) : nat :=
  match s with CStart n => 3 + 3 * n | CBlocked => 2 | CWait => 1 | CReturned => 0 end.
Definition rank (w : World) : nat :=
  w.(cl_supply) + sum_list_with wrank w.(cl_workers) + mrank w.(cl_mgr) + srank w.(cl_start) +
  (if w.(cl_health) then 1 else 0) + (if w.(cl_prober) then 1 else 0) +
  (if w.(cl_crashed) then 0 else 1).

Lemma wstep_rank (pc pc' : wpc) (ch ch' : bool) (cost : nat) :
  wstep true pc ch cost (Goto pc') ch' -> (wrank pc' < wrank pc + cost)%nat.
Proof. inversion 1; subst; cbn; lia. Qed.

Lemma mstep_rank (pc pc' : mpc) (ch ch' : bool) (cost : nat) :
  mstep true pc ch cost (Goto pc') ch' -> (mrank pc' < mrank pc + cost)%nat.
Proof. inversion 1; subst; cbn; lia. Qed.

Lemma cl_step_rank (w w' : World) :
  w.(cl_cancelled) = true -> step w w' -> w'.(cl_cancelled) = true /\ (rank w' < rank w)%nat.
Proof.
  unfold rank. intros Hx [Hc Hr].
  destruct Hr as [w i pc cost pc' ch' Hi Hw Hcost|w i pc cost ch' Hi Hw Hcost|w cost pc' ch' Hm Hcost
    |w cost ch' Hm Hcost|w Hh _|w Hp _|w n Hs|w Hs|w Hs _|w Hs Hz|w Hx'];
    (split; [done || congruence|]); cbn -[sum_list_with mrank srank]; rewrite ?Hc.
  - rewrite Hx in Hw. apply wstep_rank in Hw. pose proof (sum_list_insert wrank _ i pc pc' Hi). lia.
  - lia.
  - rewrite Hx in Hm. apply mstep_rank in Hm. lia.
  - lia.
  - rewrite Hh. lia.
  - rewrite Hp. lia.
  - rewrite Hs, sum_list_with_app. cbn. lia.
  - rewrite Hs. cbn. lia.
  - rewrite Hs. cbn. lia.
  - rewrite Hs. cbn. lia.
  - congruence.
Qed.

(** ** The invariant *)

Definition inv (w : World) : Prop :=
  match w.(cl_start) with
  | CStart _ | CBlocked => True
  | CWait => w.(cl_cancelled) = true
  | CReturned => w.(cl_cancelled) = true /\ wg_zero w
  end.

Lemma wstep_not_done (c : bool) (ch ch' : bool) (cost : nat) (n : next wpc) :
  ~ wstep c WDone ch cost n ch'.
Proof. inversion 1. Qed.

Lemma mstep_not_done (c : bool) (ch ch' : bool) (cost : nat) (n : next mpc) :
  ~ mstep c MDone ch cost n ch'.
Proof. inversion 1. Qed.

Lemma cl_step_inv (w w' : World) : inv w -> step w w' -> inv w'.
Proof.
  unfold inv. intros Hw [Hc Hr].
  destruct Hr as [w i pc cost pc' ch' Hi Hs Hcost|w i pc cost ch' Hi Hs Hcost|w cost pc' ch' Hm Hcost
    |w cost ch' Hm Hcost|w Hh _|w Hp _|w n Hs|w Hs|w Hs Hx|w Hs Hz|w Hx']; cbn; try done.
  - destruct (cl_start w); try done. destruct Hw as [? (Hz & _)].
    rewrite Forall_forall in Hz. assert (pc = WDone) as -> by (symmetry; apply Hz; by eapply list_elem_of_lookup_2).
    by apply wstep_not_done in Hs.
  - destruct (cl_start w); try done. destruct Hw as [? (? & Hm' & _)]. rewrite Hm' in Hm.
    by apply mstep_not_done in Hm.
  - destruct (cl_start w); try done. destruct Hw as [? (? & ? & Hh' & _)]. congruence.
  - destruct (cl_start w); try done. destruct Hw as [? (? & ? & _ & Hp')]. congruence.
  - rewrite Hs in Hw. by split.
  - destruct (cl_start w); try done; naive_solver.
Qed.

Lemma cl_reachable_inv (n : nat) (w : World) : reachable n w -> inv w.
Proof.
  intros [k Hr]. by eapply (rtc_preserved step inv); [apply cl_step_inv|exact Hr|].
Qed.

(** ** Progress *)

Lemma worker_progress (pc : wpc) (ch : bool) :
  pc = WDone \/ waits_for_peer pc \/ exists pc' ch', wstep true pc ch 0 (Goto pc') ch'.
Proof.
  unfold waits_for_peer.
  destruct pc as [| | |[]| | | |k| | |]; try (by auto); right; right;
    first [by eexists _, _; apply (w_standby_head _ true)|by eexists _, _; econstructor].
Qed.

Lemma peer_progress (c : bool) (pc : wpc) (ch : bool) :
  waits_for_peer pc -> exists pc' ch', wstep c pc ch 1 (Goto pc') ch'.
Proof.
  intros [-> | [-> | ->]]; eexists _, _; [apply w_standby_died|apply w_tls_fail|apply w_smux_fail].
Qed.

Lemma manager_progress (pc : mpc) (ch : bool) :
  pc = MDone \/ mgr_waits_for_peer pc \/ exists pc' ch', mstep true pc ch 0 (Goto pc') ch'.
Proof.
  unfold mgr_waits_for_peer.
  destruct pc; try (by auto); right; right; eexists _, _; by econstructor.
Qed.

Lemma mgr_peer_progress (c : bool) (pc : mpc) (ch : bool) :
  mgr_waits_for_peer pc -> exists pc' ch', mstep c pc ch 1 (Goto pc') ch'.
Proof. intros [-> | ->]; eexists _, _; by econstructor. Qed.

(** Where nothing can happen: everything has ended, but for goroutines that wait for a
    peer that does nothing more. *)
Lemma cl_stuck (w : World) :
  inv w -> w.(cl_cancelled) = true -> w.(cl_crashed) = false -> nf step w ->
  Forall (fun pc => pc = WDone \/ waits_for_peer pc /\ w.(cl_supply) = 0%nat) w.(cl_workers) /\
  (w.(cl_mgr) = MDone \/ mgr_waits_for_peer w.(cl_mgr) /\ w.(cl_supply) = 0%nat) /\
  w.(cl_health) = false /\ w.(cl_prober) = false /\
  (w.(cl_start) = CReturned \/ w.(cl_start) = CWait /\ ~ wg_zero w).
Proof.
  intros Hw Hx Hc Hnf.
  assert (Hno : forall w', ~ run w w') by (intros w' Hs; apply Hnf; by exists w').
  split; [|split; [|split; [|split]]].
  - apply Forall_forall. intros pc Hl. apply list_elem_of_lookup in Hl as [i Hi].
    destruct (worker_progress pc (cl_ch w)) as [?|[Hp|(pc' & ch' & Hs)]]; [by left| |].
    + right. split; [done|]. destruct (cl_supply w) eqn:Es; [done|]. exfalso.
      destruct (peer_progress (cl_cancelled w) pc (cl_ch w) Hp) as (pc' & ch' & Hs).
      eapply Hno, (run_worker w i pc 1); [done|exact Hs|lia].
    + exfalso. eapply Hno, (run_worker w i pc 0); [done|rewrite Hx; exact Hs|lia].
  - destruct (manager_progress (cl_mgr w) (cl_ch w)) as [?|[Hp|(pc' & ch' & Hs)]]; [by left| |].
    + right. split; [done|]. destruct (cl_supply w) eqn:Es; [done|]. exfalso.
      destruct (mgr_peer_progress (cl_cancelled w) (cl_mgr w) (cl_ch w) Hp) as (pc' & ch' & Hs).
      eapply Hno, (run_manager w 1); [exact Hs|lia].
    + exfalso. eapply Hno, (run_manager w 0); [rewrite Hx; exact Hs|lia].
  - destruct (cl_health w) eqn:E; [|done]. exfalso. by eapply Hno, run_health_stop.
  - destruct (cl_prober w) eqn:E; [|done]. exfalso. by eapply Hno, run_prober_stop.
  - destruct (cl_start w) as [[|n]| | |] eqn:E; [..|by left].
    + exfalso. by eapply Hno, run_started.
    + exfalso. by eapply Hno, (run_start_worker w n).
    + exfalso. by eapply Hno, run_done.
    + right. split; [done|]. intros Hz. eapply Hno. by apply run_return.
Qed.

Lemma wrank_sum_bound (ws : list wpc) : (sum_list_with wrank ws <= 5 * length ws)%nat.
Proof. induction ws as [|pc ws IH]; simpl; [lia|]. destruct pc; simpl; lia. Qed.

(** [Start] starts as many workers as the pool has. *)
Definition pool_inv (n : nat) (w : World) : Prop :=
  (length w.(cl_workers) + match w.(cl_start) with CStart k => k | _ => 0 end = n)%nat.

Lemma cl_step_pool (n : nat) (w w' : World) : pool_inv n w -> step w w' -> pool_inv n w'.
Proof.
  unfold pool_inv. intros Hw [_ Hr]. destruct Hr; cbn; try done;
    rewrite ?length_insert, ?length_app; try done;
    match goal with E : cl_start _ = _ |- _ => rewrite E in Hw end; cbn in *; lia.
Qed.

Lemma cl_reachable_pool (n : nat) (w : World) : reachable n w -> pool_inv n w.
Proof.
  intros [k Hr]. by eapply (rtc_preserved step (pool_inv n)); [apply cl_step_pool|exact Hr|].
Qed.

(** ** Properties *)

(** C5: What it takes to stop the client.  Once the context has ended, every run is bounded,
    and there are three ways it can end.  The process has crashed, on a [ClientHandshake]
    that failed; or [Start] has returned and every goroutine it counts has ended; or it is
    in [wg.Wait] because some goroutine waits for its peer: in a TLS handshake or
    [ClientHandshake] that the peer does not answer, or in [AcceptStream] on a warm standby
    session that the peer keeps alive without opening a stream.  No other place can hold
    it up; a standby session whose peer is silent ends with the keep-alive timeout. *)
Theorem client_stops (poolSize : nat) (w : World) :
  reachable poolSize w -> w.(cl_cancelled) = true ->
  (forall n w', nsteps step n w w' -> (n <= w.(cl_supply) + 8 * poolSize + 14)%nat) /\
  forall w', rtc step w w' -> nf step w' ->
    w'.(cl_crashed) = true \/
    (w'.(cl_start) = CReturned /\ wg_zero w') \/
    (w'.(cl_start) = CWait /\ w'.(cl_supply) = 0%nat /\
     (mgr_waits_for_peer w'.(cl_mgr) \/ exists pc, pc ∈ w'.(cl_workers) /\ waits_for_peer pc)).
Proof.
  intros Hw Hx. split.
  - intros n w' Hn. etrans.
    + apply (run_bounded step (fun w => cl_cancelled w = true) rank cl_step_rank n w w'); done.
    + pose proof (cl_reachable_pool _ _ Hw) as Hp. unfold pool_inv in Hp.
      pose proof (wrank_sum_bound (cl_workers w)). unfold rank.
      destruct (cl_mgr w), (cl_start w), (cl_health w), (cl_prober w), (cl_crashed w); cbn; lia.
  - intros w' Hr Hnf. destruct (cl_crashed w') eqn:Ec; [by left|right].
    assert (Hw' : reachable poolSize w') by (destruct Hw as [k Hk]; exists k; by etrans).
    assert (Hx' : cl_cancelled w' = true).
    { eapply (rtc_preserved step (fun w => cl_cancelled w = true)); [|exact Hr|done].
      intros x y Hc Hs. by apply (cl_step_rank x y). }
    pose proof (cl_reachable_inv _ _ Hw') as Hinv.
    destruct (cl_stuck w' Hinv Hx' Ec Hnf) as (Hws & Hm & Hh & Hp & [Hs|[Hs Hz]]).
    + left. split; [done|]. unfold inv in Hinv. rewrite Hs in Hinv. apply Hinv.
    + right. split; [done|].
      destruct Hm as [Hm|[Hm Hk]]; [|by auto].
      destruct (decide (Forall (eq WDone) (cl_workers w'))) as [Hall|Hsome]; [by destruct Hz|].
      apply not_Forall_Exists in Hsome; [|apply _].
      apply Exists_exists in Hsome as (pc & Hin & Hpc).
      rewrite Forall_forall in Hws. destruct (Hws pc Hin) as [->|[Hwait Hk]]; [done|].
      split; [done|]. right. by exists pc.
Qed.

(** A warm standby session keeps the client alive.  Unlike [connectAndServe], the
    standby branch of [poolWorker] has nobody close its session when the context ends: with
    one worker and a peer that has answered one handshake and sends nothing but
    keep-alives ever after, there is a run to a state where the context has ended, nothing
    but keep-alives can happen any more, and [Start] waits for the worker in
    [AcceptStream]. *)
Theorem standby_outlives_context :
  exists w, reachable 1 w /\ w.(cl_cancelled) = true /\ nf step w /\
    w.(cl_start) = CWait /\ w.(cl_workers) = [WStandbyAccept true].
Proof.
  exists (mkWorld true CWait [WStandbyAccept true] MDone false false false false 0).
  split; [|split; [done|split; [|done]]].
  - exists 1%nat. unfold init.
    eapply rtc_l; [split; [done|by apply (run_start_worker _ 0)]|]. cbn.
    eapply rtc_l; [split; [done|by apply run_started]|]. cbn.
    eapply rtc_l; [split; [done|by eapply (run_manager _ 0 MHead); [apply m_wait_over|cbn; lia]]|]. cbn.
    eapply rtc_l; [split; [done|by eapply (run_manager _ 0); [apply m_head|cbn; lia]]|]. cbn.
    eapply rtc_l; [split; [done|by eapply (run_manager _ 0); [apply m_dial_plain|cbn; lia]]|]. cbn.
    eapply rtc_l; [split; [done|by eapply (run_manager _ 1); [apply m_handshake_ok|cbn; lia]]|]. cbn.
    eapply rtc_l; [split; [done|by eapply (run_manager _ 0); [apply m_send|cbn; lia]]|]. cbn.
    eapply rtc_l; [split; [done|by eapply (run_worker _ 0 _ 0); [done|apply w_head|cbn; lia]]|]. cbn.
    eapply rtc_l; [split; [done|by eapply (run_worker _ 0 _ 0); [done|apply w_select_standby|cbn; lia]]|]. cbn.
    eapply rtc_l; [split; [done|by eapply (run_worker _ 0 _ 0); [done|apply (w_standby_head _ true)|cbn; lia]]|]. cbn.
    eapply rtc_l; [split; [done|by apply run_cancel]|]. cbn.
    eapply rtc_l; [split; [done|by eapply (run_manager _ 0); [by apply m_wait_done|cbn; lia]]|]. cbn.
    eapply rtc_l; [split; [done|by apply run_health_stop]|]. cbn.
    eapply rtc_l; [split; [done|by apply run_prober_stop]|]. cbn.
    eapply rtc_l; [split; [done|by apply run_done]|]. constructor.
  - intros [w' [_ Hr]]. inversion Hr as [w i pc cost pc' ch' Hi Hs Hcost|w i pc cost ch' Hi Hs Hcost
      |w cost pc' ch' Hm Hcost|w cost ch' Hm Hcost|w Hh _|w Hp _|w n Hs|w Hs|w Hs _|w Hs Hz|w Hx']; subst;
      cbn in *; try done.
    + apply list_lookup_singleton_Some in Hi as [_ <-]. inversion Hs; subst; lia.
    + apply list_lookup_singleton_Some in Hi as [_ <-]. inversion Hs.
    + by apply mstep_not_done in Hm.
    + by apply mstep_not_done in Hm.
    + destruct Hz as [Hz _]. by apply Forall_cons_1 in Hz as [? _].
Qed.

(** ** Witnesses *)

Definition client_stopping : World := (init 2 3) <| cl_cancelled := true |>.
Lemma client_stops_witness :
  reachable 2 client_stopping /\
  forall n w', nsteps step n client_stopping w' -> (n <= 33)%nat.
Proof.
  assert (Hr : reachable 2 client_stopping)
    by (exists 3%nat; eapply rtc_l; [split; [done|by apply run_cancel]|constructor]).
  split; [exact Hr|]. intros n w' Hn. exact (proj1 (client_stops 2 _ Hr eq_refl) n w' Hn).
Defined.
